(* ===== verification/_CoqProject ===== *)
-Q . S2P
Prelude.v
RateLimiter.v
NetModel.v
ShortestPath.v
Fabric.v
Terminators.v
NetPath.v
Circuits.v
RouteSender.v
Forwarder.v
LinkRegistry.v
EventCache.v
DataModel.v
DataModelSpec.v
SenderCopy.v
RouterDataModel.v
RouterCopy.v
RdmSync.v
Posture.v
Publication.v
Subscriptions.v
SubscriberViews.v
Policies.v
PolicyLinks.v
PolicyStore.v
PolicyIntegrity.v
HostedServices.v
HostedServicesOk.v
TunnelDns.v
HostConfig.v
