(* ===== verification/Prelude.v ===== *)
(** * Verification of the zt overlay network (controller, fabric and routers)

    The program is a zero-trust overlay network. A controller keeps the desired
    state (identities, services, policies, routers) and the fabric (which routers
    are connected and which links join them); routers dial links to each other,
    carry circuits over them, and decide on the access of clients from a copy of
    the policy data. This development models the part of the Go code under src/
    that carries that logic and proves what makes it correct.

    ** The parts, their files and how they interact

    - Command queue. [RateLimiter] models controller/command/rate_limiter.go: the
      plain limiter, the adaptive limiter and the adaptive tracker, as step
      relations over atomic operations and critical sections.
    - Fabric. [NetModel] has the router and link objects with their tables
      (controller/model/{router,link}_{model,manager}.go); [Fabric] the handlers
      of controller/network/{network,assembly}.go and
      controller/handler_ctrl/{fault,link_state}.go that change them, as one step
      relation.
    - Paths. [ShortestPath] models the Dijkstra search of
      controller/network/network_path.go over the fabric, [NetPath] paths and the
      route messages made from them (controller/model/path.go).
    - Circuits. [Terminators] has terminator costs and the four selection
      strategies (controller/xt, xt_common, xt_random, xt_smartrouting, xt_sticky,
      xt_weighted) behind the class [Strategy]; [RouteSender] the creation of a
      circuit (controller/network/{network,routesender,circuit_lifecycle}.go);
      [Circuits] the circuit table, rerouting and removal
      (controller/model/circuit_manager.go, controller/network/{smart,fault}.go).
    - Router. [Forwarder] models router/forwarder: it installs the route messages
      of [NetPath] and forwards payloads along them. [LinkRegistry] models
      router/link: the state machine that dials, keeps and reports links.
    - Policies on the controller. [Policies] models the role evaluation and the
      policy stores of controller/db; [PolicyLinks] and [PolicyStore] prove that
      links, access counts and reported changes are exact; [PolicyIntegrity]
      models the integrity check that repairs the counts.
    - The policy data on its way to the routers. [EventCache] models the log of
      change sets and the per-router sender (common/event_cache.go,
      controller/sync_strats/rtx.go). [DataModel] has the messages and the
      controller's copy (common/router_data_model_sender.go), [RouterDataModel]
      the router's copy (common/router_data_model.go). [DataModelSpec] gives the
      abstract model and the interface [DataModelCopy]; [SenderCopy] and
      [RouterCopy] show that both copies implement it, and [RdmSync] composes them
      with the event log. [Publication] models how the changes of the stores become
      change sets (controller/sync_strats/sync_instant.go) and composes that with
      the log, both copies and the router that follows.
    - Clients. [Subscriptions] models what a router tells a connected client about
      its identity, services and posture checks (common/subscriber.go), and
      [SubscriberViews] proves what the client then knows. [HostedServices] models
      the terminators of clients that host services (router/xgress_edge/hosted.go
      with parts of fabric.go and listener.go), [HostedServicesOk] proves its
      invariant and results. [Posture] models router/posture: taking in posture data,
      evaluating posture checks, and the access decision, which reads the router's
      copy.
    - Tunnelers. [TunnelDns] models the names and addresses of intercepted services
      (tunnel/dns, tunnel/intercept/{iputils,interceptor,svcpoll}.go), [HostConfig]
      where a hosting tunneler connects to (tunnel/entities/service.go,
      tunnel/intercept/hosting.go).

    ** What the theorems show

    - Path selection returns a walk of usable links of least total cost if there is
      one, terminates, and agrees with the rebuilt path and with the route messages;
      these, installed in the forwarders of the path, carry payloads end to end.
    - The link indexes that path selection reads are exactly the link table in
      every reachable state of the fabric; after a link or a router is gone no
      circuit uses it, circuits being rerouted or torn down.
    - A circuit creation selects a terminator of the best precedence at least cost,
      treats an attempt as successful only if every router confirmed it, and
      unroutes abandoned attempts.
    - The link registry keeps its indexes and states consistent over every
      interleaving, no link state stays in dialing, and the retry queue drains.
    - Policies link exactly the entities their roles select, access counts are the
      number of policies that grant the access, and what a transaction reports is
      what it changed; the integrity check repairs any counts.
    - A router that starts from a full state and replays the log represents what
      the controller represents; its service lists, kept with counters, are those
      computed from the policies; the event log never replays anything but the
      change sets after the index asked for. Committed transactions reach the copy
      of the controller, and the routers that follow it, complete and in order.
    - Access is granted only through a policy of the identity whose posture checks
      pass, and denied only if each such policy has a failing one.
    - A client's view built from notifications alone is the router's snapshot, and
      current after each check. A terminator in use is never deleted, no deletion is
      lost, deletions come to an end, a listener id has one terminator in use.
    - A tunneler never gives two host names one address and loses no address; a
      hosting one connects exactly where its configuration allows, and translates
      addresses network for network.
    - The limiters never exceed their window or queue and lose no work.
    - Some theorems state flaws of the code as it is; each is a finding of its own
      (for example [PolicyStore.type_change_drops_posture_checks]).

    ** How the code is rendered

    - Go's [(T, error)] is [result]; a nil dereference is [None] of an option;
      integers are [Z] at their width ([wrap_u], [wrap_s]) where overflow can
      matter and plain [Z] or [nat] where it is argued that it cannot.
    - Objects shared by pointer live in a heap (a finite map from references)
      where two holders may see each other's changes; concurrent maps are [gmap]s.
    - A handler that holds a lock or runs on the component's one goroutine is one
      transition; finer interleavings are step relations ([RateLimiter],
      [LinkRegistry], [Fabric], [HostedServices]). Messages, events and log entries that a handler
      sends are returned as effects.
    - Clock readings, random numbers, generated ids, replies of other processes and
      map iteration orders are arguments; theorems quantify over them. Packages
      that are not part of the repository (boltz, semver, token parsing) are
      parameters with the laws the code relies on, and each law is instantiated.
    - Loops with fuel: the Dijkstra loop is bounded by the number of routers and
      the walk back by the number of connected ones, and running out is proved
      impossible; the forwarding of control messages is bounded by the hops; the
      sift-down of the retry heap by its length. All other loops are structural.

    ** Not modelled

    Generated code (rest_server, rest_client, rest_model, protobuf marshalling), the
    command line tools and test networks (zt, zttest, quickstart), REST routes, OIDC and
    other authentication, enrolment and certificates, the raft cluster and its
    transport, event logs and metrics, the bolt storage with its migrations and the
    CRUD managers on top of it, packet interception, and the xgress and link
    transports: they are I/O, glue over libraries, or plain CRUD. The details
    per part are in the header of each file. *)

From stdpp Require Import base gmap list strings fin_maps sorting relations.
From Stdlib Require Import ZArith Lia.

(** ** Notation scope of the development *)

Declare Scope go_scope.
Delimit Scope go_scope with go.

(** ** Errors: the [(value, error)] results of the Go code *)

(** A Go function that returns [(T, error)] is modelled by [result T E]:
    [Ok v] when the error is nil, [Err e] otherwise. *)
Inductive result (A E : Type) : Type :=
| Ok (a : A)
| Err (e : E).
Arguments Ok {A E} _.
Arguments Err {A E} _.

#[global] Instance result_eq_dec {A E} `{EqDecision A, EqDecision E} :
  EqDecision (result A E).
Proof. solve_decision. Defined.

Definition result_bind {A B E} (r : result A E) (k : A → result B E) : result B E :=
  match r with
  | Ok a => k a
  | Err e => Err e
  end.

Notation "'let!' x ':=' c1 'in' c2" :=
  (result_bind c1 (fun x => c2))
    (at level 61, x pattern, c1 at level 60, c2 at level 200, right associativity)
  : go_scope.

(** ** Machine integers *)

(** A [w]-bit integer is a [Z]; the two functions below are the Go conversions
    [uintw(x)] and [intw(x)], which truncate and never fail. *)
Definition wrap_u (w : Z) (z : Z) : Z := z mod 2 ^ w.
Definition wrap_s (w : Z) (z : Z) : Z :=
  (z + 2 ^ (w - 1)) mod 2 ^ w - 2 ^ (w - 1).

Abbreviation uint16 := (wrap_u 16).
Abbreviation uint32 := (wrap_u 32).
Abbreviation int32 := (wrap_s 32).
Abbreviation int64 := (wrap_s 64).

Definition MaxInt32 : Z := 2147483647.
Definition MaxInt64 : Z := 9223372036854775807.
Definition MaxUint32 : Z := 4294967295.

Definition in_int32 (z : Z) : Prop := (- 2 ^ 31 ≤ z < 2 ^ 31)%Z.
Definition in_int64 (z : Z) : Prop := (- 2 ^ 63 ≤ z < 2 ^ 63)%Z.
Definition in_uint32 (z : Z) : Prop := (0 ≤ z < 2 ^ 32)%Z.

Lemma wrap_u_range w z : (0 ≤ w)%Z → (0 ≤ wrap_u w z < 2 ^ w)%Z.
Proof. intros. apply Z.mod_pos_bound. lia. Qed.

Lemma wrap_u_small w z : (0 ≤ z < 2 ^ w)%Z → wrap_u w z = z.
Proof. intros. by apply Z.mod_small. Qed.

Lemma int32_small z : in_int32 z → int32 z = z.
Proof.
  unfold in_int32, wrap_s. intros Hz. change (2 ^ (32 - 1))%Z with 2147483648%Z.
  change (2 ^ 32)%Z with 4294967296%Z. change (2 ^ 31)%Z with 2147483648%Z in Hz.
  rewrite Z.mod_small by lia. lia.
Qed.

Lemma int64_small z : in_int64 z → int64 z = z.
Proof.
  unfold in_int64, wrap_s. intros Hz.
  change (2 ^ (64 - 1))%Z with 9223372036854775808%Z.
  change (2 ^ 64)%Z with 18446744073709551616%Z.
  change (2 ^ 63)%Z with 9223372036854775808%Z in Hz.
  rewrite Z.mod_small by lia. lia.
Qed.

Lemma int32_range z : in_int32 (int32 z).
Proof.
  unfold in_int32, wrap_s. change (2 ^ (32 - 1))%Z with 2147483648%Z.
  change (2 ^ 31)%Z with 2147483648%Z.
  pose proof (Z.mod_pos_bound (z + 2147483648) (2 ^ 32) ltac:(lia)) as Hb.
  change (2 ^ 32)%Z with 4294967296%Z in *. lia.
Qed.

(** ** Tactics *)

(** [go_cases] splits every [match], [if] and [decide] of the goal and the
    hypotheses, the control flow of a translated Go function. *)
Ltac go_case :=
  match goal with
  | |- context [match ?x with _ => _ end] => destruct x eqn:?
  | H : context [match ?x with _ => _ end] |- _ => destruct x eqn:?
  end.
Ltac go_cases := repeat (go_case; simplify_eq/=).

(** Booleans of the code to propositions. *)
Ltac bool_prop :=
  repeat match goal with
  | H : (_ && _) = true |- _ => apply andb_true_iff in H as [? ?]
  | H : (_ && _) = false |- _ => apply andb_false_iff in H
  | H : (_ || _) = true |- _ => apply orb_true_iff in H
  | H : (_ || _) = false |- _ => apply orb_false_iff in H as [? ?]
  | H : negb _ = true |- _ => apply negb_true_iff in H
  | H : negb _ = false |- _ => apply negb_false_iff in H
  | H : bool_decide _ = true |- _ => apply bool_decide_eq_true in H
  | H : bool_decide _ = false |- _ => apply bool_decide_eq_false in H
  | H : (_ <? _)%Z = true |- _ => apply Z.ltb_lt in H
  | H : (_ <? _)%Z = false |- _ => apply Z.ltb_ge in H
  | H : (_ <=? _)%Z = true |- _ => apply Z.leb_le in H
  | H : (_ <=? _)%Z = false |- _ => apply Z.leb_gt in H
  | H : (_ >=? _)%Z = true |- _ => rewrite Z.geb_leb in H
  | H : (_ >=? _)%Z = false |- _ => rewrite Z.geb_leb in H
  | H : (_ >? _)%Z = true |- _ => rewrite Z.gtb_ltb in H
  | H : (_ >? _)%Z = false |- _ => rewrite Z.gtb_ltb in H
  | H : (_ =? _)%Z = true |- _ => apply Z.eqb_eq in H
  | H : (_ =? _)%Z = false |- _ => apply Z.eqb_neq in H
  end.

(** ** Hints *)

Create HintDb zt.
Create Rewrite HintDb zt.
#[export] Hint Resolve int32_range : zt.
#[export] Hint Rewrite int32_small int64_small using (unfold in_int32, in_int64; lia) : zt.

(** ** Reachability of step systems *)

(** The invariants of the step relations below are proved by this induction:
    what holds initially and is kept by each step holds in every reachable
    state. *)
Lemma rtc_invariant {S} (R : relation S) (I : S → Prop) s s' :
  (∀ x y, I x → R x y → I y) → I s → rtc R s s' → I s'.
Proof. intros Hstep Hs Hr. induction Hr; eauto. Qed.

(** ** Wrap-around absorbs inner wrap-around *)

Lemma int32_add_l a b : int32 (int32 a + b) = int32 (a + b).
Proof.
  unfold wrap_s. f_equal.
  replace ((a + 2 ^ (32 - 1)) mod 2 ^ 32 - 2 ^ (32 - 1) + b + 2 ^ (32 - 1))%Z
    with ((a + 2 ^ (32 - 1)) mod 2 ^ 32 + b)%Z by lia.
  rewrite Z.add_mod_idemp_l by lia. f_equal. lia.
Qed.

(** ** Counting the entries of a map *)

Section count_if.
Context `{Countable K} {V : Type} (f : V → bool).
Implicit Types m : gmap K V.

Definition count_if (m : gmap K V) : nat :=
  size (filter (λ kv, f kv.2 = true) m).

Lemma count_if_empty : count_if ∅ = 0%nat.
Proof. unfold count_if. by rewrite map_filter_empty, map_size_empty. Qed.

Lemma count_if_insert_new m k x :
  m !! k = None → count_if (<[k:=x]> m) = (Nat.b2n (f x) + count_if m)%nat.
Proof.
  intros Hk. unfold count_if. destruct (f x) eqn:Hf.
  - rewrite map_filter_insert_True by done.
    rewrite map_size_insert_None; [done|].
    apply map_lookup_filter_None. by left.
  - rewrite map_filter_insert_False by (simpl; congruence).
    by rewrite delete_id.
Qed.

Lemma count_if_insert m k x y :
  m !! k = Some y →
  (count_if (<[k:=x]> m) + Nat.b2n (f y) = count_if m + Nat.b2n (f x))%nat.
Proof.
  intros Hk. rewrite <- (insert_delete_id m k y) at 2 by done.
  rewrite <- insert_delete_eq.
  rewrite !count_if_insert_new by apply lookup_delete_eq. lia.
Qed.

Lemma count_if_pos m k y : m !! k = Some y → f y = true → (0 < count_if m)%nat.
Proof.
  intros Hk Hf. pose proof (count_if_insert m k y y Hk) as Hi.
  unfold count_if. rewrite <- (insert_delete_id m k y) by done.
  rewrite map_filter_insert_True by done.
  rewrite map_size_insert_None; [lia|].
  apply map_lookup_filter_None. left. apply lookup_delete_eq.
Qed.

(** A duplicate-free list of keys whose entries all count is no longer than
    the count. *)
Lemma count_if_NoDup m (l : list K) :
  NoDup l → (∀ k, k ∈ l → ∃ y, m !! k = Some y ∧ f y = true) →
  (length l ≤ count_if m)%nat.
Proof.
  revert m. induction l as [|k l IH]; intros m Hnd Hall; [simpl; lia|].
  apply NoDup_cons in Hnd as [Hk Hnd].
  destruct (Hall k ltac:(left)) as (y & Hy & Hf).
  assert (length l ≤ count_if (delete k m))%nat as Hle.
  { apply IH; [done|]. intros k' Hk'.
    destruct (Hall k' ltac:(by right)) as (y' & Hy' & Hf').
    exists y'. rewrite lookup_delete_ne by set_solver. done. }
  rewrite <- (insert_delete_id m k y Hy).
  rewrite count_if_insert_new by apply lookup_delete_eq. rewrite Hf. simpl. lia.
Qed.
End count_if.

(** ** Sums of costs *)

Lemma foldr_add_snoc (xs : list Z) x :
  foldr Z.add 0%Z (xs ++ [x]) = (foldr Z.add 0 xs + x)%Z.
Proof. induction xs as [|y xs IH]; simpl; lia. Qed.

Lemma sum_nonneg {A} (f : A → Z) xs : (∀ x, 0 ≤ f x)%Z → (0 ≤ foldr Z.add 0 (f <$> xs))%Z.
Proof. intros Hf. induction xs as [|x xs IH]; csimpl; [lia|]. pose proof (Hf x). lia. Qed.

(** Adding up non-negative terms whose total fits does not wrap. *)
Lemma fold_int64 {A} (f : A → Z) xs a :
  (∀ x, 0 ≤ f x)%Z → (0 ≤ a)%Z → (a + foldr Z.add 0 (f <$> xs) < 2 ^ 63)%Z →
  foldl (λ c x, int64 (c + f x)) a xs = (a + foldr Z.add 0 (f <$> xs))%Z.
Proof.
  intros Hf. revert a. induction xs as [|x xs IH]; intros a Ha Hlt; csimpl in *; [lia|].
  pose proof (sum_nonneg f xs Hf). pose proof (Hf x).
  rewrite int64_small by (unfold in_int64; lia). rewrite IH by lia. lia.
Qed.

(** ** Loops that may panic *)

(** Running a step that may panic over a list. *)
Fixpoint foldM {A B} (f : B → A → option A) (l : list B) (a : A) : option A :=
  match l with
  | [] => Some a
  | x :: l => a' ← f x a; foldM f l a'
  end.

Lemma foldM_pure {A B} (f : B → A → A) l a :
  foldM (λ x a, Some (f x a)) l a = Some (foldl (λ a x, f x a) a l).
Proof. revert a. induction l as [|x l IH]; intros a; simpl; [done|apply IH]. Qed.

(** A loop whose steps succeed and keep an invariant that tells which part of
    the list is done. *)
Lemma foldM_inv {A B} (f : B → A → option A) (I : list B → A → Prop) l a :
  (∀ l1 x l2 a, l = l1 ++ x :: l2 → I l1 a → ∃ a', f x a = Some a' ∧ I (l1 ++ [x]) a') →
  I [] a → ∃ a', foldM f l a = Some a' ∧ I l a'.
Proof.
  intros Hstep. cut (∀ l2 l1 a, l = l1 ++ l2 → I l1 a → ∃ a', foldM f l2 a = Some a' ∧ I l a').
  { intros Hcut. by apply (Hcut l []). }
  induction l2 as [|x l2 IH]; intros l1 a' -> HI; simpl.
  - rewrite app_nil_r. eauto.
  - destruct (Hstep l1 x l2 a' eq_refl HI) as (a2 & -> & HI2). simpl.
    apply (IH (l1 ++ [x])); [by rewrite <- app_assoc|done].
Qed.

Lemma foldl_pres {A B} (f : A → B → A) (P : A → Prop) l a :
  (∀ a x, P a → P (f a x)) → P a → P (foldl f a l).
Proof. intros Hf. revert a. induction l as [|x l IH]; intros a Ha; simpl; auto. Qed.

(** Changing the entries of the keys of a list. *)
Lemma foldl_alter_keyed `{Countable K} {V} (h : K → option V → option V) (l : list K) (m : gmap K V) k :
  NoDup l →
  foldl (λ m k, partial_alter (h k) k m) m l !! k = if decide (k ∈ l) then h k (m !! k) else m !! k.
Proof.
  intros Hnd. revert m. induction Hnd as [|x l Hx Hnd IH]; intros m; simpl; [done|].
  rewrite IH. destruct (decide (k = x)) as [->|Hne].
  - rewrite decide_False by done. rewrite decide_True by left. by rewrite lookup_partial_alter_eq.
  - rewrite lookup_partial_alter_ne by done.
    destruct (decide (k ∈ l)); [rewrite decide_True by (by right)|rewrite decide_False by set_solver]; done.
Qed.
Lemma foldl_alter_lookup `{Countable K} {V} (h : option V → option V) (l : list K) (m : gmap K V) k :
  NoDup l →
  foldl (λ m k, partial_alter h k m) m l !! k = if decide (k ∈ l) then h (m !! k) else m !! k.
Proof. apply (foldl_alter_keyed (λ _, h)). Qed.

(** ** Strings *)

(** The byte order of [sort.Strings]. *)
Definition str_le (a b : string) : Prop := String.leb a b = true.
#[global] Instance str_le_dec a b : Decision (str_le a b).
Proof. unfold str_le. apply _. Defined.
Definition sortStrings (l : list string) : list string := merge_sort str_le l.

Lemma sortStrings_perm l : sortStrings l ≡ₚ l.
Proof. apply merge_sort_Permutation. Qed.

(** Lower case and comparison without case, on ASCII. *)
Definition lowerAscii (c : Ascii.ascii) : Ascii.ascii :=
  let n := Ascii.nat_of_ascii c in
  if ((65 <=? n) && (n <=? 90))%nat then Ascii.ascii_of_nat (n + 32) else c.
Fixpoint ToLower (s : string) : string :=
  match s with
  | EmptyString => EmptyString
  | String c s => String (lowerAscii c) (ToLower s)
  end.
Definition EqualFold (a b : string) : bool := bool_decide (ToLower a = ToLower b).

(** The keys of a map as a list. *)
Lemma elem_of_keys {V} (m : gmap string V) k : k ∈ (map_to_list m).*1 ↔ is_Some (m !! k).
Proof.
  rewrite list_elem_of_fmap. split.
  - intros ([? v] & -> & Hv%elem_of_map_to_list). by exists v.
  - intros [v Hv]. exists (k, v). by rewrite elem_of_map_to_list.
Qed.
