(* ===== verification/RateLimiter.v ===== *)
(** * Command rate limiters (controller/command/rate_limiter.go)

    The three limiters that guard the controller's command queue: the plain
    [DefaultRateLimiter] (a bounded queue and one worker), the
    [adaptiveRateLimiter] (a queue whose admission window shrinks on time-outs
    and grows on successes) and the [adaptiveRateLimitTracker] (the same window
    without a queue, counting outstanding work). Goroutines are interleaved at
    the granularity of the atomic operations and critical sections of the code:
    every select, atomic add, compare-and-swap and locked region is one step of
    an inductive step relation. *)

From stdpp Require Import base gmap list strings pretty fin_maps relations.
From Stdlib Require Import ZArith Lia.
From S2P Require Import Prelude.

Open Scope Z_scope.

(** ** Configuration *)

Definition MinLimiterSize : Z := 10.
Definition DefaultAdaptiveRateLimiterMinWindowSize : Z := 5.
Definition DefaultAdaptiveRateLimiterMaxWindowSize : Z := 250.
Definition DefaultAdaptiveRateLimiterTimeout : Z := 30 * 1000000000.

Record RateLimiterConfig := mkRateLimiterConfig {
  rl_Enabled : bool;
  rl_QueueSize : Z;  (* uint32 *)
}.

(** [NewRateLimiter] gives [None] for the no-op limiter and otherwise the
    capacity of the queue channel. *)
Definition NewRateLimiter (config : RateLimiterConfig) : option RateLimiterConfig :=
  if negb (rl_Enabled config) then None
  else Some (if rl_QueueSize config <? MinLimiterSize
             then mkRateLimiterConfig (rl_Enabled config) MinLimiterSize
             else config).

Record AdaptiveRateLimiterConfig := mkAdaptiveConfig {
  arc_Enabled : bool;
  arc_MaxSize : Z;  (* uint32 *)
  arc_MinSize : Z;  (* uint32 *)
  arc_Timeout : Z;  (* time.Duration, nanoseconds *)
}.

Definition AdaptiveRateLimiterConfig_SetDefaults
    (_ : AdaptiveRateLimiterConfig) : AdaptiveRateLimiterConfig :=
  mkAdaptiveConfig true DefaultAdaptiveRateLimiterMaxWindowSize
    DefaultAdaptiveRateLimiterMinWindowSize DefaultAdaptiveRateLimiterTimeout.

(** A value of the YAML map: the dynamic types the loader distinguishes. *)
Inductive cfgval :=
| CfgInt (n : Z)
| CfgBool (b : bool)
| CfgString (s : string).

(** [fmt.Sprintf("%v", value)] *)
Definition cfg_sprint (v : cfgval) : string :=
  match v with
  | CfgInt n => pretty n
  | CfgBool b => if b then "true" else "false"
  | CfgString s => s
  end.

(** [strings.EqualFold("true", s)]: no letter of "true" has a case fold
    outside ASCII. *)
Definition EqualFold_true (s : string) : bool :=
  EqualFold "true" s.

Inductive cfg_error :=
| InvalidMaxSize (v : cfgval)
| InvalidMinSize (v : cfgval)
| MinSizeTooSmall (min : Z)
| MinAboveMax (min max : Z)
| InvalidTimeout (v : cfgval).

Section LoadConfig.
(** [time.ParseDuration] *)
Context (ParseDuration : string → option Z).

Definition LoadAdaptiveRateLimiterConfig (cfg : AdaptiveRateLimiterConfig)
    (cfgmap : gmap string cfgval) : result AdaptiveRateLimiterConfig cfg_error :=
  let enabled := match cfgmap !! "enabled"%string with
                 | Some v => EqualFold_true (cfg_sprint v)
                 | None => arc_Enabled cfg
                 end in
  match (match cfgmap !! "maxSize"%string with
         | Some (CfgInt n) => Ok (uint32 n)
         | Some v => Err (InvalidMaxSize v)
         | None => Ok (arc_MaxSize cfg)
         end) with
  | Err e => Err e
  | Ok maxSize =>
    match (match cfgmap !! "minSize"%string with
           | Some (CfgInt n) => Ok (uint32 n)
           | Some v => Err (InvalidMinSize v)
           | None => Ok (arc_MinSize cfg)
           end) with
    | Err e => Err e
    | Ok minSize =>
      if minSize <? 1 then Err (MinSizeTooSmall minSize)
      else if maxSize <? minSize then Err (MinAboveMax minSize maxSize)
      else match cfgmap !! "timeout"%string with
           | None => Ok (mkAdaptiveConfig enabled maxSize minSize (arc_Timeout cfg))
           | Some v =>
             match ParseDuration (cfg_sprint v) with
             | Some t => Ok (mkAdaptiveConfig enabled maxSize minSize t)
             | None => Err (InvalidTimeout v)
             end
           end
    end
  end.
End LoadConfig.

(** ** The plain limiter *)

Inductive call_result (E : Type) :=
| RunResult (r : option E)   (* the wrapped function's error, nil as None *)
| ShuttingDown
| TooManyUpdates.
Arguments RunResult {E} _.
Arguments ShuttingDown {E}.
Arguments TooManyUpdates {E}.

Section DefaultLimiter.
Context {E : Type}.
(** [outcome w] is what the function wrapped by work item [w] returns. *)
Context (outcome : nat → option E).
(** [config.QueueSize], the capacity of the queue channel. *)
Context (QueueSize : nat).

(** Where the goroutine of a [RunRateLimited] call is. *)
Inductive drl_phase :=
| DPushed                     (* sent on the queue, size not yet incremented *)
| DWaiting                    (* in the inner select *)
| DReturned (r : call_result E).

(** Where the worker goroutine is. *)
Inductive drl_worker :=
| WIdle                       (* at the select of run *)
| WTook (w : nat)             (* received w, size not yet decremented *)
| WRunning (w : nat)          (* executing w.wrapped *)
| WExited.

Record DefaultRateLimiter := mkDRL {
  drl_currentSize : Z;
  drl_queue : list nat;
  drl_worker_at : drl_worker;
  drl_results : gmap nat (option E);  (* results sent on work.result *)
  drl_callers : gmap nat drl_phase;
  drl_closed : bool;
  drl_accepted : list nat;            (* history: items in the order queued *)
  drl_executed : list nat;            (* history: items in the order run *)
}.

Definition drl_init : DefaultRateLimiter := mkDRL 0 [] WIdle ∅ ∅ false [] [].

Inductive drl_step : relation DefaultRateLimiter :=
| drl_send s w :               (* case self.queue <- work *)
    drl_callers s !! w = None →
    (length (drl_queue s) < QueueSize)%nat →
    drl_step s (mkDRL (drl_currentSize s) (drl_queue s ++ [w]) (drl_worker_at s)
      (drl_results s) (<[w:=DPushed]> (drl_callers s)) (drl_closed s)
      (drl_accepted s ++ [w]) (drl_executed s))
| drl_send_closed s w :        (* outer case <-self.closeNotify *)
    drl_callers s !! w = None → drl_closed s = true →
    drl_step s (mkDRL (drl_currentSize s) (drl_queue s) (drl_worker_at s)
      (drl_results s) (<[w:=DReturned ShuttingDown]> (drl_callers s)) (drl_closed s)
      (drl_accepted s) (drl_executed s))
| drl_send_default s w :       (* default: neither case is ready *)
    drl_callers s !! w = None → drl_closed s = false →
    (QueueSize ≤ length (drl_queue s))%nat →
    drl_step s (mkDRL (drl_currentSize s) (drl_queue s) (drl_worker_at s)
      (drl_results s) (<[w:=DReturned TooManyUpdates]> (drl_callers s)) (drl_closed s)
      (drl_accepted s) (drl_executed s))
| drl_incr s w :               (* self.currentSize.Add(1) *)
    drl_callers s !! w = Some DPushed →
    drl_step s (mkDRL (int32 (drl_currentSize s + 1)) (drl_queue s) (drl_worker_at s)
      (drl_results s) (<[w:=DWaiting]> (drl_callers s)) (drl_closed s)
      (drl_accepted s) (drl_executed s))
| drl_take s w q :             (* case work := <-self.queue *)
    drl_worker_at s = WIdle → drl_queue s = w :: q →
    drl_step s (mkDRL (drl_currentSize s) q (WTook w) (drl_results s)
      (drl_callers s) (drl_closed s) (drl_accepted s) (drl_executed s))
| drl_decr s w :               (* self.currentSize.Add(-1) *)
    drl_worker_at s = WTook w →
    drl_step s (mkDRL (int32 (drl_currentSize s - 1)) (drl_queue s) (WRunning w)
      (drl_results s) (drl_callers s) (drl_closed s) (drl_accepted s) (drl_executed s))
| drl_run s w :                (* work.wrapped(); work.result <- result; close *)
    drl_worker_at s = WRunning w →
    drl_step s (mkDRL (drl_currentSize s) (drl_queue s) WIdle
      (<[w:=outcome w]> (drl_results s)) (drl_callers s) (drl_closed s)
      (drl_accepted s) (drl_executed s ++ [w]))
| drl_receive s w r :          (* case result := <-work.result *)
    drl_callers s !! w = Some DWaiting → drl_results s !! w = Some r →
    drl_step s (mkDRL (drl_currentSize s) (drl_queue s) (drl_worker_at s)
      (drl_results s) (<[w:=DReturned (RunResult r)]> (drl_callers s)) (drl_closed s)
      (drl_accepted s) (drl_executed s))
| drl_receive_closed s w :     (* inner case <-self.closeNotify *)
    drl_callers s !! w = Some DWaiting → drl_closed s = true →
    drl_step s (mkDRL (drl_currentSize s) (drl_queue s) (drl_worker_at s)
      (drl_results s) (<[w:=DReturned ShuttingDown]> (drl_callers s)) (drl_closed s)
      (drl_accepted s) (drl_executed s))
| drl_exit s :                 (* run: case <-self.closeNotify *)
    drl_worker_at s = WIdle → drl_closed s = true →
    drl_step s (mkDRL (drl_currentSize s) (drl_queue s) WExited (drl_results s)
      (drl_callers s) (drl_closed s) (drl_accepted s) (drl_executed s))
| drl_close s :                (* closeNotify is closed *)
    drl_step s (mkDRL (drl_currentSize s) (drl_queue s) (drl_worker_at s)
      (drl_results s) (drl_callers s) true (drl_accepted s) (drl_executed s)).

(** The item the worker holds, in queue order before the queued ones. *)
Definition drl_in_worker (s : DefaultRateLimiter) : list nat :=
  match drl_worker_at s with
  | WTook w | WRunning w => [w]
  | _ => []
  end.

(** The items the worker has received without having decremented the size. *)
Definition drl_undecremented (s : DefaultRateLimiter) : Z :=
  match drl_worker_at s with WTook _ => 1 | _ => 0 end.

Definition drl_is_pushed (p : drl_phase) : bool :=
  match p with DPushed => true | _ => false end.

End DefaultLimiter.
Arguments DReturned {E} _.
Arguments DPushed {E}.
Arguments DWaiting {E}.

(** ** The adaptive window, shared by the limiter and the tracker *)

(** The locked part of [success]: every tenth success widens the window by
    one, up to [maxWindow]. The state is the pair of the window and the
    success counter. *)
Definition window_success (maxWindow : Z) (st : Z * Z) : Z * Z :=
  let '(currentWindow, successCounter) := st in
  let successCounter := uint32 (successCounter + 1) in
  if successCounter mod 10 =? 0 then
    let nextVal := int32 (currentWindow + 1) in
    (if maxWindow <? nextVal then maxWindow else nextVal, successCounter)
  else (currentWindow, successCounter).

(** The locked part of [backoff]. *)
Definition window_backoff (minWindow queuePosition currentWindow : Z) : Z :=
  let nextWindow := int32 (queuePosition - 10) in
  if nextWindow <? currentWindow then
    (if nextWindow <? minWindow then minWindow else nextWindow)
  else currentWindow.

(** ** The adaptive limiter *)

Inductive arl_phase (E : Type) :=
| AReserved (queuePosition : Z)  (* admitted, before the outer select *)
| AEnqueued (queuePosition : Z)  (* in the inner select *)
| AReturned (r : call_result E)  (* returned; the deferred Add(-1) has run *).
Arguments AReserved {E} _.
Arguments AEnqueued {E} _.
Arguments AReturned {E} _.

Record adaptiveRateLimiter (E : Type) := mkARL {
  arl_currentWindow : Z;
  arl_minWindow : Z;
  arl_maxWindow : Z;
  arl_successCounter : Z;
  arl_currentSize : Z;
  arl_queue : list (nat * Z);            (* (work, work.queuePosition) *)
  arl_worker : option (nat * Z);         (* the item run is working on *)
  arl_results : gmap nat (call_result E);(* sent on work.result *)
  arl_callers : gmap nat (arl_phase E);
  arl_pendingSuccess : nat;              (* success() past its unlocked check *)
  arl_pendingBackoff : list Z;           (* backoff(p) past its unlocked check *)
  arl_closed : bool;
}.
Arguments mkARL {E} _ _ _ _ _ _ _ _ _ _ _ _.
Arguments arl_currentWindow {E} _.
Arguments arl_minWindow {E} _.
Arguments arl_maxWindow {E} _.
Arguments arl_successCounter {E} _.
Arguments arl_currentSize {E} _.
Arguments arl_queue {E} _.
Arguments arl_worker {E} _.
Arguments arl_results {E} _.
Arguments arl_callers {E} _.
Arguments arl_pendingSuccess {E} _.
Arguments arl_pendingBackoff {E} _.
Arguments arl_closed {E} _.

(** [NewAdaptiveRateLimiter]: [None] is the no-op limiter. *)
Definition NewAdaptiveRateLimiter {E} (config : AdaptiveRateLimiterConfig)
    : option (adaptiveRateLimiter E) :=
  if negb (arc_Enabled config) then None
  else Some (mkARL (int32 (arc_MaxSize config)) (int32 (arc_MinSize config))
               (int32 (arc_MaxSize config)) 0 0 [] None ∅ ∅ 0 [] false).

Section AdaptiveLimiter.
Context {E : Type}.
Context (outcome : nat → option E).
(** The capacity of the queue channel, [config.MaxSize]. *)
Context (QueueCap : Z).

Abbreviation limiter := (adaptiveRateLimiter E).

Definition arl_set_window (w c : Z) (s : limiter) : limiter :=
  mkARL w (arl_minWindow s) (arl_maxWindow s) c (arl_currentSize s) (arl_queue s)
    (arl_worker s) (arl_results s) (arl_callers s) (arl_pendingSuccess s)
    (arl_pendingBackoff s) (arl_closed s).
Definition arl_set_pending (n : nat) (l : list Z) (s : limiter) : limiter :=
  mkARL (arl_currentWindow s) (arl_minWindow s) (arl_maxWindow s)
    (arl_successCounter s) (arl_currentSize s) (arl_queue s) (arl_worker s)
    (arl_results s) (arl_callers s) n l (arl_closed s).
Definition arl_set_caller (w : nat) (p : arl_phase E) (size : Z) (s : limiter) : limiter :=
  mkARL (arl_currentWindow s) (arl_minWindow s) (arl_maxWindow s)
    (arl_successCounter s) size (arl_queue s) (arl_worker s) (arl_results s)
    (<[w:=p]> (arl_callers s)) (arl_pendingSuccess s) (arl_pendingBackoff s)
    (arl_closed s).
Definition arl_set_queue (q : list (nat * Z)) (wk : option (nat * Z))
    (res : gmap nat (call_result E)) (s : limiter) : limiter :=
  mkARL (arl_currentWindow s) (arl_minWindow s) (arl_maxWindow s)
    (arl_successCounter s) (arl_currentSize s) q wk res (arl_callers s)
    (arl_pendingSuccess s) (arl_pendingBackoff s) (arl_closed s).
Definition arl_close (s : limiter) : limiter :=
  mkARL (arl_currentWindow s) (arl_minWindow s) (arl_maxWindow s)
    (arl_successCounter s) (arl_currentSize s) (arl_queue s) (arl_worker s)
    (arl_results s) (arl_callers s) (arl_pendingSuccess s) (arl_pendingBackoff s) true.

(** [success] and [backoff] run by one goroutine without interference. *)
Definition adaptiveRateLimiter_success (s : limiter) : limiter :=
  if arl_currentWindow s >=? arl_maxWindow s then s
  else let '(w, c) := window_success (arl_maxWindow s)
                        (arl_currentWindow s, arl_successCounter s) in
       arl_set_window w c s.

Definition adaptiveRateLimiter_backoff (queuePosition : Z) (s : limiter) : limiter :=
  if arl_currentWindow s <=? arl_minWindow s then s
  else arl_set_window
         (window_backoff (arl_minWindow s) queuePosition (arl_currentWindow s))
         (arl_successCounter s) s.

(** The admission under the lock of [RunRateLimited]: the queue position when
    there is room. *)
Definition adaptiveRateLimiter_admit (s : limiter) : option Z :=
  let queuePosition := int32 (arl_currentSize s + 1) in
  if queuePosition <=? arl_currentWindow s then Some queuePosition else None.

(** [run] drops an item whose position is far outside the window, and
    otherwise runs it. *)
Definition adaptiveRateLimiter_work (s : limiter) (work : nat * Z) : call_result E :=
  if int32 (arl_currentWindow s + 10) <? work.2 then TooManyUpdates
  else RunResult (outcome work.1).

Inductive arl_step : relation limiter :=
| arl_admit_ok s w p :
    arl_callers s !! w = None →
    adaptiveRateLimiter_admit s = Some p →
    arl_step s (arl_set_caller w (AReserved p) p s)
| arl_admit_full s w :
    arl_callers s !! w = None →
    adaptiveRateLimiter_admit s = None →
    arl_step s (arl_set_caller w (AReturned TooManyUpdates) (arl_currentSize s) s)
| arl_send s w p :
    arl_callers s !! w = Some (AReserved p) →
    (Z.of_nat (length (arl_queue s)) < QueueCap) →
    arl_step s (arl_set_caller w (AEnqueued p) (arl_currentSize s)
      (arl_set_queue (arl_queue s ++ [(w, p)]) (arl_worker s) (arl_results s) s))
| arl_send_closed s w p :
    arl_callers s !! w = Some (AReserved p) → arl_closed s = true →
    arl_step s (arl_set_caller w (AReturned ShuttingDown) (int32 (arl_currentSize s - 1)) s)
| arl_send_default s w p :
    arl_callers s !! w = Some (AReserved p) → arl_closed s = false →
    QueueCap ≤ Z.of_nat (length (arl_queue s)) →
    arl_step s (arl_set_caller w (AReturned TooManyUpdates) (int32 (arl_currentSize s - 1)) s)
| arl_take s work q :
    arl_worker s = None → arl_queue s = work :: q →
    arl_step s (arl_set_queue q (Some work) (arl_results s) s)
| arl_run s work :
    arl_worker s = Some work →
    arl_step s (arl_set_queue (arl_queue s) None
      (<[work.1:=adaptiveRateLimiter_work s work]> (arl_results s)) s)
| arl_receive s w p r :
    arl_callers s !! w = Some (AEnqueued p) → arl_results s !! w = Some r →
    arl_step s (arl_set_caller w (AReturned r) (int32 (arl_currentSize s - 1)) s)
| arl_receive_closed s w p :
    arl_callers s !! w = Some (AEnqueued p) → arl_closed s = true →
    arl_step s (arl_set_caller w (AReturned ShuttingDown) (int32 (arl_currentSize s - 1)) s)
| arl_success_check s :
    arl_currentWindow s < arl_maxWindow s →
    arl_step s (arl_set_pending (S (arl_pendingSuccess s)) (arl_pendingBackoff s) s)
| arl_success_locked s n w c :
    arl_pendingSuccess s = S n →
    window_success (arl_maxWindow s) (arl_currentWindow s, arl_successCounter s) = (w, c) →
    arl_step s (arl_set_pending n (arl_pendingBackoff s) (arl_set_window w c s))
| arl_backoff_check s p :
    arl_minWindow s < arl_currentWindow s →
    arl_step s (arl_set_pending (arl_pendingSuccess s) (p :: arl_pendingBackoff s) s)
| arl_backoff_locked s l1 p l2 :
    arl_pendingBackoff s = l1 ++ p :: l2 →
    arl_step s (arl_set_pending (arl_pendingSuccess s) (l1 ++ l2)
      (arl_set_window (window_backoff (arl_minWindow s) p (arl_currentWindow s))
         (arl_successCounter s) s))
| arl_closing s : arl_step s (arl_close s).

(** A caller that holds one unit of [currentSize]. *)
Definition arl_active (p : arl_phase E) : bool :=
  match p with AReserved _ | AEnqueued _ => true | AReturned _ => false end.
Definition arl_holders (s : limiter) : nat := count_if arl_active (arl_callers s).
End AdaptiveLimiter.

(** ** The adaptive tracker *)

Record adaptiveRateLimitTrackerWork := mkWork {
  tw_id : string;
  tw_queuePosition : Z;
  tw_createTime : Z;
  tw_label : string;
}.

Record adaptiveRateLimitTracker := mkTracker {
  trk_currentWindow : Z;
  trk_minWindow : Z;
  trk_maxWindow : Z;
  trk_timeout : Z;
  trk_successCounter : Z;
  trk_currentSize : Z;
  trk_outstandingWork : gmap string adaptiveRateLimitTrackerWork;
}.

Definition NewAdaptiveRateLimitTracker (config : AdaptiveRateLimiterConfig)
    : option adaptiveRateLimitTracker :=
  if negb (arc_Enabled config) then None
  else Some (mkTracker (int32 (arc_MaxSize config)) (int32 (arc_MinSize config))
               (int32 (arc_MaxSize config)) (arc_Timeout config) 0 0 ∅).

Definition adaptiveRateLimitTracker_IsRateLimited (t : adaptiveRateLimitTracker) : bool :=
  trk_currentSize t >=? trk_currentWindow t.

(** What [success], [backoff] and [complete] do first: give the slot back. *)
Definition trk_release (work : adaptiveRateLimitTrackerWork)
    (t : adaptiveRateLimitTracker) : adaptiveRateLimitTracker :=
  mkTracker (trk_currentWindow t) (trk_minWindow t) (trk_maxWindow t) (trk_timeout t)
    (trk_successCounter t) (int32 (trk_currentSize t - 1))
    (delete (tw_id work) (trk_outstandingWork t)).

Definition trk_set_window (w c : Z) (t : adaptiveRateLimitTracker) : adaptiveRateLimitTracker :=
  mkTracker w (trk_minWindow t) (trk_maxWindow t) (trk_timeout t) c
    (trk_currentSize t) (trk_outstandingWork t).

Definition adaptiveRateLimitTracker_success (work : adaptiveRateLimitTrackerWork)
    (t : adaptiveRateLimitTracker) : adaptiveRateLimitTracker :=
  let t := trk_release work t in
  if trk_currentWindow t >=? trk_maxWindow t then t
  else let '(w, c) := window_success (trk_maxWindow t)
                        (trk_currentWindow t, trk_successCounter t) in
       trk_set_window w c t.

Definition adaptiveRateLimitTracker_backoff (work : adaptiveRateLimitTrackerWork)
    (t : adaptiveRateLimitTracker) : adaptiveRateLimitTracker :=
  let t := trk_release work t in
  if trk_currentWindow t <=? trk_minWindow t then t
  else trk_set_window
         (window_backoff (trk_minWindow t) (tw_queuePosition work) (trk_currentWindow t))
         (trk_successCounter t) t.

Definition adaptiveRateLimitTracker_complete (work : adaptiveRateLimitTrackerWork)
    (t : adaptiveRateLimitTracker) : adaptiveRateLimitTracker :=
  trk_release work t.

(** [RunRateLimited(label)]: [id] is the fresh uuid, [now] the clock. *)
Definition adaptiveRateLimitTracker_RunRateLimited (label id : string) (now : Z)
    (t : adaptiveRateLimitTracker)
    : option adaptiveRateLimitTrackerWork * adaptiveRateLimitTracker :=
  let queuePosition := int32 (trk_currentSize t + 1) in
  if trk_currentWindow t <? queuePosition then
    (None, mkTracker (trk_currentWindow t) (trk_minWindow t) (trk_maxWindow t)
             (trk_timeout t) (trk_successCounter t) (int32 (queuePosition - 1))
             (trk_outstandingWork t))
  else
    let work := mkWork id queuePosition now label in
    (Some work, mkTracker (trk_currentWindow t) (trk_minWindow t) (trk_maxWindow t)
                  (trk_timeout t) (trk_successCounter t) queuePosition
                  (<[id:=work]> (trk_outstandingWork t))).

(** The locked part of [cleanExpired]: the work to expire. *)
Definition adaptiveRateLimitTracker_expired (now : Z) (t : adaptiveRateLimitTracker)
    : list adaptiveRateLimitTrackerWork :=
  (filter (λ kv, trk_timeout t < now - tw_createTime kv.2)
     (map_to_list (trk_outstandingWork t))).*2.

(** The three ways a client finishes work; each is a compare-and-swap on
    [completed] followed by a locked update. *)
Inductive work_done := WSuccess | WBackoff | WFailed.

Definition tracker_finish (d : work_done) (work : adaptiveRateLimitTrackerWork)
    (t : adaptiveRateLimitTracker) : adaptiveRateLimitTracker :=
  match d with
  | WSuccess => adaptiveRateLimitTracker_success work t
  | WBackoff => adaptiveRateLimitTracker_backoff work t
  | WFailed => adaptiveRateLimitTracker_complete work t
  end.

(** The tracker with its clients: the work handed out, the [completed] flags,
    the calls between the compare-and-swap and the lock, and the list
    [cleanExpired] is walking. *)
Record tracker_system := mkTrackerSystem {
  ts_tracker : adaptiveRateLimitTracker;
  ts_issued : gmap string adaptiveRateLimitTrackerWork;
  ts_completed : gset string;
  ts_finishing : gmap string work_done;
  ts_expiring : list adaptiveRateLimitTrackerWork;
}.

Inductive tracker_step : relation tracker_system :=
| trk_run_ok s label id now work t' :
    ts_issued s !! id = None →  (* uuid.NewString gives an unused id *)
    adaptiveRateLimitTracker_RunRateLimited label id now (ts_tracker s) = (Some work, t') →
    tracker_step s (mkTrackerSystem t' (<[id:=work]> (ts_issued s)) (ts_completed s)
      (ts_finishing s) (ts_expiring s))
| trk_run_limited s label id now t' :
    ts_issued s !! id = None →
    adaptiveRateLimitTracker_RunRateLimited label id now (ts_tracker s) = (None, t') →
    tracker_step s (mkTrackerSystem t' (ts_issued s) (ts_completed s)
      (ts_finishing s) (ts_expiring s))
| trk_cas s id work d :         (* self.completed.CompareAndSwap(false, true) *)
    ts_issued s !! id = Some work → id ∉ ts_completed s →
    tracker_step s (mkTrackerSystem (ts_tracker s) (ts_issued s)
      ({[id]} ∪ ts_completed s) (<[id:=d]> (ts_finishing s)) (ts_expiring s))
| trk_finish s id work d :      (* the locked update *)
    ts_issued s !! id = Some work → ts_finishing s !! id = Some d →
    tracker_step s (mkTrackerSystem (tracker_finish d work (ts_tracker s)) (ts_issued s)
      (ts_completed s) (delete id (ts_finishing s)) (ts_expiring s))
| trk_collect s now :           (* cleanExpired under the lock *)
    tracker_step s (mkTrackerSystem (ts_tracker s) (ts_issued s) (ts_completed s)
      (ts_finishing s)
      (ts_expiring s ++ adaptiveRateLimitTracker_expired now (ts_tracker s)))
| trk_expire_won s work l :     (* work.Backoff() wins the compare-and-swap *)
    ts_expiring s = work :: l → tw_id work ∉ ts_completed s →
    tracker_step s (mkTrackerSystem (ts_tracker s) (ts_issued s)
      ({[tw_id work]} ∪ ts_completed s) (<[tw_id work:=WBackoff]> (ts_finishing s)) l)
| trk_expire_lost s work l :    (* the client finished first *)
    ts_expiring s = work :: l → tw_id work ∈ ts_completed s →
    tracker_step s (mkTrackerSystem (ts_tracker s) (ts_issued s) (ts_completed s)
      (ts_finishing s) l).

Definition tracker_system_init (t : adaptiveRateLimitTracker) : tracker_system :=
  mkTrackerSystem t ∅ ∅ ∅ [].

(** ** The window stays between its bounds *)

Definition window_ok (minW maxW w : Z) : Prop := minW ≤ w ≤ maxW.

Lemma window_success_ok minW maxW w c w' c' :
  0 < minW → maxW < MaxInt32 → window_ok minW maxW w →
  window_success maxW (w, c) = (w', c') → window_ok minW maxW w' ∧ w ≤ w'.
Proof.
  unfold window_ok, window_success, MaxInt32. intros ?? [? ?] ?.
  assert (int32 (w + 1) = w + 1) as Hw by (apply int32_small; unfold in_int32; lia).
  rewrite Hw in *. go_cases; bool_prop; lia.
Qed.

Lemma window_backoff_ok minW maxW p w :
  window_ok minW maxW w →
  window_ok minW maxW (window_backoff minW p w) ∧ window_backoff minW p w ≤ w.
Proof. unfold window_ok, window_backoff. intros. go_cases; bool_prop; lia. Qed.

#[export] Hint Resolve window_success_ok window_backoff_ok : zt.

(** ** The plain limiter: first in, first out, once, with its own result *)

Section DefaultLimiterProofs.
Context {E : Type} (outcome : nat → option E) (QueueSize : nat).

Abbreviation step := (drl_step (E := E) outcome QueueSize).

Record drl_inv (s : DefaultRateLimiter (E:=E)) : Prop := mkDrlInv {
  drli_fifo : drl_accepted s = drl_executed s ++ drl_in_worker s ++ drl_queue s;
  drli_nodup : NoDup (drl_accepted s);
  drli_known : ∀ w, w ∈ drl_accepted s → is_Some (drl_callers s !! w);
  drli_results : ∀ w r, drl_results s !! w = Some r → r = outcome w ∧ w ∈ drl_executed s;
  drli_returned : ∀ w r, drl_callers s !! w = Some (DReturned (RunResult r)) →
    r = outcome w ∧ w ∈ drl_executed s;
  drli_cap : (length (drl_queue s) ≤ QueueSize)%nat;
  drli_size : drl_currentSize s =
    int32 (Z.of_nat (length (drl_queue s)) + drl_undecremented s
           - Z.of_nat (count_if (drl_is_pushed (E:=E)) (drl_callers s)));
}.

Lemma drl_inv_init : drl_inv drl_init.
Proof. split; simpl; try set_solver; try done; [constructor|lia]. Qed.

Lemma drl_size_new (s : DefaultRateLimiter (E:=E)) w p :
  drl_callers s !! w = None →
  Z.of_nat (count_if drl_is_pushed (<[w:=p]> (drl_callers s))) =
  Z.b2z (drl_is_pushed p) + Z.of_nat (count_if drl_is_pushed (drl_callers s)).
Proof. intros Hw. rewrite count_if_insert_new by done. destruct (drl_is_pushed p); simpl; lia. Qed.

Lemma drl_size_upd (s : DefaultRateLimiter (E:=E)) w p p' :
  drl_callers s !! w = Some p' →
  Z.of_nat (count_if drl_is_pushed (<[w:=p]> (drl_callers s))) =
  Z.of_nat (count_if drl_is_pushed (drl_callers s))
  + Z.b2z (drl_is_pushed p) - Z.b2z (drl_is_pushed p').
Proof.
  intros Hw. pose proof (count_if_insert drl_is_pushed _ _ p _ Hw).
  destruct (drl_is_pushed p), (drl_is_pushed p'); simpl in *; lia.
Qed.

Lemma drl_size_step s s' :
  drl_inv s → step s s' →
  drl_currentSize s' =
    int32 (Z.of_nat (length (drl_queue s')) + drl_undecremented s'
           - Z.of_nat (count_if drl_is_pushed (drl_callers s'))).
Proof.
  intros Hinv Hstep. pose proof (drli_size _ Hinv) as Hsize.
  destruct Hstep; simpl; unfold drl_undecremented in *; simpl;
    rewrite ?(drl_size_new _ _ _ H); rewrite ?(drl_size_upd _ _ _ _ H);
    rewrite ?Hsize; rewrite ?length_app; unfold Z.sub; rewrite ?int32_add_l;
    f_equal; simpl; rewrite ?H, ?H0; simpl; try lia.
Qed.

Lemma drl_inv_step s s' : drl_inv s → step s s' → drl_inv s'.
Proof.
  intros Hinv Hstep. pose proof (drl_size_step _ _ Hinv Hstep) as Hsize.
  destruct Hinv as [Hfifo Hnd Hkn Hres Hret Hcap _].
  assert (∀ w (p : drl_phase (E:=E)) v, v ∈ drl_accepted s →
            is_Some (<[w:=p]> (drl_callers s) !! v)) as Hkn'.
  { intros w p v Hv. destruct (decide (w = v)); simplify_map_eq; eauto. }
  destruct Hstep; split; simpl in *; unfold drl_in_worker in *; simpl in *; eauto;
    try (intros v r' Hv; destruct (decide (w = v)); simplify_map_eq; by eauto).
  - rewrite Hfifo. by rewrite <- !app_assoc.
  - apply NoDup_app. split_and!; [done| |apply NoDup_singleton].
    intros v Hv ->%list_elem_of_singleton. apply Hkn in Hv as [? ?]. congruence.
  - intros v [Hv| ->%list_elem_of_singleton]%elem_of_app; [by auto|]. by simplify_map_eq.
  - rewrite length_app. simpl. lia.
  - rewrite Hfifo. by rewrite H, H0.
  - rewrite H0 in Hcap. simpl in Hcap. lia.
  - rewrite Hfifo, H. done.
  - rewrite Hfifo, H. by rewrite <- app_assoc.
  - intros v r Hv. rewrite elem_of_app, list_elem_of_singleton.
    destruct (decide (w = v)) as [->|]; simplify_map_eq; [by auto|].
    apply Hres in Hv as [? ?]. auto.
  - intros v r [? ?]%Hret. rewrite elem_of_app. auto.
  - rewrite Hfifo, H. done.
Qed.

Lemma drl_inv_reachable s : rtc step drl_init s → drl_inv s.
Proof.
  apply rtc_invariant; [exact drl_inv_step|exact drl_inv_init].
Qed.
End DefaultLimiterProofs.

(** ** The adaptive limiter: bounds and the queue that never overflows *)

Section AdaptiveLimiterProofs.
Context {E : Type} (outcome : nat → option E).
(** What [LoadAdaptiveRateLimiterConfig] guarantees together with sizes that
    fit an int32. *)
Context (minW maxW : Z) (Hmin : 0 < minW) (Hle : minW ≤ maxW) (Hmax : maxW < MaxInt32).

Abbreviation step := (arl_step (E := E) outcome maxW).
Implicit Types s : adaptiveRateLimiter E.

(** The items that are queued or being run. *)
Definition arl_pending (s : adaptiveRateLimiter E) : list (nat * Z) :=
  option_list (arl_worker s) ++ arl_queue s.

Record arl_inv (s : adaptiveRateLimiter E) : Prop := mkArlInv {
  arli_min : arl_minWindow s = minW;
  arli_max : arl_maxWindow s = maxW;
  arli_window : window_ok minW maxW (arl_currentWindow s);
  arli_size : arl_currentSize s = Z.of_nat (arl_holders s);
  arli_size_max : arl_currentSize s ≤ maxW;
  arli_nodup : arl_closed s = false → NoDup (arl_pending s).*1;
  arli_waiting : arl_closed s = false → ∀ w p, (w, p) ∈ arl_pending s →
    arl_callers s !! w = Some (AEnqueued p) ∧ arl_results s !! w = None;
  arli_fresh : arl_closed s = false → ∀ w,
    (arl_callers s !! w = None ∨ ∃ p, arl_callers s !! w = Some (AReserved p)) →
    arl_results s !! w = None;
}.

Lemma arl_holders_new s w p size :
  arl_callers s !! w = None →
  Z.of_nat (arl_holders (arl_set_caller w p size s)) =
  Z.b2z (arl_active p) + Z.of_nat (arl_holders s).
Proof.
  intros Hw. unfold arl_holders. simpl. rewrite count_if_insert_new by done.
  destruct (arl_active p); simpl; lia.
Qed.

Lemma arl_holders_upd s w p p' size :
  arl_callers s !! w = Some p' → arl_active p' = true →
  Z.of_nat (arl_holders (arl_set_caller w p size s)) =
  Z.of_nat (arl_holders s) + Z.b2z (arl_active p) - 1.
Proof.
  intros Hw Hact. unfold arl_holders. simpl.
  pose proof (count_if_insert arl_active _ _ p _ Hw) as Hc. rewrite Hact in Hc.
  destruct (arl_active p); simpl in *; lia.
Qed.

(** A caller that holds a reservation but is not queued keeps the number of
    pending items below the size. *)
Lemma arl_pending_lt s w p :
  arl_inv s → arl_closed s = false → arl_callers s !! w = Some (AReserved p) →
  Z.of_nat (length (arl_pending s)) < arl_currentSize s.
Proof.
  intros Hinv Hcl Hw. rewrite (arli_size _ Hinv).
  assert (length (w :: (arl_pending s).*1) ≤ arl_holders s)%nat as Hlen.
  { apply count_if_NoDup.
    - apply NoDup_cons. split; [|by apply Hinv].
      intros ([w' p'] & -> & Hin)%list_elem_of_fmap.
      apply (arli_waiting _ Hinv Hcl) in Hin as [? _]. simpl in *. congruence.
    - intros k [->|([k' p'] & -> & Hin)%list_elem_of_fmap]%elem_of_cons; [by eauto|].
      apply (arli_waiting _ Hinv Hcl) in Hin as [? _]. eauto. }
  simpl in Hlen. rewrite length_fmap in Hlen. lia.
Qed.

Lemma arl_size_dec s w p :
  arl_inv s → arl_callers s !! w = Some p → arl_active p = true →
  int32 (arl_currentSize s - 1) = arl_currentSize s - 1.
Proof.
  intros Hinv Hw Hact. apply int32_small. unfold in_int32.
  pose proof (arli_size _ Hinv). pose proof (arli_size_max _ Hinv).
  pose proof (count_if_pos arl_active _ _ _ Hw Hact). unfold arl_holders, MaxInt32 in *. lia.
Qed.

(** Setting the phase of one caller to one that is not pending keeps the
    bookkeeping of the others. *)
Lemma arl_waiting_set s w p size :
  arl_inv s → arl_closed s = false → (∀ q, (w, q) ∉ arl_pending s) →
  ∀ w' q, (w', q) ∈ arl_pending s →
    arl_callers (arl_set_caller w p size s) !! w' = Some (AEnqueued q) ∧
    arl_results s !! w' = None.
Proof.
  intros Hinv Hcl Hw w' q Hin. simpl.
  destruct (decide (w = w')) as [->|]; [by apply Hw in Hin|].
  rewrite lookup_insert_ne by done. by apply Hinv.
Qed.

Lemma arl_not_pending s w :
  arl_inv s → arl_closed s = false →
  (∀ p, arl_callers s !! w ≠ Some (AEnqueued p)) ∨ is_Some (arl_results s !! w) →
  ∀ q, (w, q) ∉ arl_pending s.
Proof.
  intros Hinv Hcl Hw q [Hc Hr]%(arli_waiting _ Hinv Hcl).
  destruct Hw as [Hw|[r Hw]]; [by eapply Hw|congruence].
Qed.

Lemma arl_inv_enter s w p size :
  arl_inv s → arl_callers s !! w = None → (∀ q, p ≠ AEnqueued q) →
  size = arl_currentSize s + Z.b2z (arl_active p) → size ≤ maxW →
  arl_inv (arl_set_caller w p size s).
Proof.
  intros Hinv Hw Hp Hsize Hsz.
  pose proof (arl_holders_new s w p size Hw) as Hh.
  pose proof (arli_size _ Hinv) as Hs.
  split; try apply Hinv; simpl; try done; [lia| |].
  - intros Hcl. apply (arl_waiting_set s w p size); auto. apply arl_not_pending; auto.
    left. congruence.
  - intros Hcl w'. simpl. destruct (decide (w = w')) as [->|].
    + intros _. apply (arli_fresh _ Hinv Hcl). by left.
    + rewrite lookup_insert_ne by done. by apply Hinv.
Qed.

Lemma arl_inv_leave s w p r :
  arl_inv s → arl_callers s !! w = Some p → arl_active p = true →
  (arl_closed s = false → ∀ q, (w, q) ∉ arl_pending s) →
  arl_inv (arl_set_caller w (AReturned r) (int32 (arl_currentSize s - 1)) s).
Proof.
  intros Hinv Hw Hact Hpend. rewrite (arl_size_dec s w p) by done.
  pose proof (arl_holders_upd s w (AReturned r) p (arl_currentSize s - 1) Hw Hact) as Hh.
  pose proof (arli_size _ Hinv) as Hs. simpl in Hh. pose proof (arli_size_max _ Hinv).
  split; try apply Hinv; simpl; [lia|lia| |].
  - intros Hcl. apply (arl_waiting_set s w (AReturned r) 0); auto.
  - intros Hcl w'. destruct (decide (w = w')) as [->|].
    + rewrite lookup_insert_eq. intros [|[]]; congruence.
    + rewrite lookup_insert_ne by done. by apply Hinv.
Qed.

Lemma arl_inv_send s w p :
  arl_inv s → arl_callers s !! w = Some (AReserved p) →
  arl_inv (arl_set_caller w (AEnqueued p) (arl_currentSize s)
    (arl_set_queue (arl_queue s ++ [(w, p)]) (arl_worker s) (arl_results s) s)).
Proof.
  intros Hinv Hw.
  set (s' := arl_set_queue _ _ _ _).
  pose proof (arl_holders_upd s' w (AEnqueued p) _ (arl_currentSize s) Hw eq_refl) as Hh.
  pose proof (arli_size _ Hinv) as Hs. simpl in Hh.
  assert (arl_holders s' = arl_holders s) as Hs' by done.
  split; try apply Hinv; simpl; [lia| | |];
    intros Hcl; unfold arl_pending; simpl; rewrite ?app_assoc;
    try change (option_list (arl_worker s) ++ arl_queue s) with (arl_pending s);
    assert (∀ q, (w, q) ∉ arl_pending s) as Hnp
      by (apply arl_not_pending; [done|done|left; congruence]).
  - rewrite fmap_app. apply NoDup_app. split_and!; [by apply Hinv| |apply NoDup_singleton].
    intros w' ([w'' q] & -> & Hin)%list_elem_of_fmap Hw'.
    apply list_elem_of_singleton in Hw'. simpl in Hw'. subst. by apply Hnp in Hin.
  - intros w' q [Hin|[= -> ->]%list_elem_of_singleton]%elem_of_app.
    + by apply (arl_waiting_set s w (AEnqueued p) 0).
    + rewrite lookup_insert_eq. split; [done|].
      apply (arli_fresh _ Hinv Hcl). by eauto.
  - intros w'. destruct (decide (w = w')) as [->|].
    + rewrite lookup_insert_eq. intros [|[]]; congruence.
    + rewrite lookup_insert_ne by done. by apply Hinv.
Qed.

Lemma arl_inv_run s work :
  arl_inv s → arl_worker s = Some work →
  arl_inv (arl_set_queue (arl_queue s) None
    (<[work.1:=adaptiveRateLimiter_work outcome s work]> (arl_results s)) s).
Proof.
  intros Hinv Hwk. pose proof (arli_waiting _ Hinv) as Hwt.
  pose proof (arli_nodup _ Hinv) as Hnd. unfold arl_pending in *. rewrite Hwk in *.
  split; try apply Hinv; simpl; intros Hcl; specialize (Hnd Hcl); specialize (Hwt Hcl);
    simpl in Hnd; apply NoDup_cons in Hnd as [Hnew Hnd].
  - done.
  - intros w p Hin. destruct (Hwt w p) as [? ?]; [by right|].
    rewrite lookup_insert_ne; [done|]. intros Heq. apply Hnew.
    apply list_elem_of_fmap. by exists (w, p).
  - intros w Hw. destruct (decide (work.1 = w)) as [<-|].
    + destruct work as [w p]. destruct (Hwt w p) as [? ?]; [by left|].
      simpl in *. destruct Hw as [|[]]; congruence.
    + rewrite lookup_insert_ne by done. by apply Hinv.
Qed.

Lemma arl_inv_window s n l w c :
  arl_inv s → window_ok minW maxW w →
  arl_inv (arl_set_pending n l (arl_set_window w c s)).
Proof. intros Hinv Hw. split; try apply Hinv; done. Qed.

Lemma arl_admit_spec s p :
  arl_inv s → adaptiveRateLimiter_admit s = Some p →
  p = arl_currentSize s + 1 ∧ p ≤ maxW.
Proof.
  intros Hinv. unfold adaptiveRateLimiter_admit.
  pose proof (arli_size _ Hinv). pose proof (arli_size_max _ Hinv).
  rewrite int32_small by (unfold in_int32, MaxInt32 in *; lia).
  pose proof (arli_window _ Hinv) as [? ?]. intros Ha. destruct (Z.leb_spec (arl_currentSize s + 1) (arl_currentWindow s)); simplify_eq. lia.
Qed.

Lemma arl_inv_step s s' : arl_inv s → step s s' → arl_inv s'.
Proof.
  intros Hinv Hstep. destruct Hstep as
    [s w p Hw Ha|s w Hw Ha|s w p Hw Hq|s w p Hw Hc|s w p Hw Hc Hq|s work q Hwk Hq
    |s work Hwk|s w p r Hw Hr|s w p Hw Hc|s Hc|s n w c Hn Hws|s p Hc|s l1 p l2 Hl|s].
  - apply arl_admit_spec in Ha as [? ?]; [|done]. apply arl_inv_enter; simpl; auto; lia.
  - pose proof (arli_size_max _ Hinv). apply arl_inv_enter; simpl; auto; lia.
  - by apply arl_inv_send.
  - eapply arl_inv_leave; eauto. congruence.
  - eapply arl_inv_leave; eauto. intros _. apply arl_not_pending; auto. left; congruence.
  - split; try apply Hinv; unfold arl_pending; simpl; intros Hcl;
      [pose proof (arli_nodup _ Hinv Hcl) as Hn|pose proof (arli_waiting _ Hinv Hcl) as Hn];
      unfold arl_pending in Hn; by rewrite Hwk, Hq in Hn.
  - by apply arl_inv_run.
  - eapply arl_inv_leave; eauto. intros Hcl. apply arl_not_pending; auto.
  - eapply arl_inv_leave; eauto. congruence.
  - split; try apply Hinv.
  - apply arl_inv_window; [done|]. rewrite (arli_max _ Hinv) in Hws.
    eapply window_success_ok; eauto. apply Hinv.
  - split; try apply Hinv.
  - apply arl_inv_window; [done|]. rewrite (arli_min _ Hinv).
    apply window_backoff_ok, Hinv.
  - split; try apply Hinv; simpl; discriminate.
Qed.

Lemma arl_inv_init cfg s :
  arc_MinSize cfg = minW → arc_MaxSize cfg = maxW →
  NewAdaptiveRateLimiter cfg = Some s → arl_inv s.
Proof.
  intros <- <-. unfold NewAdaptiveRateLimiter. destruct (arc_Enabled cfg); [|done].
  simpl. intros [= <-]. unfold MaxInt32 in *.
  rewrite !int32_small by (unfold in_int32; lia).
  split; simpl; try done; try (unfold window_ok; lia); try lia.
  - constructor.
  - intros _ w p Hin. by apply elem_of_nil in Hin.
Qed.
End AdaptiveLimiterProofs.

(** ** The tracker: every slot is given back exactly once *)

Section TrackerProofs.
Context (minW maxW : Z) (Hmin : 0 < minW) (Hle : minW ≤ maxW) (Hmax : maxW < MaxInt32).

(** The tracker alone: window bounds, and the size counts the outstanding
    work. *)
Record trk_inv (t : adaptiveRateLimitTracker) : Prop := mkTrkInv {
  trki_min : trk_minWindow t = minW;
  trki_max : trk_maxWindow t = maxW;
  trki_window : window_ok minW maxW (trk_currentWindow t);
  trki_size : trk_currentSize t = Z.of_nat (size (trk_outstandingWork t));
  trki_size_max : trk_currentSize t ≤ maxW;
}.

Lemma trk_inv_release t work :
  trk_inv t → is_Some (trk_outstandingWork t !! tw_id work) → trk_inv (trk_release work t).
Proof.
  intros [? ? Hw Hs Hsm] [x Hx].
  pose proof (map_size_delete_Some _ _ (ex_intro _ x Hx)) as Hd.
  assert (size (trk_outstandingWork t) ≠ 0%nat) as Hne.
  { apply map_size_non_empty_iff. intros He. by rewrite He, lookup_empty in Hx. }
  split; simpl; try done;
    rewrite int32_small by (unfold in_int32, MaxInt32 in *; lia); lia.
Qed.

Lemma trk_inv_window t w c :
  trk_inv t → window_ok minW maxW w → trk_inv (trk_set_window w c t).
Proof. intros [] ?. by split. Qed.

Lemma trk_inv_finish t work d :
  trk_inv t → is_Some (trk_outstandingWork t !! tw_id work) →
  trk_inv (tracker_finish d work t).
Proof.
  intros Hinv Hx. apply (trk_inv_release _ work) in Hinv; [|done].
  destruct d; simpl; [| |exact Hinv];
    unfold adaptiveRateLimitTracker_success, adaptiveRateLimitTracker_backoff; cbv zeta.
  - destruct (_ >=? _); [done|].
    destruct (window_success _ _) as [w c] eqn:Hws.
    rewrite (trki_max _ Hinv) in Hws.
    apply trk_inv_window; [done|]. eapply window_success_ok; eauto. apply Hinv.
  - destruct (_ <=? _); [done|]. rewrite (trki_min _ Hinv).
    apply trk_inv_window; [done|]. apply window_backoff_ok, Hinv.
Qed.

Lemma tracker_finish_outstanding d work t :
  trk_outstandingWork (tracker_finish d work t) = delete (tw_id work) (trk_outstandingWork t).
Proof.
  destruct d; simpl; [| |done];
    unfold adaptiveRateLimitTracker_success, adaptiveRateLimitTracker_backoff, window_success;
    cbv zeta; go_cases; done.
Qed.

Lemma trk_inv_run t label id now work t' :
  trk_inv t → trk_outstandingWork t !! id = None →
  adaptiveRateLimitTracker_RunRateLimited label id now t = (Some work, t') →
  trk_inv t' ∧ tw_id work = id ∧
  trk_outstandingWork t' = <[id:=work]> (trk_outstandingWork t).
Proof.
  intros [? ? [? ?] Hs Hsm] Hid. unfold adaptiveRateLimitTracker_RunRateLimited. cbv zeta.
  rewrite (int32_small (trk_currentSize t + 1)) by (unfold in_int32, MaxInt32 in *; lia).
  intros Hrun. destruct (Z.ltb_spec (trk_currentWindow t) (trk_currentSize t + 1));
    simplify_eq/=.
  split; [|done]. split; simpl; try done; [rewrite map_size_insert_None by done|]; lia.
Qed.

Lemma trk_inv_run_limited t label id now t' :
  trk_inv t →
  adaptiveRateLimitTracker_RunRateLimited label id now t = (None, t') → t' = t.
Proof.
  intros [? ? [? ?] Hs Hsm]. unfold adaptiveRateLimitTracker_RunRateLimited. cbv zeta.
  rewrite (int32_small (trk_currentSize t + 1)) by (unfold in_int32, MaxInt32 in *; lia).
  intros Hrun. destruct (Z.ltb_spec (trk_currentWindow t) (trk_currentSize t + 1));
    simplify_eq/=.
  rewrite int32_small by (unfold in_int32, MaxInt32 in *; lia).
  destruct t; simpl. f_equal. lia.
Qed.

Record ts_inv (s : tracker_system) : Prop := mkTsInv {
  tsi_tracker : trk_inv (ts_tracker s);
  tsi_id : ∀ id w, ts_issued s !! id = Some w → tw_id w = id;
  tsi_same : ∀ id w, trk_outstandingWork (ts_tracker s) !! id = Some w →
    ts_issued s !! id = Some w;
  tsi_out : ∀ id, is_Some (trk_outstandingWork (ts_tracker s) !! id) ↔
    is_Some (ts_issued s !! id) ∧ (id ∉ ts_completed s ∨ is_Some (ts_finishing s !! id));
  tsi_fin : ∀ id, is_Some (ts_finishing s !! id) → id ∈ ts_completed s;
  tsi_done : ∀ id, id ∈ ts_completed s → is_Some (ts_issued s !! id);
  tsi_exp : ∀ w, w ∈ ts_expiring s → ts_issued s !! tw_id w = Some w;
}.

Lemma ts_inv_cas s id d l :
  ts_inv s → is_Some (ts_issued s !! id) → id ∉ ts_completed s →
  (∀ w, w ∈ l → w ∈ ts_expiring s) →
  ts_inv (mkTrackerSystem (ts_tracker s) (ts_issued s) ({[id]} ∪ ts_completed s)
            (<[id:=d]> (ts_finishing s)) l).
Proof.
  intros Hinv Hid Hc Hl. split; simpl; try apply Hinv.
  - intros id'. rewrite (tsi_out _ Hinv). destruct (decide (id = id')) as [->|].
    + simplify_map_eq. split; [intros [? _]; split; [done|right; eauto]|intros _; split; [done|by left]].
    + rewrite lookup_insert_ne by done.
      rewrite not_elem_of_union, not_elem_of_singleton. assert (id' ≠ id) by done. tauto.
  - intros id'. destruct (decide (id = id')) as [->|]; [set_solver|].
    rewrite lookup_insert_ne by done. intros ?%(tsi_fin _ Hinv). set_solver.
  - intros id' [->%elem_of_singleton|?]%elem_of_union; [done|]. by apply (tsi_done _ Hinv).
  - intros w Hw. by apply (tsi_exp _ Hinv), Hl.
Qed.

Lemma ts_inv_step s s' : ts_inv s → tracker_step s s' → ts_inv s'.
Proof.
  intros Hinv Hstep. destruct Hstep as
    [s label id now work t' Hid Hrun|s label id now t' Hid Hrun|s id work d Hid Hc
    |s id work d Hid Hf|s now|s work l He Hc|s work l He Hc].
  - assert (trk_outstandingWork (ts_tracker s) !! id = None) as Hout.
    { apply eq_None_not_Some. rewrite (tsi_out _ Hinv), Hid. intros [[]%is_Some_None _]. }
    assert (id ∉ ts_completed s) as Hc.
    { intros [? ?]%(tsi_done _ Hinv). congruence. }
    apply trk_inv_run in Hrun as (Ht & Hw & Hot); [|by apply Hinv|done].
    split; simpl; [done|..].
    + intros id' w. rewrite lookup_insert_Some. intros [[-> ->]|[? ?]]; [done|by apply Hinv].
    + intros id' w. rewrite Hot, !lookup_insert_Some. pose proof (tsi_same _ Hinv id' w). tauto.
    + intros id'. rewrite Hot. destruct (decide (id = id')) as [->|].
      * rewrite !lookup_insert_eq. split; eauto.
      * rewrite !lookup_insert_ne by done. apply Hinv.
    + apply Hinv.
    + intros id' ?%(tsi_done _ Hinv). destruct (decide (id = id')) as [->|];
        [by rewrite lookup_insert_eq|by rewrite lookup_insert_ne].
    + intros w Hin%(tsi_exp _ Hinv). rewrite lookup_insert_ne; [done|]. intros ->. congruence.
  - apply trk_inv_run_limited in Hrun as ->; [|by apply Hinv]. by destruct Hinv.
  - apply ts_inv_cas; eauto.
  - assert (tw_id work = id) as Hwid by by apply Hinv.
    assert (is_Some (trk_outstandingWork (ts_tracker s) !! tw_id work)) as Hout.
    { rewrite Hwid, (tsi_out _ Hinv). eauto. }
    split; simpl; try apply Hinv; try rewrite tracker_finish_outstanding, Hwid.
    + apply trk_inv_finish; [by apply Hinv|done].
    + intros id' w. rewrite lookup_delete_Some. intros [? ?]. by apply Hinv.
    + intros id'. pose proof (tsi_fin _ Hinv id').
      destruct (decide (id = id')) as [->|].
      * rewrite !lookup_delete_eq. split; [by intros []|].
        intros [_ [Hn|[]%is_Some_None]]. destruct Hn. by eauto.
      * rewrite !lookup_delete_ne by done. apply Hinv.
    + intros id'. rewrite lookup_delete_is_Some. intros [_ ?]. by apply Hinv.
  - split; simpl; try apply Hinv. intros w [Hin|Hin]%elem_of_app; [by apply (tsi_exp _ Hinv)|].
    unfold adaptiveRateLimitTracker_expired in Hin.
    apply list_elem_of_fmap in Hin as ([id w'] & -> & Hin).
    apply list_elem_of_filter in Hin as [_ Hin%elem_of_map_to_list].
    apply (tsi_same _ Hinv) in Hin as Hi. simpl. by rewrite (tsi_id _ Hinv _ _ Hi).
  - apply ts_inv_cas; eauto.
    + rewrite (tsi_exp _ Hinv); [by eauto|]. rewrite He. left.
    + intros w Hw. rewrite He. by right.
  - split; simpl; try apply Hinv. intros w Hw. apply (tsi_exp _ Hinv). rewrite He. by right.
Qed.
End TrackerProofs.

(** ** How the window grows *)

Lemma mod10_ne q c : 10 * q < c < 10 * q + 10 → c mod 10 ≠ 0.
Proof. intros Hc Hz. pose proof (Z.div_mod c 10 ltac:(lia)). lia. Qed.

Lemma mod10_eq q c : c = 10 * q → c mod 10 = 0.
Proof. intros ->. rewrite Z.mul_comm. by apply Z.mod_mul. Qed.

Section WindowGrowth.
Context {E : Type}.
Implicit Types s : adaptiveRateLimiter E.

(** Successes that do not hit a multiple of ten leave the window alone. *)
Lemma success_steady s (k : nat) :
  (∀ i : Z, 1 ≤ i ≤ Z.of_nat k → (arl_successCounter s + i) mod 10 ≠ 0) →
  0 ≤ arl_successCounter s ∧ arl_successCounter s + Z.of_nat k < 2 ^ 32 →
  arl_currentWindow (Nat.iter k adaptiveRateLimiter_success s) = arl_currentWindow s ∧
  arl_successCounter (Nat.iter k adaptiveRateLimiter_success s) =
    (if decide (arl_currentWindow s < arl_maxWindow s)
     then arl_successCounter s + Z.of_nat k else arl_successCounter s) ∧
  arl_maxWindow (Nat.iter k adaptiveRateLimiter_success s) = arl_maxWindow s.
Proof.
  intros Hi Hc. induction k as [|k IH]; simpl; [case_decide; split_and!; lia|].
  destruct IH as (Hw & Hcn & Hm); [intros; apply Hi; lia|lia|].
  set (s' := Nat.iter k adaptiveRateLimiter_success s) in *.
  unfold adaptiveRateLimiter_success. rewrite Z.geb_leb, Hw, Hm.
  destruct (Z.leb_spec (arl_maxWindow s) (arl_currentWindow s)).
  - rewrite decide_False in * by lia. done.
  - rewrite decide_True in * by lia. unfold window_success. rewrite Hcn.
    rewrite wrap_u_small by lia.
    destruct (Z.eqb_spec ((arl_successCounter s + Z.of_nat k + 1) mod 10) 0) as [Hz|].
    + exfalso. apply (Hi (Z.of_nat (S k))); [lia|]. rewrite <- Hz. f_equal. lia.
    + simpl. split_and!; lia.
Qed.

(** A success that hits a multiple of ten widens the window. *)
Lemma success_widen s :
  arl_currentWindow s < arl_maxWindow s → arl_maxWindow s < MaxInt32 →
  0 ≤ arl_currentWindow s → 0 ≤ arl_successCounter s < 2 ^ 32 - 1 →
  (arl_successCounter s + 1) mod 10 = 0 →
  arl_currentWindow (adaptiveRateLimiter_success s) = arl_currentWindow s + 1 ∧
  arl_successCounter (adaptiveRateLimiter_success s) = arl_successCounter s + 1 ∧
  arl_maxWindow (adaptiveRateLimiter_success s) = arl_maxWindow s.
Proof.
  intros Hw Hm Hw0 Hc Hz. unfold adaptiveRateLimiter_success, window_success.
  rewrite Z.geb_leb. destruct (Z.leb_spec (arl_maxWindow s) (arl_currentWindow s)); [lia|].
  rewrite wrap_u_small by lia. rewrite Hz. simpl.
  rewrite int32_small by (unfold in_int32, MaxInt32 in *; lia).
  destruct (Z.ltb_spec (arl_maxWindow s) (arl_currentWindow s + 1)); simpl; split_and!; lia.
Qed.
End WindowGrowth.

(** ** Main theorems *)

(** The configurations [LoadAdaptiveRateLimiterConfig] accepts whose sizes fit
    the limiter's int32 window. *)
Definition adaptive_config_ok (cfg : AdaptiveRateLimiterConfig) : Prop :=
  arc_Enabled cfg = true ∧ 1 ≤ arc_MinSize cfg ≤ arc_MaxSize cfg ∧ arc_MaxSize cfg < MaxInt32.

(** C11. The outstanding-work tracker never loses or double-counts a slot: in
    every state reachable by interleaving callers, completions, expirations
    and their critical sections, the window stays within its configured
    bounds, [currentSize] is the number of outstanding entries and at most
    [maxWindow], and an id is outstanding exactly when its work was issued and
    has not yet been released. *)
Theorem tracker_slots_exact cfg t s :
  adaptive_config_ok cfg → NewAdaptiveRateLimitTracker cfg = Some t →
  rtc tracker_step (tracker_system_init t) s →
  arc_MinSize cfg ≤ trk_currentWindow (ts_tracker s) ≤ arc_MaxSize cfg ∧
  trk_currentSize (ts_tracker s) = Z.of_nat (size (trk_outstandingWork (ts_tracker s))) ∧
  trk_currentSize (ts_tracker s) ≤ arc_MaxSize cfg ∧
  ∀ id, is_Some (trk_outstandingWork (ts_tracker s) !! id) ↔
    is_Some (ts_issued s !! id) ∧ (id ∉ ts_completed s ∨ is_Some (ts_finishing s !! id)).
Proof.
  intros (Hen & [? ?] & Hmax) Hnew Hr.
  assert (ts_inv (arc_MinSize cfg) (arc_MaxSize cfg) s) as [[] ? ? ? ? ? ?];
    [|by unfold window_ok in *].
  eapply rtc_invariant; [|..|exact Hr].
  - intros. eapply ts_inv_step; eauto; lia.
  - unfold NewAdaptiveRateLimitTracker in Hnew. rewrite Hen in Hnew.
    unfold MaxInt32 in *. simplify_eq/=.
    rewrite !int32_small by (unfold in_int32; lia).
    split; simpl; try done.
    + split; simpl; try done; unfold window_ok; lia.
    + intros id. rewrite !lookup_empty.
      split; [by intros []%is_Some_None|by intros [[]%is_Some_None ?]].
    + intros id. rewrite lookup_empty. by intros []%is_Some_None.
    + intros w Hw. by apply elem_of_nil in Hw.
Qed.

(** Backpressure is exact: while the limiter is open, a caller that was
    admitted always finds room in the work queue, so the [default] branch of
    its select ("too many updates" after admission) is never taken; the window
    stays within its bounds and [currentSize] counts the admitted callers. *)
Theorem adaptive_admitted_finds_room {E} (outcome : nat → option E) cfg s0 s w p :
  adaptive_config_ok cfg → NewAdaptiveRateLimiter cfg = Some s0 →
  rtc (arl_step outcome (arc_MaxSize cfg)) s0 s →
  arl_closed s = false → arl_callers s !! w = Some (AReserved p) →
  Z.of_nat (length (arl_queue s)) < arc_MaxSize cfg ∧
  arc_MinSize cfg ≤ arl_currentWindow s ≤ arc_MaxSize cfg ∧
  arl_currentSize s = Z.of_nat (arl_holders s).
Proof.
  intros (Hen & [? ?] & Hmax) Hnew Hr Hcl Hw.
  assert (arl_inv (arc_MinSize cfg) (arc_MaxSize cfg) s) as Hinv.
  { eapply rtc_invariant; [|eapply arl_inv_init; eauto; lia|exact Hr].
    intros. eapply arl_inv_step; eauto; lia. }
  pose proof (arl_pending_lt _ _ s w p Hinv Hcl Hw) as Hlt.
  unfold arl_pending in Hlt. rewrite length_app in Hlt.
  pose proof (arli_size_max _ _ _ Hinv). pose proof (arli_size _ _ _ Hinv).
  pose proof (arli_window _ _ _ Hinv) as [? ?]. split_and!; lia.
Qed.

(** The plain limiter runs accepted work in order and at most once: the
    items queued are the items run, then the one being run, then the queue;
    a caller that gets a run result gets its own function's result, after its
    function ran; the queue never exceeds its capacity. *)
Theorem default_limiter_fifo_once {E} (outcome : nat → option E) QueueSize s :
  rtc (drl_step outcome QueueSize) drl_init s →
  drl_accepted s = drl_executed s ++ drl_in_worker s ++ drl_queue s ∧
  NoDup (drl_executed s) ∧
  (length (drl_queue s) ≤ QueueSize)%nat ∧
  (∀ w r, drl_callers s !! w = Some (DReturned (RunResult r)) →
     r = outcome w ∧ w ∈ drl_executed s) ∧
  drl_currentSize s =
    int32 (Z.of_nat (length (drl_queue s)) + drl_undecremented s
           - Z.of_nat (count_if drl_is_pushed (drl_callers s))).
Proof.
  intros [Hf Hn _ _ Hr Hc Hs]%drl_inv_reachable. split_and!; try done.
  rewrite Hf in Hn. by apply NoDup_app in Hn as [? _].
Qed.

(** Ten successes widen a window that is below its maximum by exactly one
    slot, whatever the phase of the success counter. *)
Theorem ten_successes_widen_by_one {E} (s : adaptiveRateLimiter E) :
  arl_currentWindow s < arl_maxWindow s → arl_maxWindow s < MaxInt32 →
  0 ≤ arl_currentWindow s → 0 ≤ arl_successCounter s < 2 ^ 32 - 10 →
  arl_currentWindow (Nat.iter 10 adaptiveRateLimiter_success s) = arl_currentWindow s + 1.
Proof.
  intros Hw Hm Hw0 Hc.
  pose proof (Z.mod_pos_bound (arl_successCounter s) 10 ltac:(lia)) as Hb.
  pose proof (Z.div_mod (arl_successCounter s) 10 ltac:(lia)) as Hd.
  set (m := arl_successCounter s mod 10) in *.
  set (k := Z.to_nat (9 - m)).
  replace 10%nat with (9 - k + S k)%nat by lia. rewrite Nat.iter_add.
  destruct (success_steady s k) as (Hw1 & Hc1 & Hm1); [|lia|].
  { intros i Hi. apply mod10_ne with (arl_successCounter s / 10); lia. }
  rewrite decide_True in Hc1 by done.
  destruct (success_widen (Nat.iter k adaptiveRateLimiter_success s)) as (Hw2 & Hc2 & Hm2);
    [lia|lia|lia|lia|rewrite Hc1; apply mod10_eq with (arl_successCounter s / 10 + 1); lia|].
  change (Nat.iter (S k) adaptiveRateLimiter_success s)
    with (adaptiveRateLimiter_success (Nat.iter k adaptiveRateLimiter_success s)).
  destruct (success_steady
    (adaptiveRateLimiter_success (Nat.iter k adaptiveRateLimiter_success s)) (9 - k))
    as (Hw3 & _ & _); [|lia|lia].
  intros i Hi. apply mod10_ne with (arl_successCounter s / 10 + 1); lia.
Qed.

(** The configuration loader accepts a [maxSize] above the int32 range
    (and negative ones, which convert to such a uint32), and the limiter built
    from it admits nobody: its window is negative. *)
Theorem oversized_window_rejects_all (ParseDuration : string → option Z) (n : Z) :
  2 ^ 31 ≤ n < 2 ^ 32 →
  ∃ cfg, LoadAdaptiveRateLimiterConfig ParseDuration
           (AdaptiveRateLimiterConfig_SetDefaults (mkAdaptiveConfig false 0 0 0))
           {["maxSize"%string := CfgInt n]} = Ok cfg ∧
  ∀ s : adaptiveRateLimiter unit,
    NewAdaptiveRateLimiter cfg = Some s → adaptiveRateLimiter_admit s = None.
Proof.
  intros Hn. unfold LoadAdaptiveRateLimiterConfig. cbv zeta.
  rewrite (lookup_singleton_ne "maxSize"%string "enabled"%string) by done.
  rewrite (lookup_singleton_ne "maxSize"%string "minSize"%string) by done.
  rewrite (lookup_singleton_ne "maxSize"%string "timeout"%string) by done.
  rewrite lookup_singleton_eq.
  rewrite wrap_u_small by lia. simpl.
  destruct (Z.ltb_spec n DefaultAdaptiveRateLimiterMinWindowSize) as [Hlt|_];
    [unfold DefaultAdaptiveRateLimiterMinWindowSize in Hlt; lia|].
  eexists. split; [done|]. intros s [= <-].
  unfold adaptiveRateLimiter_admit. simpl.
  replace (int32 n) with (n - 2 ^ 32); [|unfold wrap_s; simpl].
  - change (int32 (0 + 1)) with 1. destruct (Z.leb_spec 1 (n - 2 ^ 32)); [lia|done].
  - change (2 ^ (32 - 1)) with (2 ^ 31).
    rewrite <- (Z.mod_unique (n + 2 ^ 31) (2 ^ 32) 1 (n - 2 ^ 31)) by lia. lia.
Qed.

(** *** Witnesses *)

Definition witness_config : AdaptiveRateLimiterConfig := mkAdaptiveConfig true 250 5 1000.

Lemma tracker_slots_exact_witness :
  ∃ s, trk_currentSize (ts_tracker s) = 1 ∧ trk_currentSize (ts_tracker s) ≤ 250.
Proof.
  set (t := mkTracker 250 5 250 1000 0 0 ∅).
  set (w := mkWork "a" 1 7 "job").
  set (s := mkTrackerSystem (mkTracker 250 5 250 1000 0 1 {["a"%string := w]})
              {["a"%string := w]} ∅ ∅ []).
  exists s. split; [done|].
  apply (tracker_slots_exact witness_config t s); [vm_compute; done|done|].
  eapply rtc_l; [|apply rtc_refl].
  apply (trk_run_ok (tracker_system_init t) "job" "a" 7 w _); done.
Defined.

Lemma adaptive_admitted_finds_room_witness :
  ∃ s : adaptiveRateLimiter unit,
    arl_callers s !! 0%nat = Some (AReserved 1) ∧ Z.of_nat (length (arl_queue s)) < 250.
Proof.
  set (s0 := mkARL 250 5 250 0 0 [] None ∅ ∅ 0 [] false : adaptiveRateLimiter unit).
  exists (arl_set_caller 0 (AReserved 1) 1 s0). split; [done|].
  apply (adaptive_admitted_finds_room (λ _, None) witness_config s0 _ 0 1);
    [vm_compute; done|done| |done|done].
  eapply rtc_l; [|apply rtc_refl]. by apply arl_admit_ok.
Defined.

Lemma default_limiter_fifo_once_witness :
  ∃ s : DefaultRateLimiter (E:=unit),
    drl_accepted s = [3%nat] ∧ (length (drl_queue s) ≤ 10)%nat.
Proof.
  eexists. split; [|apply (default_limiter_fifo_once (λ _, None) 10)].
  2: { eapply rtc_l; [|apply rtc_refl]. apply (drl_send _ _ drl_init 3); [done|simpl; lia]. }
  done.
Defined.

Lemma ten_successes_widen_by_one_witness :
  arl_currentWindow (Nat.iter 10 adaptiveRateLimiter_success
    (mkARL 7 5 250 3 0 [] None ∅ ∅ 0 [] false : adaptiveRateLimiter unit)) = 8.
Proof. apply ten_successes_widen_by_one; simpl; unfold MaxInt32; lia. Defined.

Lemma oversized_window_rejects_all_witness :
  ∃ cfg, LoadAdaptiveRateLimiterConfig (λ _, None)
           (AdaptiveRateLimiterConfig_SetDefaults (mkAdaptiveConfig false 0 0 0))
           {["maxSize"%string := CfgInt 4294967295]} = Ok cfg.
Proof.
  destruct (oversized_window_rejects_all (λ _, None) 4294967295) as (cfg & H & _); [lia|].
  by exists cfg.
Defined.
