(* ===== verification/NetModel.v ===== *)
(** * The controller's view of the fabric: routers, links and their tables

    controller/model/{router_model,router_manager,link_model,link_manager}.go.
    Go pointers are references into two heaps, one of routers and one of
    links; two [*Router] objects may carry the same id (an old and a new
    connection of one router), and the code distinguishes them by pointer in
    some places and by id in others. The concurrent maps are finite maps; a
    method that holds a lock or runs on one goroutine is one state transition. *)

From stdpp Require Import base gmap list strings fin_maps.
From Stdlib Require Import ZArith Lia.
From S2P Require Import Prelude.

Open Scope Z_scope.

Abbreviation RouterRef := nat.
Abbreviation LinkRef := nat.

(** ** Links *)

Inductive LinkMode := Connected | Failed | Duplicate.
#[global] Instance LinkMode_eq_dec : EqDecision LinkMode.
Proof. solve_decision. Defined.

Definition LinkMode_String (t : LinkMode) : string :=
  match t with
  | Connected => "Connected"
  | Failed => "Failed"
  | Duplicate => "Duplicate"
  end.

Record LinkState := mkLinkState {
  ls_Mode : LinkMode;
  ls_Timestamp : Z;
}.

(** [ctrl_pb.LinkConnState]: its iteration orders the updates. *)
Record LinkConnState := mkLinkConnState {
  lcs_StateIteration : Z;
  lcs_Conns : list (string * string * string);
}.

Record Link := mkLink {
  l_Id : string;
  l_SrcLatency : Z;             (* int64, nanoseconds *)
  l_DstLatency : Z;
  l_Cost : Z;                   (* int64, derived *)
  l_Iteration : Z;              (* uint32 *)
  l_Src : RouterRef;
  l_DstId : string;
  l_Dst : option RouterRef;
  l_Protocol : string;
  l_DialAddress : string;
  l_state : LinkState;
  l_down : bool;
  l_StaticCost : Z;             (* int32 *)
  l_connState : option LinkConnState;
  l_usable : bool;              (* derived *)
}.

Definition Link_recalculateUsable (l : Link) : Link :=
  mkLink (l_Id l) (l_SrcLatency l) (l_DstLatency l) (l_Cost l) (l_Iteration l)
    (l_Src l) (l_DstId l) (l_Dst l) (l_Protocol l) (l_DialAddress l) (l_state l)
    (l_down l) (l_StaticCost l) (l_connState l)
    (if l_down l then false
     else if negb (bool_decide (ls_Mode (l_state l) = Connected)) then false
     else true).

Definition Link_RecalculateCost (l : Link) : Link :=
  mkLink (l_Id l) (l_SrcLatency l) (l_DstLatency l)
    (int64 (l_StaticCost l + Z.quot (l_SrcLatency l) 1000000
            + Z.quot (l_DstLatency l) 1000000))
    (l_Iteration l) (l_Src l) (l_DstId l) (l_Dst l) (l_Protocol l) (l_DialAddress l)
    (l_state l) (l_down l) (l_StaticCost l) (l_connState l) (l_usable l).

(** [newLink]: [now] is [time.Now().UnixMilli()]; [src] is filled in by the
    caller right after. *)
Definition newLink (id linkProtocol dialAddress : string) (initialLatency now : Z)
    (src : RouterRef) : Link :=
  Link_recalculateUsable (Link_RecalculateCost
    (mkLink id initialLatency initialLatency 0 0 src "" None linkProtocol dialAddress
       (mkLinkState Connected now) false 1 None false)).

Definition Link_SetState (m : LinkMode) (now : Z) (l : Link) : Link :=
  Link_recalculateUsable
    (mkLink (l_Id l) (l_SrcLatency l) (l_DstLatency l) (l_Cost l) (l_Iteration l)
       (l_Src l) (l_DstId l) (l_Dst l) (l_Protocol l) (l_DialAddress l)
       (mkLinkState m now) (l_down l) (l_StaticCost l) (l_connState l) (l_usable l)).

(** A nil [state] has iteration 0 ([GetStateIteration] of a nil message). *)
Definition Link_SetConnsState (state : option LinkConnState) (l : Link) : Link :=
  let newIteration := from_option lcs_StateIteration 0 state in
  match l_connState l with
  | Some cur =>
    if lcs_StateIteration cur <? newIteration then
      mkLink (l_Id l) (l_SrcLatency l) (l_DstLatency l) (l_Cost l) (l_Iteration l)
        (l_Src l) (l_DstId l) (l_Dst l) (l_Protocol l) (l_DialAddress l) (l_state l)
        (l_down l) (l_StaticCost l) state (l_usable l)
    else l
  | None =>
    mkLink (l_Id l) (l_SrcLatency l) (l_DstLatency l) (l_Cost l) (l_Iteration l)
      (l_Src l) (l_DstId l) (l_Dst l) (l_Protocol l) (l_DialAddress l) (l_state l)
      (l_down l) (l_StaticCost l) state (l_usable l)
  end.

Definition Link_SetDown (down : bool) (l : Link) : Link :=
  Link_recalculateUsable
    (mkLink (l_Id l) (l_SrcLatency l) (l_DstLatency l) (l_Cost l) (l_Iteration l)
       (l_Src l) (l_DstId l) (l_Dst l) (l_Protocol l) (l_DialAddress l) (l_state l)
       down (l_StaticCost l) (l_connState l) (l_usable l)).

Definition Link_SetStaticCost (cost : Z) (l : Link) : Link :=
  Link_RecalculateCost
    (mkLink (l_Id l) (l_SrcLatency l) (l_DstLatency l) (l_Cost l) (l_Iteration l)
       (l_Src l) (l_DstId l) (l_Dst l) (l_Protocol l) (l_DialAddress l) (l_state l)
       (l_down l) cost (l_connState l) (l_usable l)).

Definition Link_SetSrcLatency (latency : Z) (l : Link) : Link :=
  Link_RecalculateCost
    (mkLink (l_Id l) latency (l_DstLatency l) (l_Cost l) (l_Iteration l)
       (l_Src l) (l_DstId l) (l_Dst l) (l_Protocol l) (l_DialAddress l) (l_state l)
       (l_down l) (l_StaticCost l) (l_connState l) (l_usable l)).

Definition Link_SetDstLatency (latency : Z) (l : Link) : Link :=
  Link_RecalculateCost
    (mkLink (l_Id l) (l_SrcLatency l) latency (l_Cost l) (l_Iteration l)
       (l_Src l) (l_DstId l) (l_Dst l) (l_Protocol l) (l_DialAddress l) (l_state l)
       (l_down l) (l_StaticCost l) (l_connState l) (l_usable l)).

Definition Link_setDst (dst : option RouterRef) (l : Link) : Link :=
  mkLink (l_Id l) (l_SrcLatency l) (l_DstLatency l) (l_Cost l) (l_Iteration l)
    (l_Src l) (l_DstId l) dst (l_Protocol l) (l_DialAddress l) (l_state l)
    (l_down l) (l_StaticCost l) (l_connState l) (l_usable l).

(** ** Routers and their per-router link indexes *)

Record RouterLinks := mkRouterLinks {
  rl_allLinks : list LinkRef;
  rl_linkByRouter : gmap string (list LinkRef);
}.

(** A missing entry of a Go map reads as the nil slice. *)
Definition byRouter (rl : RouterLinks) (id : string) : list LinkRef :=
  default [] (rl_linkByRouter rl !! id).

Definition RouterLinks_Add (link : LinkRef) (otherRouterId : string) (rl : RouterLinks)
    : RouterLinks :=
  mkRouterLinks (rl_allLinks rl ++ [link])
    (<[otherRouterId := link :: byRouter rl otherRouterId]> (rl_linkByRouter rl)).

Definition RouterLinks_Remove (link : LinkRef) (otherRouterId : string) (rl : RouterLinks)
    : RouterLinks :=
  let newForRouterList := filter (λ l, l ≠ link) (byRouter rl otherRouterId) in
  mkRouterLinks (filter (λ l, l ≠ link) (rl_allLinks rl))
    (match newForRouterList with
     | [] => delete otherRouterId (rl_linkByRouter rl)
     | _ => <[otherRouterId := newForRouterList]> (rl_linkByRouter rl)
     end).

Definition RouterLinks_Clear : RouterLinks := mkRouterLinks [] ∅.

Record Router := mkRouter {
  r_Id : string;
  r_Name : string;
  r_Fingerprint : option string;
  r_Connected : bool;
  r_routerLinks : RouterLinks;
  r_Cost : Z;                   (* uint16 *)
  r_NoTraversal : bool;
  r_Disabled : bool;
}.

Definition NewRouter (id name fingerprint : string) (cost : Z) (noTraversal : bool) : Router :=
  mkRouter id (if bool_decide (name = ""%string) then id else name) (Some fingerprint)
    false RouterLinks_Clear cost noTraversal false.

Definition Router_setConnected (b : bool) (r : Router) : Router :=
  mkRouter (r_Id r) (r_Name r) (r_Fingerprint r) b (r_routerLinks r) (r_Cost r)
    (r_NoTraversal r) (r_Disabled r).
Definition Router_setLinks (rl : RouterLinks) (r : Router) : Router :=
  mkRouter (r_Id r) (r_Name r) (r_Fingerprint r) (r_Connected r) rl (r_Cost r)
    (r_NoTraversal r) (r_Disabled r).

(** ** The fabric state *)

Record Net := mkNet {
  n_routers : gmap RouterRef Router;   (* heap of *Router *)
  n_links : gmap LinkRef Link;         (* heap of *Link *)
  n_linkTable : gmap string LinkRef;   (* LinkManager.linkTable *)
  n_connected : gmap string RouterRef; (* RouterManager.connected *)
}.

(** What a dangling pointer would read; no operation below creates one. *)
Definition nilRouter : Router := mkRouter "" "" None false RouterLinks_Clear 0 false false.
Definition nilLink : Link :=
  mkLink "" 0 0 0 0 0 "" None "" "" (mkLinkState Failed 0) true 0 None false.

Definition router (n : Net) (r : RouterRef) : Router := default nilRouter (n_routers n !! r).
Definition link (n : Net) (l : LinkRef) : Link := default nilLink (n_links n !! l).

Definition upd_router (r : RouterRef) (f : Router → Router) (n : Net) : Net :=
  mkNet (alter f r (n_routers n)) (n_links n) (n_linkTable n) (n_connected n).
Definition upd_link (l : LinkRef) (f : Link → Link) (n : Net) : Net :=
  mkNet (n_routers n) (alter f l (n_links n)) (n_linkTable n) (n_connected n).
Definition upd_routerLinks (r : RouterRef) (f : RouterLinks → RouterLinks) : Net → Net :=
  upd_router r (λ x, Router_setLinks (f (r_routerLinks x)) x).

(** ** linkTable *)

Definition linkTable_add (l : LinkRef) (n : Net) : Net :=
  mkNet (n_routers n) (n_links n) (<[l_Id (link n l) := l]> (n_linkTable n)) (n_connected n).
Definition linkTable_get (n : Net) (linkId : string) : option LinkRef := n_linkTable n !! linkId.
Definition linkTable_has (n : Net) (l : LinkRef) : bool :=
  match n_linkTable n !! l_Id (link n l) with Some _ => true | None => false end.
Definition linkTable_all (n : Net) : list LinkRef := (map_to_list (n_linkTable n)).*2.
Definition linkTable_allInMode (n : Net) (mode : LinkMode) : list LinkRef :=
  filter (λ l, ls_Mode (l_state (link n l)) = mode) (linkTable_all n).

(** [RemoveCb]: the entry goes when it carries the same iteration. *)
Definition linkTable_remove (l : LinkRef) (n : Net) : Net * bool :=
  match n_linkTable n !! l_Id (link n l) with
  | Some v =>
    if l_Iteration (link n v) =? l_Iteration (link n l)
    then (mkNet (n_routers n) (n_links n) (delete (l_Id (link n l)) (n_linkTable n))
            (n_connected n), true)
    else (n, false)
  | None => (n, false)
  end.

(** ** LinkManager *)

Definition LinkManager_Get (n : Net) (linkId : string) : option LinkRef := linkTable_get n linkId.

Definition LinkManager_Add (l : LinkRef) (n : Net) : Net :=
  let n := linkTable_add l n in
  let lk := link n l in
  let n := upd_routerLinks (l_Src lk) (RouterLinks_Add l (l_DstId lk)) n in
  match l_Dst lk with
  | Some dest => upd_routerLinks dest (RouterLinks_Add l (r_Id (router n (l_Src lk)))) n
  | None => n
  end.

Definition LinkManager_Remove (l : LinkRef) (n : Net) : Net :=
  let lk := link n l in
  let '(n, removed) := linkTable_remove l n in
  if removed then
    let n := upd_routerLinks (l_Src lk) (RouterLinks_Remove l (l_DstId lk)) n in
    match l_Dst lk with
    | Some dest => upd_routerLinks dest (RouterLinks_Remove l (r_Id (router n (l_Src lk)))) n
    | None => n
    end
  else n.

Definition LinkManager_BuildRouterLinks (r : RouterRef) (n : Net) : Net :=
  foldl (λ n l,
    if bool_decide (l_DstId (link n l) = r_Id (router n r)) then
      upd_link l (Link_setDst (Some r))
        (upd_routerLinks r (RouterLinks_Add l (r_Id (router n (l_Src (link n l))))) n)
    else n) n (linkTable_all n).

Definition LinkManager_ScanForDeadLinks (n : Net) : Net :=
  foldl (λ n l, LinkManager_Remove l n) n
    (filter (λ l, r_Connected (router n (l_Src (link n l))) = false) (linkTable_all n)).

(** [ctrl_pb.RouterLinks_RouterLink] *)
Record RouterLink := mkReported {
  rep_Id : string;
  rep_DestRouterId : string;
  rep_LinkProtocol : string;
  rep_DialAddress : string;
  rep_Iteration : Z;
  rep_ConnState : option LinkConnState;
}.

(** The allocation of a [Link] object takes a reference that is not in use. *)
Definition fresh_link (n : Net) : LinkRef := fresh (dom (n_links n)).

(** The link object made for a report. *)
Definition reportedLink (initialLatency now : Z) (rep : RouterLink) (src : RouterRef)
    (dst : option RouterRef) : Link :=
  let lk := newLink (rep_Id rep) (rep_LinkProtocol rep) (rep_DialAddress rep)
              initialLatency now src in
  let lk := mkLink (l_Id lk) (l_SrcLatency lk) (l_DstLatency lk) (l_Cost lk)
              (rep_Iteration rep) src (rep_DestRouterId rep) dst (l_Protocol lk)
              (l_DialAddress lk) (l_state lk) (l_down lk) (l_StaticCost lk)
              (l_connState lk) (l_usable lk) in
  Link_SetConnsState (rep_ConnState rep) (Link_SetState Connected now lk).

Definition createReported (initialLatency now : Z) (rep : RouterLink) (src : RouterRef)
    (dst : option RouterRef) (n : Net) : Net * (LinkRef * bool) :=
  let l := fresh_link n in
  let n := mkNet (n_routers n)
             (<[l := reportedLink initialLatency now rep src dst]> (n_links n))
             (n_linkTable n) (n_connected n) in
  (LinkManager_Add l n, (l, true)).

Definition LinkManager_RouterReportedLink (initialLatency now : Z) (rep : RouterLink)
    (src : RouterRef) (dst : option RouterRef) (n : Net) : Net * (LinkRef * bool) :=
  match LinkManager_Get n (rep_Id rep) with
  | Some l =>
    if l_Iteration (link n l) >=? rep_Iteration rep then (n, (l, false))
    else createReported initialLatency now rep src dst (LinkManager_Remove l n)
  | None => createReported initialLatency now rep src dst n
  end.

(** The neighbours reachable over a usable link whose destination router is
    connected, keyed by id as in the code. *)
Definition LinkManager_neighborMap (n : Net) (r : RouterRef) : gmap string RouterRef :=
  foldl (λ m l,
    let lk := link n l in
    match l_Dst lk with
    | Some dstRouter =>
      if r_Connected (router n dstRouter) && l_usable lk then
        let m := if bool_decide (r_Id (router n (l_Src lk)) = r_Id (router n r)) then m
                 else <[r_Id (router n (l_Src lk)) := l_Src lk]> m in
        if bool_decide (l_DstId lk = r_Id (router n r)) then m
        else <[l_DstId lk := dstRouter]> m
      else m
    | None => m
    end) ∅ (rl_allLinks (r_routerLinks (router n r))).

Definition LinkManager_ConnectedNeighborsOfRouter (n : Net) (r : RouterRef) : list RouterRef :=
  (map_to_list (LinkManager_neighborMap n r)).*2.

Definition LinkManager_LeastExpensiveLink (n : Net) (a b : RouterRef) : option LinkRef :=
  fst (foldl (λ '(selected, cost) l,
    let lk := link n l in
    if l_usable lk then
      if bool_decide (l_DstId lk = r_Id (router n b)) then
        if l_Cost lk <? cost then (Some l, l_Cost lk) else (selected, cost)
      else if bool_decide (r_Id (router n (l_Src lk)) = r_Id (router n b)) then
        if l_Cost lk <? cost then (Some l, l_Cost lk) else (selected, cost)
      else (selected, cost)
    else (selected, cost)) (None, MaxInt64)
    (byRouter (r_routerLinks (router n a)) (r_Id (router n b)))).

Definition LinkManager_LinksInMode (n : Net) (mode : LinkMode) : list LinkRef :=
  linkTable_allInMode n mode.

(** ** RouterManager: the connected set *)

(** [closeControl] closes the control channel of a router object; its close
    handler changes the state and yields effects of type [A]. *)
Definition RouterManager_MarkConnected {A} (closeControl : RouterRef → Net → Net * list A)
    (r : RouterRef) (n : Net) : Net * list A :=
  let '(n, eff) := match n_connected n !! r_Id (router n r) with
                   | Some old => closeControl old n
                   | None => (n, [])
                   end in
  let n := upd_router r (Router_setConnected true) n in
  (mkNet (n_routers n) (n_links n) (n_linkTable n)
    (<[r_Id (router n r) := r]> (n_connected n)), eff).

Definition RouterManager_MarkDisconnected (r : RouterRef) (n : Net) : Net :=
  let n := upd_router r (Router_setConnected false) n in
  let n := mkNet (n_routers n) (n_links n) (n_linkTable n)
             (match n_connected n !! r_Id (router n r) with
              | Some v => if bool_decide (v = r) then delete (r_Id (router n r)) (n_connected n)
                          else n_connected n
              | None => n_connected n
              end) in
  upd_routerLinks r (λ _, RouterLinks_Clear) n.

Definition RouterManager_IsConnected (n : Net) (id : string) : bool :=
  match n_connected n !! id with Some _ => true | None => false end.
Definition RouterManager_GetConnected (n : Net) (id : string) : option RouterRef :=
  n_connected n !! id.
Definition RouterManager_AllConnected (n : Net) : list RouterRef :=
  (map_to_list (n_connected n)).*2.
