(* ===== verification/ShortestPath.v ===== *)
(** * Path selection (controller/network/network_path.go, network.go)

    [shortestPath] is Dijkstra's algorithm over the connected routers. The
    iteration order of a Go map is unspecified: every range over a map goes
    through an oracle [ord], which may answer differently at each use and is
    only assumed to return a permutation. The theorems hold for every oracle.
    The outer loop is bounded by the number of unvisited routers, the walk back
    over [prev] by the number of connected ones; running out of either bound
    would be the error [PathLoop], which is proved unreachable. *)

From stdpp Require Import base gmap list strings fin_maps.
From Stdlib Require Import ZArith Lia.
From S2P Require Import Prelude NetModel.

Open Scope Z_scope.

Inductive path_error :=
| NotRoutable                          (* "not routable (!srcR||!dstR)" *)
| CantRoute (srcId dstId : string)     (* "can't route from %v -> %v" *)
| DestUnreachable (srcId dstId : string)
| NoLink (aId bId : string)            (* "no link from r/%v to r/%v" *)
| NodesOutOfRange                      (* panic: Nodes is empty *)
| PathLoop.                            (* the bounded loops ran out *)

Section Dijkstra.
Context (ord : nat → list RouterRef → list RouterRef).
Context (n : Net) (minRouterCost : Z).

(** A missing key of a Go map reads as 0. *)
Definition getDist (dist : gmap RouterRef Z) (r : RouterRef) : Z := default 0 (dist !! r).

(** [minCost]: the last of the cheapest, in iteration order. *)
Definition minCost (q : list RouterRef) (dist : gmap RouterRef Z) : option RouterRef :=
  if (size dist <? 1)%nat then None
  else fst (foldl (λ '(selected, currentMin) r,
              let d := getDist dist r in
              if d <=? currentMin then (Some r, d) else (selected, currentMin))
            (None, MaxInt64) q).

(** The cost the inner loop adds for the hop from [u] to [r]. *)
Definition hopCost (srcR dstR u r : RouterRef) : Z :=
  match LinkManager_LeastExpensiveLink n r u with
  | Some l =>
    if negb (r_NoTraversal (router n r)) || bool_decide (r = srcR) || bool_decide (r = dstR)
    then int64 (l_Cost (link n l) + Z.max (r_Cost (router n r)) minRouterCost)
    else MaxInt32 + 1
  | None => MaxInt32 + 1
  end.

Definition paths := (gmap RouterRef Z * gmap RouterRef RouterRef)%type.

(** The body of the loop over the neighbours. *)
Definition relax (srcR dstR u : RouterRef) (unvisited : gset RouterRef)
    (st : paths) (r : RouterRef) : paths :=
  let '(dist, prev) := st in
  if decide (r ∈ unvisited) then
    let alt := int64 (getDist dist u + hopCost srcR dstR u r) in
    if alt <? getDist dist r then (<[r:=alt]> dist, <[r:=u]> prev) else (dist, prev)
  else (dist, prev).

Fixpoint explore (fuel : nat) (srcR dstR : RouterRef) (unvisited : gset RouterRef)
    (st : paths) : option paths :=
  if decide (unvisited = ∅) then Some st else
  match fuel with
  | O => None
  | S fuel =>
    match minCost (ord (2 * fuel) (elements unvisited)) st.1 with
    | None => None
    | Some u =>
      if decide (u = dstR) then Some st
      else
        let unvisited := unvisited ∖ {[u]} in
        explore fuel srcR dstR unvisited
          (foldl (relax srcR dstR u unvisited) st
             (ord (2 * fuel + 1) (LinkManager_ConnectedNeighborsOfRouter n u)))
    end
  end.

(** [for p != nil { routerPath = append([]*Router{p}, routerPath...); p = prev[p] }] *)
Fixpoint walkBack (fuel : nat) (prev : gmap RouterRef RouterRef) (p : option RouterRef)
    (routerPath : list RouterRef) : option (list RouterRef) :=
  match p with
  | None => Some routerPath
  | Some q =>
    match fuel with
    | O => None
    | S fuel => walkBack fuel prev (prev !! q) (q :: routerPath)
    end
  end.

Definition shortestPath (srcR dstR : option RouterRef)
    : result (list RouterRef * Z) path_error :=
  match srcR, dstR with
  | Some srcR, Some dstR =>
    if decide (srcR = dstR) then Ok ([srcR], 0)
    else
      let connected := RouterManager_AllConnected n in
      let dist := foldl (λ d r, <[r:=MaxInt32]> d) ∅ connected in
      let unvisited := list_to_set connected : gset RouterRef in
      match explore (size unvisited) srcR dstR unvisited (<[srcR:=0]> dist, ∅) with
      | None => Err PathLoop
      | Some (dist, prev) =>
        match walkBack (size unvisited) prev (prev !! dstR) [] with
        | None => Err PathLoop
        | Some routerPath =>
          let routerPath := routerPath ++ [dstR] in
          if negb (bool_decide (head routerPath = Some srcR))
          then Err (CantRoute (r_Id (router n srcR)) (r_Id (router n dstR)))
          else if negb (bool_decide (last routerPath = Some dstR))
          then Err (DestUnreachable (r_Id (router n srcR)) (r_Id (router n dstR)))
          else Ok (routerPath, getDist dist dstR)
        end
      end
  | _, _ => Err NotRoutable
  end.

End Dijkstra.

(** ** Specification: walks of the fabric *)

Section Walks.
Context (n : Net) (minRouterCost : Z) (srcR dstR : RouterRef).

Definition connectedSet : gset RouterRef := list_to_set (RouterManager_AllConnected n).

(** One hop: both routers are connected, they are neighbours over a usable
    link, and a router that may not be traversed is only entered as an end of
    the path. The weight is the cheapest link plus the entered router's cost. *)
Definition hop (u r : RouterRef) (w : Z) : Prop :=
  u ∈ connectedSet ∧ r ∈ connectedSet ∧
  r ∈ LinkManager_ConnectedNeighborsOfRouter n u ∧
  (r_NoTraversal (router n r) = false ∨ r = srcR ∨ r = dstR) ∧
  ∃ l, LinkManager_LeastExpensiveLink n r u = Some l ∧
       w = l_Cost (link n l) + Z.max (r_Cost (router n r)) minRouterCost.

(** [walk p x c]: [p] is a path from the source to [x] of total cost [c]. *)
Inductive walk : list RouterRef → RouterRef → Z → Prop :=
| walk_start : srcR ∈ connectedSet → walk [srcR] srcR 0
| walk_hop p y c r w : walk p y c → hop y r w → walk (p ++ [r]) r (c + w).

Lemma walk_connected p x c : walk p x c → x ∈ connectedSet.
Proof. destruct 1 as [|p y c r w _ Hh]; [done|apply Hh]. Qed.

Lemma walk_head p x c : walk p x c → head p = Some srcR.
Proof.
  induction 1 as [|p y c r w Hp IH Hh]; [done|]. destruct p; [done|]. done.
Qed.
End Walks.

(** The costs the code computes with: link costs come from latencies and
    static costs and router costs from uint16 fields, so that sums stay in
    int64. *)
Record costs_ok (n : Net) (minRouterCost : Z) : Prop := mkCostsOk {
  co_link : ∀ l, 0 ≤ l_Cost (link n l) < 2 ^ 62;
  co_router : ∀ r, 0 ≤ r_Cost (router n r) < 2 ^ 16;
  co_min : 0 ≤ minRouterCost < 2 ^ 16;
}.

(** ** Correctness of the search *)

Section DijkstraProofs.
Context (ord : nat → list RouterRef → list RouterRef).
Context (ord_perm : ∀ k l, ord k l ≡ₚ l).
Context (n : Net) (minRouterCost : Z) (Hok : costs_ok n minRouterCost).
Context (srcR dstR : RouterRef) (Hne : srcR ≠ dstR).

Abbreviation conn := (connectedSet n).
Abbreviation nbrs := (LinkManager_ConnectedNeighborsOfRouter n).
Abbreviation hopc := (hopCost n minRouterCost srcR dstR).
Abbreviation edge := (hop n minRouterCost srcR dstR).

Lemma hopCost_range u r : 0 ≤ hopc u r < 2 ^ 62 + 2 ^ 32.
Proof.
  unfold hopCost, MaxInt32. destruct (LinkManager_LeastExpensiveLink n r u) as [l|]; [|lia].
  pose proof (co_link _ _ Hok l). pose proof (co_router _ _ Hok r).
  pose proof (co_min _ _ Hok).
  destruct (_ || _); [|lia]. rewrite int64_small by (unfold in_int64; lia). lia.
Qed.

Lemma edge_hopCost u r w : edge u r w → w = hopc u r.
Proof.
  intros (_ & _ & _ & Hnt & l & Hl & ->). unfold hopCost. rewrite Hl.
  pose proof (co_link _ _ Hok l). pose proof (co_router _ _ Hok r).
  pose proof (co_min _ _ Hok).
  assert (negb (r_NoTraversal (router n r)) || bool_decide (r = srcR) || bool_decide (r = dstR)
          = true) as ->.
  { rewrite !orb_true_iff, negb_true_iff, !bool_decide_eq_true. tauto. }
  rewrite int64_small by (unfold in_int64; lia). lia.
Qed.

Lemma hopCost_edge u r :
  u ∈ conn → r ∈ conn → r ∈ nbrs u → hopc u r ≤ MaxInt32 → edge u r (hopc u r).
Proof.
  intros Hu Hr Hn Hc. unfold hop. split_and!; try done.
  - unfold hopCost in Hc. destruct (LinkManager_LeastExpensiveLink n r u); [|lia].
    destruct (_ || _) eqn:Hb in Hc; [|lia].
    rewrite !orb_true_iff, negb_true_iff, !bool_decide_eq_true in Hb. tauto.
  - unfold hopCost in *. destruct (LinkManager_LeastExpensiveLink n r u) as [l|]; [|lia].
    exists l. split; [done|]. pose proof (co_link _ _ Hok l).
    pose proof (co_router _ _ Hok r). pose proof (co_min _ _ Hok).
    destruct (_ || _); [|lia]. rewrite int64_small by (unfold in_int64; lia). lia.
Qed.

(** [minCost] returns a cheapest element of a non-empty set. *)
Lemma minCost_fold dist q s m :
  (∀ v, v ∈ q → getDist dist v ≤ MaxInt64) →
  let res := foldl (λ '(selected, currentMin) r,
               let d := getDist dist r in
               if d <=? currentMin then (Some r, d) else (selected, currentMin)) (s, m) q in
  res.2 ≤ m ∧ (∀ v, v ∈ q → res.2 ≤ getDist dist v) ∧
  ((res = (s, m) ∧ ∀ v, v ∈ q → m < getDist dist v) ∨
   ∃ u, u ∈ q ∧ res = (Some u, getDist dist u)).
Proof.
  revert s m. induction q as [|r q IH]; intros s m Hq; cbn [foldl].
  - split_and!; [done|by intros v ?%elem_of_nil|left; split; [done|by intros v ?%elem_of_nil]].
  - cbv zeta in *. destruct (Z.leb_spec (getDist dist r) m) as [Hle|Hlt].
    + destruct (IH (Some r) (getDist dist r)) as (H1 & H2 & H3);
        [intros v Hv; apply Hq; by right|].
      split_and!; [lia|intros v [->|?]%elem_of_cons; [lia|by auto]|].
      right. destruct H3 as [[-> ?]|(u & Hu & ->)];
        [exists r; split; [left|done]|exists u; split; [by right|done]].
    + destruct (IH s m) as (H1 & H2 & H3); [intros v Hv; apply Hq; by right|].
      split_and!; [lia|intros v [->|?]%elem_of_cons; [lia|by auto]|].
      destruct H3 as [[-> Hall]|(u & Hu & ->)].
      * left. split; [done|]. intros v [->|?]%elem_of_cons; [lia|by auto].
      * right. exists u. split; [by right|done].
Qed.

Lemma minCost_spec dist q :
  q ≠ [] → size dist ≠ 0%nat → (∀ v, v ∈ q → getDist dist v ≤ MaxInt64) →
  ∃ u, minCost q dist = Some u ∧ u ∈ q ∧ ∀ v, v ∈ q → getDist dist u ≤ getDist dist v.
Proof.
  intros Hq Hd Hmax. unfold minCost.
  destruct (Nat.ltb_spec (size dist) 1) as [|_]; [lia|].
  destruct (minCost_fold dist q None MaxInt64 Hmax) as (_ & Hmin & [[_ Hall]|(u & Hu & Heq)]).
  - destruct q as [|v q]; [done|]. specialize (Hall v ltac:(left)).
    specialize (Hmax v ltac:(left)). lia.
  - exists u. cbv zeta in Heq. rewrite Heq. split_and!; [done|done|].
    intros v Hv. specialize (Hmin v Hv). cbv zeta in Hmin. by rewrite Heq in Hmin.
Qed.

Lemma getDist_insert_eq (d : gmap RouterRef Z) v x : getDist (<[v:=x]> d) v = x.
Proof. unfold getDist. by rewrite lookup_insert_eq. Qed.
Lemma getDist_insert_ne (d : gmap RouterRef Z) v v' x :
  v ≠ v' → getDist (<[v:=x]> d) v' = getDist d v'.
Proof. intros. unfold getDist. by rewrite lookup_insert_ne. Qed.

(** What one pass over the neighbours does to each router. *)
Lemma relax_spec u unv L dist prev dist' prev' :
  u ∉ unv →
  foldl (relax n minRouterCost srcR dstR u unv) (dist, prev) L = (dist', prev') →
  ∀ v, let alt := int64 (getDist dist u + hopc u v) in
  if decide (v ∈ unv ∧ v ∈ L ∧ alt < getDist dist v)
  then getDist dist' v = alt ∧ prev' !! v = Some u
  else getDist dist' v = getDist dist v ∧ prev' !! v = prev !! v.
Proof.
  intros Hu. revert dist' prev'. induction L as [|r L IH] using rev_ind; intros dist' prev' Hf v alt.
  - simpl in Hf. simplify_eq. rewrite decide_False; [done|]. intros (_ & []%elem_of_nil & _).
  - rewrite foldl_snoc in Hf. destruct (foldl _ _ L) as [d p] eqn:Hd.
    specialize (IH d p eq_refl). cbv zeta in IH.
    pose proof (IH u) as IHu. rewrite decide_False in IHu by tauto. destruct IHu as [IHu _].
    pose proof (IH v) as IHv. fold alt in IHv. unfold relax in Hf. rewrite IHu in Hf.
    assert (∀ P, (v ∈ L ++ [r]) ∧ P ↔ (v ∈ L ∧ P) ∨ (v = r ∧ P)) as Hin
      by (intros P; rewrite elem_of_app, list_elem_of_singleton; tauto).
    destruct (decide (r ∈ unv)) as [Hr|Hr]; [cbv zeta in Hf|].
    + destruct (Z.ltb_spec (int64 (getDist dist u + hopc u r)) (getDist d r)) as [Hlt|Hge];
        simplify_eq.
      * destruct (decide (r = v)) as [->|Hrv].
        { rewrite getDist_insert_eq, lookup_insert_eq.
          rewrite decide_True; [done|]. split; [done|].
          rewrite elem_of_app, list_elem_of_singleton. split; [by right|].
          fold alt in Hlt. case_decide as Hd'; destruct IHv as [IHv _]; lia. }
        rewrite getDist_insert_ne, lookup_insert_ne by done.
        destruct (decide (v ∈ unv ∧ v ∈ L ∧ alt < getDist dist v)) as [Hv|Hv];
          [rewrite decide_True; [exact IHv|]|rewrite decide_False; [exact IHv|]];
          rewrite Hin; intuition congruence.
      * destruct (decide (v ∈ unv ∧ v ∈ L ∧ alt < getDist dist v)) as [Hv|Hv].
        { rewrite decide_True; [done|]. rewrite Hin. tauto. }
        destruct IHv as [IHv1 IHv2]. rewrite decide_False; [done|]. rewrite Hin.
        intros [? [[? ?]|[-> ?]]]; [tauto|]. fold alt in Hge. lia.
    + simplify_eq. destruct (decide (v ∈ unv ∧ v ∈ L ∧ alt < getDist dist v)) as [Hv|Hv];
        [rewrite decide_True; [exact IHv|]|rewrite decide_False; [exact IHv|]];
        rewrite Hin; intuition congruence.
Qed.

(** The invariant of the outer loop. [vis] lists the visited routers, the
    last visited first. *)
Record dinv (vis : list RouterRef) (unv : gset RouterRef) (st : paths) : Prop := mkDinv {
  di_part : ∀ v, v ∈ conn ↔ v ∈ vis ∨ v ∈ unv;
  di_disj : ∀ v, v ∈ vis → v ∉ unv;
  di_nodup : NoDup vis;
  di_dom : size st.1 ≠ 0%nat;
  di_src : getDist st.1 srcR = 0;
  di_range : ∀ v, v ∈ conn → 0 ≤ getDist st.1 v ≤ MaxInt32;
  di_prev : ∀ v u, st.2 !! v = Some u →
    u ∈ vis ∧ v ∈ conn ∧ v ∈ nbrs u ∧
    getDist st.1 v = getDist st.1 u + hopc u v ∧ getDist st.1 v < MaxInt32;
  di_prev_src : st.2 !! srcR = None;
  di_order : ∀ a v b u, vis = a ++ v :: b → st.2 !! v = Some u → u ∈ b;
  di_none : ∀ v, v ∈ conn → v ≠ srcR → st.2 !! v = None → getDist st.1 v = MaxInt32;
  di_relaxed : ∀ u r, u ∈ vis → r ∈ nbrs u → r ∈ conn →
    getDist st.1 r ≤ getDist st.1 u + hopc u r;
  di_sorted : ∀ u v, u ∈ vis → v ∈ unv → getDist st.1 u ≤ getDist st.1 v;
}.

(** The pass over the neighbours as the invariant sees it: a router outside
    the unvisited set keeps its entry; another one either keeps it or gets the
    cheaper route through [u]. *)
Lemma relax_cases vis unv u L st st' :
  dinv vis unv st → u ∈ unv →
  foldl (relax n minRouterCost srcR dstR u (unv ∖ {[u]})) st L = st' →
  ∀ v, (getDist st'.1 v = getDist st.1 v ∧ st'.2 !! v = st.2 !! v ∧
        (v ∈ unv ∖ {[u]} → v ∈ L → getDist st.1 v ≤ getDist st.1 u + hopc u v)) ∨
       (v ∈ unv ∖ {[u]} ∧ v ∈ L ∧ getDist st'.1 v = getDist st.1 u + hopc u v ∧
        getDist st'.1 v < getDist st.1 v ∧ st'.2 !! v = Some u).
Proof.
  destruct st as [dist prev], st' as [dist' prev']. intros Hinv Hu Hf v.
  assert (u ∈ conn) as Huc by (apply (di_part _ _ _ Hinv); by right).
  pose proof (di_range _ _ _ Hinv u Huc) as Hur. pose proof (hopCost_range u v) as Hh.
  pose proof (relax_spec u (unv ∖ {[u]}) L dist prev dist' prev' ltac:(set_solver) Hf v) as Hs.
  simpl in *. rewrite int64_small in Hs by (unfold in_int64, MaxInt32 in *; lia).
  case_decide as Hd; destruct Hs as [Hs1 Hs2].
  - right. destruct Hd as (? & ? & ?). rewrite Hs1. auto.
  - left. split_and!; [done|done|]. intros Hv HL.
    destruct (Z.le_gt_cases (getDist dist v) (getDist dist u + hopc u v)); [done|].
    destruct Hd. split_and!; [done|done|lia].
Qed.

Section Step.
Context (vis : list RouterRef) (unv : gset RouterRef) (st : paths).
Context (u : RouterRef) (L : list RouterRef).
Context (Hinv : dinv vis unv st) (Hu : u ∈ unv) (HL : L ≡ₚ nbrs u).
Context (Hmin : ∀ v, v ∈ unv → getDist st.1 u ≤ getDist st.1 v).

Abbreviation st' := (foldl (relax n minRouterCost srcR dstR u (unv ∖ {[u]})) st L).

Lemma step_cases v :
  (getDist st'.1 v = getDist st.1 v ∧ st'.2 !! v = st.2 !! v ∧
   (v ∈ unv ∖ {[u]} → v ∈ L → getDist st.1 v ≤ getDist st.1 u + hopc u v)) ∨
  (v ∈ unv ∖ {[u]} ∧ v ∈ L ∧ getDist st'.1 v = getDist st.1 u + hopc u v ∧
   getDist st'.1 v < getDist st.1 v ∧ st'.2 !! v = Some u).
Proof. by apply (relax_cases vis unv u L st st' Hinv Hu). Qed.

Lemma step_visited v : v ∈ u :: vis → v ∉ unv ∖ {[u]}.
Proof.
  rewrite elem_of_difference, elem_of_singleton.
  intros [->|Hv]%elem_of_cons; [tauto|].
  pose proof (di_disj _ _ _ Hinv v Hv). tauto.
Qed.

Lemma step_old v : v ∈ u :: vis → getDist st'.1 v = getDist st.1 v ∧ st'.2 !! v = st.2 !! v.
Proof.
  intros Hv%step_visited. destruct (step_cases v) as [(? & ? & _)|(? & _)]; done.
Qed.

Lemma step_le v : getDist st'.1 v ≤ getDist st.1 v.
Proof. destruct (step_cases v) as [(-> & _)|(_ & _ & _ & ? & _)]; lia. Qed.

Lemma step_u_conn : u ∈ conn.
Proof. apply (di_part _ _ _ Hinv). by right. Qed.

(** The distance of the source is 0 and no relaxation goes below 0. *)
Lemma step_src : getDist st'.1 srcR = 0 ∧ st'.2 !! srcR = None.
Proof.
  pose proof (hopCost_range u srcR). pose proof (di_src _ _ _ Hinv) as Hs.
  pose proof (di_range _ _ _ Hinv u step_u_conn).
  destruct (step_cases srcR) as [(-> & -> & _)|(_ & _ & He & Hlt & _)]; [|lia].
  split; [done|apply Hinv].
Qed.

Lemma step_range v : v ∈ conn → 0 ≤ getDist st'.1 v ≤ MaxInt32.
Proof.
  intros Hv. pose proof (di_range _ _ _ Hinv v Hv). pose proof (hopCost_range u v).
  pose proof (di_range _ _ _ Hinv u step_u_conn).
  destruct (step_cases v) as [(-> & _)|(_ & _ & He & Hlt & _)]; lia.
Qed.

Lemma step_prev v w :
  st'.2 !! v = Some w →
  w ∈ u :: vis ∧ v ∈ conn ∧ v ∈ nbrs w ∧
  getDist st'.1 v = getDist st'.1 w + hopc w v ∧ getDist st'.1 v < MaxInt32.
Proof.
  destruct (step_cases v) as [(Hd & Hp & _)|(Hv & HvL & Hd & Hlt & Hp)]; rewrite Hp.
  - intros (Hw & Hvc & Hn & He & Hl)%(di_prev _ _ _ Hinv).
    destruct (step_old w) as [Hdw _]; [by right|].
    split_and!; [by right|done|done|lia|lia].
  - intros [= <-]. destruct (step_old u) as [Hdu _]; [left|].
    apply elem_of_difference in Hv as [Hv _].
    assert (v ∈ conn) as Hvc by (apply (di_part _ _ _ Hinv); by right).
    pose proof (di_range _ _ _ Hinv v Hvc).
    split_and!; [left|done|by rewrite <- HL|lia|lia].
Qed.

Lemma step_order a v b w : u :: vis = a ++ v :: b → st'.2 !! v = Some w → w ∈ b.
Proof.
  intros Hsplit Hp.
  destruct (step_old v) as [_ Hpv]; [rewrite Hsplit; apply elem_of_app; right; left|].
  rewrite Hpv in Hp. destruct a as [|a0 a]; simpl in Hsplit; simplify_eq.
  - by apply (di_prev _ _ _ Hinv) in Hp as [? _].
  - eapply (di_order _ _ _ Hinv); eauto.
Qed.

Lemma step_relaxed w r :
  w ∈ u :: vis → r ∈ nbrs w → r ∈ conn → getDist st'.1 r ≤ getDist st'.1 w + hopc w r.
Proof.
  intros Hw Hr Hrc. destruct (step_old w Hw) as [-> _]. pose proof (step_le r) as Hle.
  apply elem_of_cons in Hw as [->|Hw].
  - destruct (step_cases r) as [(-> & _ & Hk)|(_ & _ & -> & _)]; [|lia].
    destruct (decide (r ∈ unv ∖ {[u]})) as [Hru|Hru]; [apply Hk; [done|by rewrite HL]|].
    pose proof (hopCost_range u r). destruct (decide (r = u)) as [->|]; [lia|].
    apply (di_part _ _ _ Hinv) in Hrc as [Hrv|]; [|set_solver].
    pose proof (di_sorted _ _ _ Hinv r u Hrv Hu). lia.
  - pose proof (di_relaxed _ _ _ Hinv w r Hw Hr Hrc). lia.
Qed.

Lemma step_sorted w v : w ∈ u :: vis → v ∈ unv ∖ {[u]} → getDist st'.1 w ≤ getDist st'.1 v.
Proof.
  intros Hw [Hv _]%elem_of_difference. destruct (step_old w Hw) as [-> _].
  assert (getDist st.1 w ≤ getDist st.1 u) as Hwu.
  { apply elem_of_cons in Hw as [->|Hw]; [lia|]. by apply (di_sorted _ _ _ Hinv). }
  pose proof (hopCost_range u v). pose proof (Hmin v Hv).
  destruct (step_cases v) as [(-> & _)|(_ & _ & -> & _)]; lia.
Qed.

Lemma relax_dom un L' (s0 : paths) :
  size s0.1 ≠ 0%nat → size (foldl (relax n minRouterCost srcR dstR u un) s0 L').1 ≠ 0%nat.
Proof.
  revert s0. induction L' as [|r L' IH]; intros [d p] Hd; simpl; [done|]. apply IH.
  unfold relax. repeat case_match; simpl; try done.
  apply map_size_non_empty_iff, insert_non_empty.
Qed.

Lemma dinv_step : dinv (u :: vis) (unv ∖ {[u]}) st'.
Proof.
  split; try apply step_src; eauto using step_visited, step_range, step_prev, step_order,
    step_relaxed, step_sorted.
  - intros v. rewrite (di_part _ _ _ Hinv), elem_of_cons, elem_of_difference,
      elem_of_singleton. destruct (decide (v = u)) as [->|]; tauto.
  - apply NoDup_cons. split; [|by apply Hinv]. by intros Hv%(di_disj _ _ _ Hinv).
  - apply relax_dom, Hinv.
  - intros v Hv Hvs. destruct (step_cases v) as [(-> & -> & _)|(_ & _ & _ & _ & ->)]; [|done].
    by apply Hinv.
Qed.
End Step.

(** The outer loop ends within its bound, at the destination when that is
    connected. *)
Lemma explore_spec fuel vis unv st :
  dinv vis unv st → (size unv ≤ fuel)%nat →
  ∃ vis' unv' st', explore ord n minRouterCost fuel srcR dstR unv st = Some st' ∧
    dinv vis' unv' st' ∧ (dstR ∈ unv → dstR ∈ unv') ∧
    (dstR ∈ unv' → ∀ v, v ∈ unv' → getDist st'.1 dstR ≤ getDist st'.1 v).
Proof.
  revert vis unv st. induction fuel as [|fuel IH]; intros vis unv st Hinv Hsz; cbn [explore].
  - assert (unv = ∅) as -> by (apply leibniz_equiv, size_empty_inv; lia).
    exists vis, ∅, st. split_and!; [done|done|done|]. set_solver.
  - destruct (decide (unv = ∅)) as [->|Hne'].
    { exists vis, ∅, st. split_and!; [done|done|done|]. set_solver. }
    assert (∀ v, v ∈ ord (2 * fuel) (elements unv) ↔ v ∈ unv) as Hel.
    { intros v. by rewrite ord_perm, elem_of_elements. }
    destruct (minCost_spec st.1 (ord (2 * fuel) (elements unv))) as (u & Hmc & Hu & Hmin).
    + intros Hnil. apply Hne'. apply set_eq. intros v. rewrite <- Hel, Hnil. set_solver.
    + apply Hinv.
    + intros v Hv%Hel.
      pose proof (di_range _ _ _ Hinv v ltac:(apply (di_part _ _ _ Hinv); by right)).
      unfold MaxInt32, MaxInt64 in *. lia.
    + rewrite Hmc. apply Hel in Hu. setoid_rewrite Hel in Hmin.
      destruct (decide (u = dstR)) as [->|Hud]; [by exists vis, unv, st|].
      pose proof (dinv_step vis unv st u _ Hinv Hu (ord_perm (2 * fuel + 1) (nbrs u)) Hmin) as Hd.
      destruct (IH _ _ _ Hd) as (vis' & unv' & st' & He & Hi & Hk & Hm).
      * rewrite size_difference by set_solver. rewrite size_singleton. lia.
      * exists vis', unv', st'. split_and!; [done|done| |done]. set_solver.
Qed.

(** Every walk is at least as long as the distance of its end when that end
    is visited, and as the cheapest unvisited distance otherwise. *)
Lemma walk_lower vis unv st D p x c :
  dinv vis unv st → (∀ v, v ∈ unv → D ≤ getDist st.1 v) →
  walk n minRouterCost srcR dstR p x c →
  0 ≤ c ∧ ((x ∈ vis ∧ getDist st.1 x ≤ c) ∨ D ≤ c).
Proof.
  intros Hinv HD. induction 1 as [Hs|p y c r w Hp [Hc IH] Hh].
  - split; [lia|]. apply (di_part _ _ _ Hinv) in Hs as [Hs|Hs].
    + left. rewrite (di_src _ _ _ Hinv). done.
    + right. specialize (HD _ Hs). by rewrite (di_src _ _ _ Hinv) in HD.
  - pose proof (edge_hopCost _ _ _ Hh) as ->. pose proof (hopCost_range y r).
    destruct Hh as (_ & Hrc & Hrn & _). split; [lia|].
    destruct IH as [[Hy Hdy]|]; [|right; lia].
    pose proof (di_relaxed _ _ _ Hinv y r Hy Hrn Hrc).
    apply (di_part _ _ _ Hinv) in Hrc as [Hr|Hr]; [left; split; [done|lia]|].
    right. specialize (HD _ Hr). lia.
Qed.

(** The walk back from a visited router reaches the source within its bound
    and yields a walk whose cost is the router's distance. *)
Lemma walkBack_spec fuel vis unv st a v b acc :
  dinv vis unv st → vis = a ++ v :: b → (length b < fuel)%nat →
  getDist st.1 v < MaxInt32 →
  ∃ p, walkBack fuel st.2 (Some v) acc = Some (p ++ acc) ∧
       walk n minRouterCost srcR dstR p v (getDist st.1 v).
Proof.
  intros Hinv. revert a v b acc. induction fuel as [|fuel IH]; intros a v b acc Hsp Hf Hd; [lia|].
  assert (v ∈ conn) as Hvc by (apply (di_part _ _ _ Hinv); left; rewrite Hsp; set_solver).
  simpl. destruct (st.2 !! v) as [u|] eqn:Hp.
  - pose proof (di_order _ _ _ Hinv a v b u Hsp Hp) as (b1 & b2 & Hb)%list_elem_of_split.
    destruct (di_prev _ _ _ Hinv v u Hp) as (Hu & _ & Hn & He & _).
    assert (u ∈ conn) as Huc by (apply (di_part _ _ _ Hinv); by left).
    pose proof (hopCost_range u v). pose proof (di_range _ _ _ Hinv u Huc).
    destruct (IH (a ++ v :: b1) u b2 (v :: acc)) as (p & Hwb & Hw).
    + rewrite Hsp, Hb. by rewrite <- app_assoc.
    + rewrite Hb, length_app in Hf. simpl in Hf. lia.
    + lia.
    + exists (p ++ [v]). split; [rewrite Hwb; by rewrite <- app_assoc|].
      rewrite He. apply walk_hop with u; [done|]. apply hopCost_edge; try done. lia.
  - destruct (decide (v = srcR)) as [->|Hvs].
    + exists [srcR]. split; [by destruct fuel|]. rewrite (di_src _ _ _ Hinv).
      by apply walk_start.
    + pose proof (di_none _ _ _ Hinv v Hvc Hvs Hp). lia.
Qed.

Lemma vis_length vis unv st : dinv vis unv st → (length vis ≤ size conn)%nat.
Proof.
  intros Hinv. rewrite <- (size_list_to_set (C:=gset RouterRef)) by apply Hinv.
  apply subseteq_size. intros v. rewrite elem_of_list_to_set. intros Hv.
  apply (di_part _ _ _ Hinv). by left.
Qed.

(** The initial state of the search. *)
Definition dist0 : gmap RouterRef Z :=
  foldl (λ d r, <[r:=MaxInt32]> d) ∅ (RouterManager_AllConnected n).

Lemma dist0_lookup v : v ∈ conn → getDist dist0 v = MaxInt32.
Proof.
  unfold dist0, connectedSet. rewrite elem_of_list_to_set.
  induction (RouterManager_AllConnected n) as [|r l IH] using rev_ind; [by intros ?%elem_of_nil|].
  rewrite foldl_snoc, elem_of_app, list_elem_of_singleton. intros Hv.
  destruct (decide (r = v)) as [->|]; [apply getDist_insert_eq|].
  rewrite getDist_insert_ne by done. apply IH. by destruct Hv as [ | ->].
Qed.

Lemma dinv_init : dinv [] conn (<[srcR:=0]> dist0, ∅).
Proof.
  split; cbn [fst snd].
  - intros v. rewrite elem_of_nil. tauto.
  - by intros v ?%elem_of_nil.
  - constructor.
  - apply map_size_non_empty_iff, insert_non_empty.
  - apply getDist_insert_eq.
  - intros v Hv. unfold MaxInt32. destruct (decide (srcR = v)) as [->|].
    + rewrite getDist_insert_eq. lia.
    + rewrite getDist_insert_ne, dist0_lookup by done. unfold MaxInt32. lia.
  - intros v u. by rewrite lookup_empty.
  - apply lookup_empty.
  - intros [] ? ? ? ?; discriminate.
  - intros v Hv Hs _. rewrite getDist_insert_ne by done. by apply dist0_lookup.
  - by intros u r ?%elem_of_nil.
  - by intros u v ?%elem_of_nil.
Qed.

(** The search as a whole: either a cheapest walk, or no walk below the
    infinity [MaxInt32] exists. *)
Lemma shortestPath_spec :
  match shortestPath ord n minRouterCost (Some srcR) (Some dstR) with
  | Ok (p, c) => walk n minRouterCost srcR dstR p dstR c ∧ c < MaxInt32 ∧
      ∀ p' c', walk n minRouterCost srcR dstR p' dstR c' → c ≤ c'
  | Err e => e = CantRoute (r_Id (router n srcR)) (r_Id (router n dstR)) ∧
      ∀ p' c', walk n minRouterCost srcR dstR p' dstR c' → MaxInt32 ≤ c'
  end.
Proof.
  simpl. rewrite decide_False by done.
  destruct (explore_spec (size conn) [] conn _ dinv_init) as
    (vis & unv & [dist prev] & He & Hinv & Hdst & Hmin); [done|].
  unfold dist0, connectedSet in He. rewrite He. fold conn.
  assert (∀ p' c', walk n minRouterCost srcR dstR p' dstR c' → getDist dist dstR ≤ c') as Hlow.
  { intros p' c' Hw. pose proof (walk_connected _ _ _ _ _ _ _ Hw) as Hc%Hdst.
    destruct (walk_lower _ _ _ (getDist dist dstR) _ _ _ Hinv (Hmin Hc) Hw)
      as [_ [[Hv _]|]]; [|done].
    by apply (di_disj _ _ _ Hinv) in Hv. }
  destruct (prev !! dstR) as [u|] eqn:Hp.
  - destruct (di_prev _ _ _ Hinv dstR u Hp) as (Hu & Hdc & Hn & Hd & Hlt). simpl in *.
    assert (u ∈ conn) as Huc by (apply (di_part _ _ _ Hinv); by left).
    pose proof (hopCost_range u dstR). pose proof (di_range _ _ _ Hinv u Huc). simpl in *.
    pose proof Hu as (a & b & Hsp)%list_elem_of_split.
    pose proof (vis_length _ _ _ Hinv) as Hlen. rewrite Hsp, length_app in Hlen.
    destruct (walkBack_spec (size conn) vis unv (dist, prev) a u b [] Hinv Hsp)
      as (p & Hwb & Hw); [simpl in Hlen; lia|simpl; lia|].
    rewrite app_nil_r in Hwb. cbn [snd] in Hwb. rewrite Hwb.
    pose proof (walk_head _ _ _ _ _ _ _ Hw) as Hh.
    rewrite bool_decide_true by (destruct p; done). simpl.
    rewrite bool_decide_true by apply last_snoc. simpl.
    split_and!; [|done|done]. rewrite Hd. apply walk_hop with u; [done|].
    apply hopCost_edge; try done. lia.
  - assert (∀ f, walkBack f prev None [] = Some []) as Hwb by by intros [].
    rewrite Hwb. simpl. rewrite bool_decide_false by congruence. simpl. split; [done|].
    intros p' c' Hw. pose proof (walk_connected _ _ _ _ _ _ _ Hw) as Hc.
    apply Hlow in Hw. pose proof (di_none _ _ _ Hinv dstR Hc ltac:(done) Hp) as Hd.
    simpl in Hd. lia.
Qed.
End DijkstraProofs.

(** ** Main theorems *)

(** C1. Path selection is optimal: whatever order Go iterates its maps in, a
    path that [shortestPath] returns is a walk over connected routers and
    usable links that only ends in non-traversable routers, its cost is the
    returned cost, and no such walk is cheaper. *)
Theorem shortestPath_optimal ord n minRouterCost srcR dstR p c :
  (∀ k l, ord k l ≡ₚ l) → costs_ok n minRouterCost → srcR ≠ dstR →
  shortestPath ord n minRouterCost (Some srcR) (Some dstR) = Ok (p, c) →
  walk n minRouterCost srcR dstR p dstR c ∧ c < MaxInt32 ∧
  ∀ p' c', walk n minRouterCost srcR dstR p' dstR c' → c ≤ c'.
Proof.
  intros Hord Hok Hne Hsp.
  pose proof (shortestPath_spec ord Hord n minRouterCost Hok srcR dstR Hne) as Hs.
  by rewrite Hsp in Hs.
Qed.


(** *** Witnesses *)

(** The cost hypothesis is decidable on a concrete fabric. *)
Lemma costs_ok_check n minRouterCost :
  bool_decide (map_Forall (λ _ l, 0 ≤ l_Cost l < 2 ^ 62) (n_links n)) = true →
  bool_decide (map_Forall (λ _ r, 0 ≤ r_Cost r < 2 ^ 16) (n_routers n)) = true →
  0 ≤ minRouterCost < 2 ^ 16 → costs_ok n minRouterCost.
Proof.
  rewrite !bool_decide_eq_true. intros Hl Hr Hm. split; [| |done].
  - intros l. unfold link. destruct (n_links n !! l) eqn:E; simpl; [by apply (Hl l)|lia].
  - intros r. unfold router. destruct (n_routers n !! r) eqn:E; simpl; [by apply (Hr r)|lia].
Qed.

(** A triangle: the direct link from "a" to "c" is dearer than the way over
    "b". *)
Definition demoNet : Net :=
  let rep id dst := mkReported id dst "tls" "addr" 1 None in
  let n := mkNet {[ 1%nat := NewRouter "a" "" "fa" 5 false;
                    2%nat := NewRouter "b" "" "fb" 10 false;
                    3%nat := NewRouter "c" "" "fc" 0 false ]} ∅ ∅ ∅ in
  let n := foldl (λ n r, (RouterManager_MarkConnected (A:=unit) (λ _ n, (n, [])) r n).1) n [1; 2; 3]%nat in
  let n := (LinkManager_RouterReportedLink 1000000 0 (rep "ab" "b") 1 (Some 2%nat) n).1 in
  let n := (LinkManager_RouterReportedLink 1000000 0 (rep "bc" "c") 2 (Some 3%nat) n).1 in
  let '(n, (l, _)) := LinkManager_RouterReportedLink 1000000 0 (rep "ac" "c") 1 (Some 3%nat) n in
  upd_link l (Link_SetStaticCost 500) n.

Lemma demoNet_ok : costs_ok demoNet 10.
Proof. by apply costs_ok_check; [vm_compute|vm_compute|lia]. Qed.

Lemma shortestPath_optimal_witness :
  shortestPath (λ _ l, l) demoNet 10 (Some 1%nat) (Some 3%nat) = Ok ([1; 2; 3]%nat, 26) ∧
  ∀ p' c', walk demoNet 10 1 3 p' 3 c' → 26 ≤ c'.
Proof.
  assert (shortestPath (λ _ l, l) demoNet 10 (Some 1%nat) (Some 3%nat) =
            Ok ([1; 2; 3]%nat, 26)) as Hsp by (vm_compute; reflexivity).
  split; [exact Hsp|].
  apply (shortestPath_optimal (λ _ l, l) demoNet 10 1 3 [1; 2; 3]%nat 26);
    [done|exact demoNet_ok|done|exact Hsp].
Defined.

