(* ===== verification/Fabric.v ===== *)
(** * Fabric maintenance (controller/network/network.go, assembly.go,
    controller/handler_ctrl/{fault,link_state}.go)

    The handlers that change the link and router tables: routers connecting
    and disconnecting, links being reported, faulted, removed and expired.
    Each handler is a function on the fabric state that also returns what it
    sends or schedules. The invariant [fabric_wf] says that the per-router link
    indexes, which path selection reads, are exactly the link table. *)

From stdpp Require Import base gmap list strings fin_maps relations.
From Stdlib Require Import ZArith Lia.
From S2P Require Import Prelude NetModel.

Open Scope Z_scope.

Inductive LinkEventType :=
| LinkFaultEvent | LinkDuplicateEvent | LinkFromRouterNew | LinkFromRouterKnown
| LinkFromRouterDisconnectedDest | LinkConnectionsChanged.

(** What a handler does besides changing the tables. *)
Inductive effect :=
| EvLink (l : LinkRef) (t : LinkEventType)        (* NotifyLinkEvent *)
| EvLinkId (linkId : string) (t : LinkEventType)  (* NotifyLinkIdEvent *)
| RerouteLink (l : LinkRef)                       (* go handleRerouteLink(l) *)
| SendLinkFault (r : RouterRef) (linkId : string) (iteration : Z).

Definition DisconnectRouter (r : RouterRef) (n : Net) : Net * list effect :=
  let '(n, eff) := foldl (λ '(n, eff) l,
    let wasConnected := bool_decide (ls_Mode (l_state (link n l)) = Connected) in
    let n := if bool_decide (r_Id (router n (l_Src (link n l))) = r_Id (router n r))
             then LinkManager_Remove l n else n in
    (n, if wasConnected then eff ++ [RerouteLink l] else eff))
    (n, []) (rl_allLinks (r_routerLinks (router n r))) in
  (RouterManager_MarkDisconnected r n, eff).

(** Closing a router's control channel runs its close handler, which is
    [DisconnectRouter]. *)
Definition ConnectRouter (r : RouterRef) (n : Net) : Net * list effect :=
  RouterManager_MarkConnected DisconnectRouter r (LinkManager_BuildRouterLinks r n).

Definition NotifyExistingLink (initialLatency now : Z) (srcRouter : RouterRef)
    (rep : RouterLink) (n : Net) : Net * list effect :=
  match RouterManager_GetConnected n (r_Id (router n srcRouter)) with
  | None => (n, [])
  | Some src =>
    if negb (bool_decide (src = srcRouter)) || negb (r_Connected (router n srcRouter))
    then (n, [])
    else
      let dst := RouterManager_GetConnected n (rep_DestRouterId rep) in
      let eff := match dst with
                 | None => [EvLinkId (rep_Id rep) LinkFromRouterDisconnectedDest]
                 | Some _ => []
                 end in
      let '(n, (l, created)) :=
        LinkManager_RouterReportedLink initialLatency now rep src dst n in
      (n, eff ++ [EvLink l (if created : bool then LinkFromRouterNew else LinkFromRouterKnown)])
  end.

Definition LinkFaulted (now : Z) (dupe : bool) (l : LinkRef) (n : Net) : Net * list effect :=
  let wasUsable := l_usable (link n l) in
  let n := upd_link l (Link_SetState Failed now) n in
  (LinkManager_Remove l n,
   [EvLink l (if dupe then LinkDuplicateEvent else LinkFaultEvent)] ++
   (if wasUsable then [RerouteLink l] else [])).

(** [ctrl_pb.Fault] of a link. *)
Record Fault := mkFault {
  f_Id : string;
  f_Iteration : Z;
  f_Duplicate : bool;   (* Subject is LinkDuplicate *)
}.

(** [faultHandler.handleFaultedLink] for the fault router [self] reports. *)
Definition handleFaultedLink (now : Z) (self : RouterRef) (fault : Fault) (n : Net)
    : Net * list effect :=
  match LinkManager_Get n (f_Id fault) with
  | None => (n, [EvLinkId (f_Id fault) LinkFaultEvent])
  | Some l =>
    let lk := link n l in
    if negb (f_Iteration fault =? 0) && negb (l_Iteration lk =? 0) &&
       (f_Iteration fault <? l_Iteration lk)
    then (n, [])
    else
      let wasConnected := l_usable lk in
      let '(n, eff) := LinkFaulted now (f_Duplicate fault) l n in
      let otherRouter := if bool_decide (r_Id (router n (l_Src lk)) = r_Id (router n self))
                         then l_Dst lk else Some (l_Src lk) in
      match otherRouter with
      | Some o =>
        if wasConnected && r_Connected (router n o)
        then (n, eff ++ [SendLinkFault o (f_Id fault) (f_Iteration fault)])
        else (n, eff)
      | None => (n, eff)
      end
  end.

Definition HandleLinks (linkId : string) (linkIteration : Z) (connState : option LinkConnState)
    (n : Net) : Net * list effect :=
  (match LinkManager_Get n linkId with
   | Some l => if linkIteration =? l_Iteration (link n l)
               then upd_link l (Link_SetConnsState connState) n else n
   | None => n
   end, [EvLinkId linkId LinkConnectionsChanged]).

(** [clean]: drop failed and duplicate links after 30 seconds. *)
Definition clean (now : Z) (n : Net) : Net :=
  let failedLinks := LinkManager_LinksInMode n Failed ++ LinkManager_LinksInMode n Duplicate in
  foldl (λ n l, LinkManager_Remove l n) n
    (filter (λ l, now - ls_Timestamp (l_state (link n l)) >= 30000) failedLinks).

Definition RemoveLink (linkId : string) (n : Net) : Net * list effect :=
  match LinkManager_Get n linkId with
  | Some l =>
    let lk := link n l in
    let routerList := l_Src lk :: option_list (l_Dst lk) in
    (LinkManager_Remove l n,
     ((λ r, SendLinkFault r linkId (l_Iteration lk)) <$> routerList) ++ [RerouteLink l])
  | None =>
    (n, (λ r, SendLinkFault r linkId 0) <$> RouterManager_AllConnected n)
  end.

Inductive verify_error := NotYetEnrolled | FingerprintMismatch | RouterNotFound.

Definition VerifyRouter (read : option Router) (fingerprints : list string)
    : result unit verify_error :=
  match read with
  | None => Err RouterNotFound
  | Some r =>
    match r_Fingerprint r with
    | None => Err NotYetEnrolled
    | Some fp => if bool_decide (fp ∈ fingerprints) then Ok () else Err FingerprintMismatch
    end
  end.

(** ** The index invariant *)

(** A link is live when the table holds it under its id. *)
Definition live (n : Net) (l : LinkRef) : Prop := n_linkTable n !! l_Id (link n l) = Some l.

Record fabric_wf (n : Net) : Prop := mkWf {
  wf_table : ∀ id l, n_linkTable n !! id = Some l →
    is_Some (n_links n !! l) ∧ l_Id (link n l) = id;
  wf_conn : ∀ id r, n_connected n !! id = Some r →
    is_Some (n_routers n !! r) ∧ r_Id (router n r) = id ∧ r_Connected (router n r) = true;
  wf_conn' : ∀ r, r_Connected (router n r) = true →
    n_connected n !! r_Id (router n r) = Some r;
  wf_src : ∀ l, live n l →
    n_connected n !! r_Id (router n (l_Src (link n l))) = Some (l_Src (link n l));
  wf_dst : ∀ l d, live n l → n_connected n !! l_DstId (link n l) = Some d →
    l_Dst (link n l) = Some d;
  wf_dst_id : ∀ l d, live n l → l_Dst (link n l) = Some d →
    r_Id (router n d) = l_DstId (link n l);
  wf_by : ∀ r id l, r_Connected (router n r) = true →
    (l ∈ byRouter (r_routerLinks (router n r)) id ↔
     live n l ∧ ((l_Src (link n l) = r ∧ l_DstId (link n l) = id) ∨
                 (l_Dst (link n l) = Some r ∧ r_Id (router n (l_Src (link n l))) = id)));
  wf_all : ∀ r l, r_Connected (router n r) = true →
    (l ∈ rl_allLinks (r_routerLinks (router n r)) ↔
     live n l ∧ (l_Src (link n l) = r ∨ l_Dst (link n l) = Some r));
}.

(** ** Index updates *)

Lemma byRouter_Add l o rl id x :
  x ∈ byRouter (RouterLinks_Add l o rl) id ↔ x ∈ byRouter rl id ∨ (x = l ∧ o = id).
Proof.
  unfold byRouter, RouterLinks_Add. simpl. destruct (decide (o = id)) as [->|Hne].
  - rewrite lookup_insert_eq. simpl. rewrite elem_of_cons. unfold byRouter. tauto.
  - rewrite lookup_insert_ne by done. tauto.
Qed.

Lemma allLinks_Add l o rl x :
  x ∈ rl_allLinks (RouterLinks_Add l o rl) ↔ x ∈ rl_allLinks rl ∨ x = l.
Proof. simpl. by rewrite elem_of_app, list_elem_of_singleton. Qed.

Lemma byRouter_Remove l o rl id x :
  x ∈ byRouter (RouterLinks_Remove l o rl) id ↔ x ∈ byRouter rl id ∧ ¬ (x = l ∧ o = id).
Proof.
  unfold RouterLinks_Remove. cbv zeta.
  destruct (decide (o = id)) as [->|Hne].
  - assert (x ∈ filter (λ y, y ≠ l) (byRouter rl id) ↔ x ∈ byRouter rl id ∧ ¬ (x = l ∧ id = id))
      as Hf by (rewrite list_elem_of_filter; tauto).
    rewrite <- Hf. unfold byRouter at 1. simpl.
    destruct (filter _ _) as [|y ys] eqn:E; [by rewrite lookup_delete_eq|].
    by rewrite lookup_insert_eq.
  - unfold byRouter at 1. simpl. destruct (filter _ _);
      rewrite ?lookup_delete_ne, ?lookup_insert_ne by done; unfold byRouter; tauto.
Qed.

Lemma allLinks_Remove l o rl x :
  x ∈ rl_allLinks (RouterLinks_Remove l o rl) ↔ x ∈ rl_allLinks rl ∧ x ≠ l.
Proof. simpl. rewrite list_elem_of_filter. tauto. Qed.

(** ** Reading the heaps after an update *)

Lemma connected_in_heap n r : r_Connected (router n r) = true → is_Some (n_routers n !! r).
Proof. unfold router. destruct (n_routers n !! r); simpl; [eauto|done]. Qed.

Lemma router_upd n r f r' :
  router (upd_router r f n) r' =
  if decide (r = r' ∧ is_Some (n_routers n !! r)) then f (router n r) else router n r'.
Proof.
  unfold router, upd_router. simpl. destruct (decide (r = r')) as [->|Hne].
  - rewrite lookup_alter_eq. destruct (n_routers n !! r') as [x|]; simpl.
    + rewrite decide_True by (split; eauto). done.
    + rewrite decide_False by (intros [_ []%is_Some_None]). done.
  - rewrite lookup_alter_ne by done. rewrite decide_False by tauto. done.
Qed.

Lemma router_upd_links_id n r f r' :
  r_Id (router (upd_routerLinks r f n) r') = r_Id (router n r').
Proof. unfold upd_routerLinks. rewrite router_upd. case_decide as H; [|done]. by destruct H as [-> _]. Qed.

Lemma router_upd_links_conn n r f r' :
  r_Connected (router (upd_routerLinks r f n) r') = r_Connected (router n r').
Proof. unfold upd_routerLinks. rewrite router_upd. case_decide as H; [|done]. by destruct H as [-> _]. Qed.

Lemma router_upd_links_eq n r f :
  is_Some (n_routers n !! r) →
  r_routerLinks (router (upd_routerLinks r f n) r) = f (r_routerLinks (router n r)).
Proof. intros. unfold upd_routerLinks. rewrite router_upd. by rewrite decide_True. Qed.

Lemma router_upd_links_ne n r f r' :
  r ≠ r' → router (upd_routerLinks r f n) r' = router n r'.
Proof. intros. unfold upd_routerLinks. rewrite router_upd. by rewrite decide_False by tauto. Qed.

Lemma upd_links_heap n r f r' :
  is_Some (n_routers (upd_routerLinks r f n) !! r') ↔ is_Some (n_routers n !! r').
Proof. simpl. by rewrite lookup_alter_is_Some. Qed.

Create HintDb fabric.
Create Rewrite HintDb fabric.
#[export] Hint Rewrite router_upd_links_id router_upd_links_conn : fabric.
#[export] Hint Resolve connected_in_heap : fabric.

(** The common shape of [Add] and [Remove] on the indexes: the two ends of a
    link, where they exist, apply an operation to their index. *)
Section TwoEnds.
Context (op : LinkRef → string → RouterLinks → RouterLinks).
Context (l : LinkRef) (s : RouterRef) (d : option RouterRef) (dstId : string).

Definition at_ends (n : Net) : Net :=
  let n := upd_routerLinks s (op l dstId) n in
  match d with
  | Some dest => upd_routerLinks dest (op l (r_Id (router n s))) n
  | None => n
  end.

Lemma at_ends_tables n :
  n_links (at_ends n) = n_links n ∧ n_linkTable (at_ends n) = n_linkTable n ∧
  n_connected (at_ends n) = n_connected n.
Proof. unfold at_ends. by destruct d. Qed.

Lemma at_ends_id n r : r_Id (router (at_ends n) r) = r_Id (router n r).
Proof. unfold at_ends. destruct d; by autorewrite with fabric. Qed.

Lemma at_ends_conn n r : r_Connected (router (at_ends n) r) = r_Connected (router n r).
Proof. unfold at_ends. destruct d; by autorewrite with fabric. Qed.

Lemma at_ends_heap n r : is_Some (n_routers (at_ends n) !! r) ↔ is_Some (n_routers n !! r).
Proof. unfold at_ends. destruct d; rewrite ?upd_links_heap; done. Qed.

(** The index of [r] afterwards, as the operations its roles apply. *)
Lemma at_ends_links n r :
  is_Some (n_routers n !! r) →
  r_routerLinks (router (at_ends n) r) =
  (if decide (d = Some r) then op l (r_Id (router n s)) else id)
    ((if decide (s = r) then op l dstId else id) (r_routerLinks (router n r))).
Proof.
  intros Hr. unfold at_ends.
  assert (r_routerLinks (router (upd_routerLinks s (op l dstId) n) r) =
          (if decide (s = r) then op l dstId else id) (r_routerLinks (router n r))) as H1.
  { case_decide as Hs; [subst; by apply router_upd_links_eq|].
    by rewrite router_upd_links_ne. }
  destruct d as [dest|]; [|by rewrite decide_False].
  destruct (decide (dest = r)) as [->|Hd].
  - rewrite decide_True by done. rewrite router_upd_links_eq by by apply upd_links_heap.
    by rewrite H1, router_upd_links_id.
  - rewrite decide_False by congruence. by rewrite router_upd_links_ne.
Qed.
End TwoEnds.

Lemma LinkManager_Add_ends l n :
  LinkManager_Add l n =
  at_ends RouterLinks_Add l (l_Src (link n l)) (l_Dst (link n l)) (l_DstId (link n l))
    (linkTable_add l n).
Proof. done. Qed.

Lemma LinkManager_Remove_ends l n :
  LinkManager_Remove l n =
  let '(n', removed) := linkTable_remove l n in
  if removed
  then at_ends RouterLinks_Remove l (l_Src (link n l)) (l_Dst (link n l)) (l_DstId (link n l)) n'
  else n'.
Proof. unfold LinkManager_Remove. by destruct (linkTable_remove l n) as [n' []]. Qed.

Section EndsMembership.
Context (l : LinkRef) (s : RouterRef) (d : option RouterRef) (dstId : string) (n : Net).
Context (r : RouterRef) (Hr : is_Some (n_routers n !! r)).

(** [r] is an end of the link, seen under the other end's id [id]. *)
Definition end_as (id : string) : Prop :=
  (s = r ∧ dstId = id) ∨ (d = Some r ∧ r_Id (router n s) = id).

Lemma ends_Add_by id x :
  x ∈ byRouter (r_routerLinks (router (at_ends RouterLinks_Add l s d dstId n) r)) id ↔
  x ∈ byRouter (r_routerLinks (router n r)) id ∨ (x = l ∧ end_as id).
Proof.
  rewrite at_ends_links by done. unfold end_as.
  repeat case_decide; unfold Datatypes.id; rewrite ?byRouter_Add; tauto.
Qed.

Lemma ends_Add_all x :
  x ∈ rl_allLinks (r_routerLinks (router (at_ends RouterLinks_Add l s d dstId n) r)) ↔
  x ∈ rl_allLinks (r_routerLinks (router n r)) ∨ (x = l ∧ (s = r ∨ d = Some r)).
Proof.
  rewrite at_ends_links by done.
  repeat case_decide; unfold Datatypes.id; rewrite ?allLinks_Add; tauto.
Qed.

Lemma ends_Remove_by id x :
  x ∈ byRouter (r_routerLinks (router (at_ends RouterLinks_Remove l s d dstId n) r)) id ↔
  x ∈ byRouter (r_routerLinks (router n r)) id ∧ ¬ (x = l ∧ end_as id).
Proof.
  rewrite at_ends_links by done. unfold end_as.
  repeat case_decide; unfold Datatypes.id; rewrite ?byRouter_Remove; tauto.
Qed.

Lemma ends_Remove_all x :
  x ∈ rl_allLinks (r_routerLinks (router (at_ends RouterLinks_Remove l s d dstId n) r)) ↔
  x ∈ rl_allLinks (r_routerLinks (router n r)) ∧ ¬ (x = l ∧ (s = r ∨ d = Some r)).
Proof.
  rewrite at_ends_links by done.
  repeat case_decide; unfold Datatypes.id; rewrite ?allLinks_Remove; tauto.
Qed.
End EndsMembership.

(** Two states that differ only in the link table, the indexes and the fields
    of a link that are not its identity. *)
Record same_ends (n n' : Net) : Prop := mkSame {
  se_link : ∀ x, l_Id (link n' x) = l_Id (link n x) ∧ l_Src (link n' x) = l_Src (link n x) ∧
    l_DstId (link n' x) = l_DstId (link n x) ∧ l_Dst (link n' x) = l_Dst (link n x);
  se_links : ∀ x, is_Some (n_links n' !! x) ↔ is_Some (n_links n !! x);
  se_routers : ∀ x, is_Some (n_routers n' !! x) ↔ is_Some (n_routers n !! x);
  se_id : ∀ x, r_Id (router n' x) = r_Id (router n x);
  se_conn : ∀ x, r_Connected (router n' x) = r_Connected (router n x);
  se_connected : n_connected n' = n_connected n;
}.

#[global] Instance same_ends_preorder : PreOrder same_ends.
Proof.
  split.
  - intros n. by split.
  - intros n1 n2 n3 [A1 A2 A3 A4 A5 A6] [B1 B2 B3 B4 B5 B6]. split; intros.
    + destruct (A1 x) as (?&?&?&?), (B1 x) as (?&?&?&?). repeat split; congruence.
    + by rewrite B2.
    + by rewrite B3.
    + by rewrite B4.
    + by rewrite B5.
    + congruence.
Qed.

(** The fields of [same_ends] that rewrite with equality. *)
Lemma se_fields n n' x :
  same_ends n n' →
  l_Id (link n' x) = l_Id (link n x) ∧ l_Src (link n' x) = l_Src (link n x) ∧
  l_DstId (link n' x) = l_DstId (link n x) ∧ l_Dst (link n' x) = l_Dst (link n x).
Proof. intros H. apply (se_link _ _ H). Qed.

Ltac se_rewrite H :=
  repeat match goal with
  | |- context [l_Src (link ?m ?x)] =>
    match type of H with same_ends _ m => rewrite (proj1 (proj2 (se_fields _ _ x H))) end
  | |- context [l_DstId (link ?m ?x)] =>
    match type of H with same_ends _ m => rewrite (proj1 (proj2 (proj2 (se_fields _ _ x H)))) end
  | |- context [l_Dst (link ?m ?x)] =>
    match type of H with same_ends _ m => rewrite (proj2 (proj2 (proj2 (se_fields _ _ x H)))) end
  | |- context [l_Id (link ?m ?x)] =>
    match type of H with same_ends _ m => rewrite (proj1 (se_fields _ _ x H)) end
  | |- context [r_Id (router ?m ?x)] =>
    match type of H with same_ends _ m => rewrite (se_id _ _ H x) end
  | |- context [r_Connected (router ?m ?x)] =>
    match type of H with same_ends _ m => rewrite (se_conn _ _ H x) end
  | |- context [n_connected ?m] =>
    match type of H with same_ends _ m => rewrite (se_connected _ _ H) end
  end.

Lemma same_ends_at_ends op l s d dstId n : same_ends n (at_ends op l s d dstId n).
Proof.
  destruct (at_ends_tables op l s d dstId n) as (Hl & _ & Hc).
  split; intros; rewrite ?Hl; unfold link; rewrite ?Hl; auto.
  - apply at_ends_heap.
  - apply at_ends_id.
  - apply at_ends_conn.
Qed.

Lemma same_ends_table n t :
  same_ends n (mkNet (n_routers n) (n_links n) t (n_connected n)).
Proof. by split. Qed.

(** What remains to check for the invariant when the ends are unchanged. *)
Lemma wf_same_ends n n' :
  same_ends n n' → fabric_wf n →
  (∀ id l, n_linkTable n' !! id = Some l → is_Some (n_links n !! l) ∧ l_Id (link n l) = id) →
  (∀ l, live n' l →
     n_connected n !! r_Id (router n (l_Src (link n l))) = Some (l_Src (link n l)) ∧
     (∀ d, n_connected n !! l_DstId (link n l) = Some d → l_Dst (link n l) = Some d) ∧
     (∀ d, l_Dst (link n l) = Some d → r_Id (router n d) = l_DstId (link n l))) →
  (∀ r id l, r_Connected (router n r) = true →
    (l ∈ byRouter (r_routerLinks (router n' r)) id ↔
     live n' l ∧ ((l_Src (link n l) = r ∧ l_DstId (link n l) = id) ∨
                 (l_Dst (link n l) = Some r ∧ r_Id (router n (l_Src (link n l))) = id)))) →
  (∀ r l, r_Connected (router n r) = true →
    (l ∈ rl_allLinks (r_routerLinks (router n' r)) ↔
     live n' l ∧ (l_Src (link n l) = r ∨ l_Dst (link n l) = Some r))) →
  fabric_wf n'.
Proof.
  intros H Hwf Ht Hl Hby Hall. split.
  - intros id l Hid. rewrite (se_links _ _ H). se_rewrite H. auto.
  - intros id r. rewrite (se_routers _ _ H). se_rewrite H. apply (wf_conn _ Hwf).
  - intros r. se_rewrite H. apply (wf_conn' _ Hwf).
  - intros l Hlv. se_rewrite H. by apply Hl.
  - intros l d Hlv. se_rewrite H. by apply Hl.
  - intros l d Hlv. se_rewrite H. by apply Hl.
  - intros r id l. se_rewrite H. apply Hby.
  - intros r l. se_rewrite H. apply Hall.
Qed.

Lemma live_ends n l :
  fabric_wf n → live n l →
  n_connected n !! r_Id (router n (l_Src (link n l))) = Some (l_Src (link n l)) ∧
  (∀ d, n_connected n !! l_DstId (link n l) = Some d → l_Dst (link n l) = Some d) ∧
  (∀ d, l_Dst (link n l) = Some d → r_Id (router n d) = l_DstId (link n l)).
Proof.
  intros Hwf Hl. split; [by apply (wf_src _ Hwf)|]. split; intros d.
  - by apply (wf_dst _ Hwf).
  - by apply (wf_dst_id _ Hwf).
Qed.

(** [live] with the identity fields rewritten. *)
Lemma live_same_ends n n' x :
  same_ends n n' → live n' x ↔ n_linkTable n' !! l_Id (link n x) = Some x.
Proof. intros H. unfold live. by se_rewrite H. Qed.

(** An index entry whose link is not live points at nothing the table holds. *)
Lemma wf_Add l n :
  fabric_wf n → is_Some (n_links n !! l) → n_linkTable n !! l_Id (link n l) = None →
  n_connected n !! r_Id (router n (l_Src (link n l))) = Some (l_Src (link n l)) →
  l_Dst (link n l) = n_connected n !! l_DstId (link n l) →
  fabric_wf (LinkManager_Add l n).
Proof.
  intros Hwf Hl Hnone Hsrc Hdst. rewrite LinkManager_Add_ends.
  set (n1 := linkTable_add l n).
  set (n2 := at_ends _ _ _ _ _ n1).
  assert (same_ends n n2) as HS.
  { transitivity n1; [apply same_ends_table|apply same_ends_at_ends]. }
  assert (n_linkTable n2 = <[l_Id (link n l) := l]> (n_linkTable n)) as Ht
    by apply at_ends_tables.
  assert (∀ x, live n2 x ↔ x = l ∨ live n x) as Hlive.
  { intros x. rewrite (live_same_ends _ _ _ HS), Ht, lookup_insert_Some. unfold live.
    split; [intros [[? ->]|[_ ?]]; auto|].
    intros [->|Hx]; [by left|]. right. split; [|done]. intros Heq. congruence. }
  apply (wf_same_ends n n2 HS Hwf).
  - intros id x. rewrite Ht, lookup_insert_Some.
    intros [[<- <-]|[_ ?]]; [done|by apply (wf_table _ Hwf)].
  - intros x [->|Hx]%Hlive; [|by apply live_ends]. split; [done|]. rewrite Hdst.
    split; [done|]. intros d Hd. by apply (wf_conn _ Hwf) in Hd as (_ & ? & _).
  - intros r id x Hr. rewrite Hlive. unfold n2.
    rewrite ends_Add_by by (by apply connected_in_heap).
    change (router n1 r) with (router n r). rewrite (wf_by _ Hwf) by done.
    unfold end_as. change (router n1 ?y) with (router n y).
    split; [|intros [[->|Hx] He]; tauto]. intros [?|[-> ?]]; tauto.
  - intros r x Hr. rewrite Hlive. unfold n2.
    rewrite ends_Add_all by (by apply connected_in_heap).
    change (router n1 r) with (router n r). rewrite (wf_all _ Hwf) by done.
    split; [|intros [[->|Hx] He]; tauto]. intros [?|[-> ?]]; tauto.
Qed.

(** The link is in the table, or nothing is under its id. *)
Definition settled (n : Net) (l : LinkRef) : Prop :=
  live n l ∨ n_linkTable n !! l_Id (link n l) = None.

Lemma Remove_live n l :
  live n l →
  LinkManager_Remove l n =
  at_ends RouterLinks_Remove l (l_Src (link n l)) (l_Dst (link n l)) (l_DstId (link n l))
    (mkNet (n_routers n) (n_links n) (delete (l_Id (link n l)) (n_linkTable n)) (n_connected n)).
Proof.
  intros Hl. rewrite LinkManager_Remove_ends. unfold linkTable_remove. rewrite Hl.
  by rewrite Z.eqb_refl.
Qed.

Lemma Remove_settled n l :
  settled n l →
  same_ends n (LinkManager_Remove l n) ∧
  n_linkTable (LinkManager_Remove l n) = delete (l_Id (link n l)) (n_linkTable n).
Proof.
  intros [Hl|Hn].
  - rewrite (Remove_live _ _ Hl). split.
    + etransitivity; [apply same_ends_table|apply same_ends_at_ends].
    + apply at_ends_tables.
  - rewrite LinkManager_Remove_ends. unfold linkTable_remove. rewrite Hn.
    split; [done|]. by rewrite delete_id.
Qed.

Lemma wf_Remove n l : fabric_wf n → settled n l → fabric_wf (LinkManager_Remove l n).
Proof.
  intros Hwf Hs. destruct (Remove_settled n l Hs) as [HS Ht].
  destruct Hs as [Hl|Hn];
    [|by rewrite LinkManager_Remove_ends; unfold linkTable_remove; rewrite Hn].
  assert (∀ x, live (LinkManager_Remove l n) x ↔ live n x ∧ x ≠ l) as Hlive.
  { intros x. rewrite (live_same_ends _ _ _ HS), Ht, lookup_delete_Some. unfold live in *.
    split; [intros [Hne Hx]; split; [done|]; by intros ->|].
    intros [Hx Hne]. split; [|done]. intros Heq. congruence. }
  apply (wf_same_ends n _ HS Hwf).
  - intros id x. rewrite Ht, lookup_delete_Some. intros [_ ?]. by apply (wf_table _ Hwf).
  - intros x [Hx _]%Hlive. by apply live_ends.
  - intros r id x Hr. rewrite Hlive, (Remove_live _ _ Hl).
    rewrite ends_Remove_by by (by apply connected_in_heap).
    change (router (mkNet _ _ _ _) ?y) with (router n y).
    rewrite (wf_by _ Hwf) by done. unfold end_as.
    change (router (mkNet _ _ _ _) ?y) with (router n y).
    destruct (decide (x = l)) as [->|]; tauto.
  - intros r x Hr. rewrite Hlive, (Remove_live _ _ Hl).
    rewrite ends_Remove_all by (by apply connected_in_heap).
    change (router (mkNet _ _ _ _) ?y) with (router n y).
    rewrite (wf_all _ Hwf) by done.
    destruct (decide (x = l)) as [->|]; tauto.
Qed.

(** ** Removing several links *)

Lemma settled_Remove n x y : settled n x → settled n y → settled (LinkManager_Remove x n) y.
Proof.
  intros Hx Hy. destruct (Remove_settled n x Hx) as [HS Ht].
  unfold settled. rewrite (live_same_ends _ _ _ HS). se_rewrite HS. rewrite Ht.
  destruct (decide (l_Id (link n x) = l_Id (link n y))) as [->|Hne].
  - right. apply lookup_delete_eq.
  - rewrite lookup_delete_ne by done. exact Hy.
Qed.

Lemma Remove_gone n x : settled n x → ¬ live (LinkManager_Remove x n) x.
Proof.
  intros Hx. destruct (Remove_settled n x Hx) as [HS Ht].
  rewrite (live_same_ends _ _ _ HS), Ht, lookup_delete_eq. done.
Qed.

Lemma Remove_live_mono n x y : settled n x → live (LinkManager_Remove x n) y → live n y.
Proof.
  intros Hx. destruct (Remove_settled n x Hx) as [HS Ht].
  rewrite (live_same_ends _ _ _ HS), Ht, lookup_delete_Some. by intros [_ ?].
Qed.

Lemma wf_fold_Remove (ls : list LinkRef) n :
  fabric_wf n → Forall (settled n) ls → fabric_wf (foldl (λ n l, LinkManager_Remove l n) n ls).
Proof.
  revert n. induction ls as [|l ls IH]; intros n Hwf Hs; [done|].
  apply Forall_cons in Hs as [Hl Hls]. simpl. apply IH; [by apply wf_Remove|].
  eapply Forall_impl; [exact Hls|]. intros. by apply settled_Remove.
Qed.

Lemma linkTable_all_live n l : fabric_wf n → l ∈ linkTable_all n ↔ live n l.
Proof.
  intros Hwf. unfold linkTable_all. rewrite list_elem_of_fmap. split.
  - intros [[id x] [-> Hx]]. apply elem_of_map_to_list in Hx. simpl.
    unfold live. by destruct (wf_table _ Hwf _ _ Hx) as [_ ->].
  - intros Hl. exists (l_Id (link n l), l). split; [done|]. by apply elem_of_map_to_list.
Qed.

Lemma settled_all n ls : fabric_wf n → ls ⊆ linkTable_all n → Forall (settled n) ls.
Proof.
  intros Hwf Hsub. apply Forall_forall. intros x Hx. left.
  apply linkTable_all_live; [done|]. by apply Hsub.
Qed.

Lemma filter_sub {A} (P : A → Prop) `{∀ x, Decision (P x)} (l : list A) : filter P l ⊆ l.
Proof. intros x. rewrite list_elem_of_filter. tauto. Qed.

Lemma wf_ScanForDeadLinks n : fabric_wf n → fabric_wf (LinkManager_ScanForDeadLinks n).
Proof. intros Hwf. apply wf_fold_Remove; [done|]. by apply settled_all, filter_sub. Qed.

Lemma wf_clean now n : fabric_wf n → fabric_wf (clean now n).
Proof.
  intros Hwf. apply wf_fold_Remove; [done|]. apply settled_all; [done|].
  intros x. rewrite list_elem_of_filter, elem_of_app. intros [_ [Hx|Hx]];
    unfold LinkManager_LinksInMode, linkTable_allInMode in Hx; by apply filter_sub in Hx.
Qed.

(** ** Changing the state of a link *)

Lemma link_upd n l f x :
  link (upd_link l f n) x =
  if decide (l = x ∧ is_Some (n_links n !! l)) then f (link n l) else link n x.
Proof.
  unfold link, upd_link. simpl. destruct (decide (l = x)) as [->|Hne].
  - rewrite lookup_alter_eq. destruct (n_links n !! x) as [y|]; simpl.
    + rewrite decide_True by (split; eauto). done.
    + rewrite decide_False by (intros [_ []%is_Some_None]). done.
  - rewrite lookup_alter_ne by done. rewrite decide_False by tauto. done.
Qed.

(** The updates of a link that keep its identity and its ends. *)
Definition keeps_ends (f : Link → Link) : Prop :=
  ∀ x, l_Id (f x) = l_Id x ∧ l_Src (f x) = l_Src x ∧ l_DstId (f x) = l_DstId x ∧
       l_Dst (f x) = l_Dst x.

Lemma same_ends_upd_link n l f : keeps_ends f → same_ends n (upd_link l f n).
Proof.
  intros Hf. split; try done.
  - intros x. rewrite link_upd. case_decide as H; [|done]. destruct H as [<- _]. apply Hf.
  - intros x. simpl. by rewrite lookup_alter_is_Some.
Qed.

Lemma wf_upd_link n l f : keeps_ends f → fabric_wf n → fabric_wf (upd_link l f n).
Proof.
  intros Hf Hwf. assert (same_ends n (upd_link l f n)) as HS by by apply same_ends_upd_link.
  assert (∀ x, live (upd_link l f n) x ↔ live n x) as Hlive
    by (intros x; by rewrite (live_same_ends _ _ _ HS)).
  apply (wf_same_ends _ _ HS Hwf).
  - apply (wf_table _ Hwf).
  - intros x Hx%Hlive. by apply live_ends.
  - intros r id x Hr. rewrite Hlive. by apply (wf_by _ Hwf).
  - intros r x Hr. rewrite Hlive. by apply (wf_all _ Hwf).
Qed.

Lemma keeps_SetState m now : keeps_ends (Link_SetState m now).
Proof. done. Qed.
Lemma keeps_SetConnsState st : keeps_ends (Link_SetConnsState st).
Proof. intros x. unfold Link_SetConnsState. destruct (l_connState x); [case_match|]; done. Qed.
Lemma keeps_SetDown b : keeps_ends (Link_SetDown b).
Proof. done. Qed.
Lemma keeps_SetStaticCost c : keeps_ends (Link_SetStaticCost c).
Proof. done. Qed.
Lemma keeps_SetSrcLatency c : keeps_ends (Link_SetSrcLatency c).
Proof. done. Qed.
Lemma keeps_SetDstLatency c : keeps_ends (Link_SetDstLatency c).
Proof. done. Qed.
#[export] Hint Resolve keeps_SetState keeps_SetConnsState keeps_SetDown keeps_SetStaticCost
  keeps_SetSrcLatency keeps_SetDstLatency wf_upd_link : fabric.

Lemma settled_upd_link n l f x : keeps_ends f → settled n x → settled (upd_link l f n) x.
Proof.
  intros Hf. pose proof (same_ends_upd_link n l f Hf) as HS.
  unfold settled. rewrite (live_same_ends _ _ _ HS). by se_rewrite HS.
Qed.

Lemma Get_live n id l : fabric_wf n → LinkManager_Get n id = Some l → live n l.
Proof. intros Hwf H. unfold live. by destruct (wf_table _ Hwf _ _ H) as [_ ->]. Qed.

Lemma wf_LinkFaulted now dupe l n :
  fabric_wf n → settled n l → fabric_wf (LinkFaulted now dupe l n).1.
Proof.
  intros Hwf Hl. simpl. apply wf_Remove; [eauto with fabric|].
  apply settled_upd_link; eauto with fabric.
Qed.

Lemma wf_handleFaultedLink now self fault n :
  fabric_wf n → fabric_wf (handleFaultedLink now self fault n).1.
Proof.
  intros Hwf. unfold handleFaultedLink. destruct (LinkManager_Get n (f_Id fault)) as [l|] eqn:E;
    [|done].
  case_match; [done|]. assert (fabric_wf (LinkFaulted now (f_Duplicate fault) l n).1) as H1.
  { apply wf_LinkFaulted; [done|]. left. by eapply Get_live. }
  destruct (LinkFaulted _ _ _ _) as [n' eff]. simpl in H1. by repeat case_match.
Qed.

Lemma wf_HandleLinks linkId it st n : fabric_wf n → fabric_wf (HandleLinks linkId it st n).1.
Proof.
  intros Hwf. unfold HandleLinks. simpl. repeat case_match; eauto with fabric.
Qed.

Lemma wf_RemoveLink linkId n : fabric_wf n → fabric_wf (RemoveLink linkId n).1.
Proof.
  intros Hwf. unfold RemoveLink. destruct (LinkManager_Get n linkId) as [l|] eqn:E; [|done].
  apply wf_Remove; [done|]. left. by eapply Get_live.
Qed.

(** ** A link reported by its dialing router *)

(** Allocating a link object that no table refers to. *)
Lemma wf_alloc_link n l lk :
  fabric_wf n → n_links n !! l = None →
  fabric_wf (mkNet (n_routers n) (<[l := lk]> (n_links n)) (n_linkTable n) (n_connected n)).
Proof.
  intros Hwf Hl. set (n' := mkNet _ _ _ _).
  assert (∀ x, n_linkTable n !! l_Id (link n' x) = Some x → x ≠ l) as Hne.
  { intros x Hx ->. destruct (wf_table _ Hwf _ _ Hx) as [[? ?] _]. congruence. }
  assert (∀ x, x ≠ l → link n' x = link n x) as Hlink.
  { intros x Hx. unfold link, n'. simpl. by rewrite lookup_insert_ne. }
  assert (∀ x, live n' x ↔ live n x ∧ x ≠ l) as Hlive.
  { intros x. unfold live. split.
    - intros Hx. pose proof (Hne x Hx). by rewrite <- Hlink.
    - intros [Hx ?]. by rewrite Hlink. }
  assert (∀ x, live n x → x ≠ l) as Hne'.
  { intros x Hx ->. destruct (wf_table _ Hwf _ _ Hx) as [[? ?] _]. congruence. }
  split; try apply Hwf.
  - intros id x Hx. destruct (wf_table _ Hwf _ _ Hx) as [[? Hx'] Hid].
    assert (x ≠ l) by congruence. rewrite Hlink by done. split; [|done].
    unfold n'. simpl. rewrite lookup_insert_ne by done. eauto.
  - intros x [Hx ?]%Hlive. rewrite Hlink by done. by apply (wf_src _ Hwf).
  - intros x d [Hx ?]%Hlive. rewrite Hlink by done. by apply (wf_dst _ Hwf).
  - intros x d [Hx ?]%Hlive. rewrite Hlink by done. by apply (wf_dst_id _ Hwf).
  - intros r id x Hr. change (router n' ?y) with (router n y). rewrite (wf_by _ Hwf) by done.
    rewrite Hlive. split.
    + intros [Hx ?]. pose proof (Hne' x Hx). rewrite Hlink by done. tauto.
    + intros [[Hx ?] He]. rewrite Hlink in He by done. tauto.
  - intros r x Hr. change (router n' ?y) with (router n y). rewrite (wf_all _ Hwf) by done.
    rewrite Hlive. split.
    + intros [Hx ?]. pose proof (Hne' x Hx). rewrite Hlink by done. tauto.
    + intros [[Hx ?] He]. rewrite Hlink in He by done. tauto.
Qed.

Lemma fresh_link_new n : n_links n !! fresh_link n = None.
Proof. apply not_elem_of_dom. exact (is_fresh (dom (n_links n))). Qed.

(** The link object the report creates carries the reported identity. *)
Lemma wf_report_create n rep src dst lk :
  fabric_wf n → n_connected n !! r_Id (router n src) = Some src →
  dst = n_connected n !! rep_DestRouterId rep →
  n_linkTable n !! rep_Id rep = None →
  l_Id lk = rep_Id rep → l_Src lk = src → l_DstId lk = rep_DestRouterId rep → l_Dst lk = dst →
  fabric_wf (LinkManager_Add (fresh_link n)
    (mkNet (n_routers n) (<[fresh_link n := lk]> (n_links n)) (n_linkTable n) (n_connected n))).
Proof.
  intros Hwf Hsrc Hdst Hnone Hid Hs Hdi Hd. set (n' := mkNet _ _ _ _).
  assert (link n' (fresh_link n) = lk) as Hlk
    by (unfold link, n'; simpl; by rewrite lookup_insert_eq).
  apply wf_Add; rewrite ?Hlk.
  - apply wf_alloc_link; [done|apply fresh_link_new].
  - unfold n'. simpl. rewrite lookup_insert_eq. eauto.
  - by rewrite Hid.
  - rewrite Hs. done.
  - by rewrite Hd, Hdi.
Qed.

Lemma wf_RouterReportedLink il now rep src dst n :
  fabric_wf n → n_connected n !! r_Id (router n src) = Some src →
  dst = n_connected n !! rep_DestRouterId rep →
  fabric_wf (LinkManager_RouterReportedLink il now rep src dst n).1.
Proof.
  intros Hwf Hsrc Hdst. unfold LinkManager_RouterReportedLink.
  destruct (LinkManager_Get n (rep_Id rep)) as [l|] eqn:E.
  - case_match; [done|]. assert (live n l) as Hl by by eapply Get_live.
    destruct (Remove_settled n l (or_introl Hl)) as [HS Ht].
    assert (l_Id (link n l) = rep_Id rep) as Hid by by apply (wf_table _ Hwf) in E as [_ ?].
    apply (wf_report_create _ rep src dst); try (by destruct (rep_ConnState rep)).
    + apply wf_Remove; [done|by left].
    + by se_rewrite HS.
    + by se_rewrite HS.
    + by rewrite Ht, Hid, lookup_delete_eq.
  - apply (wf_report_create _ rep src dst); try done.
Qed.

Lemma wf_NotifyExistingLink il now srcRouter rep n :
  fabric_wf n → fabric_wf (NotifyExistingLink il now srcRouter rep n).1.
Proof.
  intros Hwf. unfold NotifyExistingLink, RouterManager_GetConnected.
  destruct (n_connected n !! r_Id (router n srcRouter)) as [src|] eqn:E; [|done].
  case_match eqn:Hg; [done|]. bool_prop. subst src.
  pose proof (wf_RouterReportedLink il now rep srcRouter _ n Hwf E eq_refl) as H.
  destruct (LinkManager_RouterReportedLink _ _ _ _ _ _) as [n' [l created]]. done.
Qed.

(** ** A router connecting *)

(** One step of [BuildRouterLinks]. *)
Definition buildOne (r : RouterRef) (n : Net) (l : LinkRef) : Net :=
  if bool_decide (l_DstId (link n l) = r_Id (router n r)) then
    upd_link l (Link_setDst (Some r))
      (upd_routerLinks r (RouterLinks_Add l (r_Id (router n (l_Src (link n l))))) n)
  else n.

Lemma BuildRouterLinks_eq r n :
  LinkManager_BuildRouterLinks r n = foldl (buildOne r) n (linkTable_all n).
Proof. done. Qed.

(** What building the index of [r] over the links [ls] changes. *)
Record built (r : RouterRef) (ls : list LinkRef) (n n' : Net) : Prop := mkBuilt {
  b_link : ∀ x, link n' x =
    if decide (x ∈ ls ∧ l_DstId (link n x) = r_Id (router n r))
    then Link_setDst (Some r) (link n x) else link n x;
  b_links : ∀ x, is_Some (n_links n' !! x) ↔ is_Some (n_links n !! x);
  b_routers : ∀ x, is_Some (n_routers n' !! x) ↔ is_Some (n_routers n !! x);
  b_other : ∀ x, x ≠ r → router n' x = router n x;
  b_self : r_Id (router n' r) = r_Id (router n r) ∧
           r_Connected (router n' r) = r_Connected (router n r);
  b_table : n_linkTable n' = n_linkTable n;
  b_connected : n_connected n' = n_connected n;
  b_by : ∀ id x, x ∈ byRouter (r_routerLinks (router n' r)) id ↔
    x ∈ byRouter (r_routerLinks (router n r)) id ∨
    (x ∈ ls ∧ l_DstId (link n x) = r_Id (router n r) ∧ r_Id (router n (l_Src (link n x))) = id);
  b_all : ∀ x, x ∈ rl_allLinks (r_routerLinks (router n' r)) ↔
    x ∈ rl_allLinks (r_routerLinks (router n r)) ∨
    (x ∈ ls ∧ l_DstId (link n x) = r_Id (router n r));
}.

Lemma built_id r ls n n' x : built r ls n n' → r_Id (router n' x) = r_Id (router n x).
Proof.
  intros B. destruct (decide (x = r)) as [->|Hne]; [apply (b_self _ _ _ _ B)|].
  by rewrite (b_other _ _ _ _ B).
Qed.

Lemma built_conn r ls n n' x :
  built r ls n n' → r_Connected (router n' x) = r_Connected (router n x).
Proof.
  intros B. destruct (decide (x = r)) as [->|Hne]; [apply (b_self _ _ _ _ B)|].
  by rewrite (b_other _ _ _ _ B).
Qed.

Lemma built_link r ls n n' x :
  built r ls n n' →
  l_Id (link n' x) = l_Id (link n x) ∧ l_Src (link n' x) = l_Src (link n x) ∧
  l_DstId (link n' x) = l_DstId (link n x).
Proof. intros B. rewrite (b_link _ _ _ _ B). by case_decide. Qed.

Lemma built_nil r n : built r [] n n.
Proof. split; try done; set_solver. Qed.

Lemma built_one r l n :
  is_Some (n_routers n !! r) → is_Some (n_links n !! l) → built r [l] n (buildOne r n l).
Proof.
  intros Hr Hl. unfold buildOne. case_bool_decide as Hd.
  - split; try done.
    + intros x. rewrite link_upd. change (link (upd_routerLinks ?a ?b ?c) ?y) with (link c y).
      change (n_links (upd_routerLinks _ _ _)) with (n_links n).
      destruct (decide (l = x ∧ _)) as [[<- _]|Hn].
      * rewrite decide_True by (split; [set_solver|done]). done.
      * rewrite decide_False; [done|]. intros [->%list_elem_of_singleton ?]. by apply Hn.
    + intros x. simpl. by rewrite lookup_alter_is_Some.
    + intros x. simpl. by rewrite lookup_alter_is_Some.
    + intros x Hx. by apply router_upd_links_ne.
    + split; [apply router_upd_links_id|apply router_upd_links_conn].
    + intros id x. change (router (upd_link ?a ?b ?c) ?y) with (router c y).
      rewrite router_upd_links_eq by done. rewrite byRouter_Add, list_elem_of_singleton.
      naive_solver.
    + intros x. change (router (upd_link ?a ?b ?c) ?y) with (router c y).
      rewrite router_upd_links_eq by done. rewrite allLinks_Add, list_elem_of_singleton.
      naive_solver.
  - split; try done.
    + intros x. rewrite decide_False; [done|]. intros [->%list_elem_of_singleton ?]. done.
    + intros id x. rewrite list_elem_of_singleton. naive_solver.
    + intros x. rewrite list_elem_of_singleton. naive_solver.
Qed.

Lemma built_app r l ls n n1 n2 :
  built r [l] n n1 → built r ls n1 n2 → built r (l :: ls) n n2.
Proof.
  intros B1 B2. pose proof (λ x, built_id _ _ _ _ x B1) as Hid.
  pose proof (λ x, built_conn _ _ _ _ x B1) as Hco.
  pose proof (λ x, built_link _ _ _ _ x B1) as Hlk.
  split.
  - intros x. rewrite (b_link _ _ _ _ B2). destruct (Hlk x) as (_ & _ & ->). rewrite Hid.
    rewrite (b_link _ _ _ _ B1). repeat case_decide; set_solver.
  - intros x. by rewrite (b_links _ _ _ _ B2), (b_links _ _ _ _ B1).
  - intros x. by rewrite (b_routers _ _ _ _ B2), (b_routers _ _ _ _ B1).
  - intros x Hx. by rewrite (b_other _ _ _ _ B2), (b_other _ _ _ _ B1).
  - destruct (b_self _ _ _ _ B2) as [-> ->]. apply (b_self _ _ _ _ B1).
  - by rewrite (b_table _ _ _ _ B2), (b_table _ _ _ _ B1).
  - by rewrite (b_connected _ _ _ _ B2), (b_connected _ _ _ _ B1).
  - intros id x. rewrite (b_by _ _ _ _ B2), (b_by _ _ _ _ B1).
    destruct (Hlk x) as (_ & -> & ->). rewrite !Hid. set_solver.
  - intros x. rewrite (b_all _ _ _ _ B2), (b_all _ _ _ _ B1).
    destruct (Hlk x) as (_ & _ & ->). rewrite Hid. set_solver.
Qed.

Lemma built_fold r ls n :
  is_Some (n_routers n !! r) → Forall (λ l, is_Some (n_links n !! l)) ls →
  built r ls n (foldl (buildOne r) n ls).
Proof.
  revert n. induction ls as [|l ls IH]; intros n Hr Hls; [apply built_nil|].
  apply Forall_cons in Hls as [Hl Hls]. simpl.
  pose proof (built_one r l n Hr Hl) as B1. eapply built_app; [exact B1|]. apply IH.
  - by apply (b_routers _ _ _ _ B1).
  - eapply Forall_impl; [exact Hls|]. intros x Hx. by apply (b_links _ _ _ _ B1).
Qed.

(** The effect of [MarkConnected] on a router whose id has no connection. *)
Definition markOn (r : RouterRef) (n : Net) : Net :=
  mkNet (alter (Router_setConnected true) r (n_routers n)) (n_links n) (n_linkTable n)
    (<[r_Id (router n r) := r]> (n_connected n)).

Lemma markOn_router r n x :
  is_Some (n_routers n !! r) →
  r_Id (router (markOn r n) x) = r_Id (router n x) ∧
  r_routerLinks (router (markOn r n) x) = r_routerLinks (router n x) ∧
  r_Connected (router (markOn r n) x) = (if decide (x = r) then true else r_Connected (router n x)).
Proof.
  intros Hr. pose proof (router_upd n r (Router_setConnected true) x) as H.
  change (router (upd_router r (Router_setConnected true) n) x) with (router (markOn r n) x) in H.
  rewrite H. destruct (decide (x = r)) as [->|Hne].
  - by rewrite decide_True by done.
  - by rewrite decide_False by naive_solver.
Qed.

Lemma MarkConnected_markOn {A} (close : RouterRef → Net → Net * list A) r n :
  is_Some (n_routers n !! r) → n_connected n !! r_Id (router n r) = None →
  RouterManager_MarkConnected close r n = (markOn r n, []).
Proof.
  intros Hr Hn. unfold RouterManager_MarkConnected. rewrite Hn.
  destruct (markOn_router r n r Hr) as (Hid & _). unfold markOn.
  change (router (upd_router r (Router_setConnected true) n) r) with (router (markOn r n) r).
  by rewrite Hid.
Qed.

Section Connecting.
Context (n : Net) (r : RouterRef) (Hwf : fabric_wf n).
Context (Hr : is_Some (n_routers n !! r)) (Hoff : r_Connected (router n r) = false).
Context (Hempty : r_routerLinks (router n r) = RouterLinks_Clear).
Context (Hnone : n_connected n !! r_Id (router n r) = None).

Definition connecting : Net := markOn r (LinkManager_BuildRouterLinks r n).

Lemma connecting_built : built r (linkTable_all n) n (LinkManager_BuildRouterLinks r n).
Proof.
  rewrite BuildRouterLinks_eq. apply built_fold; [done|]. apply Forall_forall.
  intros x Hx%linkTable_all_live; [|done]. by destruct (wf_table _ Hwf _ _ Hx).
Qed.

Lemma connecting_link x :
  l_Id (link connecting x) = l_Id (link n x) ∧ l_Src (link connecting x) = l_Src (link n x) ∧
  l_DstId (link connecting x) = l_DstId (link n x).
Proof. apply (built_link _ _ _ _ x connecting_built). Qed.

Lemma connecting_live x : live connecting x ↔ live n x.
Proof.
  unfold live. destruct (connecting_link x) as (-> & _).
  change (n_linkTable connecting) with (n_linkTable (LinkManager_BuildRouterLinks r n)).
  by rewrite (b_table _ _ _ _ connecting_built).
Qed.

Lemma connecting_dst x :
  live n x →
  l_Dst (link connecting x) =
  if decide (l_DstId (link n x) = r_Id (router n r)) then Some r else l_Dst (link n x).
Proof.
  intros Hx. change (link connecting x) with (link (LinkManager_BuildRouterLinks r n) x).
  rewrite (b_link _ _ _ _ connecting_built).
  assert (x ∈ linkTable_all n) by by apply linkTable_all_live.
  repeat case_decide; naive_solver.
Qed.

Lemma connecting_router x :
  r_Id (router connecting x) = r_Id (router n x) ∧
  r_Connected (router connecting x) = (if decide (x = r) then true else r_Connected (router n x)).
Proof.
  destruct (markOn_router r (LinkManager_BuildRouterLinks r n) x) as (Hid & _ & Hc).
  - by apply (b_routers _ _ _ _ connecting_built).
  - unfold connecting. rewrite Hid, Hc, (built_id _ _ _ _ _ connecting_built).
    by rewrite (built_conn _ _ _ _ _ connecting_built).
Qed.

Lemma connecting_links x :
  r_routerLinks (router connecting x) =
  r_routerLinks (router (LinkManager_BuildRouterLinks r n) x).
Proof.
  apply (markOn_router r (LinkManager_BuildRouterLinks r n) x).
  by apply (b_routers _ _ _ _ connecting_built).
Qed.

Lemma connecting_connected : n_connected connecting = <[r_Id (router n r) := r]> (n_connected n).
Proof.
  unfold connecting, markOn. simpl. rewrite (b_connected _ _ _ _ connecting_built).
  by rewrite (built_id _ _ _ _ _ connecting_built).
Qed.

(** No live link has [r] as its source: its source is connected. *)
Lemma connecting_not_src x : live n x → l_Src (link n x) ≠ r.
Proof.
  intros Hx Heq. pose proof (wf_src _ Hwf x Hx) as H. rewrite Heq in H. congruence.
Qed.

(** [connecting_dst] read backwards. *)
Lemma connecting_dst_iff x y :
  live n x →
  l_Dst (link connecting x) = Some y ↔
  if decide (y = r) then l_DstId (link n x) = r_Id (router n r)
  else l_DstId (link n x) ≠ r_Id (router n r) ∧ l_Dst (link n x) = Some y.
Proof.
  intros Hx. rewrite connecting_dst by done. pose proof (wf_dst_id _ Hwf x) as Hd.
  repeat case_decide; subst; naive_solver.
Qed.

(** A connected router other than [r] has another id. *)
Lemma connecting_other_id y :
  r_Connected (router n y) = true → r_Id (router n y) ≠ r_Id (router n r).
Proof. intros Hy%(wf_conn' _ Hwf) Heq. congruence. Qed.

Lemma wf_connecting_index y x :
  r_Connected (router connecting y) = true → live n x →
  (l_Dst (link connecting x) = Some y ↔
   if decide (y = r) then l_DstId (link n x) = r_Id (router n r) else l_Dst (link n x) = Some y).
Proof.
  intros Hy Hx. rewrite connecting_dst_iff by done.
  destruct (connecting_router y) as (_ & Hc). rewrite Hc in Hy.
  case_decide; [done|]. split; [tauto|]. intros Hd. split; [|done].
  rewrite <- (wf_dst_id _ Hwf x y Hx Hd). by apply connecting_other_id.
Qed.

Lemma wf_connecting_by y id x :
  r_Connected (router connecting y) = true →
  (x ∈ byRouter (r_routerLinks (router connecting y)) id ↔
   live n x ∧ ((l_Src (link n x) = y ∧ l_DstId (link n x) = id) ∨
     (l_Dst (link connecting x) = Some y ∧ r_Id (router n (l_Src (link n x))) = id))).
Proof.
  intros Hy. rewrite connecting_links.
  pose proof (λ H, wf_connecting_index y x Hy H) as Hi.
  destruct (connecting_router y) as (_ & Hc). rewrite Hc in Hy. clear Hc.
  destruct (decide (y = r)) as [->|Hne].
  - rewrite (b_by _ _ _ _ connecting_built), Hempty.
    assert (x ∉ byRouter RouterLinks_Clear id) as Hno by set_solver.
    pose proof (connecting_not_src x) as Hns.
    rewrite linkTable_all_live by done. naive_solver.
  - rewrite (b_other _ _ _ _ connecting_built) by done.
    rewrite (wf_by _ Hwf) by done. naive_solver.
Qed.

Lemma wf_connecting_all y x :
  r_Connected (router connecting y) = true →
  (x ∈ rl_allLinks (r_routerLinks (router connecting y)) ↔
   live n x ∧ (l_Src (link n x) = y ∨ l_Dst (link connecting x) = Some y)).
Proof.
  intros Hy. rewrite connecting_links.
  pose proof (λ H, wf_connecting_index y x Hy H) as Hi.
  destruct (connecting_router y) as (_ & Hc). rewrite Hc in Hy. clear Hc.
  destruct (decide (y = r)) as [->|Hne].
  - rewrite (b_all _ _ _ _ connecting_built), Hempty.
    assert (x ∉ rl_allLinks RouterLinks_Clear) as Hno by set_solver.
    pose proof (connecting_not_src x) as Hns.
    rewrite linkTable_all_live by done. naive_solver.
  - rewrite (b_other _ _ _ _ connecting_built) by done.
    rewrite (wf_all _ Hwf) by done. naive_solver.
Qed.

Lemma wf_connecting : fabric_wf connecting.
Proof.
  pose proof connecting_link as HL. pose proof connecting_router as HR. split.
  - intros id x Hx. change (n_linkTable connecting) with
      (n_linkTable (LinkManager_BuildRouterLinks r n)) in Hx.
    rewrite (b_table _ _ _ _ connecting_built) in Hx.
    destruct (HL x) as (-> & _). destruct (wf_table _ Hwf _ _ Hx) as [Hs ?]. split; [|done].
    by apply (b_links _ _ _ _ connecting_built).
  - intros id y. rewrite connecting_connected, lookup_insert_Some. destruct (HR y) as (-> & ->).
    unfold connecting, markOn. simpl.
    rewrite lookup_alter_is_Some, (b_routers _ _ _ _ connecting_built).
    intros [[<- <-]|[Hne Hy]]; [by rewrite decide_True|].
    pose proof (wf_conn _ Hwf _ _ Hy) as (? & ? & ?). case_decide; subst; [done|auto].
  - intros y. rewrite connecting_connected. destruct (HR y) as (-> & ->). case_decide as E.
    + intros _. subst. apply lookup_insert_eq.
    + intros Hy. pose proof (connecting_other_id y Hy).
      rewrite lookup_insert_ne by done. by apply (wf_conn' _ Hwf).
  - intros x Hx%connecting_live. destruct (HL x) as (_ & -> & _).
    destruct (HR (l_Src (link n x))) as (-> & _). rewrite connecting_connected.
    pose proof (wf_src _ Hwf _ Hx) as Hs. rewrite lookup_insert_ne; [done|congruence].
  - intros x d Hx%connecting_live. destruct (HL x) as (_ & _ & ->).
    rewrite connecting_connected, lookup_insert_Some, connecting_dst by done.
    intros [[<- <-]|[Hne Hd]]; [by rewrite decide_True|].
    rewrite decide_False by done. by apply (wf_dst _ Hwf).
  - intros x d Hx%connecting_live. destruct (HL x) as (_ & _ & ->), (HR d) as (-> & _).
    rewrite connecting_dst by done. case_decide as E; [by intros [= <-]|].
    by apply (wf_dst_id _ Hwf).
  - intros y id x Hy. rewrite wf_connecting_by, connecting_live by done.
    destruct (HL x) as (_ & -> & ->), (HR (l_Src (link n x))) as (-> & _). done.
  - intros y x Hy. rewrite wf_connecting_all, connecting_live by done.
    by destruct (HL x) as (_ & -> & _).
Qed.

Lemma wf_ConnectRouter : fabric_wf (ConnectRouter r n).1.
Proof.
  unfold ConnectRouter. rewrite MarkConnected_markOn.
  - exact wf_connecting.
  - by apply (b_routers _ _ _ _ connecting_built).
  - by rewrite (b_connected _ _ _ _ connecting_built), (built_id _ _ _ _ _ connecting_built).
Qed.
End Connecting.

(** ** A router disconnecting *)

Section MarkingOff.
Context (n : Net) (r : RouterRef) (Hwf : fabric_wf n).

Lemma markOff_router x :
  r_Id (router (RouterManager_MarkDisconnected r n) x) = r_Id (router n x) ∧
  r_Connected (router (RouterManager_MarkDisconnected r n) x) =
    (if decide (x = r) then false else r_Connected (router n x)) ∧
  (x ≠ r → router (RouterManager_MarkDisconnected r n) x = router n x).
Proof.
  unfold RouterManager_MarkDisconnected. cbv zeta.
  rewrite router_upd_links_id, router_upd_links_conn.
  change (router (mkNet ?a ?b ?c ?d) x) with
    (router (upd_router r (Router_setConnected false) n) x).
  rewrite router_upd. split_and!.
  - case_decide as H; [|done]. by destruct H as [-> _].
  - case_decide as H; case_decide as H'; subst; try done; [naive_solver|].
    unfold router. destruct (n_routers n !! r) eqn:E; [|done].
    exfalso. apply H. eauto.
  - intros Hne. rewrite router_upd_links_ne by done.
    change (router (mkNet ?a ?b ?c ?d) x) with
      (router (upd_router r (Router_setConnected false) n) x).
    rewrite router_upd. rewrite decide_False by naive_solver. done.
Qed.

Lemma markOff_connected id y :
  n_connected (RouterManager_MarkDisconnected r n) !! id = Some y ↔
  n_connected n !! id = Some y ∧ y ≠ r.
Proof.
  unfold RouterManager_MarkDisconnected. cbv zeta.
  assert (r_Id (router (upd_router r (Router_setConnected false) n) r) = r_Id (router n r)) as ->.
  { rewrite router_upd. by case_decide. }
  simpl. assert (n_connected n !! id = Some r → id = r_Id (router n r)) as Hid
    by (intros Hc; by apply (wf_conn _ Hwf) in Hc as (_ & ? & _)).
  destruct (n_connected n !! r_Id (router n r)) as [v|] eqn:E; [|naive_solver].
  case_bool_decide as Hv; [|naive_solver]. rewrite lookup_delete_Some. naive_solver.
Qed.

Lemma wf_markOff :
  (∀ x, live n x → l_Src (link n x) ≠ r) → fabric_wf (RouterManager_MarkDisconnected r n).
Proof.
  intros Hsrc. set (n' := RouterManager_MarkDisconnected r n).
  pose proof markOff_router as HR. pose proof markOff_connected as HC. fold n' in HR, HC.
  assert (∀ x, link n' x = link n x) as HL by done.
  assert (∀ x, live n' x ↔ live n x) as Hlive by done.
  split.
  - apply (wf_table _ Hwf).
  - intros id y [Hy Hne]%HC. destruct (HR y) as (-> & -> & _). rewrite decide_False by done.
    destruct (wf_conn _ Hwf _ _ Hy) as (Hs & ?). split; [|done].
    unfold n', RouterManager_MarkDisconnected, upd_routerLinks, upd_router. simpl.
    by rewrite !lookup_alter_ne.
  - intros y. destruct (HR y) as (-> & -> & _). case_decide; [done|]. intros Hy.
    apply HC. split; [|done]. by apply (wf_conn' _ Hwf).
  - intros x Hx%Hlive. rewrite HL. destruct (HR (l_Src (link n x))) as (-> & _).
    apply HC. split; [by apply (wf_src _ Hwf)|by apply Hsrc].
  - intros x d Hx%Hlive [Hd _]%HC. by apply (wf_dst _ Hwf).
  - intros x d Hx%Hlive. destruct (HR d) as (-> & _). by apply (wf_dst_id _ Hwf).
  - intros y id x. destruct (HR y) as (_ & -> & Hy). case_decide; [done|]. rewrite Hy by done.
    rewrite HL, Hlive. destruct (HR (l_Src (link n x))) as (-> & _). apply (wf_by _ Hwf).
  - intros y x. destruct (HR y) as (_ & -> & Hy). case_decide; [done|]. rewrite Hy by done.
    rewrite HL, Hlive. apply (wf_all _ Hwf).
Qed.
End MarkingOff.

(** The loop of [DisconnectRouter], without the reroutes it schedules. *)
Definition dropOwn (rid : string) (n : Net) (l : LinkRef) : Net :=
  if bool_decide (r_Id (router n (l_Src (link n l))) = rid) then LinkManager_Remove l n else n.

Lemma dropOwn_settled rid n l :
  settled n l → same_ends n (dropOwn rid n l) ∧
  (∀ x, live (dropOwn rid n l) x → live n x) ∧
  (∀ x, settled n x → settled (dropOwn rid n l) x).
Proof.
  intros Hl. unfold dropOwn. case_bool_decide; [|done].
  split_and!; [by apply Remove_settled|by intros; eapply Remove_live_mono|].
  intros. by apply settled_Remove.
Qed.

Lemma dropOwn_fold rid ls n :
  fabric_wf n → Forall (settled n) ls →
  fabric_wf (foldl (dropOwn rid) n ls) ∧ same_ends n (foldl (dropOwn rid) n ls) ∧
  (∀ x, live (foldl (dropOwn rid) n ls) x → live n x) ∧
  (∀ x, x ∈ ls → r_Id (router n (l_Src (link n x))) = rid → ¬ live (foldl (dropOwn rid) n ls) x).
Proof.
  revert n. induction ls as [|l ls IH]; intros n Hwf Hs; [set_solver|].
  apply Forall_cons in Hs as [Hl Hls]. simpl.
  destruct (dropOwn_settled rid n l Hl) as (HS & Hm & Hset).
  destruct (IH (dropOwn rid n l)) as (Hwf' & HS' & Hm' & Hgone).
  { unfold dropOwn. case_bool_decide; [by apply wf_Remove|done]. }
  { eapply Forall_impl; [exact Hls|]. auto. }
  split_and!; [done|by etransitivity|auto|].
  intros x Hx Hid. apply elem_of_cons in Hx as [->|Hx].
  - intros Hlv%Hm'. revert Hlv. unfold dropOwn. rewrite bool_decide_true by done.
    by apply Remove_gone.
  - apply Hgone; [done|]. by se_rewrite HS.
Qed.

Lemma DisconnectRouter_fold r ls n eff :
  (foldl (λ '(n, eff) l,
    let wasConnected := bool_decide (ls_Mode (l_state (link n l)) = Connected) in
    let n := if bool_decide (r_Id (router n (l_Src (link n l))) = r_Id (router n r))
             then LinkManager_Remove l n else n in
    (n, if wasConnected then eff ++ [RerouteLink l] else eff)) (n, eff) ls).1 =
  foldl (λ n l, dropOwn (r_Id (router n r)) n l) n ls.
Proof.
  revert n eff. induction ls as [|l ls IH]; intros n eff; [done|]. simpl. by rewrite IH.
Qed.

Lemma dropOwn_foldl_id r ls n :
  Forall (settled n) ls →
  foldl (λ n l, dropOwn (r_Id (router n r)) n l) n ls = foldl (dropOwn (r_Id (router n r))) n ls.
Proof.
  revert n. induction ls as [|l ls IH]; intros n Hs; [done|].
  apply Forall_cons in Hs as [Hl Hls].
  destruct (dropOwn_settled (r_Id (router n r)) n l Hl) as (HS & _ & Hset). simpl.
  rewrite IH by (eapply Forall_impl; [exact Hls|]; auto). by se_rewrite HS.
Qed.

Lemma DisconnectRouter_fst r n :
  Forall (settled n) (rl_allLinks (r_routerLinks (router n r))) →
  (DisconnectRouter r n).1 = RouterManager_MarkDisconnected r
    (foldl (dropOwn (r_Id (router n r))) n (rl_allLinks (r_routerLinks (router n r)))).
Proof.
  intros Hs. rewrite <- dropOwn_foldl_id by done.
  rewrite <- (DisconnectRouter_fold _ _ _ []). unfold DisconnectRouter.
  by destruct (foldl _ (n, []) _).
Qed.

(** A router object is disconnected at most once with a filled index. *)
Definition can_disconnect (n : Net) (r : RouterRef) : Prop :=
  r_Connected (router n r) = true ∨ r_routerLinks (router n r) = RouterLinks_Clear.

Lemma wf_DisconnectRouter r n :
  fabric_wf n → can_disconnect n r → fabric_wf (DisconnectRouter r n).1.
Proof.
  intros Hwf Hr. assert (Forall (settled n) (rl_allLinks (r_routerLinks (router n r)))) as Hs.
  { destruct Hr as [Hr|Hr]; [|rewrite Hr; constructor]. apply Forall_forall.
    intros x Hx. left. by apply (wf_all _ Hwf) in Hx as [? _]. }
  rewrite DisconnectRouter_fst by done.
  destruct (dropOwn_fold (r_Id (router n r)) _ n Hwf Hs) as (Hwf' & HS & Hm & Hgone).
  apply wf_markOff; [done|]. intros x Hx. se_rewrite HS. intros Heq.
  pose proof (Hm _ Hx) as Hx0. pose proof (wf_src _ Hwf _ Hx0) as Hc. rewrite Heq in Hc.
  apply (wf_conn _ Hwf) in Hc as (_ & _ & Hc). apply (Hgone x); [|by rewrite Heq|done].
  apply (wf_all _ Hwf); [done|]. auto.
Qed.

(** ** Every reachable state *)

Inductive link_update : (Link → Link) → Prop :=
| UpdDown b : link_update (Link_SetDown b)
| UpdCost c : link_update (Link_SetStaticCost c)
| UpdSrcLatency c : link_update (Link_SetSrcLatency c)
| UpdDstLatency c : link_update (Link_SetDstLatency c).

(** The handlers, in any order. A router connects with a copy of its record
    made for this connection, and only while its id has no connection
    (handler_ctrl/connect.go refuses a second one). *)
Inductive fabric_step : Net → Net → Prop :=
| StepConnect r n :
    is_Some (n_routers n !! r) → r_Connected (router n r) = false →
    r_routerLinks (router n r) = RouterLinks_Clear →
    n_connected n !! r_Id (router n r) = None →
    fabric_step n (ConnectRouter r n).1
| StepDisconnect r n : can_disconnect n r → fabric_step n (DisconnectRouter r n).1
| StepReport il now r rep n : fabric_step n (NotifyExistingLink il now r rep n).1
| StepFault now r fault n : fabric_step n (handleFaultedLink now r fault n).1
| StepConns id it st n : fabric_step n (HandleLinks id it st n).1
| StepClean now n : fabric_step n (clean now n)
| StepScan n : fabric_step n (LinkManager_ScanForDeadLinks n)
| StepRemove id n : fabric_step n (RemoveLink id n).1
| StepUpdate l f n : link_update f → fabric_step n (upd_link l f n).

Definition fabric_init (n : Net) : Prop :=
  n_linkTable n = ∅ ∧ n_connected n = ∅ ∧ ∀ r, r_Connected (router n r) = false.

Lemma wf_init n : fabric_init n → fabric_wf n.
Proof.
  intros (Ht & Hc & Hr). split; unfold live; rewrite ?Ht, ?Hc; intros *; rewrite ?lookup_empty;
    try done; rewrite Hr; done.
Qed.

Lemma wf_step n n' : fabric_step n n' → fabric_wf n → fabric_wf n'.
Proof.
  intros [] Hwf; auto using wf_ConnectRouter, wf_DisconnectRouter, wf_NotifyExistingLink,
    wf_handleFaultedLink, wf_HandleLinks, wf_clean, wf_ScanForDeadLinks, wf_RemoveLink.
  apply wf_upd_link; [|done]. destruct H; eauto with fabric.
Qed.

Definition reachable (n : Net) : Prop := ∃ n0, fabric_init n0 ∧ rtc fabric_step n0 n.

Lemma wf_reachable n : reachable n → fabric_wf n.
Proof.
  intros (n0 & Hi & Hs). eapply rtc_invariant; [|by apply wf_init|exact Hs].
  intros x y ? ?. by eapply wf_step.
Qed.

(** ** The cheapest link between two routers *)

(** [l] is a usable link between [a] and [b]. *)
Definition joins (n : Net) (a b : RouterRef) (l : LinkRef) : Prop :=
  live n l ∧ l_usable (link n l) = true ∧
  ((l_Src (link n l) = a ∧ l_Dst (link n l) = Some b) ∨
   (l_Src (link n l) = b ∧ l_Dst (link n l) = Some a)).

Lemma joins_sym n a b l : joins n a b l → joins n b a l.
Proof. unfold joins. tauto. Qed.

Section Cheapest.
Context (n : Net) (b : RouterRef).

Definition eligible (l : LinkRef) : Prop :=
  l_usable (link n l) = true ∧
  (l_DstId (link n l) = r_Id (router n b) ∨ r_Id (router n (l_Src (link n l))) = r_Id (router n b)).

Definition cheaper : option LinkRef * Z → LinkRef → option LinkRef * Z :=
  λ '(selected, cost) l,
    let lk := link n l in
    if l_usable lk then
      if bool_decide (l_DstId lk = r_Id (router n b)) then
        if l_Cost lk <? cost then (Some l, l_Cost lk) else (selected, cost)
      else if bool_decide (r_Id (router n (l_Src lk)) = r_Id (router n b)) then
        if l_Cost lk <? cost then (Some l, l_Cost lk) else (selected, cost)
      else (selected, cost)
    else (selected, cost).

Lemma cheaper_spec st l :
  (eligible l ∧ l_Cost (link n l) < st.2 ∧ cheaper st l = (Some l, l_Cost (link n l))) ∨
  ((eligible l → st.2 ≤ l_Cost (link n l)) ∧ cheaper st l = st).
Proof.
  destruct st as [s c]. unfold cheaper, eligible. simpl.
  destruct (l_usable (link n l)); [|right; naive_solver].
  repeat case_bool_decide; try destruct (Z.ltb_spec (l_Cost (link n l)) c);
    solve [left; naive_solver|right; naive_solver].
Qed.

Lemma cheaper_some ls x c : (foldl cheaper (Some x, c) ls).1 ≠ None.
Proof.
  revert x c. induction ls as [|z ls IH]; intros x c; [done|]. cbn [foldl].
  destruct (cheaper_spec (Some x, c) z) as [(_ & _ & ->)|(_ & ->)]; apply IH.
Qed.

Lemma cheaper_fold ls s c :
  (∀ l, s = Some l → l_Cost (link n l) = c) →
  let r := foldl cheaper (s, c) ls in
  r.2 ≤ c ∧ (∀ l, l ∈ ls → eligible l → r.2 ≤ l_Cost (link n l)) ∧
  (∀ l, r.1 = Some l → l_Cost (link n l) = r.2 ∧ (s = Some l ∨ (l ∈ ls ∧ eligible l ∧ r.2 < c))) ∧
  (r.1 = None → r.2 = c).
Proof.
  revert s c. induction ls as [|x ls IH]; intros s c Hs;
    [simpl; split_and!; [lia|set_solver|auto|auto]|].
  cbn [foldl]. cbv zeta.
  destruct (cheaper_spec (s, c) x) as [(He & Hlt & ->)|(He & ->)]; simpl in *.
  - destruct (IH (Some x) (l_Cost (link n x))) as (H1 & H2 & H3 & H4); [by intros ? [= ->]|].
    split_and!; [lia| | |].
    + intros l [->|Hl]%elem_of_cons Hel; [done|by apply H2].
    + intros l Hl. destruct (H3 l Hl) as [Hc [[= ->]|(Hin & Hel & Hlt')]]; split; try done; right.
      * split_and!; [set_solver|done|lia].
      * split_and!; [set_solver|done|lia].
    + intros Hn. by apply cheaper_some in Hn.
  - destruct (IH s c Hs) as (H1 & H2 & H3 & H4). split_and!; [done| | |done].
    + intros l [->|Hl]%elem_of_cons Hel; [|by apply H2]. specialize (He Hel). lia.
    + intros l Hl. destruct (H3 l Hl) as [Hc [?|(Hin & Hel & Hlt')]]; split; auto.
      right. split_and!; [set_solver|done|lia].
Qed.

Lemma LeastExpensiveLink_spec a :
  let ls := byRouter (r_routerLinks (router n a)) (r_Id (router n b)) in
  match LinkManager_LeastExpensiveLink n a b with
  | Some l => l ∈ ls ∧ eligible l ∧ l_Cost (link n l) < MaxInt64 ∧
      (∀ x, x ∈ ls → eligible x → l_Cost (link n l) ≤ l_Cost (link n x))
  | None => ∀ x, x ∈ ls → eligible x → MaxInt64 ≤ l_Cost (link n x)
  end.
Proof.
  intros ls. unfold LinkManager_LeastExpensiveLink.
  change (foldl _ (None, MaxInt64) _) with (foldl cheaper (None, MaxInt64) ls).
  destruct (cheaper_fold ls None MaxInt64) as (H1 & H2 & H3 & H4); [done|].
  destruct (foldl cheaper (None, MaxInt64) ls) as [[l|] c]; simpl in *.
  - destruct (H3 l eq_refl) as [Hc [?|(Hin & Hel & Hlt)]]; [done|]. rewrite Hc. auto.
  - rewrite H4 in H2 by done. auto.
Qed.
End Cheapest.

(** The index of [a] under the id of [b] holds the links between them. *)
Lemma byRouter_joins n a b l :
  fabric_wf n → r_Connected (router n a) = true → r_Connected (router n b) = true →
  l ∈ byRouter (r_routerLinks (router n a)) (r_Id (router n b)) ∧ eligible n b l ↔ joins n a b l.
Proof.
  intros Hwf Ha Hb. rewrite (wf_by _ Hwf) by done. unfold eligible, joins.
  pose proof (wf_conn' _ Hwf _ Ha) as Ca. pose proof (wf_conn' _ Hwf _ Hb) as Cb.
  pose proof (wf_src _ Hwf l) as Hs. pose proof (wf_dst _ Hwf l) as Hd.
  pose proof (wf_dst_id _ Hwf l) as Hi. split.
  - intros [[Hl [[H1 H2]|[H1 H2]]] [Hu _]]; split; auto; split; auto.
    + left. split; [done|]. rewrite H2 in Hd. auto.
    + right. split; [|done]. specialize (Hs Hl). rewrite H2 in Hs. congruence.
  - intros (Hl & Hu & [[H1 H2]|[H1 H2]]).
    + pose proof (Hi _ Hl H2). naive_solver.
    + rewrite H1. naive_solver.
Qed.

Lemma LeastExpensiveLink_joins n a b :
  fabric_wf n → r_Connected (router n a) = true → r_Connected (router n b) = true →
  match LinkManager_LeastExpensiveLink n a b with
  | Some l => joins n a b l ∧ l_Cost (link n l) < MaxInt64 ∧
      (∀ x, joins n a b x → l_Cost (link n l) ≤ l_Cost (link n x))
  | None => ∀ x, joins n a b x → MaxInt64 ≤ l_Cost (link n x)
  end.
Proof.
  intros Hwf Ha Hb. pose proof (LeastExpensiveLink_spec n b a) as H.
  destruct (LinkManager_LeastExpensiveLink n a b) as [l|].
  - destruct H as (H1 & H2 & H3 & H4). split; [by apply byRouter_joins|]. split; [done|].
    intros x Hx%byRouter_joins; [|done..]. apply H4; apply Hx.
  - intros x Hx%byRouter_joins; [|done..]. apply H; apply Hx.
Qed.

(** The two directions agree. *)
Lemma LeastExpensiveLink_sym n a b :
  fabric_wf n → r_Connected (router n a) = true → r_Connected (router n b) = true →
  match LinkManager_LeastExpensiveLink n a b, LinkManager_LeastExpensiveLink n b a with
  | Some x, Some y => l_Cost (link n x) = l_Cost (link n y)
  | None, None => True
  | _, _ => False
  end.
Proof.
  intros Hwf Ha Hb. pose proof (LeastExpensiveLink_joins n a b Hwf Ha Hb) as H1.
  pose proof (LeastExpensiveLink_joins n b a Hwf Hb Ha) as H2.
  destruct (LinkManager_LeastExpensiveLink n a b) as [x|],
    (LinkManager_LeastExpensiveLink n b a) as [y|]; try done.
  - destruct H1 as (Jx & _ & Mx), H2 as (Jy & _ & My).
    pose proof (Mx y (joins_sym _ _ _ _ Jy)). pose proof (My x (joins_sym _ _ _ _ Jx)). lia.
  - destruct H1 as (Jx & Cx & _). pose proof (H2 x (joins_sym _ _ _ _ Jx)). lia.
  - destruct H2 as (Jy & Cy & _). pose proof (H1 y (joins_sym _ _ _ _ Jy)). lia.
Qed.

(** ** What the handlers promise *)

Lemma Remove_links l n : n_links (LinkManager_Remove l n) = n_links n.
Proof.
  rewrite LinkManager_Remove_ends. unfold linkTable_remove. repeat case_match; simplify_eq; try done.
  by destruct (at_ends_tables RouterLinks_Remove l (l_Src (link n l)) (l_Dst (link n l))
    (l_DstId (link n l)) (mkNet (n_routers n) (n_links n)
      (delete (l_Id (link n l)) (n_linkTable n)) (n_connected n))) as (-> & _).
Qed.

Lemma DisconnectRouter_effects_fold r ls n eff :
  (foldl (λ '(n, eff) l,
    let wasConnected := bool_decide (ls_Mode (l_state (link n l)) = Connected) in
    let n := if bool_decide (r_Id (router n (l_Src (link n l))) = r_Id (router n r))
             then LinkManager_Remove l n else n in
    (n, if wasConnected then eff ++ [RerouteLink l] else eff)) (n, eff) ls).2 =
  eff ++ (RerouteLink <$> filter (λ l, ls_Mode (l_state (link n l)) = Connected) ls).
Proof.
  revert n eff. induction ls as [|l ls IH]; intros n eff; [by rewrite app_nil_r|].
  cbn [foldl]. cbv zeta. set (n' := if bool_decide (r_Id _ = _) then _ else n). rewrite IH.
  assert (n_links n' = n_links n) as Hn by (unfold n'; case_bool_decide; [apply Remove_links|done]).
  unfold link. rewrite Hn. rewrite filter_cons.
  case_bool_decide as Hc; [rewrite decide_True by done|rewrite decide_False by done];
    simpl; [by rewrite <- app_assoc|done].
Qed.

Lemma DisconnectRouter_effects r n :
  (DisconnectRouter r n).2 = RerouteLink <$>
    filter (λ l, ls_Mode (l_state (link n l)) = Connected) (rl_allLinks (r_routerLinks (router n r))).
Proof.
  rewrite <- (app_nil_l (RerouteLink <$> _)). rewrite <- (DisconnectRouter_effects_fold r).
  unfold DisconnectRouter. by destruct (foldl _ (n, []) _).
Qed.

Lemma dropOwn_fold_keeps rid ls n x :
  fabric_wf n → Forall (settled n) ls → live n x → r_Id (router n (l_Src (link n x))) ≠ rid →
  live (foldl (dropOwn rid) n ls) x.
Proof.
  revert n. induction ls as [|l ls IH]; intros n Hwf Hs Hx Hid; [done|].
  apply Forall_cons in Hs as [Hl Hls]. simpl.
  destruct (dropOwn_settled rid n l Hl) as (HS & _ & Hset). apply IH.
  - unfold dropOwn. case_bool_decide; [by apply wf_Remove|done].
  - eapply Forall_impl; [exact Hls|]. auto.
  - unfold dropOwn. case_bool_decide as E; [|done].
    destruct (Remove_settled n l Hl) as [HS' Ht].
    rewrite (live_same_ends _ _ _ HS'), Ht, lookup_delete_ne; [done|].
    intros Heq. destruct Hl as [Hl|Hl]; unfold live in *; congruence.
  - by se_rewrite HS.
Qed.

Lemma disconnect_live n r :
  fabric_wf n → r_Connected (router n r) = true →
  r_Connected (router (DisconnectRouter r n).1 r) = false ∧
  ∀ l, live (DisconnectRouter r n).1 l ↔ live n l ∧ l_Src (link n l) ≠ r.
Proof.
  intros Hwf Hr. assert (Forall (settled n) (rl_allLinks (r_routerLinks (router n r)))) as Hs.
  { apply Forall_forall. intros x Hx. left. by apply (wf_all _ Hwf) in Hx as [? _]. }
  rewrite DisconnectRouter_fst by done. set (n1 := foldl _ _ _).
  destruct (dropOwn_fold (r_Id (router n r)) _ n Hwf Hs) as (Hwf' & HS & Hm & Hgone).
  destruct (markOff_router n1 r r) as (_ & -> & _). rewrite decide_True by done. split; [done|].
  intros l. change (live (RouterManager_MarkDisconnected r n1) l) with (live n1 l). split.
  - intros Hl. pose proof (Hm _ Hl) as Hl0. split; [done|]. intros Heq.
    apply (Hgone l); [|by rewrite Heq|done]. apply (wf_all _ Hwf); auto.
  - intros [Hl Hne]. apply dropOwn_fold_keeps; [done..|].
    pose proof (wf_src _ Hwf l Hl). pose proof (wf_conn' _ Hwf r Hr). congruence.
Qed.


(** The cheapest usable link between two connected routers does not depend
    on the direction it is asked in: both directions find a link or neither
    does, and the costs agree. A path found backwards by [shortestPath] can
    therefore be linked forwards. *)
Theorem cheapest_link_symmetric n a b :
  reachable n → r_Connected (router n a) = true → r_Connected (router n b) = true →
  (l_Cost ∘ link n <$> LinkManager_LeastExpensiveLink n a b) =
  (l_Cost ∘ link n <$> LinkManager_LeastExpensiveLink n b a).
Proof.
  intros Hwf%wf_reachable Ha Hb. pose proof (LeastExpensiveLink_sym n a b Hwf Ha Hb) as H.
  destruct (LinkManager_LeastExpensiveLink n a b), (LinkManager_LeastExpensiveLink n b a);
    simpl; try done. by rewrite H.
Qed.

(** A router that disconnects takes its links with it: afterwards it is not
    connected, no link of the table starts at it, the links of other routers
    are kept, and a reroute is scheduled for exactly the links of its index
    that were in mode Connected. *)
Theorem disconnect_drops_links n r :
  reachable n → r_Connected (router n r) = true →
  let '(n', eff) := DisconnectRouter r n in
  reachable n' ∧ r_Connected (router n' r) = false ∧
  (∀ l, live n' l ↔ live n l ∧ l_Src (link n l) ≠ r) ∧
  eff = RerouteLink <$> filter (λ l, ls_Mode (l_state (link n l)) = Connected)
          (rl_allLinks (r_routerLinks (router n r))).
Proof.
  intros Hre Hr. pose proof (wf_reachable _ Hre) as Hwf.
  pose proof (DisconnectRouter_effects r n) as He.
  assert (reachable (DisconnectRouter r n).1) as Hre'.
  { destruct Hre as (n0 & Hi & Hs). exists n0. split; [done|].
    eapply rtc_r; [exact Hs|]. constructor. by left. }
  pose proof (disconnect_live n r Hwf Hr) as [Hoff Hlive].
  destruct (DisconnectRouter r n) as [n' eff]. simpl in *. auto.
Qed.

(** [Add] and what it leaves alone. *)
Lemma Add_table l n : n_linkTable (LinkManager_Add l n) = <[l_Id (link n l) := l]> (n_linkTable n).
Proof.
  rewrite LinkManager_Add_ends. by destruct (at_ends_tables RouterLinks_Add l (l_Src (link n l))
    (l_Dst (link n l)) (l_DstId (link n l)) (linkTable_add l n)) as (_ & -> & _).
Qed.

Lemma Add_links l n : n_links (LinkManager_Add l n) = n_links n.
Proof.
  rewrite LinkManager_Add_ends. by destruct (at_ends_tables RouterLinks_Add l (l_Src (link n l))
    (l_Dst (link n l)) (l_DstId (link n l)) (linkTable_add l n)) as (-> & _ & _).
Qed.

Definition iterationAt (n : Net) (id : string) : option Z :=
  (λ l, l_Iteration (link n l)) <$> n_linkTable n !! id.

Lemma reportedLink_fields il now rep src dst :
  let lk := reportedLink il now rep src dst in
  l_Id lk = rep_Id rep ∧ l_Iteration lk = rep_Iteration rep ∧ l_usable lk = true ∧
  l_Src lk = src ∧ l_Dst lk = dst ∧ l_DstId lk = rep_DestRouterId rep.
Proof. done. Qed.

Lemma created_spec il now rep src dst n :
  let n' := (createReported il now rep src dst n).1 in
  let l := fresh_link n in
  n_linkTable n' !! rep_Id rep = Some l ∧
  (∀ id, id ≠ rep_Id rep → n_linkTable n' !! id = n_linkTable n !! id) ∧
  iterationAt n' (rep_Id rep) = Some (rep_Iteration rep) ∧
  n_links n !! l = None ∧ l_usable (link n' l) = true ∧ l_Src (link n' l) = src ∧
  l_Dst (link n' l) = dst ∧ l_DstId (link n' l) = rep_DestRouterId rep.
Proof.
  intros n' l. destruct (reportedLink_fields il now rep src dst) as (Hi & Hit & Hu & Hs & Hd & Hdi).
  set (lk := reportedLink il now rep src dst) in *.
  set (n1 := mkNet (n_routers n) (<[l := lk]> (n_links n)) (n_linkTable n) (n_connected n)).
  assert (n' = LinkManager_Add l n1) as -> by done.
  assert (link n1 l = lk) as Hl1 by (unfold link, n1; simpl; by rewrite lookup_insert_eq).
  assert (link (LinkManager_Add l n1) l = lk) as Hl by (rewrite <- Hl1; unfold link; by rewrite Add_links).
  unfold iterationAt. rewrite Add_table, Hl1, Hi, Hl, lookup_insert_eq. simpl. rewrite Hl, Hit.
  split_and!; try done; [|apply fresh_link_new].
  intros id Hne. by rewrite lookup_insert_ne.
Qed.

(** Link reports are ordered by iteration: a report at most as new as the
    link known under its id changes nothing and returns the known link; any
    other report replaces the entry by a fresh usable link in mode Connected
    with the reported iteration and ends, and touches no other entry. *)
Theorem report_newest_wins n initialLatency now rep src dst :
  reachable n →
  let '(n', (l, created)) :=
    LinkManager_RouterReportedLink initialLatency now rep src dst n in
  n_linkTable n' !! rep_Id rep = Some l ∧
  (∀ id, id ≠ rep_Id rep → n_linkTable n' !! id = n_linkTable n !! id) ∧
  match iterationAt n (rep_Id rep) with
  | Some it =>
    if rep_Iteration rep <=? it then created = false ∧ n' = n
    else created = true ∧ iterationAt n' (rep_Id rep) = Some (rep_Iteration rep)
  | None => created = true ∧ iterationAt n' (rep_Id rep) = Some (rep_Iteration rep)
  end ∧
  (created = true → n_links n !! l = None ∧ l_usable (link n' l) = true ∧
     l_Src (link n' l) = src ∧ l_Dst (link n' l) = dst ∧
     l_DstId (link n' l) = rep_DestRouterId rep).
Proof.
  intros Hwf%wf_reachable. unfold LinkManager_RouterReportedLink, iterationAt at 1 3,
    LinkManager_Get, linkTable_get.
  destruct (n_linkTable n !! rep_Id rep) as [l|] eqn:E; cbn [fmap option_fmap option_map].
  - rewrite Z.geb_leb. destruct (rep_Iteration rep <=? l_Iteration (link n l)); [done|].
    assert (live n l) as Hl by by eapply Get_live.
    destruct (Remove_settled n l (or_introl Hl)) as [_ Ht].
    assert (l_Id (link n l) = rep_Id rep) as Hid by by apply (wf_table _ Hwf) in E as [_ ?].
    destruct (created_spec initialLatency now rep src dst (LinkManager_Remove l n))
      as (H1 & H2 & H3 & H4).
    rewrite Remove_links in H4. split; [exact H1|]. split; [|by auto].
    intros id Hne. rewrite H2, Ht, Hid by done. by rewrite lookup_delete_ne.
  - destruct (created_spec initialLatency now rep src dst n) as (H1 & H2 & H3 & H4).
    split; [exact H1|]. by auto.
Qed.

(** A link outside the table is in the index of no connected router. *)
Lemma unlisted n id l :
  fabric_wf n → n_linkTable n !! id = None → l_Id (link n l) = id →
  ∀ r i, r_Connected (router n r) = true → l ∉ byRouter (r_routerLinks (router n r)) i.
Proof.
  intros Hwf Hn Hid r i Hr Hin. apply (wf_by _ Hwf) in Hin as [Hl _]; [|done].
  unfold live in Hl. congruence.
Qed.

Lemma handleFaultedLink_acts n now self fault l :
  LinkManager_Get n (f_Id fault) = Some l →
  (f_Iteration fault <? l_Iteration (link n l)) && negb (f_Iteration fault =? 0)
     && negb (l_Iteration (link n l) =? 0) = false →
  ∃ sent, handleFaultedLink now self fault n =
    ((LinkFaulted now (f_Duplicate fault) l n).1,
     (LinkFaulted now (f_Duplicate fault) l n).2 ++ sent) ∧ RerouteLink l ∉ sent.
Proof.
  intros Hget Hg. unfold handleFaultedLink. rewrite Hget.
  assert (negb (f_Iteration fault =? 0) && negb (l_Iteration (link n l) =? 0) &&
    (f_Iteration fault <? l_Iteration (link n l)) = false) as ->
    by (by rewrite andb_comm, andb_assoc).
  destruct (LinkFaulted now (f_Duplicate fault) l n) as [n' eff]. cbn [fst snd].
  assert (RerouteLink l ∉ []) by apply not_elem_of_nil.
  destruct (if bool_decide _ then _ else _) as [o|]; [|exists []; by rewrite app_nil_r].
  destruct (l_usable _ && _); [|exists []; by rewrite app_nil_r].
  eexists. split; [done|]. by rewrite list_elem_of_singleton.
Qed.

Lemma LinkFaulted_table now dupe l n id :
  settled n l → l_Id (link n l) = id →
  n_linkTable (LinkFaulted now dupe l n).1 = delete id (n_linkTable n).
Proof.
  intros Hs <-. simpl.
  assert (settled (upd_link l (Link_SetState Failed now) n) l) as Hset
    by by apply settled_upd_link.
  destruct (Remove_settled _ _ Hset) as [_ ->]. rewrite link_upd. by case_decide.
Qed.

(** A reported fault is acted on unless it is provably older than the link:
    an older fault leaves the state alone; otherwise the link leaves the table
    and every index, the other entries stay, and circuits over it are rerouted
    exactly if it was usable. *)
Theorem fault_removes_link n now self fault l :
  reachable n → LinkManager_Get n (f_Id fault) = Some l →
  let '(n', eff) := handleFaultedLink now self fault n in
  if (f_Iteration fault <? l_Iteration (link n l)) && negb (f_Iteration fault =? 0)
     && negb (l_Iteration (link n l) =? 0)
  then n' = n ∧ eff = []
  else n_linkTable n' = delete (f_Id fault) (n_linkTable n) ∧
       (∀ r id, r_Connected (router n' r) = true →
          l ∉ byRouter (r_routerLinks (router n' r)) id) ∧
       (RerouteLink l ∈ eff ↔ l_usable (link n l) = true).
Proof.
  intros Hre Hget. pose proof (wf_reachable _ Hre) as Hwf.
  pose proof (Get_live _ _ _ Hwf Hget) as Hl.
  destruct ((f_Iteration fault <? l_Iteration (link n l)) && _ && _) eqn:Hg.
  - unfold handleFaultedLink. rewrite Hget.
    apply andb_true_iff in Hg as [[-> ->]%andb_true_iff ->]. done.
  - pose proof (wf_LinkFaulted now (f_Duplicate fault) l n Hwf (or_introl Hl)) as Hwf'.
    destruct (handleFaultedLink_acts n now self fault l Hget Hg) as (sent & -> & Hsent).
    assert (l_Id (link n l) = f_Id fault) as Hid by by apply (wf_table _ Hwf) in Hget as [_ ?].
    assert (n_linkTable (LinkFaulted now (f_Duplicate fault) l n).1 =
      delete (f_Id fault) (n_linkTable n)) as Ht by (apply LinkFaulted_table; [by left|done]).
    split; [done|]. split.
    + apply (unlisted _ (f_Id fault)); [done|by rewrite Ht, lookup_delete_eq|].
      unfold LinkFaulted, link. simpl. rewrite Remove_links.
      change (l_Id (link (upd_link l (Link_SetState Failed now) n) l) = f_Id fault).
      rewrite link_upd. by case_decide.
    + simpl. destruct (l_usable (link n l)); set_solver.
Qed.

(** ** Witnesses *)

(** Routers "a" and "b" connect and "a" reports a link to "b" twice. *)
Definition demoInit : Net :=
  mkNet {[ 1%nat := NewRouter "a" "" "fa" 0 false; 2%nat := NewRouter "b" "" "fb" 0 false ]} ∅ ∅ ∅.
Definition demoRep (it : Z) : RouterLink := mkReported "ab" "b" "tls" "addr" it None.
Definition demoFabric : Net :=
  let n := (ConnectRouter 1 demoInit).1 in
  let n := (ConnectRouter 2 n).1 in
  (NotifyExistingLink 1000000 0 1 (demoRep 2) n).1.

Lemma demoFabric_reachable : reachable demoFabric.
Proof.
  exists demoInit. split.
  - split_and!; try done. intros r. unfold router, demoInit. simpl.
    destruct (decide (r = 1%nat)) as [->|H1]; [done|].
    destruct (decide (r = 2%nat)) as [->|H2]; [done|].
    by rewrite (lookup_insert_ne _ 1%nat r), (lookup_singleton_ne 2%nat r).
  - eapply rtc_l; [by apply (StepConnect 1)|].
    eapply rtc_l; [by apply (StepConnect 2)|].
    eapply rtc_l; [apply (StepReport 1000000 0 1 (demoRep 2))|]. apply rtc_refl.
Qed.


Lemma cheapest_link_symmetric_witness :
  (l_Cost ∘ link demoFabric <$> LinkManager_LeastExpensiveLink demoFabric 1 2) = Some 3 ∧
  (l_Cost ∘ link demoFabric <$> LinkManager_LeastExpensiveLink demoFabric 2 1) = Some 3.
Proof.
  assert ((l_Cost ∘ link demoFabric <$> LinkManager_LeastExpensiveLink demoFabric 1 2) = Some 3)
    as H by (vm_compute; reflexivity).
  split; [exact H|]. rewrite <- H. symmetry.
  apply (cheapest_link_symmetric demoFabric 1 2 demoFabric_reachable); by vm_compute.
Defined.

Lemma disconnect_drops_links_witness :
  (DisconnectRouter 1 demoFabric).2 ≠ [] ∧ reachable (DisconnectRouter 1 demoFabric).1.
Proof.
  split; [by vm_compute|].
  pose proof (disconnect_drops_links demoFabric 1 demoFabric_reachable eq_refl) as H.
  destruct (DisconnectRouter 1 demoFabric) as [n' eff]. apply H.
Defined.

Lemma report_newest_wins_witness :
  (LinkManager_RouterReportedLink 0 5 (demoRep 2) 1 (Some 2%nat) demoFabric).2.2 = false ∧
  iterationAt (LinkManager_RouterReportedLink 0 5 (demoRep 7) 1 (Some 2%nat) demoFabric).1 "ab"
    = Some 7.
Proof.
  pose proof (report_newest_wins demoFabric 0 5 (demoRep 2) 1 (Some 2%nat) demoFabric_reachable)
    as H2.
  pose proof (report_newest_wins demoFabric 0 5 (demoRep 7) 1 (Some 2%nat) demoFabric_reachable)
    as H7.
  assert (iterationAt demoFabric "ab" = Some 2) as Hit by (vm_compute; reflexivity).
  change (rep_Id (demoRep _)) with "ab"%string in H2, H7. rewrite Hit in H2, H7.
  change (rep_Iteration (demoRep 2) <=? 2) with true in H2.
  change (rep_Iteration (demoRep 7) <=? 2) with false in H7.
  split.
  - destruct (LinkManager_RouterReportedLink _ _ (demoRep 2) _ _ _) as [n' [l c]]. by apply H2.
  - destruct (LinkManager_RouterReportedLink _ _ (demoRep 7) _ _ _) as [n' [l c]]. by apply H7.
Defined.

Lemma fault_removes_link_witness :
  n_linkTable (handleFaultedLink 9 2 (mkFault "ab" 2 false) demoFabric).1 = ∅.
Proof.
  pose proof (fault_removes_link demoFabric 9 2 (mkFault "ab" 2 false)
    (default 0%nat (n_linkTable demoFabric !! "ab"%string)) demoFabric_reachable) as H.
  destruct (handleFaultedLink 9 2 (mkFault "ab" 2 false) demoFabric) as [n' eff].
  destruct H as [H _]; [vm_compute; reflexivity|]. cbn [fst]. rewrite H. vm_compute. reflexivity.
Defined.
