(* ===== verification/Terminators.v ===== *)
(** * Terminator costs and selection strategies (controller/xt, xt_common,
    xt_random, xt_smartrouting, xt_sticky, xt_weighted)

    A terminator's route cost is biased by its precedence so that a better
    precedence always wins; the cost visitor keeps a dynamic cost per
    terminator, shared by pointer with the global cost table; a strategy
    selects among the costed terminators. Strategies are an interface
    ([Strategy]) whose laws the four implementations discharge. *)

From stdpp Require Import base gmap list strings fin_maps relations sorting.
From Stdlib Require Import ZArith Lia SpecFloat.
From S2P Require Import Prelude.

Open Scope Z_scope.

Definition MaxUint16 : Z := 65535.

(** ** Precedences *)

Definition unknownMinCost : Z := MaxUint16 * 12.
Definition failedMinCost : Z := MaxUint16 * 8.
Definition defaultMinCost : Z := MaxUint16 * 4.
Definition requireMinCost : Z := 0.

Inductive Precedence := Required | Default | FailedPrecedence | UnknownPrecedence.
#[global] Instance Precedence_eq_dec : EqDecision Precedence.
Proof. solve_decision. Defined.

Definition pr_name (p : Precedence) : string :=
  match p with
  | Required => "required"
  | Default => "default"
  | FailedPrecedence => "failed"
  | UnknownPrecedence => "unknown"
  end.
Definition pr_minCost (p : Precedence) : Z :=
  match p with
  | Required => requireMinCost
  | Default => defaultMinCost
  | FailedPrecedence => failedMinCost
  | UnknownPrecedence => unknownMinCost
  end.
Definition pr_maxCost (p : Precedence) : Z :=
  match p with
  | Required => defaultMinCost - 1
  | Default => failedMinCost - 1
  | FailedPrecedence => unknownMinCost - 1
  | UnknownPrecedence => unknownMinCost + (MaxUint16 * 4) - 1
  end.

Definition precedence_Unbias (p : Precedence) (cost : Z) : Z := uint32 (cost - pr_minCost p).
Definition precedence_IsFailed (p : Precedence) : bool := pr_minCost p =? failedMinCost.
Definition precedence_IsDefault (p : Precedence) : bool := pr_minCost p =? defaultMinCost.
Definition precedence_IsRequired (p : Precedence) : bool := pr_minCost p =? requireMinCost.
Definition precedence_GetBiasedCost (p : Precedence) (cost : Z) : Z :=
  let result := uint32 (pr_minCost p + cost) in
  if result >? pr_maxCost p then pr_maxCost p else result.

Definition GetPrecedenceForName (name : string) : Precedence :=
  if bool_decide (pr_name Required = name) then Required
  else if bool_decide (pr_name FailedPrecedence = name) then FailedPrecedence
  else Default.

(** ** Terminators *)

Abbreviation PeerData := (gmap Z string).

Record Terminator := mkTerminator {
  t_Id : string;
  t_Service : string;
  t_Router : string;
  t_Binding : string;
  t_Address : string;
  t_InstanceId : string;
  t_Cost : Z;                   (* uint16 *)
  t_Precedence : Precedence;
}.

Record RoutingTerminator := mkRouting {
  rt_RouteCost : Z;             (* uint32 *)
  rt_Terminator : Terminator;
}.

(** In a list sorted by precedence, the terminators with the precedence of the
    first. The list is not empty where it is called; [list[0]] of an empty list
    panics. *)
Fixpoint takeRelated (p : Precedence) (l : list RoutingTerminator) : list RoutingTerminator :=
  match l with
  | t :: l => if bool_decide (t_Precedence (rt_Terminator t) = p) then t :: takeRelated p l else []
  | [] => []
  end.

Definition GetRelatedTerminators (l : list RoutingTerminator) : list RoutingTerminator :=
  match l with
  | first :: rest => first :: takeRelated (t_Precedence (rt_Terminator first)) rest
  | [] => []
  end.

(** ** Dynamic costs *)

Record TerminatorCosts := mkTC {
  tc_CircuitCount : Z;          (* uint32 *)
  tc_FailureCost : Z;           (* uint32 *)
  tc_CachedCost : Z;            (* uint32 *)
  tc_LastFailure : Z;           (* nanoseconds *)
}.

Definition newTC : TerminatorCosts := mkTC 0 0 0 0.

(** uint64 arithmetic: the product of two uint32 plus a uint32 fits. *)
Definition TerminatorCosts_cache (circuitCost : Z) (c : TerminatorCosts) : TerminatorCosts :=
  let cost := tc_CircuitCount c * circuitCost + tc_FailureCost c in
  mkTC (tc_CircuitCount c) (tc_FailureCost c)
    (if cost >? MaxUint32 then MaxUint32 else cost) (tc_LastFailure c).

Definition TerminatorCosts_Get (c : TerminatorCosts) : Z :=
  if tc_CachedCost c >? MaxUint16 then MaxUint16 else tc_CachedCost c.

(** The cost visitor and the global cost table hold pointers to the same
    [TerminatorCosts] objects: both map ids to references into one heap. *)
Record CostVisitor := mkCV {
  cv_heap : gmap nat TerminatorCosts;
  cv_Costs : gmap string nat;
  cv_global : gmap string nat;     (* xt.GlobalCosts().costMap *)
  cv_CircuitCost : Z;
  cv_FailureCost : Z;
  cv_SuccessCredit : Z;
}.

Definition NewCostVisitor (circuitCost failureCost successCredit : Z) : CostVisitor :=
  mkCV ∅ ∅ ∅ circuitCost failureCost successCredit.

Definition costs_ClearCost (terminatorId : string) (cv : CostVisitor) : CostVisitor :=
  mkCV (cv_heap cv) (cv_Costs cv) (delete terminatorId (cv_global cv))
    (cv_CircuitCost cv) (cv_FailureCost cv) (cv_SuccessCredit cv).

Definition costs_GetDynamicCost (cv : CostVisitor) (terminatorId : string) : Z :=
  match cv_global cv !! terminatorId with
  | Some ref => TerminatorCosts_Get (default newTC (cv_heap cv !! ref))
  | None => 0
  end.

Definition CostVisitor_read (cv : CostVisitor) (terminatorId : string) : option TerminatorCosts :=
  (λ ref, default newTC (cv_heap cv !! ref)) <$> cv_Costs cv !! terminatorId.
Definition CostVisitor_GetFailureCost (cv : CostVisitor) (terminatorId : string) : Z :=
  from_option tc_FailureCost 0 (CostVisitor_read cv terminatorId).
Definition CostVisitor_GetCircuitCount (cv : CostVisitor) (terminatorId : string) : Z :=
  from_option tc_CircuitCount 0 (CostVisitor_read cv terminatorId).
Definition CostVisitor_GetCost (cv : CostVisitor) (terminatorId : string) : Z :=
  from_option tc_CachedCost 0 (CostVisitor_read cv terminatorId).

(** [Costs.Upsert]: a missing entry is allocated and published in the global
    table, then the callback updates the object in place. [f] gets whether the
    entry existed. *)
Definition CostVisitor_Upsert (id : string) (f : bool → TerminatorCosts → TerminatorCosts)
    (cv : CostVisitor) : CostVisitor :=
  match cv_Costs cv !! id with
  | Some ref =>
    mkCV (alter (f true) ref (cv_heap cv)) (cv_Costs cv) (cv_global cv)
      (cv_CircuitCost cv) (cv_FailureCost cv) (cv_SuccessCredit cv)
  | None =>
    let ref := fresh (dom (cv_heap cv)) in
    mkCV (<[ref := f false newTC]> (cv_heap cv)) (<[id := ref]> (cv_Costs cv))
      (<[id := ref]> (cv_global cv))
      (cv_CircuitCost cv) (cv_FailureCost cv) (cv_SuccessCredit cv)
  end.

Definition CostVisitor_VisitDialFailed (now : Z) (id : string) (cv : CostVisitor) : CostVisitor :=
  CostVisitor_Upsert id (λ _ c,
    let fc := if MaxUint32 - tc_FailureCost c >? cv_FailureCost cv
              then tc_FailureCost c + cv_FailureCost cv else MaxUint32 in
    let c := TerminatorCosts_cache (cv_CircuitCost cv)
               (mkTC (tc_CircuitCount c) fc (tc_CachedCost c) (tc_LastFailure c)) in
    mkTC (tc_CircuitCount c) (tc_FailureCost c) (tc_CachedCost c) now) cv.

Definition CostVisitor_VisitDialSucceeded (id : string) (cv : CostVisitor) : CostVisitor :=
  CostVisitor_Upsert id (λ _ c,
    let fc := if tc_FailureCost c >? cv_SuccessCredit cv
              then tc_FailureCost c - cv_SuccessCredit cv else 0 in
    let cc := if tc_CircuitCount c <? MaxUint32 / cv_CircuitCost cv
              then tc_CircuitCount c + 1 else tc_CircuitCount c in
    TerminatorCosts_cache (cv_CircuitCost cv)
      (mkTC cc fc (tc_CachedCost c) (tc_LastFailure c))) cv.

Definition CostVisitor_VisitCircuitRemoved (id : string) (cv : CostVisitor) : CostVisitor :=
  CostVisitor_Upsert id (λ _ c,
    let cc := if tc_CircuitCount c >? 0 then tc_CircuitCount c - 1 else tc_CircuitCount c in
    TerminatorCosts_cache (cv_CircuitCost cv)
      (mkTC cc (tc_FailureCost c) (tc_CachedCost c) (tc_LastFailure c))) cv.

(** [keys] is the snapshot taken by the first loop; an entry may be removed
    before the second loop reaches it. *)
Definition CostVisitor_CreditAll (credit : Z) (keys : list string) (cv : CostVisitor) : CostVisitor :=
  foldl (λ cv key, CostVisitor_Upsert key (λ _ c,
    let fc := if tc_FailureCost c >? credit then tc_FailureCost c - credit else tc_FailureCost c in
    TerminatorCosts_cache (cv_CircuitCost cv)
      (mkTC (tc_CircuitCount c) fc (tc_CachedCost c) (tc_LastFailure c))) cv) cv keys.

(** [uint64(math.Pow(2, float64(since/basis)))], clamped to [10, MaxUint32].
    The float is an exact power of two; from 2^64 on the conversion is
    implementation specific and in every case above MaxUint32. *)
Definition exponentialCredit (sinceFailure exponentBasis : Z) : Z :=
  let k := Z.quot sinceFailure exponentBasis in
  let credit64 := if k <? 0 then 0 else if 64 <=? k then 2 ^ 63 else 2 ^ k in
  let credit64 := if credit64 >? MaxUint32 then MaxUint32 else credit64 in
  if credit64 <? 10 then 10 else credit64.

Definition CostVisitor_CreditAllExponential (now exponentBasis : Z) (keys : list string)
    (cv : CostVisitor) : CostVisitor :=
  foldl (λ cv key, CostVisitor_Upsert key (λ (exist : bool) c,
    if exist && (tc_FailureCost c >? 0) then
      let credit32 := exponentialCredit (now - tc_LastFailure c) exponentBasis in
      let fc := if credit32 >? tc_FailureCost c then 0 else tc_FailureCost c - credit32 in
      TerminatorCosts_cache (cv_CircuitCost cv)
        (mkTC (tc_CircuitCount c) fc (tc_CachedCost c) (tc_LastFailure c))
    else c) cv) cv keys.

Inductive eventType := eventTypeFailed | eventTypeSucceeded | eventTypeCircuitRemoved.

(** [CostVisitor.NotifyEvent], which dispatches through [defaultEvent.Accept]. *)
Definition CostVisitor_NotifyEvent (now : Z) (e : eventType) (id : string) (cv : CostVisitor)
    : CostVisitor :=
  match e with
  | eventTypeFailed => CostVisitor_VisitDialFailed now id cv
  | eventTypeSucceeded => CostVisitor_VisitDialSucceeded id cv
  | eventTypeCircuitRemoved => CostVisitor_VisitCircuitRemoved id cv
  end.

Definition CostVisitor_HandleTerminatorChange (removed : list string) (cv : CostVisitor)
    : CostVisitor :=
  mkCV (cv_heap cv) (foldl (λ m id, delete id m) (cv_Costs cv) removed) (cv_global cv)
    (cv_CircuitCost cv) (cv_FailureCost cv) (cv_SuccessCredit cv).

(** ** Strategies *)

(** What a selection reads besides the terminators: the client's data and the
    random draws of [math/rand]. *)
Record SelectParams := mkParams {
  sp_clientData : option PeerData;
  sp_intn : nat;              (* a raw draw; [rand.Intn(n)] is its value modulo n *)
  sp_float32 : spec_float;    (* [rand.Float32()] *)
}.

Definition XtStickinessToken : Z := 1114.

(** The interface [xt.Strategy.Select] and what callers rely on. *)
Class Strategy (S : Type) := strategy_Select :
  S → SelectParams → list RoutingTerminator → option (RoutingTerminator * PeerData).

Inductive random_strategy := RandomStrategy.
Inductive smartrouting_strategy := SmartRoutingStrategy.
Inductive sticky_strategy := StickyStrategy.
Inductive weighted_strategy := WeightedStrategy.

(** [None] is an index panic; it needs an empty list. *)
Definition random_Select (params : SelectParams) (terminators : list RoutingTerminator)
    : option (RoutingTerminator * PeerData) :=
  let terminators := GetRelatedTerminators terminators in
  let count := length terminators in
  if (count =? 1)%nat then (λ t, (t, ∅)) <$> terminators !! 0%nat
  else (λ t, (t, ∅)) <$> terminators !! (sp_intn params mod count)%nat.

Definition smartrouting_Select (_ : SelectParams) (terminators : list RoutingTerminator)
    : option (RoutingTerminator * PeerData) := (λ t, (t, ∅)) <$> terminators !! 0%nat.

(** The terminator the client's token names, if it is still related. *)
Definition sticky_find (params : SelectParams) (terminators : list RoutingTerminator)
    : option RoutingTerminator :=
  match sp_clientData params with
  | Some data =>
    match data !! XtStickinessToken with
    | Some strId => head (filter (λ t, t_Id (rt_Terminator t) = strId) terminators)
    | None => None
    end
  | None => None
  end.

Definition sticky_Select (params : SelectParams) (terminators : list RoutingTerminator)
    : option (RoutingTerminator * PeerData) :=
  let terminators := GetRelatedTerminators terminators in
  let result := match sticky_find params terminators with
                | Some t => Some t
                | None => terminators !! 0%nat
                end in
  (λ t, (t, {[XtStickinessToken := t_Id (rt_Terminator t)]})) <$> result.

(** float32 arithmetic. *)
Definition f32_of (z : Z) : spec_float := binary_normalize 24 128 z 0 false.
Definition f32_add := SFadd 24 128.
Definition f32_sub := SFsub 24 128.
Definition f32_div := SFdiv 24 128.

Definition weighted_cost (t : RoutingTerminator) : spec_float :=
  let unbiasedCost := f32_of (precedence_Unbias (t_Precedence (rt_Terminator t)) (rt_RouteCost t)) in
  if SFeqb unbiasedCost (f32_of 0) then f32_of 1 else unbiasedCost.

(** The running totals of [1 - cost/totalCost]. *)
Fixpoint weighted_totals (totalCost total : spec_float) (costIdx : list spec_float)
    : list spec_float :=
  match costIdx with
  | [] => []
  | cost :: rest =>
    let total := f32_add total (f32_sub (f32_of 1) (f32_div cost totalCost)) in
    total :: weighted_totals totalCost total rest
  end.

Fixpoint weighted_find (selected : spec_float) (costIdx : list spec_float)
    (terminators : list RoutingTerminator) : option RoutingTerminator :=
  match costIdx, terminators with
  | cost :: costIdx, t :: terminators =>
    if SFltb selected cost then Some t else weighted_find selected costIdx terminators
  | _, _ => None
  end.

Definition weighted_Select (params : SelectParams) (terminators : list RoutingTerminator)
    : option (RoutingTerminator * PeerData) :=
  let terminators := GetRelatedTerminators terminators in
  if (length terminators =? 1)%nat then (λ t, (t, ∅)) <$> terminators !! 0%nat
  else
    let costIdx := weighted_cost <$> terminators in
    let totalCost := foldl f32_add (f32_of 0) costIdx in
    let costIdx := weighted_totals totalCost (f32_of 0) costIdx in
    (λ t, (t, ∅)) <$>
      match weighted_find (sp_float32 params) costIdx terminators with
      | Some t => Some t
      | None => terminators !! 0%nat
      end.

#[global] Instance random_is_strategy : Strategy random_strategy := λ _, random_Select.
#[global] Instance smartrouting_is_strategy : Strategy smartrouting_strategy :=
  λ _, smartrouting_Select.
#[global] Instance sticky_is_strategy : Strategy sticky_strategy := λ _, sticky_Select.
#[global] Instance weighted_is_strategy : Strategy weighted_strategy := λ _, weighted_Select.

(** The contract path selection relies on: on a non-empty list a strategy
    selects one of the terminators related to the first. *)
Class StrategyLaws (S : Type) `{Strategy S} := strategy_select_related s params l :
  l ≠ [] → ∃ t pd, strategy_Select s params l = Some (t, pd) ∧ t ∈ GetRelatedTerminators l.

Lemma related_ne l : l ≠ [] → (0 < length (GetRelatedTerminators l))%nat.
Proof. destruct l; simpl; [done|lia]. Qed.

Lemma lookup_0_related l :
  l ≠ [] → ∃ t, GetRelatedTerminators l !! 0%nat = Some t ∧ t ∈ GetRelatedTerminators l.
Proof. destruct l as [|t l]; [done|]. intros _. exists t. simpl. set_solver. Qed.

Lemma weighted_find_elem s cs ts t : weighted_find s cs ts = Some t → t ∈ ts.
Proof.
  revert ts. induction cs as [|c cs IH]; intros [|t' ts]; try done. simpl.
  case_match; [intros [= ->]; set_solver|]. intros ?%IH. set_solver.
Qed.

#[global] Instance random_laws : StrategyLaws random_strategy.
Proof.
  intros s params l Hl. unfold strategy_Select, random_is_strategy, random_Select.
  destruct (lookup_0_related l Hl) as (t & H0 & Hin).
  case_match; [exists t; eexists; rewrite H0; done|].
  pose proof (related_ne l Hl).
  destruct (lookup_lt_is_Some_2 (GetRelatedTerminators l)
    (sp_intn params mod length (GetRelatedTerminators l))%nat) as [x Hx].
  { apply Nat.mod_upper_bound. lia. }
  exists x, ∅. rewrite Hx. split; [done|]. by eapply list_elem_of_lookup_2.
Qed.

#[global] Instance smartrouting_laws : StrategyLaws smartrouting_strategy.
Proof.
  intros s params [|t l] Hl; [done|]. exists t, ∅. split; [done|]. simpl. set_solver.
Qed.

#[global] Instance sticky_laws : StrategyLaws sticky_strategy.
Proof.
  intros s params l Hl. unfold strategy_Select, sticky_is_strategy, sticky_Select.
  destruct (lookup_0_related l Hl) as (t & H0 & Hin).
  destruct (sticky_find params _) as [x|] eqn:E.
  - exists x. eexists. split; [done|]. unfold sticky_find in E. repeat case_match; try done.
    apply head_Some_elem_of, list_elem_of_filter in E. by destruct E.
  - exists t. eexists. by rewrite H0.
Qed.

#[global] Instance weighted_laws : StrategyLaws weighted_strategy.
Proof.
  intros s params l Hl. unfold strategy_Select, weighted_is_strategy, weighted_Select.
  destruct (lookup_0_related l Hl) as (t & H0 & Hin).
  case_match; [exists t, ∅; rewrite H0; done|].
  destruct (weighted_find _ _ _) as [x|] eqn:E.
  - exists x, ∅. split; [done|]. by eapply weighted_find_elem.
  - exists t, ∅. by rewrite H0.
Qed.

(** ** Precedence classes *)

Definition uint31 (c : Z) : Prop := 0 ≤ c < 2 ^ 31.

Lemma biased_eq p c :
  uint31 c → precedence_GetBiasedCost p c = Z.min (pr_maxCost p) (pr_minCost p + c).
Proof.
  intros Hc. unfold uint31 in Hc. unfold precedence_GetBiasedCost.
  assert (0 ≤ pr_minCost p < 2 ^ 20) by (destruct p; vm_compute; split; congruence).
  rewrite wrap_u_small by lia. destruct (Z.gtb_spec (pr_minCost p + c) (pr_maxCost p)); lia.
Qed.

Lemma biased_range p c :
  uint31 c → pr_minCost p ≤ precedence_GetBiasedCost p c ≤ pr_maxCost p.
Proof.
  intros Hc. rewrite biased_eq by done. unfold uint31 in Hc.
  assert (pr_minCost p ≤ pr_maxCost p) by (destruct p; vm_compute; congruence). lia.
Qed.

Lemma classes_disjoint p q : pr_minCost p < pr_minCost q → pr_maxCost p < pr_minCost q.
Proof. by destruct p, q; vm_compute. Qed.

(** A costed terminator carries a cost of its precedence's class. *)
Definition costed (t : RoutingTerminator) : Prop :=
  pr_minCost (t_Precedence (rt_Terminator t)) ≤ rt_RouteCost t
  ≤ pr_maxCost (t_Precedence (rt_Terminator t)).

Definition cheaperT (t u : RoutingTerminator) : Prop := rt_RouteCost t ≤ rt_RouteCost u.
#[global] Instance cheaperT_trans : Transitive cheaperT.
Proof. intros x y z. unfold cheaperT. lia. Qed.

Lemma costed_class t u :
  costed t → costed u → cheaperT t u →
  pr_minCost (t_Precedence (rt_Terminator t)) ≤ pr_minCost (t_Precedence (rt_Terminator u)).
Proof.
  unfold costed, cheaperT. intros Ht Hu Hle.
  destruct (Z.le_gt_cases (pr_minCost (t_Precedence (rt_Terminator t)))
    (pr_minCost (t_Precedence (rt_Terminator u)))) as [|Hgt]; [done|].
  apply classes_disjoint in Hgt. lia.
Qed.

Lemma pr_minCost_inj p q : pr_minCost p = pr_minCost q → p = q.
Proof. by destruct p, q. Qed.

Lemma takeRelated_filter p l :
  StronglySorted cheaperT l → Forall costed l →
  Forall (λ t, pr_minCost p ≤ pr_minCost (t_Precedence (rt_Terminator t))) l →
  takeRelated p l = filter (λ t, t_Precedence (rt_Terminator t) = p) l.
Proof.
  intros Hs. induction Hs as [|t l Hs IH Ht]; intros Hc Hp; [done|].
  apply Forall_cons in Hc as [Hct Hc], Hp as [Hpt Hp]. simpl. rewrite filter_cons.
  case_bool_decide as E; [rewrite decide_True by done; by rewrite IH|].
  rewrite decide_False by done. symmetry. apply elem_of_nil_inv. intros u [Heq Hu]%list_elem_of_filter.
  rewrite Forall_forall in Hc, Ht.
  pose proof (costed_class t u Hct (Hc u Hu) (Ht u Hu)) as Hle. rewrite Heq in Hle.
  apply E. apply pr_minCost_inj. lia.
Qed.

(** [GetRelatedTerminators] stops at the first other precedence; on a list
    sorted by biased cost that is every terminator of the best precedence. *)
Lemma related_filter t l :
  StronglySorted cheaperT (t :: l) → Forall costed (t :: l) →
  GetRelatedTerminators (t :: l) =
    filter (λ u, t_Precedence (rt_Terminator u) = t_Precedence (rt_Terminator t)) (t :: l) ∧
  Forall (λ u, pr_minCost (t_Precedence (rt_Terminator t))
               ≤ pr_minCost (t_Precedence (rt_Terminator u))) (t :: l).
Proof.
  intros Hs Hc. apply StronglySorted_inv in Hs as [Hs Ht].
  apply Forall_cons in Hc as [Hct Hc].
  assert (Forall (λ u, pr_minCost (t_Precedence (rt_Terminator t))
               ≤ pr_minCost (t_Precedence (rt_Terminator u))) l) as Hp.
  { rewrite Forall_forall in *. intros u Hu. by apply costed_class; auto. }
  split; [|by constructor].
  simpl. rewrite filter_cons, decide_True by done. by rewrite takeRelated_filter.
Qed.

Lemma related_best l t :
  StronglySorted cheaperT l → Forall costed l → t ∈ GetRelatedTerminators l →
  t ∈ l ∧ ∀ u, u ∈ l → pr_minCost (t_Precedence (rt_Terminator t))
                       ≤ pr_minCost (t_Precedence (rt_Terminator u)).
Proof.
  intros Hs Hc Hin. destruct l as [|x l]; [by apply not_elem_of_nil in Hin|].
  destruct (related_filter x l Hs Hc) as [Hrel Hmin]. rewrite Hrel in Hin.
  apply list_elem_of_filter in Hin as [Heq Hin]. split; [done|].
  intros u Hu. rewrite Heq. rewrite Forall_forall in Hmin. by apply Hmin.
Qed.

(** C30. Precedence dominates cost: whatever their unbiased costs, a terminator
    of a better precedence has a strictly smaller biased cost than one of a
    worse precedence, and within one precedence the biased cost is monotone in
    the unbiased one and never leaves the class. *)
Theorem precedence_dominates p q c c' :
  uint31 c → uint31 c' →
  (pr_minCost p < pr_minCost q → precedence_GetBiasedCost p c < precedence_GetBiasedCost q c') ∧
  (c ≤ c' → precedence_GetBiasedCost p c ≤ precedence_GetBiasedCost p c') ∧
  pr_minCost p ≤ precedence_GetBiasedCost p c ≤ pr_maxCost p.
Proof.
  intros Hc Hc'. split_and!; try by apply biased_range.
  - intros Hlt%classes_disjoint. pose proof (biased_range p c Hc).
    pose proof (biased_range q c' Hc'). lia.
  - rewrite !biased_eq by done. lia.
Qed.

(** C17. Every strategy respects precedence: on a non-empty list of costed
    terminators in order of cost, whichever implementation of the strategy
    interface selects, it selects an element of the list and no element of the
    list has a better precedence. *)
Theorem strategy_best_precedence {S} `{StrategyLaws S} (s : S) params l :
  l ≠ [] → StronglySorted cheaperT l → Forall costed l →
  ∃ t pd, strategy_Select s params l = Some (t, pd) ∧ t ∈ l ∧
    ∀ u, u ∈ l → pr_minCost (t_Precedence (rt_Terminator t))
                 ≤ pr_minCost (t_Precedence (rt_Terminator u)).
Proof.
  intros Hl Hs Hc. destruct (strategy_select_related s params l Hl) as (t & pd & Hsel & Hin).
  exists t, pd. split; [done|]. by apply related_best.
Qed.

(** ** The cost visitor *)

Definition cost_formula (circuitCost : Z) (c : TerminatorCosts) : Z :=
  tc_CircuitCount c * circuitCost + tc_FailureCost c.

Record tc_ok (circuitCost : Z) (c : TerminatorCosts) : Prop := mkTcOk {
  tco_count : 0 ≤ tc_CircuitCount c ≤ MaxUint32 / circuitCost;
  tco_failure : 0 ≤ tc_FailureCost c ≤ MaxUint32;
  tco_cached : tc_CachedCost c = Z.min MaxUint32 (cost_formula circuitCost c);
}.

Record cv_ok (cv : CostVisitor) : Prop := mkCvOk {
  cvo_config : 0 < cv_CircuitCost cv ≤ MaxUint16 ∧ 0 ≤ cv_FailureCost cv ≤ MaxUint16 ∧
               0 ≤ cv_SuccessCredit cv ≤ MaxUint16;
  cvo_heap : map_Forall (λ _ c, tc_ok (cv_CircuitCost cv) c) (cv_heap cv);
  cvo_costs : ∀ id ref, cv_Costs cv !! id = Some ref → is_Some (cv_heap cv !! ref);
  cvo_global : ∀ id ref, cv_global cv !! id = Some ref → is_Some (cv_heap cv !! ref);
  cvo_same : ∀ id ref ref', cv_Costs cv !! id = Some ref → cv_global cv !! id = Some ref' →
               ref = ref';
  cvo_inj : ∀ id id' ref, cv_Costs cv !! id = Some ref → cv_Costs cv !! id' = Some ref → id = id';
}.

(** What happens to the costs, in any order. *)
Inductive cv_step : CostVisitor → CostVisitor → Prop :=
| CvNotify now e id cv : cv_step cv (CostVisitor_NotifyEvent now e id cv)
| CvCredit credit keys cv : 0 ≤ credit → cv_step cv (CostVisitor_CreditAll credit keys cv)
| CvCreditExp now basis keys cv :
    cv_step cv (CostVisitor_CreditAllExponential now basis keys cv)
| CvRemoved ids cv : cv_step cv (CostVisitor_HandleTerminatorChange ids cv)
| CvClear id cv : cv_step cv (costs_ClearCost id cv).

Lemma tc_ok_new cc : 0 < cc → tc_ok cc newTC.
Proof.
  intros Hcc. split; simpl; [|unfold MaxUint32; lia|].
  - split; [lia|]. apply Z.div_pos; [vm_compute; congruence|done].
  - unfold cost_formula, MaxUint32. simpl. lia.
Qed.

(** [cache] restores the cached cost. *)
Lemma tc_ok_cache cc c :
  0 ≤ tc_CircuitCount c ≤ MaxUint32 / cc → 0 ≤ tc_FailureCost c ≤ MaxUint32 →
  tc_ok cc (TerminatorCosts_cache cc c).
Proof.
  intros H1 H2. split; [done|done|]. simpl. unfold cost_formula. simpl.
  destruct (Z.gtb_spec (tc_CircuitCount c * cc + tc_FailureCost c) MaxUint32); lia.
Qed.

Lemma tc_ok_lastFailure cc c t :
  tc_ok cc c → tc_ok cc (mkTC (tc_CircuitCount c) (tc_FailureCost c) (tc_CachedCost c) t).
Proof. by intros []. Qed.

Lemma exponentialCredit_pos s b : 10 ≤ exponentialCredit s b.
Proof. unfold exponentialCredit. repeat case_match; bool_prop; lia. Qed.

(** An upsert whose callback keeps a cost record well-formed keeps the rest. *)
Lemma cv_ok_Upsert id f cv :
  (∀ ex c, tc_ok (cv_CircuitCost cv) c → tc_ok (cv_CircuitCost cv) (f ex c)) →
  cv_ok cv → cv_ok (CostVisitor_Upsert id f cv).
Proof.
  intros Hf [Hcfg Hheap Hc Hg Hsame Hinj]. unfold CostVisitor_Upsert.
  destruct (cv_Costs cv !! id) as [ref|] eqn:E.
  - split; simpl; try done.
    + intros r c Hr. apply lookup_alter_Some in Hr as [(-> & c0 & Hc0 & ->)|[_ Hr]];
        [by apply Hf, (Hheap _ _ Hc0)|by apply (Hheap r)].
    + intros i r Hr. rewrite lookup_alter_is_Some. by eapply Hc.
    + intros i r Hr. rewrite lookup_alter_is_Some. by eapply Hg.
  - assert (cv_heap cv !! fresh (dom (cv_heap cv)) = None) as Hfr
      by (apply not_elem_of_dom; exact (is_fresh (dom (cv_heap cv)))).
    set (ref := fresh (dom (cv_heap cv))) in *.
    assert (∀ x, is_Some (cv_heap cv !! x) → is_Some (<[ref:=f false newTC]> (cv_heap cv) !! x)) as Hi.
    { intros x Hx. rewrite lookup_insert_is_Some'. by right. }
    split; simpl; try done.
    + apply map_Forall_insert_2; [|done]. apply Hf, tc_ok_new. lia.
    + intros i r. rewrite lookup_insert_Some. intros [[_ <-]|[_ Hr]];
        [rewrite lookup_insert_eq; eauto|apply Hi; by eapply Hc].
    + intros i r. rewrite lookup_insert_Some. intros [[_ <-]|[_ Hr]];
        [rewrite lookup_insert_eq; eauto|apply Hi; by eapply Hg].
    + intros i r r'. rewrite !lookup_insert_Some. intros [[? <-]|[Hne Hr]] [[? <-]|[? Hr']];
        try done. by eapply Hsame.
    + intros i i' r. rewrite !lookup_insert_Some. intros [[<- <-]|[_ Hr]] [[<- He]|[_ Hr']]; try done.
      * apply Hc in Hr' as [? ?]. congruence.
      * subst. apply Hc in Hr as [? ?]. congruence.
      * by eapply Hinj.
Qed.

Lemma Upsert_config id f cv :
  cv_CircuitCost (CostVisitor_Upsert id f cv) = cv_CircuitCost cv.
Proof. unfold CostVisitor_Upsert. by case_match. Qed.

Lemma cv_ok_NotifyEvent now e id cv : cv_ok cv → cv_ok (CostVisitor_NotifyEvent now e id cv).
Proof.
  intros Hok. pose proof (cvo_config _ Hok) as (Hcc & Hfc & Hsc).
  unfold MaxUint16 in *. destruct e; apply cv_ok_Upsert; try done; intros _ c [H1 H2 H3].
  - apply (tc_ok_lastFailure _ (TerminatorCosts_cache _ _)). apply tc_ok_cache; [done|]. simpl.
    destruct (Z.gtb_spec (MaxUint32 - tc_FailureCost c) (cv_FailureCost cv)); unfold MaxUint32 in *; lia.
  - apply tc_ok_cache; simpl.
    + destruct (Z.ltb_spec (tc_CircuitCount c) (MaxUint32 / cv_CircuitCost cv)); lia.
    + destruct (Z.gtb_spec (tc_FailureCost c) (cv_SuccessCredit cv)); unfold MaxUint32 in *; lia.
  - apply tc_ok_cache; simpl; [|done]. destruct (Z.gtb_spec (tc_CircuitCount c) 0); lia.
Qed.

Lemma cv_ok_CreditAll credit keys cv :
  0 ≤ credit → cv_ok cv → cv_ok (CostVisitor_CreditAll credit keys cv).
Proof.
  intros Hc. revert cv. induction keys as [|k keys IH]; intros cv Hok; [done|]. simpl. apply IH.
  apply cv_ok_Upsert; [|done]. intros _ c [H1 H2 H3]. apply tc_ok_cache; [done|]. simpl.
  destruct (Z.gtb_spec (tc_FailureCost c) credit); lia.
Qed.

Lemma cv_ok_CreditAllExponential now basis keys cv :
  cv_ok cv → cv_ok (CostVisitor_CreditAllExponential now basis keys cv).
Proof.
  revert cv. induction keys as [|k keys IH]; intros cv Hok; [done|]. simpl. apply IH.
  apply cv_ok_Upsert; [|done]. intros ex c [H1 H2 H3]. case_match; [|done].
  apply tc_ok_cache; [done|]. simpl.
  pose proof (exponentialCredit_pos (now - tc_LastFailure c) basis).
  destruct (Z.gtb_spec (exponentialCredit (now - tc_LastFailure c) basis) (tc_FailureCost c)); lia.
Qed.

Lemma cv_ok_HandleTerminatorChange ids cv :
  cv_ok cv → cv_ok (CostVisitor_HandleTerminatorChange ids cv).
Proof.
  intros [Hcfg Hheap Hc Hg Hsame Hinj].
  assert (∀ id ref, foldl (λ m i, delete i m) (cv_Costs cv) ids !! id = Some ref →
    cv_Costs cv !! id = Some ref) as Hsub.
  { generalize (cv_Costs cv) as m. clear. induction ids as [|i ids IH]; intros m id ref; [done|].
    simpl. intros H%IH. by apply lookup_delete_Some in H as [_ ?]. }
  split; simpl; eauto.
Qed.

Lemma cv_ok_step cv cv' : cv_step cv cv' → cv_ok cv → cv_ok cv'.
Proof.
  intros [] Hok; auto using cv_ok_NotifyEvent, cv_ok_CreditAll, cv_ok_CreditAllExponential,
    cv_ok_HandleTerminatorChange.
  destruct Hok as [Hcfg Hheap Hc Hg Hsame Hinj]. split; simpl; try done.
  - intros i r [_ Hr]%lookup_delete_Some. by eapply Hg.
  - intros i r r' Hr [_ Hr']%lookup_delete_Some. by eapply Hsame.
Qed.

Lemma cv_ok_init cc fc sc :
  0 < cc ≤ MaxUint16 → 0 ≤ fc ≤ MaxUint16 → 0 ≤ sc ≤ MaxUint16 →
  cv_ok (NewCostVisitor cc fc sc).
Proof. intros. split; simpl; try done; try apply map_Forall_empty. Qed.

(** The dynamic cost a path selection reads is exact: after any sequence of
    dial results, closed circuits, credits and terminator removals, for a
    terminator both tables know, the published cost is the number of circuits
    times the circuit cost plus the failure cost, cut off at the largest
    uint16, and none of the counters has wrapped. *)
Theorem dynamic_cost_exact cc fc sc cv id ref :
  0 < cc ≤ MaxUint16 → 0 ≤ fc ≤ MaxUint16 → 0 ≤ sc ≤ MaxUint16 →
  rtc cv_step (NewCostVisitor cc fc sc) cv →
  cv_Costs cv !! id = Some ref → is_Some (cv_global cv !! id) →
  costs_GetDynamicCost cv id =
    Z.min MaxUint16 (CostVisitor_GetCircuitCount cv id * cv_CircuitCost cv
                     + CostVisitor_GetFailureCost cv id) ∧
  0 ≤ CostVisitor_GetCircuitCount cv id * cv_CircuitCost cv ≤ MaxUint32 ∧
  0 ≤ CostVisitor_GetFailureCost cv id ≤ MaxUint32.
Proof.
  intros H1 H2 H3 Hs Hc [ref' Hg].
  assert (cv_ok cv) as Hok.
  { eapply (rtc_invariant cv_step cv_ok); [|by apply (cv_ok_init cc fc sc)|exact Hs].
    intros x y ? ?. by eapply cv_ok_step. }
  pose proof (cvo_same _ Hok _ _ _ Hc Hg) as <-.
  destruct (cvo_costs _ Hok _ _ Hc) as [c Hh].
  pose proof (cvo_config _ Hok) as (Hcc & _).
  destruct (cvo_heap _ Hok _ _ Hh) as [Ht1 Ht2 Ht3].
  unfold costs_GetDynamicCost, CostVisitor_GetCircuitCount, CostVisitor_GetFailureCost,
    CostVisitor_read, TerminatorCosts_Get. rewrite Hg, Hc. simpl. rewrite Hh. simpl.
  rewrite Ht3. unfold cost_formula in *.
  assert (0 ≤ tc_CircuitCount c * cv_CircuitCost cv ≤ MaxUint32).
  { split; [nia|]. pose proof (Z.mul_div_le MaxUint32 (cv_CircuitCost cv) ltac:(lia)). nia. }
  split_and!; try lia. unfold MaxUint16, MaxUint32 in *.
  destruct (Z.gtb_spec (Z.min 4294967295 (tc_CircuitCount c * cv_CircuitCost cv + tc_FailureCost c))
    65535); lia.
Qed.

(** ** The weighted strategy *)

(** Comparison with a number decides comparison with a greater one of the same
    exponent; with 1, with anything in [1, 2). *)
Lemma below_same_exponent x k m e :
  SFltb x (S754_finite false k e) = true → (k ≤ m)%positive →
  SFltb x (S754_finite false m e) = true.
Proof.
  unfold SFltb, SFcompare. destruct x as [s|s| |s mx ex]; try done.
  destruct s; [done|]. destruct (Z.compare ex e); try done.
  change (match Pos.compare mx k with Lt => true | _ => false end = true →
    (k ≤ m)%positive → match Pos.compare mx m with Lt => true | _ => false end = true).
  intros Hc Hm. destruct (Pos.compare_spec mx k) as [|Hlt|]; try done.
  destruct (Pos.compare_spec mx m) as [->|?|?]; [|done|]; lia.
Qed.

Lemma below_one_below x m :
  SFltb x (f32_of 1) = true → (8388608 ≤ m)%positive →
  SFltb x (S754_finite false m (-23)) = true.
Proof.
  change (f32_of 1) with (S754_finite false 8388608 (-23)). apply below_same_exponent.
Qed.

(** With three terminators of equal cost the weighted strategy never selects
    the third: the running totals of [1 - cost/total] add up to 2 instead of 1,
    so that every draw of [rand.Float32] below 1 stops at the second. The
    strategy is documented to select in proportion to the costs. *)
Theorem weighted_starves_third params a b c :
  let t x := mkRouting (precedence_GetBiasedCost Default 20)
               (mkTerminator x "svc" x "edge" x "" 0 Default) in
  SFltb (sp_float32 params) (f32_of 1) = true →
  weighted_Select params [t a; t b; t c] = Some (t a, ∅) ∨
  weighted_Select params [t a; t b; t c] = Some (t b, ∅).
Proof.
  intros t Hlt. unfold weighted_Select, t. cbn [GetRelatedTerminators takeRelated].
  simpl bool_decide. cbn [takeRelated length Nat.eqb fmap list_fmap].
  set (costs := weighted_totals _ _ _).
  assert (costs = [S754_finite false 11184810 (-24); S754_finite false 11184810 (-23);
                   S754_finite false 16777215 (-23)]) as -> by (vm_compute; reflexivity).
  cbn [weighted_find]. rewrite (below_one_below _ 11184810 Hlt) by lia.
  destruct (SFltb _ (S754_finite false 11184810 (-24))); [by left|by right].
Qed.

(** ** Witnesses *)

Definition demoT (id : string) (p : Precedence) (c : Z) : RoutingTerminator :=
  mkRouting (precedence_GetBiasedCost p c) (mkTerminator id "svc" "r" "edge" "addr" "" 0 p).

Lemma precedence_dominates_witness :
  precedence_GetBiasedCost Required 1000000 < precedence_GetBiasedCost Default 0.
Proof. apply (precedence_dominates Required Default 1000000 0); by vm_compute. Defined.

Lemma strategy_best_precedence_witness :
  ∃ t pd, strategy_Select StickyStrategy (mkParams None 0 S754_nan)
      [demoT "x" Required 7; demoT "y" Default 3] = Some (t, pd) ∧
    t ∈ [demoT "x" Required 7; demoT "y" Default 3] ∧
    ∀ u, u ∈ [demoT "x" Required 7; demoT "y" Default 3] →
      pr_minCost (t_Precedence (rt_Terminator t)) ≤ pr_minCost (t_Precedence (rt_Terminator u)).
Proof.
  apply (strategy_best_precedence StickyStrategy).
  - done.
  - repeat constructor. vm_compute. congruence.
  - repeat constructor; vm_compute; congruence.
Defined.

Definition demoCV : CostVisitor :=
  CostVisitor_NotifyEvent 5 eventTypeFailed "t"
    (CostVisitor_NotifyEvent 0 eventTypeSucceeded "t" (NewCostVisitor 2 20 2)).

Lemma dynamic_cost_exact_witness : costs_GetDynamicCost demoCV "t" = 22.
Proof.
  destruct (dynamic_cost_exact 2 20 2 demoCV "t" 0%nat) as [H _].
  - by vm_compute.
  - by vm_compute.
  - by vm_compute.
  - eapply rtc_l; [apply (CvNotify 0 eventTypeSucceeded "t")|].
    eapply rtc_l; [apply (CvNotify 5 eventTypeFailed "t")|]. apply rtc_refl.
  - vm_compute. reflexivity.
  - vm_compute. eauto.
  - rewrite H. vm_compute. reflexivity.
Defined.

Lemma weighted_starves_third_witness :
  weighted_Select (mkParams None 0 (f32_div (f32_of 99) (f32_of 100)))
    [demoT "a" Default 20; demoT "b" Default 20; demoT "c" Default 20]
  ≠ Some (demoT "c" Default 20, ∅).
Proof.
  pose proof (weighted_starves_third (mkParams None 0 (f32_div (f32_of 99) (f32_of 100)))
    "a" "b" "c") as H.
  destruct H as [H|H]; [vm_compute; reflexivity| |]; intros Hc; vm_compute in Hc; discriminate Hc.
Defined.
