(* ===== verification/NetPath.v ===== *)
(** * Paths and route messages (controller/model/path.go,
    controller/network/network_path.go, network.go)

    A path is the sequence of routers [shortestPath] found together with the
    links that join them; the route messages tell each router of the path which
    two addresses it forwards between. *)

From stdpp Require Import base gmap list strings fin_maps relations.
From Stdlib Require Import ZArith Lia.
From S2P Require Import Prelude NetModel ShortestPath Fabric Terminators.

Open Scope Z_scope.
Open Scope go_scope.

Record Path := mkPath {
  p_Nodes : list RouterRef;
  p_Links : list LinkRef;
  p_IngressId : string;
  p_EgressId : string;
  p_InitiatorLocalAddr : string;
  p_InitiatorRemoteAddr : string;
  p_TerminatorLocalAddr : string;
  p_TerminatorRemoteAddr : string;
}.

Definition Path_Cost (n : Net) (minRouterCost : Z) (self : Path) : Z :=
  let cost := foldl (λ cost l, int64 (cost + l_Cost (link n l))) 0 (p_Links self) in
  foldl (λ cost r, int64 (cost + Z.max (r_Cost (router n r)) minRouterCost)) cost (p_Nodes self).

Fixpoint pathString (n : Net) (out : string) (links : list LinkRef) (nodes : list RouterRef)
    : string :=
  match links, nodes with
  | l :: links, r :: nodes =>
    pathString n (out +:+ "->[l/" +:+ l_Id (link n l) +:+ "]" +:+ "->[r/" +:+ r_Id (router n r) +:+ "]")
      links nodes
  | _, _ => out
  end.

Definition Path_String (n : Net) (self : Path) : string :=
  match p_Nodes self with
  | [] => "{}"
  | r0 :: rest =>
    if negb (length (p_Links self) =? length rest)%nat then "{malformed}"
    else pathString n ("[r/" +:+ r_Id (router n r0) +:+ "]") (p_Links self) rest
  end.

Fixpoint equalRefs (a b : list nat) : bool :=
  match a, b with
  | x :: a, y :: b => bool_decide (x = y) && equalRefs a b
  | _, _ => true
  end.

Definition Path_EqualPath (self other : Path) : bool :=
  if negb (length (p_Nodes self) =? length (p_Nodes other))%nat then false
  else if negb (length (p_Links self) =? length (p_Links other))%nat then false
  else equalRefs (p_Nodes self) (p_Nodes other) && equalRefs (p_Links self) (p_Links other).

Definition Path_EgressRouter (self : Path) : option RouterRef := last (p_Nodes self).

Definition Path_UsesLink (self : Path) (l : LinkRef) : bool :=
  existsb (λ o, bool_decide (o = l)) (p_Links self).

(** [setLinks]: the cheapest link of each consecutive pair of nodes. *)
Fixpoint setLinks (n : Net) (nodes : list RouterRef) : result (list LinkRef) path_error :=
  match nodes with
  | a :: ((b :: _) as rest) =>
    match LinkManager_LeastExpensiveLink n a b with
    | Some l => let! ls := setLinks n rest in Ok (l :: ls)
    | None => Err (NoLink (r_Id (router n a)) (r_Id (router n b)))
    end
  | _ => Ok []
  end.

(** [ingressId] and [egressId] are the freshly generated UUIDs. *)
Definition CreatePathWithNodes (n : Net) (ingressId egressId : string) (nodes : list RouterRef)
    : result Path path_error :=
  let! links := setLinks n nodes in
  Ok (mkPath nodes links ingressId egressId "" "" "" "").

Definition UpdatePath (ord : nat → list RouterRef → list RouterRef) (n : Net) (minRouterCost : Z)
    (path : Path) : result Path path_error :=
  match head (p_Nodes path), last (p_Nodes path) with
  | Some srcR, Some dstR =>
    let! res := shortestPath ord n minRouterCost (Some srcR) (Some dstR) in
    let! links := setLinks n res.1 in
    Ok (mkPath res.1 links (p_IngressId path) (p_EgressId path)
          (p_InitiatorLocalAddr path) (p_InitiatorRemoteAddr path)
          (p_TerminatorLocalAddr path) (p_TerminatorRemoteAddr path))
  | _, _ => Err NodesOutOfRange
  end.

Definition CreatePath (ord : nat → list RouterRef → list RouterRef) (n : Net) (minRouterCost : Z)
    (ingressId egressId : string) (srcR dstR : RouterRef) : result Path path_error :=
  UpdatePath ord n minRouterCost (mkPath [srcR; dstR] [] ingressId egressId "" "" "" "").

(** ** Route messages *)

Inductive DestType := DestStart | DestLink | DestEnd.
#[global] Instance DestType_eq_dec : EqDecision DestType.
Proof. solve_decision. Defined.

Record Route_Forward := mkForward {
  rf_SrcAddress : string;
  rf_DstAddress : string;
  rf_DstType : DestType;
}.
#[global] Instance Route_Forward_eq_dec : EqDecision Route_Forward.
Proof. solve_decision. Defined.

Record Route_Egress := mkEgress {
  re_Binding : string;
  re_Address : string;
  re_Destination : string;
  re_PeerData : PeerData;
}.

Record Route := mkRoute {
  rt_CircuitId : string;
  rt_Attempt : Z;                 (* uint32 *)
  rt_Timeout : Z;                 (* uint64 nanoseconds *)
  rt_Forwards : list Route_Forward;
  rt_Egress : option Route_Egress;
}.

Definition SmartRerouteAttempt : Z := 99969996.

Section RouteMessages.
Context (n : Net) (path : Path) (attempt : Z) (circuitId binding address : string).
Context (remainingTime : Z).

Definition egressOf : Route_Egress := mkEgress binding (p_EgressId path) address ∅.

(** The body of the loop over the links, for index [i]. *)
Definition routeAt (i : nat) (l : LinkRef) : list Route :=
  let lid := l_Id (link n l) in
  (if (i =? 0)%nat then
     [mkRoute circuitId attempt remainingTime
        [mkForward (p_IngressId path) lid DestLink; mkForward lid (p_IngressId path) DestStart]
        None]
   else []) ++
  (match p_Links path !! S i with
   | Some nextLink =>
     let nid := l_Id (link n nextLink) in
     [mkRoute circuitId attempt remainingTime
        [mkForward lid nid DestLink; mkForward nid lid DestLink] None]
   | None => []
   end) ++
  (if (S i =? length (p_Links path))%nat then
     [mkRoute circuitId attempt remainingTime
        [mkForward (p_EgressId path) lid DestLink; mkForward lid (p_EgressId path) DestEnd]
        (if attempt =? SmartRerouteAttempt then None else Some egressOf)]
   else []).

Definition CreateRouteMessages : list Route :=
  (match p_Links path with
   | [] => [mkRoute circuitId attempt remainingTime
              [mkForward (p_IngressId path) (p_EgressId path) DestEnd;
               mkForward (p_EgressId path) (p_IngressId path) DestStart]
              (Some egressOf)]
   | _ => []
   end) ++ concat (imap routeAt (p_Links path)).
End RouteMessages.

(** ** Path selection and link selection agree *)

(** The links of a path join its nodes pairwise. *)
Fixpoint linked (n : Net) (nodes : list RouterRef) (links : list LinkRef) : Prop :=
  match nodes, links with
  | [_], [] => True
  | a :: ((b :: _) as rest), l :: links => joins n a b l ∧ linked n rest links
  | _, _ => False
  end.

(** The undiscounted cost: links plus entered routers. *)
Definition hopsCost (n : Net) (minRouterCost : Z) (nodes : list RouterRef) (links : list LinkRef) : Z :=
  foldr Z.add 0 ((λ l, l_Cost (link n l)) <$> links) +
  foldr Z.add 0 ((λ r, Z.max (r_Cost (router n r)) minRouterCost) <$> tail nodes).

Lemma setLinks_snoc n nodes y r :
  last nodes = Some y →
  setLinks n (nodes ++ [r]) =
  let! ls := setLinks n nodes in
  match LinkManager_LeastExpensiveLink n y r with
  | Some l => Ok (ls ++ [l])
  | None => Err (NoLink (r_Id (router n y)) (r_Id (router n r)))
  end.
Proof.
  induction nodes as [|a [|b rest] IH]; intros Hlast; [done| |].
  - injection Hlast as ->. simpl. by destruct (LinkManager_LeastExpensiveLink n y r).
  - rewrite last_cons_cons in Hlast. specialize (IH Hlast). revert IH. simpl.
    destruct (LinkManager_LeastExpensiveLink n a b) as [l|]; [|done].
    intros ->. destruct (match rest with [] => _ | _ => _ end); simpl; [|done].
    by destruct (LinkManager_LeastExpensiveLink n y r).
Qed.

Lemma linked_length n nodes links : linked n nodes links → length nodes = S (length links).
Proof.
  revert links. induction nodes as [|a [|b rest] IH]; intros [|l links]; try done.
  intros [_ H]. specialize (IH _ H). simpl in *. lia.
Qed.

Lemma linked_snoc n nodes links y r l :
  last nodes = Some y → linked n nodes links → joins n y r l →
  linked n (nodes ++ [r]) (links ++ [l]).
Proof.
  revert links. induction nodes as [|a [|b rest] IH]; intros links Hlast Hl Hj; [done| |].
  - injection Hlast as ->. destruct links; [|done]. done.
  - rewrite last_cons_cons in Hlast. destruct links as [|x links]; [done|].
    destruct Hl as [Hx Hl]. split; [done|]. by apply IH.
Qed.

Lemma connectedSet_connected n r :
  fabric_wf n → r ∈ connectedSet n → r_Connected (router n r) = true.
Proof.
  intros Hwf. unfold connectedSet, RouterManager_AllConnected.
  rewrite elem_of_list_to_set, list_elem_of_fmap. intros [[id x] [-> Hx]].
  apply elem_of_map_to_list in Hx. by apply (wf_conn _ Hwf) in Hx as (_ & _ & ?).
Qed.

Lemma walk_last n m s d p x c : walk n m s d p x c → last p = Some x.
Proof. destruct 1; [done|]. apply last_snoc. Qed.

Lemma walk_links n m s d p x c :
  fabric_wf n → walk n m s d p x c →
  ∃ ls, setLinks n p = Ok ls ∧ linked n p ls ∧ c = hopsCost n m p ls.
Proof.
  intros Hwf. induction 1 as [|p y c r w Hp (ls & IH1 & IH2 & IH3) Hh].
  - by exists [].
  - destruct Hh as (Hy & Hr & _ & _ & l & Hl & ->).
    apply (connectedSet_connected _ _ Hwf) in Hy, Hr.
    pose proof (LeastExpensiveLink_sym n y r Hwf Hy Hr) as Hs. rewrite Hl in Hs.
    pose proof (LeastExpensiveLink_joins n y r Hwf Hy Hr) as Hj.
    destruct (LinkManager_LeastExpensiveLink n y r) as [l'|] eqn:E; [|done].
    pose proof (walk_last _ _ _ _ _ _ _ Hp) as Hlast.
    exists (ls ++ [l']). rewrite (setLinks_snoc _ _ _ _ Hlast), IH1. simpl. rewrite E.
    split; [done|]. split; [eapply linked_snoc; [done..|apply Hj]|].
    unfold hopsCost. rewrite fmap_app. simpl. rewrite foldr_add_snoc, Hs, IH3. unfold hopsCost.
    destruct p as [|a p]; [done|]. simpl. rewrite fmap_app. simpl. rewrite foldr_add_snoc. lia.
Qed.

(** ** The cost of a path *)

Lemma Path_Cost_hops n m path s rest :
  costs_ok n m → p_Nodes path = s :: rest →
  hopsCost n m (p_Nodes path) (p_Links path) < MaxInt32 →
  Path_Cost n m path =
  hopsCost n m (p_Nodes path) (p_Links path) + Z.max (r_Cost (router n s)) m.
Proof.
  intros Hok Hn Hlt. unfold Path_Cost, hopsCost, MaxInt32 in *. rewrite Hn in *. simpl tail in *.
  set (f := λ l, l_Cost (link n l)) in *.
  set (g := λ r, Z.max (r_Cost (router n r)) m) in *.
  assert (∀ l, 0 ≤ f l) as Hf by (intros l; apply (co_link _ _ Hok l)).
  assert (∀ r, 0 ≤ g r < 2 ^ 16) as Hg.
  { intros r. unfold g. pose proof (co_router _ _ Hok r). pose proof (co_min _ _ Hok). lia. }
  pose proof (sum_nonneg f (p_Links path) Hf).
  assert (0 ≤ foldr Z.add 0 (g <$> rest)) by (apply sum_nonneg; intros r; apply Hg).
  assert (foldl (λ cost l, int64 (cost + l_Cost (link n l))) 0 (p_Links path) =
    0 + foldr Z.add 0 (f <$> p_Links path)) as -> by (apply (fold_int64 f); [exact Hf|lia|lia]).
  etransitivity; [apply (fold_int64 g); [intros r; apply Hg|lia|]|].
  - csimpl. pose proof (Hg s). lia.
  - csimpl. change (Z.max (r_Cost (router n s)) m) with (g s). lia.
Qed.

(** ** Updating a path *)

Section Updating.
Context (ord : nat → list RouterRef → list RouterRef) (n : Net) (m : Z).
Context (Hord : ∀ k l, ord k l ≡ₚ l) (Hwf : fabric_wf n) (Hok : costs_ok n m).

Lemma shortestPath_linked s d nodes c :
  shortestPath ord n m (Some s) (Some d) = Ok (nodes, c) →
  head nodes = Some s ∧ last nodes = Some d ∧
  ∃ links, setLinks n nodes = Ok links ∧ linked n nodes links ∧
    c = hopsCost n m nodes links ∧ c < MaxInt32.
Proof.
  intros Hsp. destruct (decide (s = d)) as [->|Hne].
  - unfold shortestPath in Hsp. rewrite decide_True in Hsp by done. injection Hsp as <- <-.
    split_and!; [done..|]. by exists [].
  - pose proof (shortestPath_spec ord Hord n m Hok s d Hne) as Hs. rewrite Hsp in Hs.
    destruct Hs as (Hw & Hc & _).
    destruct (walk_links _ _ _ _ _ _ _ Hwf Hw) as (ls & H1 & H2 & H3).
    split_and!; [by eapply walk_head|by eapply walk_last|]. eauto.
Qed.
End Updating.


(** ** What the route messages say *)

(** The addresses along a circuit: its ingress, its links, its egress. *)
Definition addresses (n : Net) (path : Path) : list string :=
  p_IngressId path :: ((λ l, l_Id (link n l)) <$> p_Links path) ++ [p_EgressId path].

(** Whether a message forwards between two addresses in both directions. *)
Definition forwardsBoth (m : Route) (a b : string) : Prop :=
  ∃ ta tb, rt_Forwards m ≡ₚ [mkForward a b ta; mkForward b a tb].

Section RouteMessageLemmas.
Context (n : Net) (path : Path) (attempt : Z) (circuitId binding address : string) (t : Z).

Abbreviation rms := (CreateRouteMessages n path attempt circuitId binding address t).
Abbreviation lid := (λ l, l_Id (link n l)).

(** The messages of the links from index [i] on, after the ingress message. *)
Lemma routeAt_tail i l rest :
  drop i (p_Links path) = l :: rest → (0 < i)%nat →
  routeAt n path attempt circuitId binding address t i l =
  match rest with
  | nextLink :: _ => [mkRoute circuitId attempt t
      [mkForward (lid l) (lid nextLink) DestLink; mkForward (lid nextLink) (lid l) DestLink] None]
  | [] => [mkRoute circuitId attempt t
      [mkForward (p_EgressId path) (lid l) DestLink; mkForward (lid l) (p_EgressId path) DestEnd]
      (if attempt =? SmartRerouteAttempt then None else Some (egressOf path binding address))]
  end.
Proof.
  intros Hd Hi. unfold routeAt.
  assert (p_Links path !! S i = head rest) as ->.
  { rewrite <- (Nat.add_1_r i), <- lookup_drop, Hd. by destruct rest. }
  assert (length (p_Links path) = (i + S (length rest))%nat) as Hlen.
  { pose proof (length_drop (p_Links path) i) as H. rewrite Hd in H. simpl in H. lia. }
  rewrite Hlen. destruct (Nat.eqb_spec i 0); [lia|].
  destruct (Nat.eqb_spec (S i) (i + S (length rest))); destruct rest; simpl in *;
    try lia; done.
Qed.

(** The messages after the ingress one, by recursion on the remaining links. *)
Definition transitMsg (l l' : LinkRef) : Route :=
  mkRoute circuitId attempt t
    [mkForward (lid l) (lid l') DestLink; mkForward (lid l') (lid l) DestLink] None.
Definition egressMsg (l : LinkRef) : Route :=
  mkRoute circuitId attempt t
    [mkForward (p_EgressId path) (lid l) DestLink; mkForward (lid l) (p_EgressId path) DestEnd]
    (if attempt =? SmartRerouteAttempt then None else Some (egressOf path binding address)).
Fixpoint tailMsgs (ls : list LinkRef) : list Route :=
  match ls with
  | [] => []
  | [l] => [egressMsg l]
  | l :: ((l' :: _) as rest) => transitMsg l l' :: tailMsgs rest
  end.

Lemma concat_tailMsgs ls i :
  drop i (p_Links path) = ls → (0 < i)%nat →
  concat (imap (λ k l, routeAt n path attempt circuitId binding address t (i + k) l) ls)
  = tailMsgs ls.
Proof.
  revert i. induction ls as [|l ls IH]; intros i Hd Hi; [done|].
  rewrite imap_cons. cbn [concat]. rewrite Nat.add_0_r.
  rewrite (routeAt_tail i l ls) by done.
  assert (drop (S i) (p_Links path) = ls) as Hd'.
  { rewrite <- (Nat.add_1_r i), <- drop_drop, Hd. done. }
  specialize (IH (S i) Hd' ltac:(lia)).
  rewrite (imap_ext _ (λ k l, routeAt n path attempt circuitId binding address t (S i + k) l))
    by (intros; simpl; by rewrite Nat.add_succ_r).
  rewrite IH. by destruct ls.
Qed.

Lemma CreateRouteMessages_cons l0 ls :
  p_Links path = l0 :: ls →
  rms = mkRoute circuitId attempt t
          [mkForward (p_IngressId path) (lid l0) DestLink;
           mkForward (lid l0) (p_IngressId path) DestStart] None :: tailMsgs (l0 :: ls).
Proof.
  intros Hl. unfold CreateRouteMessages. rewrite Hl. rewrite imap_cons. cbn [concat app].
  rewrite (imap_ext _ (λ k l, routeAt n path attempt circuitId binding address t (1 + k) l))
    by done.
  rewrite (concat_tailMsgs ls 1) by (rewrite ?Hl; done || lia).
  unfold routeAt. rewrite Hl. destruct ls; done.
Qed.

Lemma tailMsgs_length ls : length (tailMsgs ls) = length ls.
Proof. induction ls as [|l [|l' ls] IH]; [done|done|]. simpl in *. by rewrite IH. Qed.

Lemma forwardsBoth_intro m a b ta tb :
  rt_Forwards m = [mkForward a b ta; mkForward b a tb] ∨
  rt_Forwards m = [mkForward b a ta; mkForward a b tb] → forwardsBoth m a b.
Proof.
  intros [H|H]; [by exists ta, tb; rewrite H|]. exists tb, ta. rewrite H. apply Permutation_swap.
Qed.

Lemma tailMsgs_lookup ls i m :
  tailMsgs ls !! i = Some m →
  ∃ a b, ((lid <$> ls) ++ [p_EgressId path]) !! i = Some a ∧
    ((lid <$> ls) ++ [p_EgressId path]) !! S i = Some b ∧ forwardsBoth m a b ∧
    rt_CircuitId m = circuitId ∧
    rt_Egress m = if bool_decide (S i = length ls) && negb (attempt =? SmartRerouteAttempt)
                  then Some (egressOf path binding address) else None.
Proof.
  revert i. induction ls as [|l [|l' ls] IH]; intros i Hm; [done| |].
  - destruct i; [|done]. injection Hm as <-. exists (lid l), (p_EgressId path).
    split_and!; [done..| |done|].
    + eapply forwardsBoth_intro. right. done.
    + simpl. by destruct (attempt =? SmartRerouteAttempt).
  - destruct i as [|i].
    + injection Hm as <-. exists (lid l), (lid l'). split_and!; [done..| |done|done].
      eapply forwardsBoth_intro. left. done.
    + destruct (IH i Hm) as (a & b & H1 & H2 & H3 & H4 & H5). exists a, b. split_and!; try done.
      rewrite H5. by repeat case_bool_decide; simpl in *; try lia.
Qed.
End RouteMessageLemmas.

Lemma CreateRouteMessages_length n path attempt circuitId binding address t :
  linked n (p_Nodes path) (p_Links path) →
  length (CreateRouteMessages n path attempt circuitId binding address t) = length (p_Nodes path).
Proof.
  intros Hl. pose proof (linked_length _ _ _ Hl) as Hlen.
  destruct (p_Links path) as [|l0 ls] eqn:E.
  - unfold CreateRouteMessages. rewrite E. simpl in *. lia.
  - rewrite (CreateRouteMessages_cons _ _ _ _ _ _ _ l0 ls E). cbn [length] in *.
    rewrite tailMsgs_length. simpl. lia.
Qed.

Lemma route_messages_spec n path attempt circuitId binding address t :
  linked n (p_Nodes path) (p_Links path) →
  let rms := CreateRouteMessages n path attempt circuitId binding address t in
  length rms = length (p_Nodes path) ∧
  ∀ i m, rms !! i = Some m →
    (∃ a b, addresses n path !! i = Some a ∧ addresses n path !! S i = Some b ∧
       forwardsBoth m a b) ∧
    rt_CircuitId m = circuitId ∧
    (is_Some (rt_Egress m) ↔
       S i = length (p_Nodes path) ∧ (attempt ≠ SmartRerouteAttempt ∨ p_Links path = [])).
Proof.
  intros Hl rms. pose proof (linked_length _ _ _ Hl) as Hlen.
  destruct (p_Links path) as [|l0 ls] eqn:E.
  - unfold rms, CreateRouteMessages, addresses. rewrite E. simpl in *. split; [lia|].
    intros [|i] m Hm; [|done]. injection Hm as <-. split_and!; [|done|].
    + do 2 eexists. split_and!; [done..|]. eapply forwardsBoth_intro. left. done.
    + simpl. rewrite Hlen. split; eauto.
  - unfold rms. rewrite (CreateRouteMessages_cons _ _ _ _ _ _ _ l0 ls E).
    cbn [length] in *. rewrite tailMsgs_length. split; [simpl; lia|].
    intros [|i] m Hm.
    + injection Hm as <-. unfold addresses. rewrite E. split_and!; [|done|].
      * do 2 eexists. split_and!; [done..|]. eapply forwardsBoth_intro. left. done.
      * simpl. split; [by intros []|lia].
    + apply tailMsgs_lookup in Hm as (a & b & H1 & H2 & H3 & H4 & H5).
      unfold addresses. rewrite E. split_and!; [by exists a, b|done|]. rewrite H5.
      case_bool_decide; destruct (Z.eqb_spec attempt SmartRerouteAttempt); simpl in *;
        rewrite ?is_Some_alt; split; try naive_solver; try lia.
Qed.

(** The route messages describe the circuit's path exactly: there is one
    message per router of a linked path, the i-th message forwards in both
    directions between the i-th and the (i+1)-th address of the circuit
    (ingress, links in order, egress), and only the last one asks for the
    egress to be dialed - always on a one-router path, otherwise unless the
    path is being rerouted. *)
Theorem route_messages_chain n path attempt circuitId binding address t :
  linked n (p_Nodes path) (p_Links path) →
  let rms := CreateRouteMessages n path attempt circuitId binding address t in
  length rms = length (p_Nodes path) ∧
  ∀ i m, rms !! i = Some m →
    (∃ a b, addresses n path !! i = Some a ∧ addresses n path !! S i = Some b ∧
       forwardsBoth m a b) ∧
    rt_CircuitId m = circuitId ∧
    (is_Some (rt_Egress m) ↔
       S i = length (p_Nodes path) ∧ (attempt ≠ SmartRerouteAttempt ∨ p_Links path = [])).
Proof. apply route_messages_spec. Qed.

(** ** Witnesses *)

Definition demoPath : Path := mkPath [1%nat; 2%nat] [] "in" "out" "" "" "" "".
Definition demoLink : LinkRef := default 0%nat (n_linkTable demoFabric !! "ab"%string).


Lemma route_messages_chain_witness :
  let path := mkPath [1%nat; 2%nat] [demoLink] "in" "out" "" "" "" "" in
  length (CreateRouteMessages demoFabric path 0 "c" "edge" "addr" 5) = 2%nat.
Proof.
  intros path.
  apply (route_messages_chain demoFabric path 0 "c" "edge" "addr" 5).
  split; [|done]. split; [vm_compute; reflexivity|]. split; [vm_compute; reflexivity|].
  left. split; vm_compute; reflexivity.
Defined.
