(* ===== verification/Circuits.v ===== *)
(** * Circuits (controller/model/circuit_manager.go, controller/network/{network,
    smart,fault}.go)

    The circuit table and the operations that reroute and remove circuits.
    Circuit objects are shared by pointer between the table and the goroutines
    that work on them: [ct_objs] holds every object by its (unique) id and
    [ct_table] the ids that are registered. What the operations send to routers
    is returned as effects; how routers answer a route message is an argument. *)

From stdpp Require Import base gmap list strings fin_maps relations sorting.
From Stdlib Require Import ZArith Lia SpecFloat.
From S2P Require Import Prelude NetModel ShortestPath Fabric Terminators NetPath.

Open Scope Z_scope.
Open Scope go_scope.

Record Circuit := mkCircuit {
  c_Id : string;
  c_ClientId : string;
  c_ServiceId : string;
  c_Terminator : RoutingTerminator;
  c_Path : Path;
  c_Rerouting : bool;
  c_PeerData : PeerData;
  c_CreatedAt : Z;
  c_UpdatedAt : Z;
}.

Definition Circuit_setPath (p : Path) (now : Z) (c : Circuit) : Circuit :=
  mkCircuit (c_Id c) (c_ClientId c) (c_ServiceId c) (c_Terminator c) p (c_Rerouting c)
    (c_PeerData c) (c_CreatedAt c) now.

Record Ctrl := mkCtrl {
  ct_net : Net;
  ct_objs : gmap string Circuit;
  ct_table : gset string;
}.

(** ** CircuitManager *)

Definition CircuitManager_Add (c : Circuit) (s : Ctrl) : Ctrl :=
  mkCtrl (ct_net s) (<[c_Id c := c]> (ct_objs s)) ({[c_Id c]} ∪ ct_table s).

Definition CircuitManager_Get (s : Ctrl) (id : string) : option Circuit :=
  if decide (id ∈ ct_table s) then ct_objs s !! id else None.

Definition CircuitManager_Remove (id : string) (s : Ctrl) : Ctrl :=
  mkCtrl (ct_net s) (ct_objs s) (ct_table s ∖ {[id]}).

(** [All] in the order the concurrent map is iterated. *)
Definition CircuitManager_All (ordC : list string → list string) (s : Ctrl) : list string :=
  ordC (elements (ct_table s)).

Definition Circuit_HasRouter (n : Net) (self : Circuit) (routerId : string) : bool :=
  existsb (λ node, bool_decide (r_Id (router n node) = routerId)) (p_Nodes (c_Path self)).

Definition Circuit_IsEndpointRouter (n : Net) (self : Circuit) (routerId : string) : bool :=
  match head (p_Nodes (c_Path self)), last (p_Nodes (c_Path self)) with
  | Some a, Some b => bool_decide (r_Id (router n a) = routerId)
                      || bool_decide (r_Id (router n b) = routerId)
  | _, _ => false
  end.

Inductive ctrl_effect :=
| SendRoute (r : RouterRef) (m : Route)
| SendUnroute (r : RouterRef) (circuitId : string) (now : bool)
| CircuitCreatedEvent (circuitId : string)
| CircuitUpdatedEvent (circuitId : string)
| CircuitDeletedEvent (circuitId : string)
| NotifyCircuitRemoved (terminator : RoutingTerminator).

Definition upd_circuit (id : string) (f : Circuit → Circuit) (s : Ctrl) : Ctrl :=
  mkCtrl (ct_net s) (alter f id (ct_objs s)) (ct_table s).

(** ** Network operations on circuits *)

Section Operations.
Context (ord : nat → list RouterRef → list RouterRef) (minRouterCost : Z).
Context (remainingTime now : Z).
(** Whether router [r] answers a route message with success. *)
Context (reply : RouterRef → Route → bool).
(** Whether the service can be read and its terminator strategy is known. *)
Context (hasStrategy : string → bool).

(** [InvalidCircuitError] is [Err]. *)
Definition RemoveCircuit (circuitId : string) (now : bool) (s : Ctrl)
    : Ctrl * list ctrl_effect * result unit string :=
  match CircuitManager_Get s circuitId with
  | Some circuit =>
    (CircuitManager_Remove (c_Id circuit) s,
     ((λ r, SendUnroute r (c_Id circuit) now) <$> p_Nodes (c_Path circuit)) ++
       [CircuitDeletedEvent (c_Id circuit)] ++
       (if hasStrategy (c_ServiceId circuit)
        then [NotifyCircuitRemoved (c_Terminator circuit)] else []),
     Ok ())
  | None => (s, [], Err circuitId)
  end.


Definition routeMessagesOf (n : Net) (c : Circuit) (path : Path) : list Route :=
  CreateRouteMessages n path SmartRerouteAttempt (c_Id c)
    (t_Binding (rt_Terminator (c_Terminator c))) (t_Address (rt_Terminator (c_Terminator c)))
    remainingTime.

(** [rerouteCircuit]: every router of the new path is told, errors of single
    routers are only logged. *)
Definition rerouteCircuit (id : string) (s : Ctrl)
    : Ctrl * list ctrl_effect * result unit path_error :=
  match ct_objs s !! id with
  | Some circuit =>
    if c_Rerouting circuit then (s, [], Ok ())
    else
      match UpdatePath ord (ct_net s) minRouterCost (c_Path circuit) with
      | Ok cq =>
        let rms := routeMessagesOf (ct_net s) circuit cq in
        (upd_circuit id (Circuit_setPath cq now) s,
         zip_with SendRoute (p_Nodes cq) rms ++ [CircuitUpdatedEvent (c_Id circuit)], Ok ())
      | Err e => (s, [], Err e)
      end
  | None => (s, [], Ok ())
  end.

(** Sending the messages of [smartReroute] in order, stopping at the first
    router that fails. *)
Fixpoint sendUntilFailure (nodes : list RouterRef) (rms : list Route)
    : list ctrl_effect * bool :=
  match nodes, rms with
  | r :: nodes, m :: rms =>
    if reply r m then
      let '(eff, retry) := sendUntilFailure nodes rms in (SendRoute r m :: eff, retry)
    else ([SendRoute r m], true)
  | _, _ => ([], false)
  end.

Definition smartReroute (id : string) (cq : Path) (s : Ctrl)
    : Ctrl * list ctrl_effect * bool :=
  match ct_objs s !! id with
  | Some circuit =>
    if c_Rerouting circuit then (s, [], false)
    else
      let s := upd_circuit id (Circuit_setPath cq now) s in
      let '(eff, retry) :=
        sendUntilFailure (p_Nodes cq) (routeMessagesOf (ct_net s) circuit cq) in
      (s, eff ++ (if retry then [] else [CircuitUpdatedEvent id]), retry)
  | None => (s, [], false)
  end.

Fixpoint rerouteCircuitWithTries (id : string) (retries : nat) (s : Ctrl)
    : Ctrl * list ctrl_effect * bool :=
  match retries with
  | O =>
    let '(s, eff, _) := RemoveCircuit id true s in (s, eff, false)
  | S retries =>
    match rerouteCircuit id s with
    | (s, eff, Ok _) => (s, eff, true)
    | (s, eff, Err _) =>
      let '(s, eff', ok) := rerouteCircuitWithTries id retries s in (s, eff ++ eff', ok)
    end
  end.

(** The body of [rerouteLink]'s loop. *)
Definition rerouteIfUses (l : LinkRef) (id : string) (s : Ctrl) : Ctrl * list ctrl_effect :=
  match ct_objs s !! id with
  | Some circuit =>
    if Path_UsesLink (c_Path circuit) l then
      match rerouteCircuit id s with
      | (s, eff, Ok _) => (s, eff)
      | (s, eff, Err _) =>
        let '(s, eff', _) := RemoveCircuit id true s in (s, eff ++ eff')
      end
    else (s, [])
  | None => (s, [])
  end.

Fixpoint forEachCircuit (f : string → Ctrl → Ctrl * list ctrl_effect) (ids : list string)
    (s : Ctrl) : Ctrl * list ctrl_effect :=
  match ids with
  | [] => (s, [])
  | id :: ids =>
    let '(s, eff) := f id s in
    let '(s, eff') := forEachCircuit f ids s in (s, eff ++ eff')
  end.

Definition rerouteLink (ordC : list string → list string) (l : LinkRef) (s : Ctrl)
    : Ctrl * list ctrl_effect :=
  forEachCircuit (rerouteIfUses l) (CircuitManager_All ordC s) s.

(** The body of [routerDeleted]'s loop. *)
Definition deleteIfEndpoint (routerId : string) (id : string) (s : Ctrl)
    : Ctrl * list ctrl_effect :=
  match ct_objs s !! id with
  | Some circuit =>
    if Circuit_HasRouter (ct_net s) circuit routerId then
      if Circuit_IsEndpointRouter (ct_net s) circuit routerId
      then (RemoveCircuit id true s).1 else (s, [])
    else (s, [])
  | None => (s, [])
  end.

Definition routerDeleted (ordC : list string → list string) (routerId : string) (s : Ctrl)
    : Ctrl * list ctrl_effect :=
  forEachCircuit (deleteIfEndpoint routerId) (CircuitManager_All ordC s) s.

Record ForwardingFaultReport := mkFFR {
  ffr_R : RouterRef;
  ffr_CircuitIds : list string;
  ffr_UnknownOwner : bool;
}.

(** [fault]: each reported circuit is rerouted (two tries, then removed); a
    circuit this controller does not know is unrouted unless its owner is
    unknown. *)
Definition fault (ffr : ForwardingFaultReport) (s : Ctrl) : Ctrl * list ctrl_effect :=
  forEachCircuit (λ circuitId s,
    match CircuitManager_Get s circuitId with
    | Some _ => let '(s, eff, _) := rerouteCircuitWithTries circuitId 2 s in (s, eff)
    | None => if ffr_UnknownOwner ffr then (s, [])
              else (s, [SendUnroute (ffr_R ffr) circuitId true])
    end) (ffr_CircuitIds ffr) s.

(** ** Smart rerouting *)

Definition calculateCircuitCost (n : Net) (path : Path) : Z :=
  let cost := foldl (λ cost l, int64 (cost + l_Cost (link n l))) 0 (p_Links path) in
  foldl (λ cost r,
    let current := default r (RouterManager_GetConnected n (r_Id (router n r))) in
    int64 (cost + Z.max (r_Cost (router n current)) minRouterCost)) cost (p_Nodes path).

(** [sort.SliceStable] with the strict order [circuitCosts[j] < circuitCosts[i]]:
    the stable sort by decreasing cost. *)
Fixpoint insertByCost (cost : string → Z) (x : string) (l : list string) : list string :=
  match l with
  | [] => [x]
  | y :: l => if cost x <? cost y then y :: insertByCost cost x l else x :: y :: l
  end.
Definition sortByCost (cost : string → Z) (l : list string) : list string :=
  foldr (insertByCost cost) [] l.

(** [int(float32(len) * fraction)], truncated towards zero. *)
Definition f32_trunc (x : spec_float) : Z :=
  match x with
  | S754_finite s m e =>
    let v := if 0 <=? e then Zpos m * 2 ^ e else Zpos m / 2 ^ (- e) in
    if s then - v else v
  | _ => 0
  end.

Record SmartOptions := mkSmart {
  so_RerouteFraction : spec_float;
  so_RerouteCap : Z;               (* uint32 *)
  so_MinCostDelta : Z;             (* uint32 *)
}.

Definition rerouteCeiling (opt : SmartOptions) (count : nat) : Z :=
  let ceiling := f32_trunc (SFmul 24 128 (f32_of (Z.of_nat count)) (so_RerouteFraction opt)) in
  let ceiling := if ceiling <? 1 then 1 else ceiling in
  if ceiling >? so_RerouteCap opt then so_RerouteCap opt else ceiling.

(** The body of the loop over the ordered circuits. *)
Definition considerCircuit (opt : SmartOptions) (ceiling : Z) (cost : string → Z) (s : Ctrl)
    (candidates : list (string * Path)) (circuitId : string) : list (string * Path) :=
  match CircuitManager_Get s circuitId with
  | Some circuit =>
    match UpdatePath ord (ct_net s) minRouterCost (c_Path circuit) with
    | Ok updatedPath =>
      let pathChanged := negb (Path_EqualPath updatedPath (c_Path circuit)) in
      let costDelta := int64 (cost circuitId - Path_Cost (ct_net s) minRouterCost updatedPath) in
      if (Z.of_nat (length candidates) <? ceiling) && pathChanged &&
         (costDelta >=? so_MinCostDelta opt)
      then candidates ++ [(circuitId, updatedPath)]
      else candidates
    | Err _ => candidates
    end
  | None => candidates
  end.

Definition circuitCosts (s : Ctrl) (id : string) : Z :=
  match ct_objs s !! id with
  | Some c => calculateCircuitCost (ct_net s) (c_Path c)
  | None => 0
  end.

Definition getRerouteCandidates (ordC : list string → list string) (opt : SmartOptions) (s : Ctrl)
    : list (string * Path) :=
  let circuits := CircuitManager_All ordC s in
  let ordered := sortByCost (circuitCosts s) circuits in
  foldl (considerCircuit opt (rerouteCeiling opt (length circuits)) (circuitCosts s) s) [] ordered.

(** [smart]: the reroutes of the candidates; a failed one is retried in a
    goroutine, here right after. *)
Definition smart (ordC : list string → list string) (opt : SmartOptions) (retries : nat)
    (s : Ctrl) : Ctrl * list ctrl_effect :=
  foldl (λ '(s, eff) '(id, path),
    let '(s, eff1, retry) := smartReroute id path s in
    if retry : bool then
      let '(s, eff2, _) := rerouteCircuitWithTries id retries s in (s, eff ++ eff1 ++ eff2)
    else (s, eff ++ eff1)) (s, []) (getRerouteCandidates ordC opt s).
End Operations.

(** ** Invariants of the circuit table *)

(** Registered circuits exist, carry their id, and nobody is rerouting them. *)
Definition quiet (s : Ctrl) : Prop :=
  ∀ id, id ∈ ct_table s →
    ∃ c, ct_objs s !! id = Some c ∧ c_Id c = id ∧ c_Rerouting c = false.

Section Proofs.
Context (ord : nat → list RouterRef → list RouterRef) (minRouterCost : Z).
Context (remainingTime now : Z) (hasStrategy : string → bool).
Context (ordC : list string → list string).

Definition perm_ord : Prop := ∀ k l, ord k l ≡ₚ l.
Definition perm_ordC : Prop := ∀ l, ordC l ≡ₚ l.

Abbreviation UpdatePath' := (UpdatePath ord).
Abbreviation reroute := (rerouteCircuit ord minRouterCost remainingTime now).
Abbreviation remove := (RemoveCircuit hasStrategy).

Lemma UpdatePath_linked n path path' :
  perm_ord →
  fabric_wf n → costs_ok n minRouterCost →
  UpdatePath' n minRouterCost path = Ok path' → linked n (p_Nodes path') (p_Links path').
Proof.
  intros Hord Hwf Hok. unfold UpdatePath. destruct (head (p_Nodes path)) as [a|], (last (p_Nodes path)) as [b|]; try done.
  destruct (shortestPath ord n minRouterCost (Some a) (Some b)) as [[nodes c]|e] eqn:E; [|done].
  destruct (shortestPath_linked ord n minRouterCost Hord Hwf Hok a b nodes c E)
    as (_ & _ & links & H1 & H2 & _).
  simpl. rewrite H1. simpl. by intros [= <-].
Qed.

Lemma linked_live n nodes links l : linked n nodes links → l ∈ links → live n l.
Proof.
  revert links. induction nodes as [|a [|b rest] IH]; intros [|x links]; try done.
  - intros _ []%not_elem_of_nil.
  - intros [[Hl _] Hrest] [->|Hin]%elem_of_cons; [done|]. by eapply IH.
Qed.

Lemma UsesLink_elem p l : Path_UsesLink p l = true ↔ l ∈ p_Links p.
Proof.
  unfold Path_UsesLink. rewrite existsb_exists. setoid_rewrite bool_decide_eq_true.
  setoid_rewrite <- list_elem_of_In. naive_solver.
Qed.

Lemma UpdatePath_avoids n path path' l :
  perm_ord →
  fabric_wf n → costs_ok n minRouterCost → ¬ live n l →
  UpdatePath' n minRouterCost path = Ok path' → Path_UsesLink path' l = false.
Proof.
  intros Hord Hwf Hok Hl Hu. apply not_true_iff_false. rewrite UsesLink_elem. intros Hin.
  apply Hl. eapply linked_live; [|exact Hin]. by eapply UpdatePath_linked.
Qed.

(** [rerouteCircuit] on a circuit nobody is rerouting. *)
Lemma rerouteCircuit_eq id s c :
  ct_objs s !! id = Some c → c_Rerouting c = false →
  reroute id s =
  match UpdatePath' (ct_net s) minRouterCost (c_Path c) with
  | Ok cq => (upd_circuit id (Circuit_setPath cq now) s,
      zip_with SendRoute (p_Nodes cq) (routeMessagesOf remainingTime (ct_net s) c cq)
        ++ [CircuitUpdatedEvent (c_Id c)], Ok ())
  | Err e => (s, [], Err e)
  end.
Proof. intros Hc Hr. unfold rerouteCircuit. by rewrite Hc, Hr. Qed.

Lemma remove_eq id s c :
  id ∈ ct_table s → ct_objs s !! id = Some c → c_Id c = id →
  (remove id true s).1.1 = CircuitManager_Remove id s.
Proof.
  intros Ht Hc Hid. unfold RemoveCircuit, CircuitManager_Get.
  rewrite decide_True by done. rewrite Hc. simpl. by rewrite Hid.
Qed.

Lemma quiet_setPath id p s : quiet s → quiet (upd_circuit id (Circuit_setPath p now) s).
Proof.
  intros Hq i Hi. destruct (Hq i Hi) as (c & H1 & H2 & H3). simpl.
  destruct (decide (id = i)) as [->|Hne].
  - rewrite lookup_alter_eq, H1. simpl. eexists. eauto.
  - rewrite lookup_alter_ne by done. eauto.
Qed.

Lemma quiet_remove id s : quiet s → quiet (CircuitManager_Remove id s).
Proof. intros Hq i Hi. apply Hq. simpl in Hi. set_solver. Qed.

(** One step of a loop over the circuits changes only its own circuit. *)
Record only_touches (id : string) (s s' : Ctrl) : Prop := mkTouch {
  tch_net : ct_net s' = ct_net s;
  tch_objs : ∀ i, i ≠ id → ct_objs s' !! i = ct_objs s !! i;
  tch_table : ct_table s ∖ {[id]} ⊆ ct_table s' ⊆ ct_table s;
  tch_quiet : quiet s → quiet s';
}.

Lemma only_touches_refl id s : only_touches id s s.
Proof. split; try done; set_solver. Qed.
Lemma only_touches_setPath id p s : only_touches id s (upd_circuit id (Circuit_setPath p now) s).
Proof.
  split; try done; [| |apply quiet_setPath].
  - intros i Hi. simpl. by rewrite lookup_alter_ne.
  - simpl. set_solver.
Qed.
Lemma only_touches_remove id s : only_touches id s (CircuitManager_Remove id s).
Proof. split; try done; [simpl; set_solver|apply quiet_remove]. Qed.

(** A loop over the circuits establishes what each step establishes for its
    own circuit. *)
Lemma forEachCircuit_establishes (f : string → Ctrl → Ctrl * list ctrl_effect)
    (P : Net → Ctrl → string → Prop) n ids s :
  NoDup ids → ct_net s = n → quiet s → (∀ id, id ∈ ids → id ∈ ct_table s) →
  (∀ id s, ct_net s = n → quiet s → id ∈ ct_table s →
     only_touches id s (f id s).1 ∧ P n (f id s).1 id) →
  (∀ id s s', id ∈ ids → ct_objs s' !! id = ct_objs s !! id →
     (id ∈ ct_table s' ↔ id ∈ ct_table s) → P n s id → P n s' id) →
  let s' := (forEachCircuit f ids s).1 in
  ct_net s' = n ∧ quiet s' ∧ ct_table s' ⊆ ct_table s ∧
  (∀ i, i ∉ ids → ct_objs s' !! i = ct_objs s !! i ∧ (i ∈ ct_table s' ↔ i ∈ ct_table s)) ∧
  ∀ id, id ∈ ids → P n s' id.
Proof.
  intros Hnd Hn Hq Hin Hf Hstable. revert s Hn Hq Hin. induction Hnd as [|id ids Hid Hnd IH];
    intros s Hn Hq Hin; [simpl; set_solver|].
  simpl. destruct (Hf id s Hn Hq ltac:(set_solver)) as [[T1 T2 T3 T4] HP].
  destruct (f id s) as [s1 eff1]. simpl in *.
  destruct (IH ltac:(intros; eapply Hstable; eauto; set_solver) s1) as (I1 & I2 & I3 & I4 & I5).
  { congruence. } { auto. } { intros i Hi. assert (i ∈ ct_table s) by set_solver. set_solver. }
  destruct (forEachCircuit f ids s1) as [s2 eff2]. simpl in *.
  split_and!; [done|done|set_solver| |].
  - intros i Hi. destruct (I4 i ltac:(set_solver)) as [-> ->]. rewrite T2 by set_solver. set_solver.
  - intros i [->|Hi]%elem_of_cons; [|by apply I5]. destruct (I4 id Hid) as [J1 J2].
    by apply (Hstable id s1 s2); [set_solver|..].
Qed.

(** After the reroute: registered and off the link, or dropped for lack of a
    route. *)
Definition off_link (l : LinkRef) (n : Net) (s : Ctrl) (id : string) : Prop :=
  ∃ c, ct_objs s !! id = Some c ∧
    ((id ∈ ct_table s ∧ Path_UsesLink (c_Path c) l = false) ∨
     ((id ∉ ct_table s) ∧ ∃ e, UpdatePath' n minRouterCost (c_Path c) = Err e)).

Lemma rerouteIfUses_step l n id s :
  perm_ord →
  fabric_wf n → costs_ok n minRouterCost → ¬ live n l →
  ct_net s = n → quiet s → id ∈ ct_table s →
  let s' := (rerouteIfUses ord minRouterCost remainingTime now hasStrategy l id s).1 in
  only_touches id s s' ∧ off_link l n s' id.
Proof.
  intros Hord Hwf Hok Hl Hn Hq Hid. destruct (Hq id Hid) as (c & Hc & Hcid & Hre).
  unfold rerouteIfUses. rewrite Hc.
  destruct (Path_UsesLink (c_Path c) l) eqn:Hu;
    [|split; [apply only_touches_refl|exists c; auto]].
  rewrite (rerouteCircuit_eq id s c Hc Hre), Hn.
  destruct (UpdatePath' n minRouterCost (c_Path c)) as [cq|e] eqn:E; simpl.
  - split; [apply only_touches_setPath|]. exists (Circuit_setPath cq now c). simpl.
    rewrite lookup_alter_eq, Hc. split; [done|]. left. split; [done|].
    by eapply UpdatePath_avoids.
  - pose proof (remove_eq id s c Hid Hc Hcid) as Hr.
    destruct (remove id true s) as [[s' eff] res]. simpl in *. subst s'.
    split; [apply only_touches_remove|]. exists c. split; [done|]. right.
    split; [simpl; set_solver|eauto].
Qed.

Lemma CircuitManager_All_spec s :
  perm_ordC → NoDup (CircuitManager_All ordC s) ∧ ∀ id, id ∈ CircuitManager_All ordC s ↔ id ∈ ct_table s.
Proof.
  unfold perm_ordC. intros HordC. unfold CircuitManager_All. split; [rewrite HordC; apply NoDup_elements|].
  intros id. by rewrite HordC, elem_of_elements.
Qed.

Lemma rerouteLink_spec l s :
  perm_ord → perm_ordC →
  fabric_wf (ct_net s) → costs_ok (ct_net s) minRouterCost → ¬ live (ct_net s) l → quiet s →
  let s' := (rerouteLink ord minRouterCost remainingTime now hasStrategy ordC l s).1 in
  quiet s' ∧ ct_table s' ⊆ ct_table s ∧ ∀ id, id ∈ ct_table s → off_link l (ct_net s) s' id.
Proof.
  intros Hord HordC Hwf Hok Hl Hq. destruct (CircuitManager_All_spec s HordC) as [Hnd Hall].
  destruct (forEachCircuit_establishes
    (rerouteIfUses ord minRouterCost remainingTime now hasStrategy l) (off_link l)
    (ct_net s) (CircuitManager_All ordC s) s) as (_ & H2 & H3 & _ & H5); try done.
  - intros id. by rewrite Hall.
  - intros id s1 Hn1 Hq1 Hid1. by apply (rerouteIfUses_step l (ct_net s)).
  - intros id s1 s2 _ Ho Ht (c & Hc & H). exists c. rewrite Ho, Ht. done.
  - split_and!; [done|done|]. intros id Hid. apply H5. by apply Hall.
Qed.

Lemma HasRouter_endpoint n c routerId :
  Circuit_IsEndpointRouter n c routerId = true → Circuit_HasRouter n c routerId = true.
Proof.
  unfold Circuit_IsEndpointRouter, Circuit_HasRouter. intros H. apply existsb_exists.
  destruct (head (p_Nodes (c_Path c))) as [a|] eqn:Ha; [|done].
  destruct (last (p_Nodes (c_Path c))) as [b|] eqn:Hb; [|done].
  apply orb_true_iff in H as [H|H]; [exists a|exists b]; (split; [|done]); apply list_elem_of_In.
  - by apply head_Some_elem_of.
  - by apply last_Some_elem_of.
Qed.

Lemma routerDeleted_spec routerId s :
  perm_ordC →
  quiet s →
  let s' := (routerDeleted hasStrategy ordC routerId s).1 in
  quiet s' ∧ ct_net s' = ct_net s ∧
  ∀ id c, id ∈ ct_table s → ct_objs s !! id = Some c →
    ct_objs s' !! id = Some c ∧
    (id ∈ ct_table s' ↔ Circuit_IsEndpointRouter (ct_net s) c routerId = false).
Proof.
  intros HordC Hq. destruct (CircuitManager_All_spec s HordC) as [Hnd Hall].
  (* the loop keeps every object, so its steps may look at the initial one *)
  unfold routerDeleted. set (f := deleteIfEndpoint hasStrategy routerId).
  assert (∀ ids s1, ct_objs (forEachCircuit f ids s1).1 = ct_objs s1 ∧
    ct_net (forEachCircuit f ids s1).1 = ct_net s1) as Hobjs.
  { induction ids as [|i ids IH]; intros s1; [done|]. simpl.
    assert (ct_objs (f i s1).1 = ct_objs s1 ∧ ct_net (f i s1).1 = ct_net s1) as [Ho Hn1].
    { unfold f, deleteIfEndpoint, RemoveCircuit. repeat case_match; done. }
    destruct (f i s1) as [s2 e2]. destruct (IH s2) as [IHo IHn].
    destruct (forEachCircuit f ids s2). simpl in *. split; congruence. }
  destruct (forEachCircuit_establishes f (λ n s' id, ∀ c, ct_objs s' !! id = Some c →
      (id ∈ ct_table s' ↔ Circuit_IsEndpointRouter n c routerId = false))
    (ct_net s) (CircuitManager_All ordC s) s) as (H1 & H2 & _ & _ & H5); try done.
  - intros id. by rewrite Hall.
  - intros id s1 Hn1 Hq1 Hid1. destruct (Hq1 id Hid1) as (c & Hc & Hcid & _).
    unfold f, deleteIfEndpoint. rewrite Hc, Hn1.
    pose proof (HasRouter_endpoint (ct_net s) c routerId) as Hhas.
    pose proof (remove_eq id s1 c Hid1 Hc Hcid) as Hr.
    destruct (Circuit_IsEndpointRouter (ct_net s) c routerId) eqn:E.
    + rewrite Hhas by done. destruct (remove id true s1) as [[s' eff] res]. simpl in *. subst s'.
      split; [apply only_touches_remove|]. intros c' Hc'. simpl in Hc'.
      rewrite Hc in Hc'. injection Hc' as <-. rewrite E. simpl. set_solver.
    + destruct (Circuit_HasRouter _ _ _); (split; [apply only_touches_refl|]);
        intros c' Hc'; simpl in *; rewrite Hc in Hc'; injection Hc' as <-; by rewrite E.
  - intros id s1 s2 _ Ho Ht HP c Hc. rewrite Ht. apply HP. by rewrite <- Ho.
  - destruct (Hobjs (CircuitManager_All ordC s) s) as [Ho Hn].
    split_and!; [done|done|]. intros id c Hid Hc. rewrite Ho. split; [done|].
    apply H5; [by apply Hall|]. by rewrite Ho.
Qed.

(** ** Reroute with tries *)

(** Rerouting leaves an unroutable circuit alone, so every try fails alike. *)
Lemma tries_unroutable id k s c e :
  ct_objs s !! id = Some c → c_Rerouting c = false →
  UpdatePath' (ct_net s) minRouterCost (c_Path c) = Err e →
  rerouteCircuitWithTries ord minRouterCost remainingTime now hasStrategy id k s =
  ((remove id true s).1, false).
Proof.
  intros Hc Hr Hu. induction k as [|k IH]; simpl.
  - by destruct (remove id true s) as [[s' eff] res].
  - rewrite (rerouteCircuit_eq id s c Hc Hr), Hu, IH. by destruct (remove id true s) as [[s' eff] res].
Qed.

(** ** Smart rerouting *)

Section Smart.
Context (opt : SmartOptions) (s : Ctrl) (ceiling : Z) (cost : string → Z).

(** A candidate is a registered circuit with a different, sufficiently cheaper
    path. *)
Definition good_candidate (cand : string * Path) : Prop :=
  ∃ c, CircuitManager_Get s cand.1 = Some c ∧
    UpdatePath' (ct_net s) minRouterCost (c_Path c) = Ok cand.2 ∧
    Path_EqualPath cand.2 (c_Path c) = false ∧
    so_MinCostDelta opt ≤ int64 (cost cand.1 - Path_Cost (ct_net s) minRouterCost cand.2).

Abbreviation consider := (considerCircuit ord minRouterCost opt ceiling cost s).

Lemma consider_cases cands id :
  consider cands id = cands ∨
  ∃ p, consider cands id = cands ++ [(id, p)] ∧ good_candidate (id, p) ∧
       Z.of_nat (length cands) < ceiling.
Proof.
  unfold considerCircuit. destruct (CircuitManager_Get s id) as [c|] eqn:Hg; [|by left].
  destruct (UpdatePath' _ _ _) as [p|e] eqn:Hu; [|by left]. cbv zeta.
  destruct (_ && _ && _) eqn:Hb; [|by left]. right. exists p. bool_prop.
  split; [done|]. split; [|done]. exists c. split_and!; simpl; done || lia.
Qed.

Lemma candidates_spec ids cands :
  Forall good_candidate cands → Z.of_nat (length cands) ≤ Z.max 0 ceiling →
  let cands' := foldl consider cands ids in
  Forall good_candidate cands' ∧ Z.of_nat (length cands') ≤ Z.max 0 ceiling ∧
  ∃ ids', sublist ids' ids ∧ cands'.*1 = cands.*1 ++ ids'.
Proof.
  revert cands. induction ids as [|id ids IH]; intros cands Hg Hlen; simpl.
  { split_and!; [done..|]. exists []. by rewrite app_nil_r. }
  destruct (consider_cases cands id) as [->|(p & -> & Hp & Hlt)].
  - destruct (IH cands Hg Hlen) as (H1 & H2 & ids' & Hs & Heq).
    split_and!; [done..|]. exists ids'. split; [by constructor|done].
  - destruct (IH (cands ++ [(id, p)])) as (H1 & H2 & ids' & Hs & Heq).
    { apply Forall_app. auto. }
    { rewrite length_app. simpl. lia. }
    split_and!; [done..|]. exists (id :: ids'). split; [by constructor|].
    rewrite Heq, fmap_app. simpl. by rewrite <- app_assoc.
Qed.
End Smart.

Lemma rerouteCeiling_cap opt k : rerouteCeiling opt k ≤ so_RerouteCap opt.
Proof.
  unfold rerouteCeiling. cbv zeta.
  match goal with |- (if ?a >? ?b then _ else _) ≤ _ => destruct (Z.gtb_spec a b); lia end.
Qed.

Lemma insertByCost_perm cost x l : insertByCost cost x l ≡ₚ x :: l.
Proof.
  induction l as [|y l IH]; simpl; [done|]. case_match; [|done].
  rewrite IH. apply Permutation_swap.
Qed.

Lemma sortByCost_perm cost l : sortByCost cost l ≡ₚ l.
Proof. induction l as [|x l IH]; simpl; [done|]. by rewrite insertByCost_perm, IH. Qed.

Definition dearer (cost : string → Z) (x y : string) : Prop := cost y ≤ cost x.

Lemma insertByCost_sorted cost x l :
  StronglySorted (dearer cost) l → StronglySorted (dearer cost) (insertByCost cost x l).
Proof.
  induction 1 as [|y l Hs IH Hy]; simpl; [by repeat constructor|].
  destruct (Z.ltb_spec (cost x) (cost y)) as [Hlt|Hge]; constructor; try done.
  - rewrite Forall_forall in *. intros z. rewrite insertByCost_perm.
    intros [->|Hz]%elem_of_cons; [unfold dearer; lia|auto].
  - by constructor.
  - rewrite Forall_forall in *. intros z [->|Hz]%elem_of_cons; [done|].
    specialize (Hy z Hz). unfold dearer in *. lia.
Qed.

Lemma sortByCost_sorted cost l : StronglySorted (dearer cost) (sortByCost cost l).
Proof. induction l; simpl; [constructor|by apply insertByCost_sorted]. Qed.

Lemma sublist_sorted {A} (R : relation A) (l1 l2 : list A) :
  sublist l1 l2 → StronglySorted R l2 → StronglySorted R l1.
Proof.
  induction 1 as [|x l1 l2 Hs IH|x l1 l2 Hs IH]; [done| |].
  - intros [H1 H2]%StronglySorted_inv. constructor; [auto|].
    rewrite Forall_forall in *. intros y Hy. apply H2. by eapply elem_of_sublist.
  - intros [H1 _]%StronglySorted_inv. auto.
Qed.
End Proofs.

(** ** What the operations promise *)


(** A deleted router leaves no dangling circuit: after [routerDeleted] the
    circuits that start or end at it are unregistered, every other circuit is
    still registered, and no circuit's path was changed. *)
Theorem routerDeleted_drops_endpoints hasStrategy ordC routerId s :
  (∀ x, ordC x ≡ₚ x) → quiet s →
  let s' := (routerDeleted hasStrategy ordC routerId s).1 in
  ∀ id c, id ∈ ct_table s → ct_objs s !! id = Some c →
    ct_objs s' !! id = Some c ∧
    (id ∈ ct_table s' ↔ Circuit_IsEndpointRouter (ct_net s) c routerId = false).
Proof.
  intros HordC Hq.
  by destruct (routerDeleted_spec hasStrategy ordC routerId s HordC Hq) as (_ & _ & H).
Qed.


(** Smart rerouting only moves circuits that gain: there are at most as many
    candidates as the configured ceiling allows, each is a registered circuit
    whose best path differs from its current one and is cheaper by at least the
    configured delta, no circuit appears twice, and they come in order of
    decreasing current cost. *)
Theorem reroute_candidates_gain ord m ordC opt s :
  (∀ x, ordC x ≡ₚ x) → 0 ≤ so_RerouteCap opt →
  let cands := getRerouteCandidates ord m ordC opt s in
  Z.of_nat (length cands) ≤ Z.max 0 (rerouteCeiling opt (length (CircuitManager_All ordC s))) ∧
  Z.of_nat (length cands) ≤ so_RerouteCap opt ∧ NoDup cands.*1 ∧
  StronglySorted (dearer (circuitCosts m s)) cands.*1 ∧
  Forall (λ '(id, p), ∃ c, CircuitManager_Get s id = Some c ∧
    UpdatePath ord (ct_net s) m (c_Path c) = Ok p ∧ Path_EqualPath p (c_Path c) = false ∧
    so_MinCostDelta opt ≤ int64 (circuitCosts m s id - Path_Cost (ct_net s) m p)) cands.
Proof.
  intros HordC Hcap. unfold getRerouteCandidates. cbv zeta.
  destruct (CircuitManager_All_spec ordC s HordC) as [Hnd _].
  set (ceiling := rerouteCeiling opt _).
  destruct (candidates_spec ord m opt s ceiling (circuitCosts m s)
    (sortByCost (circuitCosts m s) (CircuitManager_All ordC s)) [])
    as (H1 & H2 & ids & Hsub & Heq); [constructor|simpl; lia|].
  simpl in Heq. rewrite Heq. split_and!.
  - exact H2.
  - pose proof (rerouteCeiling_cap opt (length (CircuitManager_All ordC s))). lia.
  - eapply sublist_NoDup; [|exact Hsub]. by rewrite sortByCost_perm.
  - eapply sublist_sorted; [exact Hsub|]. apply sortByCost_sorted.
  - eapply Forall_impl; [exact H1|]. intros [id p]. done.
Qed.

(** ** Witnesses *)

(** One circuit over the link of [demoFabric], which has just been removed. *)
Definition demoCircuit : Circuit :=
  mkCircuit "c1" "client" "svc" (demoT "t" Default 0)
    (mkPath [1%nat; 2%nat] [demoLink] "in" "out" "" "" "" "") false ∅ 0 0.
Definition demoCtrl (n : Net) : Ctrl := CircuitManager_Add demoCircuit (mkCtrl n ∅ ∅).
Definition demoGone : Net := (RemoveLink "ab" demoFabric).1.

Lemma demoGone_reachable : reachable demoGone.
Proof.
  destruct demoFabric_reachable as (n0 & Hi & Hs). exists n0. split; [done|].
  eapply rtc_r; [exact Hs|]. apply StepRemove.
Qed.

Lemma demoCtrl_quiet n : quiet (demoCtrl n).
Proof.
  intros id Hid. simpl in *. assert (id = "c1"%string) as -> by set_solver.
  by exists demoCircuit.
Qed.


Lemma routerDeleted_drops_endpoints_witness :
  "c1"%string ∉ ct_table (routerDeleted (λ _, true) (λ l, l) "b" (demoCtrl demoFabric)).1.
Proof.
  destruct (routerDeleted_drops_endpoints (λ _, true) (λ l, l) "b" (demoCtrl demoFabric)
    (λ _, reflexivity _) (demoCtrl_quiet _) "c1" demoCircuit) as [_ H].
  - simpl. set_solver.
  - vm_compute. reflexivity.
  - rewrite H. vm_compute. discriminate.
Defined.


(** A circuit that took the dear direct link of [demoNet]. *)
Definition demoDear : Ctrl :=
  CircuitManager_Add
    (mkCircuit "c2" "client" "svc" (demoT "t" Default 0)
      (mkPath [1%nat; 3%nat] [default 0%nat (n_linkTable demoNet !! "ac"%string)]
         "in" "out" "" "" "" "") false ∅ 0 0) (mkCtrl demoNet ∅ ∅).

Lemma reroute_candidates_gain_witness :
  let opt := mkSmart (f32_of 1) 4 15 in
  (getRerouteCandidates (λ _ l, l) 10 (λ l, l) opt demoDear).*1 = ["c2"%string] ∧
  Z.of_nat (length (getRerouteCandidates (λ _ l, l) 10 (λ l, l) opt demoDear)) ≤ 4.
Proof.
  intros opt. split; [vm_compute; reflexivity|].
  apply (reroute_candidates_gain (λ _ l, l) 10 (λ l, l) opt demoDear); [done|].
  simpl. lia.
Defined.
