(* ===== verification/RouteSender.v ===== *)
(** * Creating circuits (controller/network/{routesender,network,
    circuit_lifecycle}.go)

    Terminator and path selection, the route sender that waits for the routers
    of a path to confirm, and the retry loop of [CreateCircuit]. What arrives on
    the route sender's channel, in its order and including the timeout, is a
    list of events; what each attempt reads from the rest of the system is an
    environment argument. *)

From stdpp Require Import base gmap list strings fin_maps relations sorting.
From Stdlib Require Import ZArith Lia SpecFloat Ascii.
From S2P Require Import Prelude NetModel ShortestPath Fabric Terminators NetPath Circuits.

Open Scope Z_scope.
Open Scope go_scope.

Inductive CircuitFailureCause :=
| CircuitFailureInvalidService | CircuitFailureIdGenerationError
| CircuitFailureNoTerminators | CircuitFailureNoOnlineTerminators
| CircuitFailureNoPath | CircuitFailurePathMissingLink
| CircuitFailureInvalidStrategy | CircuitFailureStrategyError
| CircuitFailureRouterResponseTimeout | CircuitFailureRouterErrGeneric
| CircuitFailureRouterErrInvalidTerminator | CircuitFailureRouterErrMisconfiguredTerminator
| CircuitFailureRouterErrDialTimedOut | CircuitFailureRouterErrDialConnRefused.
#[global] Instance CircuitFailureCause_eq_dec : EqDecision CircuitFailureCause.
Proof. solve_decision. Defined.

(** ** [parseInstanceIdAndService] *)

Fixpoint splitAtSign (service : string) : option (string * string) :=
  match service with
  | EmptyString => None
  | String c rest =>
    if bool_decide (c = "@"%char) then Some (""%string, rest)
    else (λ '(a, b), (String c a, b)) <$> splitAtSign rest
  end.

Definition parseInstanceIdAndService (service : string) : string * string :=
  match splitAtSign service with
  | Some (identityId, serviceId) => (identityId, serviceId)
  | None => (""%string, service)
  end.

(** ** [selectPath] *)

Record Service := mkService {
  s_Id : string;
  s_Name : string;
  s_TerminatorStrategy : string;
  s_Terminators : list Terminator;
}.

(** The strategies the controller registers. *)
Inductive anyStrategy :=
| StratRandom | StratSmartRouting | StratSticky | StratWeighted.

Definition GetStrategy (name : string) : option anyStrategy :=
  if bool_decide (name = "random"%string) then Some StratRandom
  else if bool_decide (name = "smartrouting"%string) then Some StratSmartRouting
  else if bool_decide (name = "sticky"%string) then Some StratSticky
  else if bool_decide (name = "weighted"%string) then Some StratWeighted
  else None.

#[global] Instance anyStrategy_is_strategy : Strategy anyStrategy := λ s,
  match s with
  | StratRandom => strategy_Select RandomStrategy
  | StratSmartRouting => strategy_Select SmartRoutingStrategy
  | StratSticky => strategy_Select StickyStrategy
  | StratWeighted => strategy_Select WeightedStrategy
  end.

#[global] Instance anyStrategy_laws : StrategyLaws anyStrategy.
Proof.
  intros [] params l Hl.
  - exact (strategy_select_related RandomStrategy params l Hl).
  - exact (strategy_select_related SmartRoutingStrategy params l Hl).
  - exact (strategy_select_related StickyStrategy params l Hl).
  - exact (strategy_select_related WeightedStrategy params l Hl).
Qed.

Definition newPathAndCost (path : list RouterRef) (cost : Z) : list RouterRef * Z :=
  (path, uint32 (if cost >? 2 ^ 20 then 2 ^ 20 else cost)).

Record selection := mkSel {
  sel_paths : gmap string (list RouterRef * Z);
  sel_weighted : list RoutingTerminator;
  sel_offline : bool;      (* hasOfflineRouters *)
  sel_pathError : bool;
}.

Section Selection.
(** The map iteration order of each path search, by destination router id. *)
Context (ord : string → nat → list RouterRef → list RouterRef).
(** [sort.Slice] by route cost: some sorted permutation. *)
Context (sortT : list RoutingTerminator → list RoutingTerminator).
Context (n : Net) (minRouterCost : Z) (cv : CostVisitor).
Context (params : SelectParams) (srcR : option RouterRef) (instanceId : string).

Definition routeCost (t : Terminator) (pathCost : Z) : Z :=
  let dynamicCost := costs_GetDynamicCost cv (t_Id t) in
  let unbiasedCost := uint32 (uint32 (t_Cost t + dynamicCost) + pathCost) in
  precedence_GetBiasedCost (t_Precedence t) unbiasedCost.

Definition addWeighted (t : Terminator) (pathCost : Z) (st : selection) : selection :=
  mkSel (sel_paths st) (sel_weighted st ++ [mkRouting (routeCost t pathCost) t])
    (sel_offline st) (sel_pathError st).

(** The body of the loop over the terminators. *)
Definition considerTerminator (st : selection) (t : Terminator) : selection :=
  if negb (bool_decide (t_InstanceId t = instanceId)) then st
  else
    match sel_paths st !! t_Router t with
    | Some pathAndCost => addWeighted t pathAndCost.2 st
    | None =>
      match RouterManager_GetConnected n (t_Router t) with
      | None => mkSel (sel_paths st) (sel_weighted st) true (sel_pathError st)
      | Some dstR =>
        match shortestPath (ord (t_Router t)) n minRouterCost srcR (Some dstR) with
        | Err _ => mkSel (sel_paths st) (sel_weighted st) (sel_offline st) true
        | Ok (path, cost) =>
          let pathAndCost := newPathAndCost path cost in
          addWeighted t pathAndCost.2
            (mkSel (<[t_Router t := pathAndCost]> (sel_paths st)) (sel_weighted st)
               (sel_offline st) (sel_pathError st))
        end
      end
    end.

Definition gather (svc : Service) : selection :=
  foldl considerTerminator (mkSel ∅ [] false false) (s_Terminators svc).

Definition selectPath (svc : Service)
    : result (anyStrategy * RoutingTerminator * list RouterRef * PeerData) CircuitFailureCause :=
  let st := gather svc in
  if (length (s_Terminators svc) =? 0)%nat then Err CircuitFailureNoTerminators
  else if (length (sel_weighted st) =? 0)%nat then
    if sel_pathError st then Err CircuitFailureNoPath
    else if sel_offline st then Err CircuitFailureNoOnlineTerminators
    else Err CircuitFailureNoTerminators
  else
    match GetStrategy (s_TerminatorStrategy svc) with
    | None => Err CircuitFailureInvalidStrategy
    | Some strategy =>
      match strategy_Select strategy params (sortT (sel_weighted st)) with
      | None => Err CircuitFailureStrategyError
      | Some (terminator, peerData) =>
        (* [paths[terminator.GetRouterId()].path]; a missing entry would panic *)
        match sel_paths st !! t_Router (rt_Terminator terminator) with
        | Some (path, _) => Ok (strategy, terminator, path, peerData)
        | None => Err CircuitFailureStrategyError
        end
      end
    end.
End Selection.

(** ** The route sender *)

Record RouteStatus := mkStatus {
  rs_Router : string;                (* Router.Id *)
  rs_Attempt : Z;
  rs_Success : bool;
  rs_Err : string;
  rs_PeerData : option PeerData;
  rs_ErrorCode : option Z;           (* byte *)
}.

Definition ErrorTypeGeneric : Z := 0.
Definition ErrorTypeInvalidTerminator : Z := 1.
Definition ErrorTypeDialTimedOut : Z := 3.
Definition ErrorTypeConnectionRefused : Z := 4.

Inductive sender_effect :=
| NotifyDialSucceeded (t : RoutingTerminator)
| NotifyDialFailed (t : RoutingTerminator)
| DeleteTerminator (id : string)
| FailTerminator (id : string)        (* precedence becomes Failed *)
| CountServiceDial (what : string).

Abbreviation attendance := (gmap string bool).

Section Sender.
Context (n : Net) (attempt : Z) (path : Path) (terminator : RoutingTerminator).

Abbreviation term := (rt_Terminator terminator).

Definition cleanups (att : attendance) : gset string :=
  list_to_set (filter (λ rid, att !! rid = Some true) (r_Id ∘ router n <$> p_Nodes path)).

(** The failure cause of an error code and what the sender does about it. *)
Definition failureOf (errorCode : Z) : CircuitFailureCause * list sender_effect :=
  if errorCode =? ErrorTypeGeneric then
    (CircuitFailureRouterErrGeneric, [CountServiceDial "other"])
  else if errorCode =? ErrorTypeInvalidTerminator then
    if bool_decide (t_Binding term = "edge"%string) || bool_decide (t_Binding term = "tunnel"%string)
    then (CircuitFailureRouterErrInvalidTerminator,
          [CountServiceDial "invalid-terminator"; DeleteTerminator (t_Id term)])
    else (CircuitFailureRouterErrMisconfiguredTerminator,
          [CountServiceDial "misconfigured-terminator"; FailTerminator (t_Id term)])
  else if errorCode =? ErrorTypeDialTimedOut then
    (CircuitFailureRouterErrDialTimedOut, [CountServiceDial "terminator-timeout"])
  else if errorCode =? ErrorTypeConnectionRefused then
    (CircuitFailureRouterErrDialConnRefused, [CountServiceDial "connection-refused"])
  else (CircuitFailureRouterErrGeneric, []).

(** The outcome of one status: the attendance, the peer data it carried, the
    effects, and the cleanups and cause when the attempt has failed. *)
Definition handleRouteSend (status : RouteStatus) (att : attendance)
    : attendance * option PeerData * list sender_effect
      * option (gset string * CircuitFailureCause) :=
  if rs_Success status then
    if rs_Attempt status =? attempt then
      let att := <[rs_Router status := true]> att in
      if bool_decide (rs_Router status = t_Router term) then
        (att, rs_PeerData status, [NotifyDialSucceeded terminator; CountServiceDial "success"], None)
      else (att, None, [], None)
    else (att, None, [], None)
  else if rs_Attempt status =? attempt then
    let '(cause, eff) := failureOf (default 0 (rs_ErrorCode status)) in
    let eff := eff ++ (if bool_decide (rs_Router status = t_Router term)
                       then [NotifyDialFailed terminator; CountServiceDial "fail"] else []) in
    (att, None, eff, Some (cleanups att, cause))
  else (att, None, [], None).

Inductive route_event := REStatus (status : RouteStatus) | RETimeout.

Definition allPresent (att : attendance) : bool := bool_decide (map_Forall (λ _ v, v = true) att).

Record route_result := mkRR {
  rr_attendance : attendance;
  rr_effects : list sender_effect;
  rr_outcome : result (option PeerData) (gset string * CircuitFailureCause);
}.

(** The [attendance] loop over the events of the channel; [None] while it is
    still waiting. *)
Fixpoint attend (evs : list route_event) (att : attendance) (peerData : option PeerData)
    (eff : list sender_effect) : option route_result :=
  match evs with
  | [] => None
  | RETimeout :: _ =>
    Some (mkRR att (eff ++ [NotifyDialFailed terminator; CountServiceDial "timeout"])
            (Err (cleanups att, CircuitFailureRouterResponseTimeout)))
  | REStatus status :: evs =>
    let '(att, tmpPeerData, eff', failed) := handleRouteSend status att in
    let eff := eff ++ eff' in
    match failed with
    | Some f => Some (mkRR att eff (Err f))
    | None =>
      let peerData :=
        match tmpPeerData with
        | Some _ => if (rs_Attempt status =? attempt) && bool_decide (rs_Router status = t_Router term)
                    then tmpPeerData else peerData
        | None => peerData
        end in
      if allPresent att then Some (mkRR att eff (Ok peerData))
      else attend evs att peerData eff
    end
  end.

(** [route]: the routers of the path are marked absent, then the loop waits.
    The attendance of earlier attempts is kept. *)
Definition expected (att : attendance) : attendance :=
  foldl (λ att r, <[r_Id (router n r) := false]> att) att (p_Nodes path).

Definition route (evs : list route_event) (att : attendance) : option route_result :=
  attend evs (expected att) None [].
End Sender.

(** ** [CreateCircuit] *)

(** What one attempt reads from the rest of the controller and receives from
    the routers. *)
Record attempt_env := mkEnv {
  ae_service : option Service;          (* [Service.Read] *)
  ae_net : Net;
  ae_costs : CostVisitor;
  ae_params : SelectParams;
  ae_ingressId : string;
  ae_egressId : string;
  ae_remaining : Z;
  ae_events : list route_event;
}.

Inductive create_effect :=
| SendRouteMsg (r : RouterRef) (m : Route)
| SenderEffect (e : sender_effect)
| SendCleanupUnroute (r : RouterRef) (circuitId : string)
| CircuitFailedEvent (cause : CircuitFailureCause).

Section Create.
Context (ord : nat → string → nat → list RouterRef → list RouterRef).
Context (sortT : list RoutingTerminator → list RoutingTerminator).
Context (minRouterCost : Z) (createCircuitRetries : nat).
Context (srcR : RouterRef) (clientToken serviceId instanceId circuitId : string).
Context (clientData : PeerData) (now : Z).
Context (env : nat → attempt_env).

(** The unroutes for the routers that confirmed and are still connected. *)
Definition cleanupUnroutes (n : Net) (ids : list string) : list create_effect :=
  omap (λ rid, (λ r, SendCleanupUnroute r circuitId) <$> RouterManager_GetConnected n rid) ids.

Definition TerminatorLocalAddressHeader : Z := 1110.
Definition TerminatorRemoteAddressHeader : Z := 1111.
Definition InitiatorLocalAddressHeader : Z := 1112.
Definition InitiatorRemoteAddressHeader : Z := 1113.

Definition header (d : PeerData) (k : Z) : string := default ""%string (d !! k).

(** The circuit object of a successful attempt. *)
Definition createdCircuit (path : Path) (terminator : RoutingTerminator) (peerData strategyData : PeerData)
    : Circuit :=
  let path := mkPath (p_Nodes path) (p_Links path) (p_IngressId path) (p_EgressId path)
                (header clientData InitiatorLocalAddressHeader)
                (header clientData InitiatorRemoteAddressHeader)
                (header peerData TerminatorLocalAddressHeader)
                (header peerData TerminatorRemoteAddressHeader) in
  let peerData := delete TerminatorRemoteAddressHeader (delete TerminatorLocalAddressHeader
                   (delete InitiatorRemoteAddressHeader
                     (delete InitiatorLocalAddressHeader peerData))) in
  mkCircuit circuitId clientToken serviceId terminator path false (strategyData ∪ peerData) now now.

(** The egress message carries the client's data. *)
Fixpoint withPeerData (data : PeerData) (rms : list Route) : list Route :=
  match rms with
  | [] => []
  | [m] => [mkRoute (rt_CircuitId m) (rt_Attempt m) (rt_Timeout m) (rt_Forwards m)
              ((λ e, mkEgress (re_Binding e) (re_Address e) (re_Destination e) data)
                 <$> rt_Egress m)]
  | m :: rms => m :: withPeerData data rms
  end.

(** The loop of [CreateCircuit] from attempt [k] on: [more] is the number of
    further attempts the retry limit allows, [att] the sender's attendance and
    [allCleanups] the routers that confirmed in earlier attempts. [None] while
    an attempt is still waiting for routers. *)
Fixpoint createLoop (more : nat) (k : nat) (att : attendance) (allCleanups : gset string)
    (eff : list create_effect)
    : option (list create_effect * result Circuit CircuitFailureCause) :=
  let e := env k in
  let fail cause := Some (eff ++ [CircuitFailedEvent cause], Err cause) in
  match ae_service e with
  | None => fail CircuitFailureInvalidService
  | Some svc =>
    match selectPath (ord k) sortT (ae_net e) minRouterCost (ae_costs e) (ae_params e)
            (Some srcR) instanceId svc with
    | Err cause => fail cause
    | Ok (strategy, terminator, pathNodes, strategyData) =>
      match CreatePathWithNodes (ae_net e) (ae_ingressId e) (ae_egressId e) pathNodes with
      | Err _ => fail CircuitFailurePathMissingLink
      | Ok path =>
        let rms := withPeerData clientData
          (CreateRouteMessages (ae_net e) path (Z.of_nat k) circuitId
             (t_Binding (rt_Terminator terminator)) (t_Address (rt_Terminator terminator))
             (ae_remaining e)) in
        let eff := eff ++ zip_with SendRouteMsg (p_Nodes path) rms in
        match route (ae_net e) (Z.of_nat k) path terminator (ae_events e) att with
        | None => None
        | Some rr =>
          let eff := eff ++ (SenderEffect <$> rr_effects rr) in
          match rr_outcome rr with
          | Err (cl, cause) =>
            let allCleanups := allCleanups ∪ cl in
            let eff := eff ++ [CircuitFailedEvent cause] in
            match more with
            | S more => createLoop more (S k) (rr_attendance rr) allCleanups eff
            | O => Some (eff ++ cleanupUnroutes (ae_net e) (elements allCleanups), Err cause)
            end
          | Ok peerData =>
            let usedRouters : gset string :=
              list_to_set (r_Id ∘ router (ae_net e) <$> p_Nodes path) in
            Some (eff ++ cleanupUnroutes (ae_net e) (elements (allCleanups ∖ usedRouters)),
                  Ok (createdCircuit path terminator (default ∅ peerData) strategyData))
          end
        end
      end
    end
  end.

(** [attempt < CreateCircuitRetries] after the increment: the first attempt
    always runs. *)
Definition CreateCircuit : option (list create_effect * result Circuit CircuitFailureCause) :=
  createLoop (pred createCircuitRetries) 0 ∅ ∅ [].
End Create.

(** ** Service names *)

Fixpoint hasAt (s : string) : bool :=
  match s with
  | EmptyString => false
  | String c rest => bool_decide (c = "@"%char) || hasAt rest
  end.

Lemma splitAtSign_app a b : hasAt a = false → splitAtSign (a +:+ "@" +:+ b) = Some (a, b).
Proof.
  induction a as [|c a IH]; simpl; [done|]. intros H. bool_prop.
  rewrite bool_decide_false by done. by rewrite IH.
Qed.

Lemma splitAtSign_none s : hasAt s = false → splitAtSign s = None.
Proof.
  induction s as [|c s IH]; simpl; [done|]. intros H. bool_prop.
  rewrite bool_decide_false by done. by rewrite IH.
Qed.

(** ** Selection *)

Section SelectionProofs.
Context (ord : string → nat → list RouterRef → list RouterRef).
Context (sortT : list RoutingTerminator → list RoutingTerminator).
Context (n : Net) (m : Z) (cv : CostVisitor) (params : SelectParams) (srcR : option RouterRef).
Context (instanceId : string).

Abbreviation consider := (considerTerminator ord n m cv srcR instanceId).

(** The path to router [rid] and its capped cost. *)
Definition pathTo (rid : string) (pc : list RouterRef * Z) : Prop :=
  ∃ dstR p c, RouterManager_GetConnected n rid = Some dstR ∧
    shortestPath (ord rid) n m srcR (Some dstR) = Ok (p, c) ∧ pc = newPathAndCost p c.

(** [t] can be dialed: its instance matches and its router is reachable. *)
Definition dialable (t : Terminator) : Prop :=
  t_InstanceId t = instanceId ∧ ∃ pc, pathTo (t_Router t) pc.

Lemma pathTo_fun rid pc pc' : pathTo rid pc → pathTo rid pc' → pc = pc'.
Proof. intros (d & p & c & H1 & H2 & ->) (d' & p' & c' & H1' & H2' & ->). congruence. Qed.

Record sel_ok (seen : list Terminator) (st : selection) : Prop := mkSelOk {
  so_paths : ∀ rid pc, sel_paths st !! rid = Some pc → pathTo rid pc;
  so_weighted : ∀ rt, rt ∈ sel_weighted st ↔
    ∃ t pc, t ∈ seen ∧ t_InstanceId t = instanceId ∧ pathTo (t_Router t) pc ∧
      rt = mkRouting (routeCost cv t pc.2) t;
  so_known : ∀ rt, rt ∈ sel_weighted st → is_Some (sel_paths st !! t_Router (rt_Terminator rt));
}.

Lemma sel_ok_skip seen st st' t :
  sel_ok seen st → sel_paths st' = sel_paths st → sel_weighted st' = sel_weighted st →
  ¬ dialable t → sel_ok (seen ++ [t]) st'.
Proof.
  intros [H1 H2 H3] Hp Hw Hnd. split; rewrite ?Hp, ?Hw; try done.
  intros rt. rewrite H2. split.
  - intros (u & pc & Hu & Hi & Hpc & ->). exists u, pc. set_solver.
  - intros (u & pc & Hu & Hi & Hpc & ->). exists u, pc. split; [|done].
    apply elem_of_app in Hu as [Hu|Hu]; [done|]. exfalso. apply Hnd.
    apply list_elem_of_singleton in Hu as ->. split; eauto.
Qed.

Lemma sel_ok_add seen paths' st t pc :
  sel_ok seen st → sel_paths st ⊆ paths' → (∀ rid pc, paths' !! rid = Some pc → pathTo rid pc) →
  t_InstanceId t = instanceId → paths' !! t_Router t = Some pc →
  sel_ok (seen ++ [t]) (addWeighted cv t pc.2 (mkSel paths' (sel_weighted st) (sel_offline st)
    (sel_pathError st))).
Proof.
  intros [H1 H2 H3] Hsub Hp Hi Hpc. split; simpl.
  - done.
  - intros rt. rewrite elem_of_app, list_elem_of_singleton, H2. split.
    + intros [(u & pc' & Hu & Hui & Hpc' & ->)| ->]; [exists u, pc'; set_solver|].
      exists t, pc. split_and!; [set_solver|done|by apply Hp|done].
    + intros (u & pc' & Hu & Hui & Hpc' & ->).
      apply elem_of_app in Hu as [Hu|Hu]; [left; exists u, pc'; done|].
      apply list_elem_of_singleton in Hu as ->. right. by rewrite (pathTo_fun _ _ _ Hpc' (Hp _ _ Hpc)).
  - intros rt [Hrt| ->%list_elem_of_singleton]%elem_of_app; [|eauto].
    destruct (H3 rt Hrt) as [x Hx]. exists x. by eapply lookup_weaken.
Qed.

Lemma consider_ok seen st t : sel_ok seen st → sel_ok (seen ++ [t]) (consider st t).
Proof.
  intros Hok. unfold considerTerminator. case_bool_decide as Hi; simpl;
    [|apply (sel_ok_skip seen st); [done..|]; by intros [? _]].
  destruct (sel_paths st !! t_Router t) as [pc|] eqn:Hpc.
  { replace st with (mkSel (sel_paths st) (sel_weighted st) (sel_offline st) (sel_pathError st))
      at 1 by (by destruct st).
    by apply sel_ok_add; [done|done|apply (so_paths _ _ Hok)|done|]. }
  destruct (RouterManager_GetConnected n (t_Router t)) as [dstR|] eqn:Hd;
    [|apply (sel_ok_skip seen st); [done..|]; intros (_ & ? & d & ? & ? & ? & _); congruence].
  destruct (shortestPath (ord (t_Router t)) n m srcR (Some dstR)) as [[p c]|e] eqn:Hs.
  - assert (pathTo (t_Router t) (newPathAndCost p c)) by by exists dstR, p, c.
    apply (sel_ok_add seen _ st t (newPathAndCost p c));
      [done|by apply insert_subseteq| |done|apply lookup_insert_eq].
    intros rid pc. rewrite lookup_insert_Some. intros [[<- <-]|[_ ?]]; [done|].
    by apply (so_paths _ _ Hok).
  - apply (sel_ok_skip seen st); [done..|].
    intros (_ & pc & d & p & c & Hd' & Hs' & _). congruence.
Qed.

Lemma gather_ok svc : sel_ok (s_Terminators svc) (gather ord n m cv srcR instanceId svc).
Proof.
  unfold gather. rewrite <- (app_nil_l (s_Terminators svc)) at 1.
  assert (sel_ok [] (mkSel ∅ [] false false)) as H0.
  { split; simpl; [by intros ?? ?%lookup_empty_Some| |by intros ? ?%not_elem_of_nil].
    intros rt. split; [by intros ?%not_elem_of_nil|]. by intros (t & pc & ?%not_elem_of_nil & _). }
  revert H0. generalize (mkSel ∅ [] false false) as st, (@nil Terminator) as seen.
  induction (s_Terminators svc) as [|t ts IH]; intros st seen Hok; simpl; [by rewrite app_nil_r|].
  replace (seen ++ t :: ts) with ((seen ++ [t]) ++ ts) by (by rewrite <- app_assoc).
  by apply IH, consider_ok.
Qed.
End SelectionProofs.

Lemma dynamic_range cv id : cv_ok cv → 0 ≤ costs_GetDynamicCost cv id ≤ MaxUint16.
Proof.
  intros Hok. unfold costs_GetDynamicCost. destruct (cv_global cv !! id) as [ref|] eqn:Hg;
    [|vm_compute; split; congruence].
  destruct (cvo_global _ Hok _ _ Hg) as [c Hc]. rewrite Hc. simpl.
  destruct (cvo_heap _ Hok _ _ Hc) as [H1 H2 H3]. unfold TerminatorCosts_Get.
  pose proof (cvo_config _ Hok) as ((Hcc & _) & _).
  assert (0 ≤ tc_CachedCost c) by (rewrite H3; unfold cost_formula, MaxUint32 in *; nia).
  destruct (Z.gtb_spec (tc_CachedCost c) MaxUint16); unfold MaxUint16 in *; lia.
Qed.

Lemma hopsCost_nonneg n m nodes links : costs_ok n m → 0 ≤ hopsCost n m nodes links.
Proof.
  intros Hok. unfold hopsCost.
  pose proof (sum_nonneg (λ l, l_Cost (link n l)) links (λ l, proj1 (co_link _ _ Hok l))).
  pose proof (sum_nonneg (λ r, Z.max (r_Cost (router n r)) m) (tail nodes)
    (λ r, Z.le_trans _ _ _ (proj1 (co_min _ _ Hok)) (Z.le_max_r _ _))). lia.
Qed.

(** The path cost of a reachable router: the distance, capped. *)
Lemma pathTo_cost ord n m s rid pc :
  (∀ rid k l, ord rid k l ≡ₚ l) → fabric_wf n → costs_ok n m →
  pathTo ord n m (Some s) rid pc →
  ∃ dstR c, RouterManager_GetConnected n rid = Some dstR ∧
    shortestPath (ord rid) n m (Some s) (Some dstR) = Ok (pc.1, c) ∧
    pc.2 = Z.min c (2 ^ 20) ∧ 0 ≤ c.
Proof.
  intros Hord Hwf Hok (dstR & p & c & Hd & Hs & ->). exists dstR, c.
  destruct (shortestPath_linked (ord rid) n m (Hord rid) Hwf Hok s dstR p c Hs)
    as (_ & _ & links & _ & _ & Hc & _).
  pose proof (hopsCost_nonneg n m p links Hok) as H0. rewrite <- Hc in H0.
  split_and!; try done. simpl.
  destruct (Z.gtb_spec c (2 ^ 20)); rewrite wrap_u_small; lia.
Qed.

Lemma unbiased_small cv t pc :
  cv_ok cv → 0 ≤ t_Cost t ≤ MaxUint16 → 0 ≤ pc ≤ 2 ^ 20 →
  uint31 (uint32 (uint32 (t_Cost t + costs_GetDynamicCost cv (t_Id t)) + pc)).
Proof.
  intros Hcv Ht Hpc. pose proof (dynamic_range cv (t_Id t) Hcv).
  unfold MaxUint16, uint31 in *. rewrite (wrap_u_small 32 (_ + costs_GetDynamicCost _ _)) by lia.
  rewrite wrap_u_small; lia.
Qed.

(** C12. Terminator selection is sound and complete: [selectPath] returns a
    terminator of the service for the requested instance whose router is
    connected and reachable, a shortest path to that router, and no dialable
    terminator has a better precedence; it fails only if the service's strategy
    is unknown or the service has no dialable terminator at all. *)
Theorem selectPath_correct ord sortT n m cv params s instanceId svc :
  (∀ l, sortT l ≡ₚ l ∧ StronglySorted cheaperT (sortT l)) →
  (∀ rid k l, ord rid k l ≡ₚ l) → reachable n → costs_ok n m → cv_ok cv →
  Forall (λ t, 0 ≤ t_Cost t ≤ MaxUint16) (s_Terminators svc) →
  match selectPath ord sortT n m cv params (Some s) instanceId svc with
  | Ok (strategy, rt, nodes, _) =>
    let t := rt_Terminator rt in
    GetStrategy (s_TerminatorStrategy svc) = Some strategy ∧
    t ∈ s_Terminators svc ∧ t_InstanceId t = instanceId ∧
    (∃ dstR c, RouterManager_GetConnected n (t_Router t) = Some dstR ∧
       shortestPath (ord (t_Router t)) n m (Some s) (Some dstR) = Ok (nodes, c) ∧
       rt_RouteCost rt = routeCost cv t (Z.min c (2 ^ 20))) ∧
    ∀ u, u ∈ s_Terminators svc → dialable ord n m (Some s) instanceId u →
      pr_minCost (t_Precedence t) ≤ pr_minCost (t_Precedence u)
  | Err cause =>
    (cause = CircuitFailureInvalidStrategy ∧ GetStrategy (s_TerminatorStrategy svc) = None) ∨
    ∀ u, u ∈ s_Terminators svc → ¬ dialable ord n m (Some s) instanceId u
  end.
Proof.
  intros Hsort Hord Hwf%wf_reachable Hok Hcv Hcosts.
  pose proof (gather_ok ord n m cv (Some s) instanceId svc) as [Hp Hw Hk].
  unfold selectPath. set (st := gather _ _ _ _ _ _ _) in *.
  assert (sel_weighted st = [] → ∀ u, u ∈ s_Terminators svc →
    ¬ dialable ord n m (Some s) instanceId u) as Hnone.
  { intros He u Hu (Hi & pc & Hpc).
    apply (not_elem_of_nil (mkRouting (routeCost cv u pc.2) u)). rewrite <- He. apply Hw.
    by exists u, pc. }
  destruct (s_Terminators svc) as [|t0 ts0] eqn:Ets;
    [right; by intros u Hu%not_elem_of_nil|]. cbn [length Nat.eqb]. rewrite <- Ets in *.
  destruct (sel_weighted st) as [|x ws] eqn:Ews.
  { cbn [length Nat.eqb]. destruct (sel_pathError st), (sel_offline st); right; by apply Hnone. }
  cbn [length Nat.eqb]. rewrite <- Ews in *.
  destruct (GetStrategy _) as [strategy|] eqn:Estrat; [|by left].
  destruct (Hsort (sel_weighted st)) as [Hperm Hsorted].
  assert (sortT (sel_weighted st) ≠ []) as Hne
    by (intros He; rewrite He, Ews in Hperm; by apply Permutation_nil_cons in Hperm).
  assert (Forall costed (sortT (sel_weighted st))) as Hcosted.
  { apply Forall_forall. intros rt Hrt. rewrite Hperm in Hrt.
    apply Hw in Hrt as (t & pc & Ht & _ & Hpc & ->). rewrite Forall_forall in Hcosts.
    destruct (pathTo_cost _ _ _ _ _ _ Hord Hwf Hok Hpc) as (_ & c & _ & _ & Hc & H0).
    apply biased_range, unbiased_small; [done|by apply Hcosts|lia]. }
  destruct (strategy_select_related strategy params _ Hne) as (rt & pd & -> & Hrel).
  destruct (related_best _ rt Hsorted Hcosted Hrel) as [Hin Hbest]. rewrite Hperm in Hin.
  destruct (Hk rt Hin) as [[nodes pcost] Hpath]. rewrite Hpath.
  pose proof (Hp _ _ Hpath) as Hpt.
  pose proof Hin as Hin'. apply Hw in Hin' as (t & pc & Ht & Hi & Hpc & ->). simpl in *.
  pose proof (pathTo_fun _ _ _ _ _ _ _ Hpt Hpc) as <-.
  destruct (pathTo_cost _ _ _ _ _ _ Hord Hwf Hok Hpc) as (dstR & c & Hd & Hs & Hc & H0).
  split_and!; try done.
  - exists dstR, c. simpl in *. by rewrite Hc.
  - intros u Hu (Hui & pc' & Hpc').
    apply (Hbest (mkRouting (routeCost cv u pc'.2) u)). rewrite Hperm. apply Hw.
    by exists u, pc'.
Qed.

(** ** The route sender *)

(** Router [rid] confirmed the attempt in one of the events. *)
Definition confirmed (attempt : Z) (evs : list route_event) (rid : string) : Prop :=
  ∃ st, REStatus st ∈ evs ∧ rs_Success st = true ∧ rs_Attempt st = attempt ∧ rs_Router st = rid.

Section SenderProofs.
Context (n : Net) (attempt : Z) (path : Path) (terminator : RoutingTerminator).

Abbreviation ids := ((λ r, r_Id (router n r)) <$> p_Nodes path).
Abbreviation handle := (handleRouteSend n attempt path terminator).

Lemma confirmed_app evs evs' rid :
  confirmed attempt (evs ++ evs') rid ↔ confirmed attempt evs rid ∨ confirmed attempt evs' rid.
Proof. unfold confirmed. setoid_rewrite elem_of_app. naive_solver. Qed.

Lemma confirmed_one st rid :
  confirmed attempt [REStatus st] rid ↔
  rs_Success st = true ∧ rs_Attempt st = attempt ∧ rs_Router st = rid.
Proof.
  unfold confirmed. setoid_rewrite list_elem_of_singleton. split; [|naive_solver].
  intros (st' & [= ->] & ?). done.
Qed.

(** What a status does to the attendance, and when it ends the attempt. *)
Lemma handle_attendance st att :
  (handle st att).1.1.1 =
    (if rs_Success st && (rs_Attempt st =? attempt) then <[rs_Router st := true]> att else att) ∧
  (handle st att).2 =
    (if negb (rs_Success st) && (rs_Attempt st =? attempt)
     then Some (cleanups n path att, (failureOf terminator (default 0 (rs_ErrorCode st))).1)
     else None).
Proof.
  unfold handleRouteSend. destruct (rs_Success st), (rs_Attempt st =? attempt); simpl; try done.
  - by case_bool_decide.
  - by destruct (failureOf _ _) as [cause eff].
Qed.

Lemma handle_confirms st att rid :
  (handle st att).1.1.1 !! rid = Some true ↔
  att !! rid = Some true ∨ confirmed attempt [REStatus st] rid.
Proof.
  destruct (handle_attendance st att) as [-> _]. rewrite confirmed_one.
  destruct (rs_Success st); simpl; [|naive_solver].
  destruct (Z.eqb_spec (rs_Attempt st) attempt); [|naive_solver].
  rewrite lookup_insert_Some. destruct (decide (rs_Router st = rid)); tauto.
Qed.

(** Entries are never removed, and only a confirmation changes one. *)
Lemma handle_keeps st att rid v :
  att !! rid = Some v → ¬ confirmed attempt [REStatus st] rid →
  (handle st att).1.1.1 !! rid = Some v.
Proof.
  intros Hv Hc. destruct (handle_attendance st att) as [-> _]. rewrite confirmed_one in Hc.
  destruct (rs_Success st), (Z.eqb_spec (rs_Attempt st) attempt); simpl; try done.
  rewrite lookup_insert_ne; [done|]. intros <-. by apply Hc.
Qed.

Lemma cleanups_elem att rid : rid ∈ cleanups n path att ↔ rid ∈ ids ∧ att !! rid = Some true.
Proof.
  unfold cleanups. rewrite elem_of_list_to_set, list_elem_of_filter. unfold compose. tauto.
Qed.

(** The attendance of the path's routers is exactly who has confirmed. *)
Definition tracks (pre : list route_event) (att : attendance) : Prop :=
  ∀ rid, rid ∈ ids → is_Some (att !! rid) ∧ (att !! rid = Some true ↔ confirmed attempt pre rid).

Lemma tracks_step pre st att :
  tracks pre att → tracks (pre ++ [REStatus st]) (handle st att).1.1.1.
Proof.
  intros Ht rid Hid. destruct (Ht rid Hid) as [Hs Hiff]. split.
  - destruct (handle_attendance st att) as [-> _]. case_match; [|done].
    rewrite lookup_insert_is_Some'. by right.
  - by rewrite handle_confirms, confirmed_app, Hiff.
Qed.

Lemma attend_spec evs pre att pd eff rr :
  tracks pre att →
  attend n attempt path terminator evs att pd eff = Some rr →
  ∃ used rest, evs = used ++ rest ∧
  match rr_outcome rr with
  | Ok _ => ∀ rid, rid ∈ ids → confirmed attempt (pre ++ used) rid
  | Err (cl, _) => ∀ rid, rid ∈ cl ↔ rid ∈ ids ∧ confirmed attempt (pre ++ used) rid
  end.
Proof.
  revert pre att pd eff. induction evs as [|[st|] evs IH]; intros pre att pd eff Ht Hat; [done| |].
  - pose proof (tracks_step pre st att Ht) as Ht'. cbn [attend] in Hat.
    pose proof (handle_attendance st att) as [_ Hf].
    destruct (handle st att) as [[[att' tmp] eff'] failed]. simpl in *.
    destruct failed as [[cl cause]|].
    + injection Hat as <-. simpl. exists [REStatus st], evs. split; [done|]. intros rid.
      case_match eqn:Hg; [|done]. injection Hf as -> _. rewrite cleanups_elem.
      rewrite confirmed_app, confirmed_one. bool_prop. specialize (Ht rid). naive_solver congruence.
    + destruct (allPresent att') eqn:Hall.
      * injection Hat as <-. exists [REStatus st], evs. split; [done|]. simpl. intros rid Hid.
        unfold allPresent in Hall. apply bool_decide_eq_true in Hall.
        destruct (Ht' rid Hid) as [[v Hv] Hiff]. apply Hiff. by rewrite Hv, (Hall _ _ Hv).
      * destruct (IH _ _ _ _ Ht' Hat) as (used & rest & -> & H).
        exists (REStatus st :: used), rest. split; [done|].
        by rewrite <- app_assoc in H.
  - injection Hat as <-. exists [], (RETimeout :: evs). split; [done|]. simpl.
    intros rid. rewrite app_nil_r, cleanups_elem. specialize (Ht rid). naive_solver.
Qed.

Lemma expected_lookup att rid :
  expected n path att !! rid = if decide (rid ∈ ids) then Some false else att !! rid.
Proof.
  unfold expected. revert att. induction (p_Nodes path) as [|r rs IH]; intros att; simpl; [done|].
  rewrite IH. case_decide as H1; case_decide as H2; try set_solver.
  - assert (rid = r_Id (router n r)) as -> by set_solver. by rewrite lookup_insert_eq.
  - rewrite lookup_insert_ne; [done|set_solver].
Qed.

(** An entry that no event confirms stays as it is and keeps the loop waiting. *)
Lemma attend_blocked evs att pd eff rr x :
  att !! x = Some false → ¬ confirmed attempt evs x →
  attend n attempt path terminator evs att pd eff = Some rr → ∃ f, rr_outcome rr = Err f.
Proof.
  revert att pd eff. induction evs as [|[st|] evs IH]; intros att pd eff Hx Hc Hat; [done| |].
  - change (REStatus st :: evs) with ([REStatus st] ++ evs) in Hc. rewrite confirmed_app in Hc.
    pose proof (handle_keeps st att x false Hx ltac:(tauto)) as Hx'. cbn [attend] in Hat.
    destruct (handle st att) as [[[att' tmp] eff'] failed]. simpl in *.
    destruct failed as [f|]; [injection Hat as <-; by exists f|].
    destruct (allPresent att') eqn:Hall; [|eapply IH; [exact Hx'|tauto|exact Hat]].
    unfold allPresent in Hall. apply bool_decide_eq_true in Hall. by specialize (Hall _ _ Hx').
  - injection Hat as <-. by eexists.
Qed.
End SenderProofs.


(** The attendance of an earlier attempt blocks a retry over another path:
    the sender keeps one attendance map for all attempts of a circuit, so that
    a router that was asked in an earlier attempt, did not confirm it, and is
    not on the new path keeps every later attempt from succeeding, even if all
    routers of the new path confirm. *)
Theorem stale_attendance_blocks_retry n attempt path terminator evs att x rr :
  att !! x = Some false → (∀ r, r ∈ p_Nodes path → r_Id (router n r) ≠ x) →
  ¬ confirmed attempt evs x →
  route n attempt path terminator evs att = Some rr → ∃ f, rr_outcome rr = Err f.
Proof.
  intros Hx Hne Hc Hr. eapply attend_blocked; [|exact Hc|exact Hr].
  rewrite expected_lookup. rewrite decide_False; [done|].
  rewrite list_elem_of_fmap. intros (r & -> & Hin). by apply (Hne r).
Qed.

(** Routers report a misconfigured terminator with error code 2, which the
    sender does not know: the failure is reported as generic and the terminator
    is neither deleted nor given the failed precedence, whereas for the code 1
    the same sender does one or the other. *)
Theorem misconfigured_code_unhandled n attempt path terminator status att :
  rs_Success status = false → rs_Attempt status = attempt → rs_ErrorCode status = Some 2 →
  ∃ eff, handleRouteSend n attempt path terminator status att =
    (att, None, eff, Some (cleanups n path att, CircuitFailureRouterErrGeneric)) ∧
  ∀ id, (DeleteTerminator id ∉ eff) ∧ (FailTerminator id ∉ eff).
Proof.
  intros Hs Ha Hc. unfold handleRouteSend. rewrite Hs, Ha, Hc, Z.eqb_refl. simpl.
  eexists. split; [done|]. intros id. case_bool_decide; set_solver.
Qed.

(** A retry that fails before routing leaves routes behind: when a later
    attempt finds no terminator, service or path, [CreateCircuit] returns at
    once and sends no unroute, whatever routers confirmed in earlier attempts
    ([allCleanups]). *)
Theorem selection_failure_leaks_routes ord sortT m src token serviceId instanceId circuitId data now
    env more k att allCleanups eff cause :
  (∃ svc, ae_service (env k) = Some svc ∧
     selectPath (ord k) sortT (ae_net (env k)) m (ae_costs (env k)) (ae_params (env k))
       (Some src) instanceId svc = Err cause) →
  createLoop ord sortT m src token serviceId instanceId circuitId data now env
    more k att allCleanups eff = Some (eff ++ [CircuitFailedEvent cause], Err cause).
Proof. intros (svc & Hs & Hsel). by destruct more; simpl; rewrite Hs, Hsel. Qed.

Section CreateProofs.
Context (ord : nat → string → nat → list RouterRef → list RouterRef).
Context (sortT : list RoutingTerminator → list RoutingTerminator).
Context (m : Z) (src : RouterRef) (token serviceId instanceId circuitId : string).
Context (data : PeerData) (now : Z) (env : nat → attempt_env).

Abbreviation loop := (createLoop ord sortT m src token serviceId instanceId circuitId data now env).

(** Attempt [k] finds a service, a terminator and a path. *)
Definition reaches_routing (k : nat) : Prop :=
  ∃ svc strategy rt nodes sd path,
    ae_service (env k) = Some svc ∧
    selectPath (ord k) sortT (ae_net (env k)) m (ae_costs (env k)) (ae_params (env k))
      (Some src) instanceId svc = Ok (strategy, rt, nodes, sd) ∧
    CreatePathWithNodes (ae_net (env k)) (ae_ingressId (env k)) (ae_egressId (env k)) nodes = Ok path.

Lemma cleanupUnroutes_elem n ids rid r :
  rid ∈ ids → RouterManager_GetConnected n rid = Some r →
  SendCleanupUnroute r circuitId ∈ cleanupUnroutes circuitId n ids.
Proof. intros Hin Hr. apply list_elem_of_omap. exists rid. by rewrite Hr. Qed.

Lemma loop_unroutes more k att allC eff eff' res :
  (∀ j, (k ≤ j ≤ k + more)%nat → reaches_routing j) →
  loop more k att allC eff = Some (eff', res) →
  ∃ j, (k ≤ j ≤ k + more)%nat ∧ ∀ rid r,
    rid ∈ allC → RouterManager_GetConnected (ae_net (env j)) rid = Some r →
    (∀ c x, res = Ok c → x ∈ p_Nodes (c_Path c) → r_Id (router (ae_net (env j)) x) ≠ rid) →
    SendCleanupUnroute r circuitId ∈ eff'.
Proof.
  revert k att allC eff. induction more as [|more IH]; intros k att allC eff Hreach Hl;
    destruct (Hreach k ltac:(lia)) as (svc & strategy & rt & nodes & sd & path & H1 & H2 & H3);
    simpl in Hl; rewrite H1, H2, H3 in Hl;
    destruct (route _ _ _ _ _ _) as [rr|]; try done;
    destruct (rr_outcome rr) as [pd|[cl cause]].
  1, 3: injection Hl as <- <-; exists k; (split; [lia|]); intros rid r Hin Hr Hne;
    apply elem_of_app; right; eapply cleanupUnroutes_elem; [|exact Hr];
    apply elem_of_elements, elem_of_difference; (split; [done|]);
    rewrite elem_of_list_to_set, list_elem_of_fmap; intros (x & -> & Hx);
    by apply (Hne _ x eq_refl).
  - injection Hl as <- <-. exists k. split; [lia|]. intros rid r Hin Hr _.
    apply elem_of_app. right. eapply cleanupUnroutes_elem; [|exact Hr]. set_solver.
  - destruct (IH (S k) _ _ _ ltac:(intros j Hj; apply Hreach; lia) Hl) as (j & Hj & H).
    exists j. split; [lia|]. intros rid r Hin. apply H. set_solver.
Qed.
End CreateProofs.


(** ** Witnesses *)

#[local] Instance cheaperT_dec x y : Decision (cheaperT x y).
Proof. unfold cheaperT. apply _. Defined.
#[local] Instance cheaperT_total : Total cheaperT.
Proof. intros x y. unfold cheaperT. lia. Qed.
Definition demoSort (l : list RoutingTerminator) : list RoutingTerminator := merge_sort cheaperT l.
Definition demoTerm (id rid : string) : Terminator :=
  mkTerminator id "svc" rid "edge" "addr" "" 0 Default.
Definition demoParams : SelectParams := mkParams None 0 S754_nan.
Definition demoSvc (ts : list Terminator) : Service := mkService "svc" "svc" "smartrouting" ts.
Definition demoOk (a : Z) (rid : string) : route_event :=
  REStatus (mkStatus rid a true "" (Some ∅) None).
Definition demoErr (a : Z) (rid : string) (code : Z) : route_event :=
  REStatus (mkStatus rid a false "refused" None (Some code)).


Lemma demoSort_ok l : demoSort l ≡ₚ l ∧ StronglySorted cheaperT (demoSort l).
Proof. split; [apply merge_sort_Permutation|by apply (StronglySorted_merge_sort cheaperT)]. Qed.

Lemma selectPath_correct_witness :
  match selectPath (λ _ _ l, l) demoSort demoFabric 10 (NewCostVisitor 2 20 2) demoParams
          (Some 1%nat) "" (demoSvc [demoTerm "t" "b"; demoTerm "u" "z"]) with
  | Ok (_, rt, nodes, _) => rt_Terminator rt ∈ [demoTerm "t" "b"; demoTerm "u" "z"] ∧
                            nodes = [1%nat; 2%nat]
  | Err _ => False
  end.
Proof.
  assert (costs_ok demoFabric 10) as Hok by (by apply costs_ok_check; [vm_compute|vm_compute|lia]).
  assert (cv_ok (NewCostVisitor 2 20 2)) as Hcv by (apply cv_ok_init; by vm_compute).
  assert (Forall (λ t, 0 ≤ t_Cost t ≤ MaxUint16) [demoTerm "t" "b"; demoTerm "u" "z"]) as Hts
    by (rewrite !Forall_cons, Forall_nil; by vm_compute).
  pose proof (selectPath_correct (λ _ _ l, l) demoSort demoFabric 10 (NewCostVisitor 2 20 2)
    demoParams 1 "" (demoSvc [demoTerm "t" "b"; demoTerm "u" "z"]) demoSort_ok
    (λ _ _ _, reflexivity _) demoFabric_reachable Hok Hcv Hts) as H.
  assert (∃ rt, selectPath (λ _ _ l, l) demoSort demoFabric 10 (NewCostVisitor 2 20 2) demoParams
     (Some 1%nat) "" (demoSvc [demoTerm "t" "b"; demoTerm "u" "z"]) =
     Ok (StratSmartRouting, rt, [1%nat; 2%nat], ∅)) as [rt Hrt]
    by (eexists; vm_compute; reflexivity).
  rewrite Hrt in *. split; [apply H|done].
Defined.

Definition pathOf (nodes : list RouterRef) : Path := mkPath nodes [] "in" "out" "" "" "" "".
Definition demoRT : RoutingTerminator := mkRouting 0 (demoTerm "t" "b").


(** "b" refuses the first attempt, the second goes over "c" and is confirmed by
    both its routers, and still fails. *)
Lemma stale_attendance_blocks_retry_witness :
  ∃ rr0 rr1,
    route demoNet 0 (pathOf [1%nat; 2%nat]) demoRT [demoErr 0 "b" 4] ∅ = Some rr0 ∧
    route demoNet 1 (pathOf [1%nat; 3%nat]) (mkRouting 0 (demoTerm "u" "c"))
      [demoOk 1 "a"; demoOk 1 "c"; RETimeout] (rr_attendance rr0) = Some rr1 ∧
    ∃ f, rr_outcome rr1 = Err f.
Proof.
  destruct (route demoNet 0 (pathOf [1%nat; 2%nat]) demoRT [demoErr 0 "b" 4] ∅) as [rr0|] eqn:E0;
    [|vm_compute in E0; discriminate].
  destruct (route demoNet 1 (pathOf [1%nat; 3%nat]) (mkRouting 0 (demoTerm "u" "c"))
    [demoOk 1 "a"; demoOk 1 "c"; RETimeout] (rr_attendance rr0)) as [rr1|] eqn:E1;
    [|vm_compute in E0; injection E0 as <-; vm_compute in E1; discriminate].
  exists rr0, rr1. split; [done|]. split; [done|].
  eapply (stale_attendance_blocks_retry demoNet 1 (pathOf [1%nat; 3%nat]) _ _ _ "b");
    [| | |exact E1].
  - vm_compute in E0. injection E0 as <-. vm_compute. reflexivity.
  - intros r Hr. vm_compute in Hr. apply elem_of_cons in Hr as [->|Hr]; [vm_compute; discriminate|].
    apply list_elem_of_singleton in Hr as ->. vm_compute. discriminate.
  - intros (st & Hin & _ & _ & Hid).
    apply elem_of_cons in Hin as [Hin|Hin]; [injection Hin as ->; discriminate Hid|].
    apply elem_of_cons in Hin as [Hin|Hin]; [injection Hin as ->; discriminate Hid|].
    apply list_elem_of_singleton in Hin. discriminate Hin.
Defined.

Lemma misconfigured_code_unhandled_witness :
  ∃ eff, handleRouteSend demoNet 0 (pathOf [1%nat; 2%nat]) demoRT
    (mkStatus "b" 0 false "bad address" None (Some 2)) ∅ =
    (∅, None, eff, Some (cleanups demoNet (pathOf [1%nat; 2%nat]) ∅, CircuitFailureRouterErrGeneric)).
Proof.
  destruct (misconfigured_code_unhandled demoNet 0 (pathOf [1%nat; 2%nat]) demoRT
    (mkStatus "b" 0 false "bad address" None (Some 2)) ∅) as (eff & H & _); [done..|].
  by exists eff.
Defined.

(** The first attempt reaches "a" and is refused by "b"; before the second the
    service has lost its terminator. *)
Definition demoEnv (k : nat) : attempt_env :=
  mkEnv (Some (demoSvc (match k with O => [demoTerm "t" "b"] | S _ => [] end)))
    demoFabric (NewCostVisitor 2 20 2) demoParams "in" "out" 5
    [demoOk (Z.of_nat k) "a"; demoErr (Z.of_nat k) "b" 1].

Definition isUnroute (e : create_effect) : bool :=
  match e with SendCleanupUnroute _ _ => true | _ => false end.

Lemma selection_failure_leaks_routes_witness :
  match CreateCircuit (λ _ _ _ l, l) demoSort 10 2 1 "client" "svc" "" "c9" ∅ 0 demoEnv with
  | Some (eff, Err CircuitFailureNoTerminators) => existsb isUnroute eff = false
  | _ => False
  end ∧
  createLoop (λ _ _ _ l, l) demoSort 10 1 "client" "svc" "" "c9" ∅ 0 demoEnv 0 1 ∅ {["a"%string]} [] =
    Some ([CircuitFailedEvent CircuitFailureNoTerminators], Err CircuitFailureNoTerminators).
Proof.
  split; [vm_compute; reflexivity|].
  apply (selection_failure_leaks_routes (λ _ _ _ l, l) demoSort 10 1 "client" "svc" "" "c9" ∅ 0
    demoEnv 0 1 ∅ {["a"%string]} [] CircuitFailureNoTerminators).
  eexists. split; [reflexivity|]. vm_compute. reflexivity.
Defined.

(** "b" refuses twice, so that "a", which confirmed, is unrouted. *)
Definition demoEnv2 (k : nat) : attempt_env :=
  mkEnv (Some (demoSvc [demoTerm "t" "b"])) demoFabric (NewCostVisitor 2 20 2) demoParams
    "in" "out" 5 [demoOk (Z.of_nat k) "a"; demoErr (Z.of_nat k) "b" 4].

