(* ===== verification/Forwarder.v ===== *)
(** * The router's forwarder (router/forwarder/{tables,forwarder,scanner,faulter}.go)

    Forward tables per circuit, the destination directory, and the operations
    that install, use and remove them. The last section connects the forwarder
    with the controller: the route messages of a path, installed in the
    forwarders of its routers, carry a payload from the ingress to the egress
    and back. *)

From stdpp Require Import base gmap list strings fin_maps relations.
From Stdlib Require Import ZArith Lia.
From S2P Require Import Prelude NetModel ShortestPath Fabric Terminators NetPath.

Open Scope Z_scope.
Open Scope go_scope.

(** ** Tables *)

Record forwardTable := mkFT {
  ft_ctrlId : string;
  ft_last : Z;                          (* milliseconds *)
  ft_destinations : gmap string string;
}.

Definition newForwardTable (ctrlId : string) : forwardTable := mkFT ctrlId 0 ∅.

Definition forwardTable_setForwardAddress (src dst : string) (ft : forwardTable) : forwardTable :=
  mkFT (ft_ctrlId ft) (ft_last ft) (<[src := dst]> (ft_destinations ft)).
Definition forwardTable_getForwardAddress (ft : forwardTable) (src : string) : option string :=
  ft_destinations ft !! src.
Definition forwardTable_touch (now : Z) (ft : forwardTable) : forwardTable :=
  mkFT (ft_ctrlId ft) now (ft_destinations ft).

(** An [env.Destination]: an xgress endpoint or a link, by object identity. *)
Record destination := mkDest {
  d_ref : nat;
  d_isLink : bool;
}.
#[global] Instance destination_eq_dec : EqDecision destination.
Proof. solve_decision. Defined.

Record Forwarder := mkFw {
  fw_circuits : gmap string forwardTable;         (* circuitTable *)
  fw_destinations : gmap string destination;      (* destinationTable.destinations *)
  fw_xgress : gmap string (list string);          (* destinationTable.xgress *)
}.

Definition circuitTable_setForwardTable (now : Z) (circuitId : string) (ft : forwardTable)
    (fw : Forwarder) : Forwarder :=
  mkFw (<[circuitId := forwardTable_touch now ft]> (fw_circuits fw)) (fw_destinations fw)
    (fw_xgress fw).

(** A lookup that marks the circuit active changes the table it returns. *)
Definition circuitTable_getForwardTable (now : Z) (circuitId : string) (markActive : bool)
    (fw : Forwarder) : Forwarder * option forwardTable :=
  match fw_circuits fw !! circuitId with
  | Some ft =>
    if markActive then
      let ft := forwardTable_touch now ft in
      (mkFw (<[circuitId := ft]> (fw_circuits fw)) (fw_destinations fw) (fw_xgress fw), Some ft)
    else (fw, Some ft)
  | None => (fw, None)
  end.

Definition circuitTable_removeForwardTable (circuitId : string) (fw : Forwarder) : Forwarder :=
  mkFw (delete circuitId (fw_circuits fw)) (fw_destinations fw) (fw_xgress fw).

Definition destinationTable_addDestination (addr : string) (d : destination) (fw : Forwarder)
    : Forwarder :=
  mkFw (fw_circuits fw) (<[addr := d]> (fw_destinations fw)) (fw_xgress fw).
Definition destinationTable_removeDestination (addr : string) (fw : Forwarder) : Forwarder :=
  mkFw (fw_circuits fw) (delete addr (fw_destinations fw)) (fw_xgress fw).
Definition destinationTable_removeDestinationIfMatches (addr : string) (d : destination)
    (fw : Forwarder) : Forwarder :=
  mkFw (fw_circuits fw)
    (if bool_decide (fw_destinations fw !! addr = Some d) then delete addr (fw_destinations fw)
     else fw_destinations fw) (fw_xgress fw).
Definition destinationTable_linkDestinationToCircuit (circuitId address : string) (fw : Forwarder)
    : Forwarder :=
  mkFw (fw_circuits fw) (fw_destinations fw)
    (<[circuitId := default [] (fw_xgress fw !! circuitId) ++ [address]]> (fw_xgress fw)).
Definition destinationTable_unlinkCircuit (circuitId : string) (fw : Forwarder) : Forwarder :=
  mkFw (fw_circuits fw) (fw_destinations fw) (delete circuitId (fw_xgress fw)).

(** ** Forwarder operations *)

Definition RegisterDestination (circuitId address : string) (d : destination) (fw : Forwarder)
    : Forwarder :=
  destinationTable_linkDestinationToCircuit circuitId address
    (destinationTable_addDestination address d fw).

(** The destinations that are told they are unrouted are returned. *)
Definition UnregisterDestinations (circuitId : string) (fw : Forwarder)
    : Forwarder * list destination :=
  match fw_xgress fw !! circuitId with
  | Some addresses =>
    let '(fw, unrouted) := foldl (λ '(fw, unrouted) address,
      match fw_destinations fw !! address with
      | Some d => (destinationTable_removeDestination address fw, unrouted ++ [d])
      | None => (fw, unrouted)
      end) (fw, []) addresses in
    (destinationTable_unlinkCircuit circuitId fw, unrouted)
  | None => (fw, [])
  end.

Definition HasDestination (fw : Forwarder) (address : string) : bool :=
  match fw_destinations fw !! address with Some _ => true | None => false end.

Definition RegisterLink (linkId : string) (d : destination) (fw : Forwarder) : Forwarder :=
  destinationTable_addDestination linkId d fw.
Definition UnregisterLink (linkId : string) (d : destination) (fw : Forwarder) : Forwarder :=
  destinationTable_removeDestinationIfMatches linkId d fw.

Inductive route_error :=
| InvalidLinkDestination (addr : string)      (* also reported to the faulter *)
| InvalidEgressDestination (addr : string).

(** The loop over the forwards of a route message: it stops at the first
    destination that has to exist and does not. *)
Fixpoint applyForwards (has : string → bool) (forwards : list Route_Forward) (ft : forwardTable)
    : forwardTable * result unit route_error :=
  match forwards with
  | [] => (ft, Ok ())
  | f :: forwards =>
    let set := applyForwards has forwards
                 (forwardTable_setForwardAddress (rf_SrcAddress f) (rf_DstAddress f) ft) in
    if has (rf_DstAddress f) then set
    else match rf_DstType f with
         | DestLink => (ft, Err (InvalidLinkDestination (rf_DstAddress f)))
         | DestEnd => (ft, Err (InvalidEgressDestination (rf_DstAddress f)))
         | DestStart => set
         end
  end.

(** [Route]: an existing table is shared with the circuit table, so that what
    the loop has set stays even when it fails; a new one is only published at
    the end. *)
Definition Route_install (now : Z) (ctrlId : string) (route : Route) (fw : Forwarder)
    : Forwarder * result unit route_error :=
  let '(fw, existing) := circuitTable_getForwardTable now (rt_CircuitId route) true fw in
  let circuitFt := default (newForwardTable ctrlId) existing in
  let '(ft, res) := applyForwards (HasDestination fw) (rt_Forwards route) circuitFt in
  match res with
  | Ok _ => (circuitTable_setForwardTable now (rt_CircuitId route) ft fw, Ok ())
  | Err e =>
    (match existing with
     | Some _ => mkFw (<[rt_CircuitId route := ft]> (fw_circuits fw)) (fw_destinations fw)
                   (fw_xgress fw)
     | None => fw
     end, Err e)
  end.

Definition EndCircuit (circuitId : string) (fw : Forwarder) : Forwarder * list destination :=
  UnregisterDestinations circuitId fw.

(** [Unroute(now = true)]; otherwise a goroutine polls with [unrouteTick]. *)
Definition Unroute (circuitId : string) (fw : Forwarder) : Forwarder * list destination :=
  EndCircuit circuitId (circuitTable_removeForwardTable circuitId fw).

Inductive forward_error :=
| NoForwardTable (circuitId : string)
| NoDestinationAddress (circuitId src : string)
| NoDestination (circuitId src dst : string)
| SendFailed.

Section Forwarding.
Context (now : Z).
(** Whether handing the message to a destination succeeds. *)
Context (send : destination → bool).

(** The lookup the three forwarding operations share. *)
Definition lookupForward (circuitId srcAddr : string) (markActive : bool) (fw : Forwarder)
    : Forwarder * result (string * destination) forward_error :=
  let '(fw, ft) := circuitTable_getForwardTable now circuitId markActive fw in
  (fw, match ft with
       | Some ft =>
         match forwardTable_getForwardAddress ft srcAddr with
         | Some dstAddr =>
           match fw_destinations fw !! dstAddr with
           | Some d => Ok (dstAddr, d)
           | None => Err (NoDestination circuitId srcAddr dstAddr)
           end
         | None => Err (NoDestinationAddress circuitId srcAddr)
         end
       | None => Err (NoForwardTable circuitId)
       end).

Inductive PayloadType := PayloadTypeXg | PayloadTypeRtx | PayloadTypeFwd.

(** [timeout] in nanoseconds; the result is the destination address, the
    destination and how the payload was labelled. *)
Definition forwardPayload (srcAddr circuitId : string) (markActive : bool) (timeout : Z)
    (fw : Forwarder) : Forwarder * result (string * destination * PayloadType) forward_error :=
  let '(fw, res) := lookupForward circuitId srcAddr markActive fw in
  (fw, match res with
       | Ok (dstAddr, d) =>
         let payloadType := if negb markActive then PayloadTypeRtx
                            else if timeout =? 0 then PayloadTypeFwd else PayloadTypeXg in
         if send d then Ok (dstAddr, d, payloadType) else Err SendFailed
       | Err e => Err e
       end).

Definition ForwardPayload (srcAddr circuitId : string) (timeout : Z) (fw : Forwarder) :=
  forwardPayload srcAddr circuitId true timeout fw.
Definition RetransmitPayload (srcAddr circuitId : string) (fw : Forwarder) :=
  forwardPayload srcAddr circuitId false 0 fw.

Definition ForwardAcknowledgement (srcAddr circuitId : string) (fw : Forwarder)
    : Forwarder * result (string * destination) forward_error :=
  let '(fw, res) := lookupForward circuitId srcAddr true fw in
  (fw, match res with
       | Ok (dstAddr, d) => if send d then Ok (dstAddr, d) else Err SendFailed
       | Err e => Err e
       end).
End Forwarding.

(** [ForwardControl]. Control messages belong to the SDK's xgress package, which
    the section's variables stand for. A trace request whose hop count reaches
    zero is answered from here: the response is forwarded as if it came from the
    destination. A trace request that cannot be forwarded is answered with the
    error to its source. The result lists the messages handed to destinations. *)
Section Control.
Context {Control : Type}.
Context (circuitOf : Control → string).
Context (IsTypeTraceRoute : Control → bool).
Context (DecrementAndGetHop : Control → Control * Z).
Context (CreateTraceResponse : Control → Control).
Context (putControlError : forward_error → Control → Control).
Context (now : Z).
Context (sendControl : destination → Control → bool).

Definition ForwardControl_error (srcAddr : string) (control : Control) (err : forward_error)
    (fw : Forwarder) : list (destination * Control) :=
  if IsTypeTraceRoute control then
    match fw_destinations fw !! srcAddr with
    | Some dst => [(dst, putControlError err (CreateTraceResponse control))]
    | None => []
    end
  else [].

(** [None] stands for running out of fuel, [Some] for a completed call. *)
Fixpoint ForwardControl (fuel : nat) (srcAddr : string) (control : Control) (fw : Forwarder)
    : option (Forwarder * list (destination * Control) * result unit forward_error) :=
  match fuel with
  | O => None
  | S fuel =>
    let '(fw, res) := lookupForward now (circuitOf control) srcAddr true fw in
    match res with
    | Ok (dstAddr, dst) =>
      let '(control, hops) := if IsTypeTraceRoute control then DecrementAndGetHop control
                              else (control, 1) in
      if hops =? 0 then ForwardControl fuel dstAddr (CreateTraceResponse control) fw
      else if sendControl dst control then Some (fw, [(dst, control)], Ok ())
      else Some (fw, ForwardControl_error srcAddr control SendFailed fw, Err SendFailed)
    | Err e => Some (fw, ForwardControl_error srcAddr control e fw, Err e)
    end
  end.

(** A trace response is no trace request, so that two calls are enough. *)
Lemma ForwardControl_terminates srcAddr control fw :
  (∀ c, IsTypeTraceRoute (CreateTraceResponse c) = false) →
  is_Some (ForwardControl 2 srcAddr control fw).
Proof.
  intros Hresp. cbn [ForwardControl].
  destruct (lookupForward now (circuitOf control) srcAddr true fw) as [fw1 [[dstAddr dst]|e]];
    [|by eexists].
  destruct (if IsTypeTraceRoute control then DecrementAndGetHop control else (control, 1))
    as [c1 hops]. destruct (hops =? 0).
  - destruct (lookupForward now _ dstAddr true fw1) as [fw2 [[dst2 d2]|e2]]; [|by eexists].
    rewrite Hresp. simpl. destruct (sendControl d2 (CreateTraceResponse c1)); by eexists.
  - destruct (sendControl dst c1); by eexists.
Qed.
End Control.

(** [ReportForwardingFault]: the controller that owns the circuit, if the table
    knows it. *)
Definition ReportForwardingFault (circuitId ctrlId : string) (fw : Forwarder) : string * string :=
  (circuitId,
   if bool_decide (ctrlId = ""%string) then
     match fw_circuits fw !! circuitId with Some ft => ft_ctrlId ft | None => ctrlId end
   else ctrlId).

Definition getXgressForCircuit (fw : Forwarder) (circuitId : string) : option destination :=
  match fw_xgress fw !! circuitId with
  | Some addresses => head (omap (λ address, fw_destinations fw !! address) addresses)
  | None => None
  end.

(** One tick of [unrouteTimeout]; [true] when the goroutine ends. Milliseconds
    are converted to nanoseconds before the comparison. *)
Definition unrouteTick (nowMs : Z) (lastRx : destination → Z) (interval : Z) (circuitId : string)
    (fw : Forwarder) : Forwarder * list destination * bool :=
  match getXgressForCircuit fw circuitId with
  | Some dest =>
    if (nowMs - lastRx dest) * 1000000 >=? interval then (Unroute circuitId fw, true)
    else (fw, [], false)
  | None => (Unroute circuitId fw, true)
  end.

(** ** Scanner and faulter *)

(** The first loop of [scan]: the idle circuits per controller, with their idle
    times in nanoseconds. *)
Definition idleCircuits (nowMs timeout : Z) (circuits : gmap string forwardTable)
    : gmap string (gmap string Z) :=
  map_fold (λ circuitId ft idle,
    let idleTime := (nowMs - ft_last ft) * 1000000 in
    if idleTime >? timeout
    then <[ft_ctrlId ft := <[circuitId := idleTime]> (default ∅ (idle !! ft_ctrlId ft))]> idle
    else idle) ∅ circuits.

(** [scan]: the confirmation requests, one per controller that has idle
    circuits and a control channel. *)
Definition scan (nowMs timeout : Z) (hasChannel : string → bool)
    (circuits : gmap string forwardTable) : gmap string (gmap string Z) :=
  filter (λ '(ctrlId, idleCircuitMap), idleCircuitMap ≠ ∅ ∧ hasChannel ctrlId = true)
    (idleCircuits nowMs timeout circuits).

Definition Faulter_Report (interval : Z) (circuitId ctrlId : string) (pending : gmap string string)
    : gmap string string :=
  if interval >? 0 then <[circuitId := ctrlId]> pending else pending.

Definition Faulter_workload (pending : gmap string string) : gmap string (list string) :=
  map_fold (λ circuitId ctrlId w,
    <[ctrlId := default [] (w !! ctrlId) ++ [circuitId]]> w) ∅ pending.

Inductive fault_msg :=
| ForwardFault (ctrlId : string) (circuitIds : list string)
| UnknownOwnerForwardFault (circuitIds : list string).    (* to every controller *)

(** One tick of the faulter's loop. [hasChannel] tells whether a controller has
    a control channel; the workload is dropped from the pending set first. *)
Definition Faulter_tick (hasChannel : string → bool) (pending : gmap string string)
    : gmap string string * list fault_msg :=
  map_fold (λ ctrlId workload '(pending, msgs),
    let pending := foldl (λ p circuitId, delete circuitId p) pending workload in
    if bool_decide (ctrlId = ""%string) then (pending, UnknownOwnerForwardFault workload :: msgs)
    else if hasChannel ctrlId then (pending, ForwardFault ctrlId workload :: msgs)
    else (pending, msgs)) (pending, []) (Faulter_workload pending).

(** ** Installing routes *)

Definition putForward (m : gmap string string) (f : Route_Forward) : gmap string string :=
  <[rf_SrcAddress f := rf_DstAddress f]> m.

(** A forward whose destination has to exist already. *)
Definition requiresDestination (f : Route_Forward) : Prop := rf_DstType f ≠ DestStart.

Lemma applyForwards_spec has fs ft :
  let '(ft', res) := applyForwards has fs ft in
  ft_ctrlId ft' = ft_ctrlId ft ∧
  match res with
  | Ok _ => ft_destinations ft' = foldl putForward (ft_destinations ft) fs ∧
      Forall (λ f, requiresDestination f → has (rf_DstAddress f) = true) fs
  | Err _ => ∃ applied failed rest, fs = applied ++ failed :: rest ∧
      ft_destinations ft' = foldl putForward (ft_destinations ft) applied ∧
      requiresDestination failed ∧ has (rf_DstAddress failed) = false
  end.
Proof.
  revert ft. induction fs as [|f fs IH]; intros ft; simpl; [by repeat constructor|].
  specialize (IH (forwardTable_setForwardAddress (rf_SrcAddress f) (rf_DstAddress f) ft)).
  assert (∀ g, (has (rf_DstAddress f) = true ∨ rf_DstType f = DestStart) → g = f →
    requiresDestination g → has (rf_DstAddress g) = true) as Hf
    by (intros g [?|?] ->; done).
  destruct (applyForwards has fs _) as [ft' res].
  assert ((has (rf_DstAddress f) = true ∨ rf_DstType f = DestStart) →
    ft_ctrlId ft' = ft_ctrlId ft ∧
    match res with
    | Ok _ => ft_destinations ft' = foldl putForward (putForward (ft_destinations ft) f) fs ∧
        Forall (λ f, requiresDestination f → has (rf_DstAddress f) = true) (f :: fs)
    | Err _ => ∃ applied failed rest, f :: fs = applied ++ failed :: rest ∧
        ft_destinations ft' = foldl putForward (ft_destinations ft) applied ∧
        requiresDestination failed ∧ has (rf_DstAddress failed) = false
    end) as Hset.
  { intros Hcond. destruct IH as [IH1 IH2]. split; [done|]. destruct res as [u|e].
    - destruct IH2 as [IH2 IH3]. split; [done|]. constructor; [by apply Hf|done].
    - destruct IH2 as (applied & failed & rest & -> & H2 & H3). by exists (f :: applied), failed, rest. }
  assert (rf_DstType f ≠ DestStart → has (rf_DstAddress f) = false →
    ∃ applied failed rest, f :: fs = applied ++ failed :: rest ∧
      ft_destinations ft = foldl putForward (ft_destinations ft) applied ∧
      requiresDestination failed ∧ has (rf_DstAddress failed) = false) as Hfail
    by (intros ? ?; by exists [], f, fs).
  destruct (has (rf_DstAddress f)) eqn:Eh; [by apply Hset; left|].
  destruct (rf_DstType f) eqn:Et; [by apply Hset; right|by auto|by auto].
Qed.

Lemma foldl_put_two a b ta tb fs m :
  fs ≡ₚ [mkForward a b ta; mkForward b a tb] → a ≠ b →
  foldl putForward m fs !! a = Some b ∧ foldl putForward m fs !! b = Some a.
Proof.
  intros Hp Hne. symmetry in Hp. apply Permutation_length_2_inv in Hp as [->| ->]; simpl;
    unfold putForward; simpl; rewrite ?lookup_insert_eq; split; try done;
    rewrite lookup_insert_ne by done; apply lookup_insert_eq.
Qed.

(** Where a forwarder sends what arrives on an address. *)
Definition nextHop (fw : Forwarder) (circuitId addr : string) : option string :=
  fw_circuits fw !! circuitId ≫= λ ft, forwardTable_getForwardAddress ft addr.

Lemma Route_install_circuits now ctrlId route fw fw' :
  Route_install now ctrlId route fw = (fw', Ok ()) →
  ∃ ft', fw_circuits fw' = <[rt_CircuitId route := ft']> (fw_circuits fw) ∧
    ft_destinations ft' = foldl putForward
      (from_option ft_destinations ∅ (fw_circuits fw !! rt_CircuitId route)) (rt_Forwards route) ∧
    fw_destinations fw' = fw_destinations fw ∧ fw_xgress fw' = fw_xgress fw ∧
    Forall (λ f, requiresDestination f → HasDestination fw (rf_DstAddress f) = true)
      (rt_Forwards route).
Proof.
  unfold Route_install, circuitTable_getForwardTable.
  destruct (fw_circuits fw !! rt_CircuitId route) as [ft|] eqn:E; simpl.
  - pose proof (applyForwards_spec (HasDestination (mkFw (<[rt_CircuitId route :=
      forwardTable_touch now ft]> (fw_circuits fw)) (fw_destinations fw) (fw_xgress fw)))
      (rt_Forwards route) (forwardTable_touch now ft)) as H.
    destruct (applyForwards _ _ _) as [ft' [u|e]]; [|done]. intros [= <-].
    destruct H as (_ & H1 & H2). exists (forwardTable_touch now ft'). simpl.
    by rewrite insert_insert_eq.
  - pose proof (applyForwards_spec (HasDestination fw) (rt_Forwards route)
      (newForwardTable ctrlId)) as H.
    destruct (applyForwards _ _ _) as [ft' [u|e]]; [|done]. intros [= <-].
    destruct H as (_ & H1 & H2). by exists (forwardTable_touch now ft').
Qed.

(** ** End to end *)

(** A message crosses the routers of a path: each forwarder sends it on to the
    address it looks up, which is where it arrives at the next. *)
Fixpoint traverse (fws : list Forwarder) (circuitId addr : string) : option (list string) :=
  match fws with
  | [] => Some []
  | fw :: fws =>
    match nextHop fw circuitId addr with
    | Some addr' => (λ l, addr' :: l) <$> traverse fws circuitId addr'
    | None => None
    end
  end.

Lemma traverse_chain fws circuitId a A :
  length A = length fws →
  (∀ i fw, fws !! i = Some fw →
     ∃ x y, (a :: A) !! i = Some x ∧ A !! i = Some y ∧ nextHop fw circuitId x = Some y) →
  traverse fws circuitId a = Some A.
Proof.
  revert a A. induction fws as [|fw fws IH]; intros a A Hlen Hch; [by destruct A|].
  destruct A as [|b A]; [done|]. simpl in Hlen.
  destruct (Hch 0%nat fw eq_refl) as (x & y & Hx & Hy & Hn).
  injection Hx as <-. injection Hy as <-. simpl. rewrite Hn.
  rewrite (IH b A); [done|lia|]. intros i fw' Hi. apply (Hch (S i) fw' Hi).
Qed.

Section EndToEnd.
Context (n : Net) (path : Path) (attempt : Z) (circuitId binding address ctrlId : string).
Context (remaining now : Z) (fws : list Forwarder).
Context (Hlinked : linked n (p_Nodes path) (p_Links path)) (Hnodup : NoDup (addresses n path)).

Abbreviation rms := (CreateRouteMessages n path attempt circuitId binding address remaining).
Definition install (fw : Forwarder) (m : Route) : Forwarder := (Route_install now ctrlId m fw).1.

Context (Hok : Forall2 (λ fw m, (Route_install now ctrlId m fw).2 = Ok ()) fws rms).

Lemma installed_hops i fw :
  zip_with install fws rms !! i = Some fw →
  ∃ a b, addresses n path !! i = Some a ∧ addresses n path !! S i = Some b ∧
    nextHop fw circuitId a = Some b ∧ nextHop fw circuitId b = Some a.
Proof.
  intros (fw0 & m & -> & Hf & Hm)%lookup_zip_with_Some.
  destruct (route_messages_spec n path attempt circuitId binding address remaining Hlinked)
    as [_ Hspec].
  destruct (Hspec i m Hm) as ((a & b & Ha & Hb & ta & tb & Hp) & Hid & _).
  assert (a ≠ b) as Hne
    by (intros ->; pose proof (NoDup_lookup _ _ _ _ Hnodup Ha Hb); lia).
  exists a, b. split_and!; try done; unfold install.
  all: pose proof (Forall2_lookup_lr _ _ _ _ _ _ Hok Hf Hm) as Hres; simpl in Hres;
    destruct (Route_install now ctrlId m fw0) as [fw' res] eqn:E; simpl in *; subst res;
    destruct (Route_install_circuits _ _ _ _ _ E) as (ft' & Hc & Hd & _);
    unfold nextHop; rewrite Hc, Hid, lookup_insert_eq; simpl;
    unfold forwardTable_getForwardAddress; rewrite Hd;
    by apply (foldl_put_two a b ta tb).
Qed.

Lemma addresses_length : length (addresses n path) = S (length (p_Nodes path)).
Proof.
  unfold addresses. pose proof (linked_length _ _ _ Hlinked).
  simpl. rewrite length_app, length_fmap. simpl. lia.
Qed.

Lemma installed_length : length (zip_with install fws rms) = length (p_Nodes path).
Proof.
  rewrite length_zip_with_l_eq; [|by eapply Forall2_length].
  rewrite (Forall2_length _ _ _ Hok).
  by rewrite (CreateRouteMessages_length n path attempt circuitId binding address remaining Hlinked).
Qed.

Lemma traverse_forward :
  traverse (zip_with install fws rms) circuitId (p_IngressId path) = Some (tail (addresses n path)).
Proof.
  apply traverse_chain.
  - rewrite installed_length. pose proof addresses_length. simpl in *. lia.
  - intros i fw Hi. destruct (installed_hops i fw Hi) as (a & b & Ha & Hb & Hn & _). by exists a, b.
Qed.

Lemma traverse_backward :
  traverse (reverse (zip_with install fws rms)) circuitId (p_EgressId path) =
    Some (tail (reverse (addresses n path))).
Proof.
  assert (reverse (addresses n path) = p_EgressId path :: tail (reverse (addresses n path))) as Hrev.
  { unfold addresses. rewrite app_comm_cons, reverse_app. done. }
  apply traverse_chain.
  - rewrite length_reverse, installed_length. pose proof addresses_length as Hl.
    rewrite <- (length_reverse (addresses n path)), Hrev in Hl. simpl in Hl. lia.
  - intros i fw Hi. rewrite <- Hrev.
    pose proof (lookup_lt_Some _ _ _ Hi) as Hlt. rewrite length_reverse, installed_length in Hlt.
    rewrite reverse_lookup in Hi by (rewrite installed_length; done).
    rewrite installed_length in Hi.
    destruct (installed_hops _ fw Hi) as (a & b & Ha & Hb & _ & Hn). exists b, a.
    split_and!; [|rewrite lookup_tail|done];
      rewrite reverse_lookup by (rewrite addresses_length; lia); rewrite addresses_length.
    + by replace (S (length (p_Nodes path)) - S i)%nat with (S (length (p_Nodes path) - S i)) by lia.
    + by replace (S (length (p_Nodes path)) - S (S i))%nat with (length (p_Nodes path) - S i)%nat by lia.
Qed.
End EndToEnd.

(** C4. Routing works end to end: when every router of a linked path has
    accepted its route message, a message entering at the ingress address is
    carried from router to router over the path's links in order and arrives at
    the egress address, and one entering at the egress address takes the same
    links backwards to the ingress. The circuit's addresses have to be
    distinct. *)
Theorem routes_deliver_end_to_end n path attempt circuitId binding address ctrlId remaining now fws :
  linked n (p_Nodes path) (p_Links path) → NoDup (addresses n path) →
  let rms := CreateRouteMessages n path attempt circuitId binding address remaining in
  Forall2 (λ fw m, (Route_install now ctrlId m fw).2 = Ok ()) fws rms →
  let routed := zip_with (install ctrlId now) fws rms in
  traverse routed circuitId (p_IngressId path) =
    Some (((λ l, l_Id (link n l)) <$> p_Links path) ++ [p_EgressId path]) ∧
  traverse (reverse routed) circuitId (p_EgressId path) =
    Some (reverse ((λ l, l_Id (link n l)) <$> p_Links path) ++ [p_IngressId path]).
Proof.
  intros Hl Hn rms Hok routed. split.
  - apply (traverse_forward n path attempt circuitId binding address ctrlId remaining now fws Hl Hn Hok).
  - unfold routed, rms. rewrite (traverse_backward n path attempt circuitId binding address ctrlId
      remaining now fws Hl Hn Hok).
    unfold addresses. rewrite reverse_cons, reverse_app. done.
Qed.

(** ** The single operations *)

(** [Route] on every branch: destinations and other circuits are never
    touched. On success every link and egress the message names exists and the
    circuit's table is the old one overwritten by the message's forwards. On
    failure the first missing destination stopped it: a new circuit then gets
    no table at all, while an existing circuit's table keeps the forwards
    before the missing one. *)
Theorem route_install_branches now ctrlId route fw :
  let c := rt_CircuitId route in
  let '(fw', res) := Route_install now ctrlId route fw in
  fw_destinations fw' = fw_destinations fw ∧ fw_xgress fw' = fw_xgress fw ∧
  (∀ c', c' ≠ c → fw_circuits fw' !! c' = fw_circuits fw !! c') ∧
  let old := from_option ft_destinations ∅ (fw_circuits fw !! c) in
  match res with
  | Ok _ =>
    Forall (λ f, requiresDestination f → HasDestination fw (rf_DstAddress f) = true)
      (rt_Forwards route) ∧
    (ft_destinations <$> fw_circuits fw' !! c) = Some (foldl putForward old (rt_Forwards route))
  | Err _ => ∃ applied failed rest,
    rt_Forwards route = applied ++ failed :: rest ∧
    requiresDestination failed ∧ HasDestination fw (rf_DstAddress failed) = false ∧
    (ft_destinations <$> fw_circuits fw' !! c) =
      match fw_circuits fw !! c with
      | Some _ => Some (foldl putForward old applied)
      | None => None
      end
  end.
Proof.
  cbv zeta. unfold Route_install, circuitTable_getForwardTable.
  destruct (fw_circuits fw !! rt_CircuitId route) as [ft|] eqn:E; simpl.
  - pose proof (applyForwards_spec (HasDestination (mkFw (<[rt_CircuitId route :=
      forwardTable_touch now ft]> (fw_circuits fw)) (fw_destinations fw) (fw_xgress fw)))
      (rt_Forwards route) (forwardTable_touch now ft)) as H.
    destruct (applyForwards _ _ _) as [ft' [u|e]]; destruct H as (_ & H);
      (split; [done|]; split; [done|]; split; [intros c' Hc; simpl; by rewrite !lookup_insert_ne|]); simpl;
      rewrite lookup_insert_eq; simpl.
    + destruct H as [H1 H2]. split; [done|]. by rewrite H1.
    + destruct H as (applied & failed & rest & H1 & H2 & H3 & H4).
      exists applied, failed, rest. split_and!; try done. by rewrite H2.
  - pose proof (applyForwards_spec (HasDestination fw) (rt_Forwards route)
      (newForwardTable ctrlId)) as H.
    destruct (applyForwards _ _ _) as [ft' [u|e]]; destruct H as (_ & H);
      (split; [done|]; split; [done|]; split;
        [intros c' Hc; simpl; rewrite ?lookup_insert_ne by done; done|]); simpl.
    + destruct H as [H1 H2]. rewrite lookup_insert_eq. simpl. by rewrite H1.
    + destruct H as (applied & failed & rest & H1 & H2 & H3 & H4).
      exists applied, failed, rest. by rewrite E.
Qed.

(** The loop of [UnregisterDestinations]. *)
Lemma unregister_fold addrs fw acc :
  let '(fw', unrouted) := foldl (λ '(fw, unrouted) address,
      match fw_destinations fw !! address with
      | Some d => (destinationTable_removeDestination address fw, unrouted ++ [d])
      | None => (fw, unrouted)
      end) (fw, acc) addrs in
  fw_circuits fw' = fw_circuits fw ∧ fw_xgress fw' = fw_xgress fw ∧
  (∀ a, fw_destinations fw' !! a =
        if decide (a ∈ addrs) then None else fw_destinations fw !! a) ∧
  (∀ d, d ∈ unrouted ↔ d ∈ acc ∨ ∃ a, a ∈ addrs ∧ fw_destinations fw !! a = Some d).
Proof.
  revert fw acc. induction addrs as [|a addrs IH]; intros fw acc.
  { simpl. split_and!; try done. set_solver. }
  cbn [foldl]. destruct (fw_destinations fw !! a) as [d|] eqn:E.
  - specialize (IH (destinationTable_removeDestination a fw) (acc ++ [d])).
    destruct (foldl _ _ addrs) as [fw' un]. destruct IH as (H1 & H2 & H3 & H4).
    split_and!; [done|done| |].
    + intros x. rewrite H3. simpl. destruct (decide (x = a)) as [->|Hne].
      * rewrite lookup_delete_eq. repeat case_decide; set_solver.
      * rewrite lookup_delete_ne by done. repeat case_decide; set_solver.
    + intros d'. rewrite H4, elem_of_app, list_elem_of_singleton. simpl.
      setoid_rewrite elem_of_cons. setoid_rewrite lookup_delete_Some. split.
      * intros [[?| ->]|(x & Hx & _ & Hd)]; eauto.
      * intros [?|(x & [->|Hx] & Hd)]; [auto|left; right; congruence|].
        destruct (decide (a = x)) as [->|Hne]; [left; right; congruence|eauto 6].
  - specialize (IH fw acc). destruct (foldl _ _ addrs) as [fw' un].
    destruct IH as (H1 & H2 & H3 & H4). split_and!; [done|done| |].
    + intros x. rewrite H3. destruct (decide (x = a)) as [->|Hne];
        repeat case_decide; try done; set_solver.
    + intros d'. rewrite H4. setoid_rewrite elem_of_cons. split; [naive_solver|].
      intros [?|(x & [->|Hx] & Hd)]; [auto|congruence|eauto].
Qed.

(** [Unroute] removes a circuit completely and nothing else: afterwards the
    circuit has no forward table and no linked addresses, none of its addresses
    has a destination, exactly the destinations it had are told, and the tables,
    addresses and destinations of everything else are as before. *)
Theorem unroute_complete circuitId fw :
  let addrs := default [] (fw_xgress fw !! circuitId) in
  let '(fw', unrouted) := Unroute circuitId fw in
  fw_circuits fw' = delete circuitId (fw_circuits fw) ∧
  fw_xgress fw' = delete circuitId (fw_xgress fw) ∧
  (∀ a, fw_destinations fw' !! a =
        if decide (a ∈ addrs) then None else fw_destinations fw !! a) ∧
  (∀ d, d ∈ unrouted ↔ ∃ a, a ∈ addrs ∧ fw_destinations fw !! a = Some d).
Proof.
  intros addrs. unfold Unroute, EndCircuit, UnregisterDestinations. unfold addrs. clear addrs.
  cbn [fw_xgress circuitTable_removeForwardTable].
  destruct (fw_xgress fw !! circuitId) as [addrs|] eqn:E; simpl default.
  - pose proof (unregister_fold addrs (circuitTable_removeForwardTable circuitId fw) []) as H.
    destruct (foldl _ _ addrs) as [fw' un]. destruct H as (H1 & H2 & H3 & H4).
    split_and!; [done|simpl; by rewrite H2|done|]. intros d. rewrite H4. set_solver.
  - split_and!; [done|by rewrite delete_id|done|set_solver].
Qed.

Lemma idleCircuits_spec nowMs timeout circuits ctrl c t :
  (idleCircuits nowMs timeout circuits !! ctrl ≫= λ m, m !! c) = Some t ↔
  ∃ ft, circuits !! c = Some ft ∧ ft_ctrlId ft = ctrl ∧
    t = (nowMs - ft_last ft) * 1000000 ∧ timeout < t.
Proof.
  unfold idleCircuits. revert c ctrl t. apply (map_fold_weak_ind (λ idle circuits, ∀ c ctrl t,
    (idle !! ctrl ≫= λ m, m !! c) = Some t ↔
    ∃ ft, circuits !! c = Some ft ∧ ft_ctrlId ft = ctrl ∧
      t = (nowMs - ft_last ft) * 1000000 ∧ timeout < t)).
  { intros c ctrl t. rewrite lookup_empty. simpl. split; [done|].
    by intros (ft & ?%lookup_empty_Some & _). }
  intros c0 ft0 circuits0 idle Hnew IH c ctrl t.
  destruct (Z.gtb_spec ((nowMs - ft_last ft0) * 1000000) timeout) as [Hidle|Hidle].
  - destruct (decide (ft_ctrlId ft0 = ctrl)) as [<-|Hctrl].
    + rewrite lookup_insert_eq. simpl. destruct (decide (c0 = c)) as [<-|Hc].
      * rewrite !lookup_insert_eq. naive_solver.
      * rewrite !lookup_insert_ne by done. rewrite <- IH.
        by destruct (idle !! ft_ctrlId ft0); simpl; rewrite ?lookup_empty.
    + rewrite lookup_insert_ne by done. rewrite IH.
      destruct (decide (c0 = c)) as [<-|Hc]; [|by rewrite lookup_insert_ne].
      rewrite lookup_insert_eq, Hnew. naive_solver.
  - rewrite IH. destruct (decide (c0 = c)) as [<-|Hc]; [|by rewrite lookup_insert_ne].
    rewrite lookup_insert_eq, Hnew. split; [by intros (? & ? & _)|].
    intros (ft & [= <-] & _ & -> & ?). lia.
Qed.

(** The idle scan is exact: it asks controller [ctrl] to confirm circuit [c]
    with idle time [t] exactly if that controller has a control channel, the
    circuit's table belongs to it and has been idle for [t], which exceeds the
    threshold. *)
Theorem scan_exact nowMs timeout hasChannel circuits ctrl c t :
  (scan nowMs timeout hasChannel circuits !! ctrl ≫= λ m, m !! c) = Some t ↔
  hasChannel ctrl = true ∧
  ∃ ft, circuits !! c = Some ft ∧ ft_ctrlId ft = ctrl ∧
    t = (nowMs - ft_last ft) * 1000000 ∧ timeout < t.
Proof.
  rewrite <- idleCircuits_spec. unfold scan. rewrite !bind_Some.
  setoid_rewrite map_lookup_filter_Some. split.
  - intros (m & (Hm & _ & Hc) & Ht). eauto.
  - intros (Hc & m & Hm & Ht). exists m. split_and!; try done. intros ->.
    by rewrite lookup_empty in Ht.
Qed.

Lemma workload_elem pending ctrl c :
  c ∈ default [] (Faulter_workload pending !! ctrl) ↔ pending !! c = Some ctrl.
Proof.
  unfold Faulter_workload. revert ctrl c. apply (map_fold_weak_ind (λ w pending, ∀ ctrl c,
    c ∈ default [] (w !! ctrl) ↔ pending !! c = Some ctrl)).
  { intros ctrl c. rewrite !lookup_empty. simpl. split; [by intros ?%not_elem_of_nil|done]. }
  intros c0 ctrl0 m w Hnew IH ctrl c. destruct (decide (ctrl0 = ctrl)) as [->|Hne].
  - rewrite lookup_insert_eq. simpl. rewrite elem_of_app, list_elem_of_singleton, IH.
    rewrite lookup_insert_Some. destruct (decide (c0 = c)) as [->|]; [|naive_solver].
    rewrite Hnew. naive_solver.
  - rewrite lookup_insert_ne by done. rewrite IH, lookup_insert_Some.
    destruct (decide (c0 = c)) as [->|]; [rewrite Hnew; naive_solver|naive_solver].
Qed.

Lemma delete_all_lookup (p : gmap string string) ws c :
  foldl (λ p circuitId, delete circuitId p) p ws !! c = if decide (c ∈ ws) then None else p !! c.
Proof.
  revert p. induction ws as [|w ws IH]; intros p; simpl; [done|]. rewrite IH.
  destruct (decide (c = w)) as [->|Hne].
  - rewrite lookup_delete_eq. repeat case_decide; set_solver.
  - rewrite lookup_delete_ne by done. repeat case_decide; set_solver.
Qed.

(** The state of the tick after the controllers of [m] have been served. *)
Definition tick_inv (hasChannel : string → bool) (pending : gmap string string)
    (st : gmap string string * list fault_msg) (m : gmap string (list string)) : Prop :=
  (∀ c x, st.1 !! c = Some x ↔
     pending !! c = Some x ∧ ∀ ctrl w, m !! ctrl = Some w → c ∉ w) ∧
  (∀ ctrl w, ForwardFault ctrl w ∈ st.2 ↔
     m !! ctrl = Some w ∧ ctrl ≠ ""%string ∧ hasChannel ctrl = true) ∧
  (∀ w, UnknownOwnerForwardFault w ∈ st.2 ↔ m !! ""%string = Some w).

Lemma Faulter_tick_inv hasChannel pending :
  tick_inv hasChannel pending (Faulter_tick hasChannel pending) (Faulter_workload pending).
Proof.
  unfold Faulter_tick. apply (map_fold_weak_ind (tick_inv hasChannel pending)).
  { split_and!; simpl.
    - intros c x. split; [|tauto]. intros ?. split; [done|]. by intros ? ? ?%lookup_empty_Some.
    - intros ctrl w. rewrite lookup_empty. split; [by intros ?%not_elem_of_nil|by intros [? _]].
    - intros w. rewrite lookup_empty. split; [by intros ?%not_elem_of_nil|done]. }
  intros ctrl0 w0 m [p msgs] Hnew (I1 & I2 & I3). simpl in *.
  assert (∀ c x, foldl (λ p circuitId, delete circuitId p) p w0 !! c = Some x ↔
    pending !! c = Some x ∧ ∀ ctrl w, <[ctrl0:=w0]> m !! ctrl = Some w → c ∉ w) as J1.
  { intros c x. rewrite delete_all_lookup. case_decide as Hc.
    - split; [done|]. intros [_ H]. exfalso. by apply (H ctrl0 w0); [apply lookup_insert_eq|].
    - rewrite I1. split; intros [Hx H]; (split; [done|]); intros ctrl w Hw.
      + apply lookup_insert_Some in Hw as [[_ <-]|[_ Hw]]; [done|by eapply H].
      + apply (H ctrl). rewrite lookup_insert_ne; [done|]. intros ->. congruence. }
  assert (∀ ctrl w, <[ctrl0:=w0]> m !! ctrl = Some w ↔
    (ctrl = ctrl0 ∧ w = w0) ∨ m !! ctrl = Some w) as J2.
  { intros ctrl w. rewrite lookup_insert_Some. split; [naive_solver|].
    intros [[-> ->]|Hw]; [by left|]. right. split; [|done]. intros ->. congruence. }
  case_bool_decide as He; [|destruct (hasChannel ctrl0) eqn:Eh]; (split; [exact J1|]); simpl;
    (split; [intros ctrl w; rewrite ?elem_of_cons, I2, J2|intros w; rewrite ?elem_of_cons, I3, J2]).
  - split; [intros [?|?]; [done|tauto]|]. intros [[[-> _]|?] [? ?]]; [done|tauto].
  - split; [intros [[= ->]|?]; auto|]. intros [[_ ->]|?]; auto.
  - split; [intros [[= -> ->]|?]; tauto|]. intros [[[-> ->]|?] [? ?]]; tauto.
  - split; [intros [?|?]; [done|tauto]|]. intros [[Hc _]|?]; [by destruct He|tauto].
  - split; [tauto|]. intros [[[-> _]|?] [? ?]]; [congruence|tauto].
  - split; [tauto|]. intros [[Hc _]|?]; [by destruct He|tauto].
Qed.

(** A faulter tick reports every pending circuit fault to its owner: the
    pending set is empty afterwards; a circuit whose controller is known and
    reachable is in that controller's message, one whose owner is unknown is in
    the message to all controllers, and no controller is told about a circuit
    it does not own. *)
Theorem faulter_reports_owner hasChannel pending :
  let '(pending', msgs) := Faulter_tick hasChannel pending in
  pending' = ∅ ∧
  (∀ c ctrl, pending !! c = Some ctrl → ctrl ≠ ""%string → hasChannel ctrl = true →
     ∃ w, ForwardFault ctrl w ∈ msgs ∧ c ∈ w) ∧
  (∀ c, pending !! c = Some ""%string → ∃ w, UnknownOwnerForwardFault w ∈ msgs ∧ c ∈ w) ∧
  (∀ ctrl w c, ForwardFault ctrl w ∈ msgs → c ∈ w → pending !! c = Some ctrl).
Proof.
  pose proof (Faulter_tick_inv hasChannel pending) as (I1 & I2 & I3).
  destruct (Faulter_tick hasChannel pending) as [pending' msgs]. simpl in *.
  assert (∀ c ctrl, pending !! c = Some ctrl →
    ∃ w, Faulter_workload pending !! ctrl = Some w ∧ c ∈ w) as Hw.
  { intros c ctrl Hc%workload_elem. destruct (Faulter_workload pending !! ctrl) as [w|]; [eauto|].
    by apply not_elem_of_nil in Hc. }
  split_and!.
  - apply map_empty. intros c. apply eq_None_not_Some. intros [x Hx].
    apply I1 in Hx as [Hx Hno]. destruct (Hw _ _ Hx) as (w & Hw1 & Hw2). by apply (Hno x w).
  - intros c ctrl Hc Hne Hch. destruct (Hw _ _ Hc) as (w & ? & ?). exists w. by rewrite I2.
  - intros c Hc. destruct (Hw _ _ Hc) as (w & ? & ?). exists w. by rewrite I3.
  - intros ctrl w c (Hm & _)%I2 Hc. apply workload_elem. by rewrite Hm.
Qed.

(** ** Witnesses *)

(** Both ends of [demoFabric]'s link have registered it; the egress has been
    dialed. *)
Definition demoFws : list Forwarder :=
  [RegisterLink "ab" (mkDest 10 true) (mkFw ∅ ∅ ∅);
   RegisterDestination "c1" "out" (mkDest 12 false)
     (RegisterLink "ab" (mkDest 11 true) (mkFw ∅ ∅ ∅))].

Lemma routes_deliver_end_to_end_witness :
  let path := mkPath [1%nat; 2%nat] [demoLink] "in" "out" "" "" "" "" in
  let rms := CreateRouteMessages demoFabric path 0 "c1" "edge" "addr" 5 in
  let routed := zip_with (install "ctrl" 7) demoFws rms in
  traverse routed "c1" "in" = Some ["ab"; "out"]%string ∧
  traverse (reverse routed) "c1" "out" = Some ["ab"; "in"]%string.
Proof.
  intros path rms routed.
  destruct (routes_deliver_end_to_end demoFabric path 0 "c1" "edge" "addr" "ctrl" 5 7 demoFws)
    as [H1 H2].
  - split; [|done]. split; [vm_compute; reflexivity|]. split; [vm_compute; reflexivity|].
    left. split; vm_compute; reflexivity.
  - apply (bool_decide_unpack _). vm_compute. exact I.
  - vm_compute. repeat constructor.
  - split; [exact H1|exact H2].
Defined.
