(* ===== verification/LinkRegistry.v ===== *)
(** * The router's link registry (router/link/{link_state,link_state_heap,link_registry,link_events}.go)

    The registry knows the links a router has (by key and by id) and, per
    destination router, the link states that drive dialing, redialing and the
    reports to the controllers. Link states and destinations are shared objects:
    the retry queue, the dial jobs and pending events hold references to them,
    also after they have left the registry. Handlers run on one goroutine and
    are one transition each; a dial job runs on a pool and is two transitions,
    before and after the dial; events that have been queued may be handled in
    any order, as the code allows for.

    Clock readings, random jitter, pool admission, new ids and whether a link is
    closed are given by an [Env] per transition. Closing a link is an effect
    that is reported; the close callback comes back as [LinkClosed]. *)

From stdpp Require Import base gmap list strings fin_maps relations.
From Stdlib Require Import ZArith Lia QArith.QArith QArith.Qround.
From S2P Require Import Prelude.

Open Scope Z_scope.

Abbreviation StateRef := nat.
Abbreviation DestRef := nat.

(** ** Data *)

Inductive linkStatus :=
| StatusPending
| StatusDialing
| StatusQueueFailed
| StatusDialFailed
| StatusLinkFailed
| StatusDestRemoved
| StatusEstablished.
#[global] Instance linkStatus_eq_dec : EqDecision linkStatus.
Proof. solve_decision. Defined.

(** An [xlink.Xlink]: [x_ref] is the object's identity. *)
Record Xlink := mkXlink {
  x_ref : nat;
  x_Id : string;
  x_Key : string;
  x_DestinationId : string;
  x_Iteration : Z;            (* uint32 *)
  x_IsDialed : bool;
}.
#[global] Instance Xlink_eq_dec : EqDecision Xlink.
Proof. solve_decision. Defined.

(** The parts of [ctrl_pb.Listener] and of the dialer interfaces that are used. *)
Record Listener := mkListener {
  li_Address : string;
  li_Protocol : string;
  li_Groups : list string;
  li_LocalBinding : string;
}.
Record BackoffConfig := mkBackoff {
  bc_MinRetryInterval : Z;
  bc_MaxRetryInterval : Z;
  bc_RetryBackoffFactor : Q;
}.
Record Dialer := mkDialer {
  di_Binding : string;
  di_Groups : list string;
  di_HealthyBackoffConfig : BackoffConfig;
  di_UnhealthyBackoffConfig : BackoffConfig;
}.

Record linkFault := mkFault {
  lf_linkId : string;
  lf_iteration : Z;           (* uint32 *)
}.

Record linkDest := mkLinkDest {
  ld_id : string;
  ld_version : string;
  ld_healthy : bool;
  ld_unhealthyAt : Z;
  ld_linkMap : gmap string StateRef;
}.

Record linkState := mkLinkSt {
  ls_linkKey : string;
  ls_linkId : string;
  ls_status : linkStatus;
  ls_dialAttempts : Z;        (* uint64 *)
  ls_connectedCount : Z;      (* uint64 *)
  ls_retryDelay : Z;          (* nanoseconds *)
  ls_nextDial : Z;
  ls_dest : DestRef;
  ls_listener : Listener;
  ls_dialer : Dialer;
  ls_allowedDials : Z;        (* int64 *)
  ls_ctrlsNotified : bool;
  ls_linkFaults : list linkFault;
  ls_dialActive : bool;
  ls_link : option Xlink;
}.

Definition set_status (v : linkStatus) (l : option Xlink) (s : linkState) : linkState :=
  mkLinkSt (ls_linkKey s) (ls_linkId s) v (ls_dialAttempts s) (ls_connectedCount s)
    (ls_retryDelay s) (ls_nextDial s) (ls_dest s) (ls_listener s) (ls_dialer s)
    (ls_allowedDials s) (ls_ctrlsNotified s) (ls_linkFaults s) (ls_dialActive s) l.
Definition set_dial (active : bool) (attempts : Z) (s : linkState) : linkState :=
  mkLinkSt (ls_linkKey s) (ls_linkId s) (ls_status s) attempts (ls_connectedCount s)
    (ls_retryDelay s) (ls_nextDial s) (ls_dest s) (ls_listener s) (ls_dialer s)
    (ls_allowedDials s) (ls_ctrlsNotified s) (ls_linkFaults s) active (ls_link s).
Definition set_retry (delay next : Z) (s : linkState) : linkState :=
  mkLinkSt (ls_linkKey s) (ls_linkId s) (ls_status s) (ls_dialAttempts s) (ls_connectedCount s)
    delay next (ls_dest s) (ls_listener s) (ls_dialer s)
    (ls_allowedDials s) (ls_ctrlsNotified s) (ls_linkFaults s) (ls_dialActive s) (ls_link s).
Definition set_allowedDials (n : Z) (s : linkState) : linkState :=
  mkLinkSt (ls_linkKey s) (ls_linkId s) (ls_status s) (ls_dialAttempts s) (ls_connectedCount s)
    (ls_retryDelay s) (ls_nextDial s) (ls_dest s) (ls_listener s) (ls_dialer s)
    n (ls_ctrlsNotified s) (ls_linkFaults s) (ls_dialActive s) (ls_link s).
Definition set_listener (l : Listener) (s : linkState) : linkState :=
  mkLinkSt (ls_linkKey s) (ls_linkId s) (ls_status s) (ls_dialAttempts s) (ls_connectedCount s)
    (ls_retryDelay s) (ls_nextDial s) (ls_dest s) l (ls_dialer s)
    (ls_allowedDials s) (ls_ctrlsNotified s) (ls_linkFaults s) (ls_dialActive s) (ls_link s).
Definition set_notified (b : bool) (connected : Z) (s : linkState) : linkState :=
  mkLinkSt (ls_linkKey s) (ls_linkId s) (ls_status s) (ls_dialAttempts s) connected
    (ls_retryDelay s) (ls_nextDial s) (ls_dest s) (ls_listener s) (ls_dialer s)
    (ls_allowedDials s) b (ls_linkFaults s) (ls_dialActive s) (ls_link s).
Definition set_faults (fs : list linkFault) (s : linkState) : linkState :=
  mkLinkSt (ls_linkKey s) (ls_linkId s) (ls_status s) (ls_dialAttempts s) (ls_connectedCount s)
    (ls_retryDelay s) (ls_nextDial s) (ls_dest s) (ls_listener s) (ls_dialer s)
    (ls_allowedDials s) (ls_ctrlsNotified s) fs (ls_dialActive s) (ls_link s).

(** What is queued for the registry's goroutine. *)
Inductive event :=
| EvRemoveLinkDest (id : string)
| EvLinkDestUpdate (id version : string) (healthy : bool) (listeners : list Listener)
| EvUpdateLinkStatusForLink (link : Xlink) (status : linkStatus)
| EvAddLinkFaultForReplacedLink (link : Xlink)
| EvUpdateLinkStatusToDialFailed (r : StateRef) (applyFailed : bool)
| EvMarkNewLinksNotified (links : list (StateRef * Xlink))
| EvMarkFaultedLinksNotified (sent : list (StateRef * list linkFault)).

(** A queued dial job: the state it dials and whether it has got past the test
    for an existing link. *)
Abbreviation job := (StateRef * bool)%type.

Record linkRegistry := mkReg {
  lr_linkMap : gmap string Xlink;
  lr_linkByIdMap : gmap string Xlink;
  lr_dups : gmap nat Z;                 (* DuplicatesRejected, by link object; uint32 *)
  lr_destinations : gmap string DestRef;
  lr_linkStateQueue : list StateRef;    (* the heap's slice *)
  lr_states : gmap StateRef linkState;
  lr_dests : gmap DestRef linkDest;
  lr_jobs : list job;
  lr_events : list event;
}.

Definition set_links (m b : gmap string Xlink) (g : linkRegistry) : linkRegistry :=
  mkReg m b (lr_dups g) (lr_destinations g) (lr_linkStateQueue g) (lr_states g) (lr_dests g)
    (lr_jobs g) (lr_events g).
Definition set_dups (d : gmap nat Z) (g : linkRegistry) : linkRegistry :=
  mkReg (lr_linkMap g) (lr_linkByIdMap g) d (lr_destinations g) (lr_linkStateQueue g)
    (lr_states g) (lr_dests g) (lr_jobs g) (lr_events g).
Definition set_destinations (d : gmap string DestRef) (g : linkRegistry) : linkRegistry :=
  mkReg (lr_linkMap g) (lr_linkByIdMap g) (lr_dups g) d (lr_linkStateQueue g) (lr_states g)
    (lr_dests g) (lr_jobs g) (lr_events g).
Definition set_queue (q : list StateRef) (g : linkRegistry) : linkRegistry :=
  mkReg (lr_linkMap g) (lr_linkByIdMap g) (lr_dups g) (lr_destinations g) q (lr_states g)
    (lr_dests g) (lr_jobs g) (lr_events g).
Definition put_state (r : StateRef) (s : linkState) (g : linkRegistry) : linkRegistry :=
  mkReg (lr_linkMap g) (lr_linkByIdMap g) (lr_dups g) (lr_destinations g) (lr_linkStateQueue g)
    (<[r := s]> (lr_states g)) (lr_dests g) (lr_jobs g) (lr_events g).
Definition put_dest (d : DestRef) (x : linkDest) (g : linkRegistry) : linkRegistry :=
  mkReg (lr_linkMap g) (lr_linkByIdMap g) (lr_dups g) (lr_destinations g) (lr_linkStateQueue g)
    (lr_states g) (<[d := x]> (lr_dests g)) (lr_jobs g) (lr_events g).
Definition set_jobs (j : list job) (g : linkRegistry) : linkRegistry :=
  mkReg (lr_linkMap g) (lr_linkByIdMap g) (lr_dups g) (lr_destinations g) (lr_linkStateQueue g)
    (lr_states g) (lr_dests g) j (lr_events g).
Definition set_events (e : list event) (g : linkRegistry) : linkRegistry :=
  mkReg (lr_linkMap g) (lr_linkByIdMap g) (lr_dups g) (lr_destinations g) (lr_linkStateQueue g)
    (lr_states g) (lr_dests g) (lr_jobs g) e.

(** What a transition gets from its surroundings. [e_now] is the clock when the
    transition starts, [e_later] any later reading; [e_pool] tells whether the
    dialer pool takes a job, [e_jitter] is [rand.Float64() - 0.5], [e_extra] the
    random seconds of an apply failure; [e_ContainsAny] stands for the
    foundation library's [stringz.ContainsAny]. *)
Record Env := mkEnv {
  e_now : Z;
  e_later : Z;
  e_closed : Xlink → bool;
  e_pool : StateRef → bool;
  e_jitter : StateRef → Q;
  e_extra : StateRef → Z;
  e_uuid : string → string;
  e_dialers : list Dialer;
  e_legacy : bool;
  e_ContainsAny : list string → list string → bool;
}.

(** What a transition does to links and to the notifier. *)
Inductive effect :=
| CloseLink (link : Xlink) (after : Z)             (* seconds *)
| FaultDuplicate (link : Xlink) (legacy : bool)    (* to every controller *)
| TriggerNotify.

(** ** link_state.go *)

Definition newLinkDest (destId : string) : linkDest := mkLinkDest destId "" true 0 ∅.

Definition linkDest_update (now : Z) (version : string) (healthy : bool) (d : linkDest) : linkDest :=
  mkLinkDest (ld_id d) (if healthy then version else ld_version d) healthy
    (if ld_healthy d && negb healthy then now else ld_unhealthyAt d) (ld_linkMap d).

Definition updateStatus (status : linkStatus) (s : linkState) : linkState :=
  if bool_decide (ls_status s = status) then s
  else set_status status (if bool_decide (status = StatusEstablished) then ls_link s else None) s.

(** The loop of [addPendingLinkFault]: [None] when no fault has the id. *)
Fixpoint raiseFault (linkId : string) (iteration : Z) (fs : list linkFault)
    : option (list linkFault) :=
  match fs with
  | [] => None
  | f :: fs =>
    if bool_decide (lf_linkId f = linkId) then
      Some ((if lf_iteration f <? iteration then mkFault (lf_linkId f) iteration else f) :: fs)
    else (f ::.) <$> raiseFault linkId iteration fs
  end.
Definition addPendingLinkFault (linkId : string) (iteration : Z) (s : linkState) : linkState :=
  set_faults (default (ls_linkFaults s ++ [mkFault linkId iteration])
                (raiseFault linkId iteration (ls_linkFaults s))) s.

Definition clearFaultsForLinkId (linkId : string) (s : linkState) : linkState :=
  set_faults (filter (λ f, lf_linkId f ≠ linkId) (ls_linkFaults s)) s.

Definition clearFault (toClear : linkFault) (s : linkState) : linkState :=
  set_faults (filter (λ f, lf_linkId f ≠ lf_linkId toClear ∨
                           lf_iteration f > lf_iteration toClear) (ls_linkFaults s)) s.

(** ** link_state_heap.go and container/heap

    The heap orders references by the [nextDial] their states have at the time
    of the comparison. *)
Section Heap.
Context (nextDial : StateRef → Z).

Definition Swap (i j : nat) (h : list StateRef) : list StateRef :=
  match h !! i, h !! j with
  | Some a, Some b => <[i := b]> (<[j := a]> h)
  | _, _ => h
  end.
Definition Less (h : list StateRef) (i j : nat) : bool :=
  match h !! i, h !! j with
  | Some a, Some b => nextDial a <? nextDial b
  | _, _ => false
  end.

Fixpoint heap_up (fuel j : nat) (h : list StateRef) : list StateRef :=
  match fuel with
  | O => h
  | S fuel =>
    let i := ((j - 1) / 2)%nat in
    if bool_decide (i = j) || negb (Less h j i) then h else heap_up fuel i (Swap i j h)
  end.

Fixpoint heap_down (fuel i n : nat) (h : list StateRef) : list StateRef :=
  match fuel with
  | O => h
  | S fuel =>
    let j1 := (2 * i + 1)%nat in
    if bool_decide (n ≤ j1)%nat then h
    else
      let j := if bool_decide (j1 + 1 < n)%nat && Less h (j1 + 1) j1 then (j1 + 1)%nat else j1 in
      if negb (Less h j i) then h else heap_down fuel j n (Swap i j h)
  end.

(** [heap.Push] and [heap.Pop]. The index grows (shrinks) in every round, so
    that the length of the slice is enough fuel. *)
Definition heap_Push (x : StateRef) (h : list StateRef) : list StateRef :=
  heap_up (S (length h)) (length h) (h ++ [x]).
Definition heap_Pop (h : list StateRef) : list StateRef :=
  let n := (length h - 1)%nat in
  take n (heap_down (length h) 0 n (Swap 0 n h)).
End Heap.

Definition nextDialOf (g : linkRegistry) (r : StateRef) : Z :=
  from_option ls_nextDial 0 (lr_states g !! r).

(** The backoff of [dialFailed]: the delay grows by the jittered factor, never
    shrinks by it, and is then clamped. *)
Definition nextRetryDelay (cfg : BackoffConfig) (jitter : Q) (delay : Z) : Z :=
  let factor := (bc_RetryBackoffFactor cfg + jitter)%Q in
  let factor := if Qle_bool 1 factor then factor else 1%Q in
  let delay := Z.quot (delay * Qnum factor) (Zpos (Qden factor)) in
  let delay := if delay <? bc_MinRetryInterval cfg then bc_MinRetryInterval cfg else delay in
  if delay >? bc_MaxRetryInterval cfg then bc_MaxRetryInterval cfg else delay.

Definition backoffConfig (healthy : bool) (d : Dialer) : BackoffConfig :=
  if healthy then di_HealthyBackoffConfig d else di_UnhealthyBackoffConfig d.

(** [linkState.dialFailed] *)
Definition dialFailed (env : Env) (r : StateRef) (applyFailed : bool) (g : linkRegistry)
    : linkRegistry :=
  match lr_states g !! r with
  | None => g
  | Some s =>
    let s := if ls_allowedDials s >? 0 then set_allowedDials (ls_allowedDials s - 1) s else s in
    match lr_dests g !! ls_dest s with
    | None => g
    | Some d =>
      if ls_allowedDials s =? 0 then
        put_dest (ls_dest s) (mkLinkDest (ld_id d) (ld_version d) (ld_healthy d)
            (ld_unhealthyAt d) (delete (ls_linkKey s) (ld_linkMap d)))
          (put_state r s g)
      else
        let delay := nextRetryDelay (backoffConfig (ld_healthy d) (ls_dialer s)) (e_jitter env r)
                       (ls_retryDelay s) in
        let next := e_later env + delay in
        let next := if applyFailed then next + e_extra env r * 1000000000 else next in
        let g := put_state r (set_retry delay next s) g in
        set_queue (heap_Push (nextDialOf g) r (lr_linkStateQueue g)) g
    end
  end.

(** ** link_registry.go *)

Definition GetLink (g : linkRegistry) (linkKey : string) : option Xlink := lr_linkMap g !! linkKey.
Definition GetLinkById (g : linkRegistry) (linkId : string) : option Xlink :=
  lr_linkByIdMap g !! linkId.

Definition DebugForgetLink (linkId : string) (g : linkRegistry) : linkRegistry * bool :=
  match lr_linkByIdMap g !! linkId with
  | Some link =>
    (set_links (delete (x_Key link) (lr_linkMap g)) (delete linkId (lr_linkByIdMap g)) g, true)
  | None => (g, false)
  end.

Definition queueEvent (ev : event) (g : linkRegistry) : linkRegistry :=
  set_events (lr_events g ++ [ev]) g.
Definition updateLinkStateEstablished (link : Xlink) : linkRegistry → linkRegistry :=
  queueEvent (EvUpdateLinkStatusForLink link StatusEstablished).
Definition updateLinkStateClosed (link : Xlink) : linkRegistry → linkRegistry :=
  queueEvent (EvUpdateLinkStatusForLink link StatusLinkFailed).

(** [registry.dialFailed] drops its [applyFailed] argument. *)
Definition registry_dialFailed (r : StateRef) (applyFailed : bool) : linkRegistry → linkRegistry :=
  queueEvent (EvUpdateLinkStatusToDialFailed r false).

(** Reading [DuplicatesRejected] counts; it is only read when the ids compare. *)
Definition DuplicatesRejected (link : Xlink) (g : linkRegistry) : linkRegistry * Z :=
  let n := uint32 (default 0 (lr_dups g !! x_ref link) + 1) in
  (set_dups (<[x_ref link := n]> (lr_dups g)) g, n).

Definition registerLink (link : Xlink) (g : linkRegistry) : linkRegistry :=
  updateLinkStateEstablished link
    (set_links (<[x_Key link := link]> (lr_linkMap g)) (<[x_Id link := link]> (lr_linkByIdMap g)) g).

(** [applyLink], which both [LinkAccepted] and [DialSucceeded] call under the
    registry's lock. The result is the existing link, if that is kept, and
    success. *)
Definition applyLink (env : Env) (link : Xlink) (g : linkRegistry)
    : linkRegistry * list effect * option Xlink * bool :=
  if e_closed env link then (g, [], None, false)
  else
    match GetLink g (x_Key link) with
    | None => (registerLink link g, [], None, true)
    | Some existing =>
      if bool_decide (x_ref existing = x_ref link) then (g, [], None, true)
      else
        let '(g, keep) :=
          if String.ltb (x_Id existing) (x_Id link)
          then let '(g, n) := DuplicatesRejected existing g in (g, n <=? 5)
          else (g, false) in
        if keep then
          (g, [CloseLink link (if x_IsDialed link then 0 else 30)], Some existing, false)
        else
          (registerLink link g,
           [FaultDuplicate existing (e_legacy env);
            CloseLink existing (if x_IsDialed existing then 60 else 75)], None, true)
    end.

Definition LinkAccepted := applyLink.
Definition DialSucceeded := applyLink.

Definition isCurrent (link : Xlink) (o : option Xlink) : bool :=
  match o with Some x => bool_decide (x_ref x = x_ref link) | None => false end.

Definition LinkClosed (link : Xlink) (g : linkRegistry) : linkRegistry :=
  let current := isCurrent link (lr_linkMap g !! x_Key link) in
  let g' := set_links
    (if current then delete (x_Key link) (lr_linkMap g) else lr_linkMap g)
    (if isCurrent link (lr_linkByIdMap g !! x_Id link)
     then delete (x_Id link) (lr_linkByIdMap g) else lr_linkByIdMap g) g in
  if current then updateLinkStateClosed link g'
  else queueEvent (EvAddLinkFaultForReplacedLink link) g'.

Definition GetLinkKey (legacyCtrl : bool) (dialerBinding protocol dest listenerBinding : string)
    : string :=
  let or_default b := if bool_decide (b = ""%string) || legacyCtrl then "default"%string else b in
  (or_default dialerBinding +:+ "->" +:+ protocol +:+ ":" +:+ dest +:+ "->" +:+
   or_default listenerBinding)%string.

(** [evaluateLinkState]: whether the state may be dialed now, and queueing the
    job. When the pool refuses, the state fails at once. *)
Definition couldDial (now : Z) (s : linkState) : bool :=
  bool_decide (ls_status s ≠ StatusEstablished) && bool_decide (ls_status s ≠ StatusDialing) &&
  (ls_nextDial s <? now).

Definition evaluateLinkState (env : Env) (r : StateRef) (g : linkRegistry) : linkRegistry :=
  match lr_states g !! r with
  | None => g
  | Some s =>
    if couldDial (e_later env) s && negb (ls_dialActive s) then
      let s := set_dial true (wrap_u 64 (ls_dialAttempts s + 1)) (updateStatus StatusDialing s) in
      if e_pool env r then set_jobs (lr_jobs g ++ [(r, false)]) (put_state r s g)
      else dialFailed env r false
             (put_state r (updateStatus StatusQueueFailed (set_dial false (ls_dialAttempts s) s)) g)
    else g
  end.

(** The two halves of a dial job. [endJob] is the deferred reset of
    [dialActive]. *)
Definition endJob (r : StateRef) (phase : bool) (g : linkRegistry) : linkRegistry :=
  let g := match lr_states g !! r with
           | Some s => put_state r (set_dial false (ls_dialAttempts s) s) g
           | None => g
           end in
  set_jobs (filter (λ j, j ≠ (r, phase)) (lr_jobs g)) g.

Definition dialJob_start (r : StateRef) (g : linkRegistry) : linkRegistry :=
  match lr_states g !! r with
  | None => g
  | Some s =>
    match GetLink g (ls_linkKey s) with
    | Some link => endJob r false (updateLinkStateEstablished link g)
    | None => set_jobs ((λ j, if bool_decide (j = (r, false)) then (r, true) else j) <$> lr_jobs g) g
    end
  end.

(** [dialed] is what [Dial] returned: [None] for an error. *)
Definition dialJob_finish (env : Env) (r : StateRef) (dialed : option Xlink) (g : linkRegistry)
    : linkRegistry * list effect :=
  match dialed with
  | None => (endJob r true (registry_dialFailed r false g), [])
  | Some link =>
    let '(g, effs, existing, success) := DialSucceeded env link g in
    let g := if negb success && bool_decide (existing = None) then registry_dialFailed r true g
             else g in
    (endJob r true g, effs)
  end.

(** [evaluateLinkStateQueue]; [None] when the fuel runs out. *)
Fixpoint evaluateLinkStateQueue (fuel : nat) (env : Env) (g : linkRegistry) : option linkRegistry :=
  match fuel with
  | O => None
  | S fuel =>
    match lr_linkStateQueue g with
    | [] => Some g
    | next :: _ =>
      if e_now env <? nextDialOf g next then Some g
      else evaluateLinkStateQueue fuel env
             (evaluateLinkState env next (set_queue (heap_Pop (nextDialOf g) (lr_linkStateQueue g)) g))
    end
  end.

(** The state part of [evaluateDestinations]: an established state whose link is
    gone fails and becomes due. *)
Definition checkEstablished (env : Env) (r : StateRef) (g : linkRegistry) : linkRegistry * bool :=
  match lr_states g !! r with
  | Some s =>
    if bool_decide (ls_status s = StatusEstablished) then
      match GetLink g (ls_linkKey s) with
      | Some link =>
        if e_closed env link
        then (put_state r (updateStatus StatusLinkFailed (set_retry 0 (e_now env) s)) g, false)
        else (g, true)
      | None => (put_state r (updateStatus StatusLinkFailed (set_retry 0 (e_now env) s)) g, false)
      end
    else (g, false)
  | None => (g, false)
  end.

Definition evaluateState (env : Env) (acc : linkRegistry * bool) (r : StateRef)
    : linkRegistry * bool :=
  let '(g, est) := checkEstablished env r acc.1 in
  (evaluateLinkState env r g, acc.2 || est).

Definition statesOf (g : linkRegistry) (d : DestRef) : list StateRef :=
  (map_to_list (from_option ld_linkMap ∅ (lr_dests g !! d))).*2.

Definition forgetAfter : Z := 48 * 3600 * 1000000000.

Definition evaluateDestination (env : Env) (g : linkRegistry) (p : string * DestRef) : linkRegistry :=
  let '(g, hasEstablishedLinks) := foldl (evaluateState env) (g, false) (statesOf g p.2) in
  match lr_dests g !! p.2 with
  | Some dest =>
    if bool_decide (ld_linkMap dest = ∅) ||
       (negb (ld_healthy dest) && negb hasEstablishedLinks &&
        (e_later env - ld_unhealthyAt dest >? forgetAfter))
    then set_destinations (delete p.1 (lr_destinations g)) g
    else g
  | None => g
  end.

Definition evaluateDestinations (env : Env) (g : linkRegistry) : linkRegistry :=
  foldl (evaluateDestination env) g (map_to_list (lr_destinations g)).

(** [notifyControllersOfLinks]: what a pass over the states collects, and what
    it does to them. *)
Record notification := mkNotify {
  nt_links : list (StateRef * Xlink);
  nt_faults : list (StateRef * list linkFault);
}.

Definition notifyEstablished (env : Env) (r : StateRef) (s : linkState)
    (acc : linkRegistry * notification) : linkRegistry * notification :=
  let '(g, n) := acc in
  match GetLink g (ls_linkKey s) with
  | None => (dialFailed env r false (put_state r (updateStatus StatusDialFailed s) g), n)
  | Some link =>
    (put_state r (clearFaultsForLinkId (x_Id link) s) g,
     if x_IsDialed link then mkNotify (nt_links n ++ [(r, link)]) (nt_faults n) else n)
  end.

Definition notifyState (env : Env) (acc : linkRegistry * notification) (r : StateRef)
    : linkRegistry * notification :=
  match lr_states acc.1 !! r with
  | None => acc
  | Some s =>
    let '(g, n) := if negb (ls_ctrlsNotified s) && bool_decide (ls_status s = StatusEstablished)
                   then notifyEstablished env r s acc else acc in
    let faults := from_option ls_linkFaults [] (lr_states g !! r) in
    (g, if bool_decide (faults = []) then n else mkNotify (nt_links n) (nt_faults n ++ [(r, faults)]))
  end.

Definition notifyControllersOfLinks (env : Env) (g : linkRegistry) : linkRegistry * notification :=
  foldl (notifyState env) (g, mkNotify [] [])
    (concat (statesOf g <$> (map_to_list (lr_destinations g)).*2)).

(** A controller as the notifier sees it: connected, and if so whether a send
    reaches the wire; otherwise whether it was lost less than two minutes ago. *)
Inductive ctrl_state := CtrlConnected (sends : bool) | CtrlBriefOutage | CtrlGone.

(** [sendNewLinks]: only a failing send keeps the links from being marked. *)
Definition sendNewLinks (ctrls : list ctrl_state) (links : list (StateRef * Xlink)) : list event :=
  if forallb (λ c, match c with CtrlConnected ok => ok | _ => true end) ctrls
  then [EvMarkNewLinksNotified links] else [].

(** [sendLinkFaults], with the controllers' states for each fault. *)
Definition faultSent (ctrls : list ctrl_state) : bool :=
  forallb (λ c, match c with CtrlConnected ok => ok | CtrlBriefOutage => false | CtrlGone => true end)
    ctrls.
Definition sendLinkFaults (ctrls : linkFault → list ctrl_state) (l : list (StateRef * list linkFault))
    : list event :=
  let successfullySent := filter (λ p, p.2 ≠ [])
    ((λ p, (p.1, filter (λ f, faultSent (ctrls f) = true) p.2)) <$> l) in
  if bool_decide (successfullySent = []) then [] else [EvMarkFaultedLinksNotified successfullySent].

(** The queued half of [notifyControllersOfLinks]. *)
Definition notifyJob (newCtrls : list ctrl_state) (faultCtrls : linkFault → list ctrl_state)
    (n : notification) (g : linkRegistry) : linkRegistry :=
  set_events (lr_events g ++
    (if bool_decide (nt_links n = []) then [] else sendNewLinks newCtrls (nt_links n)) ++
    (if bool_decide (nt_faults n = []) then [] else sendLinkFaults faultCtrls (nt_faults n))) g.

(** ** link_events.go *)

(** [removeLinkDest.Handle] looks the link up by the state's link id, although
    the map is keyed by link key. *)
Definition removeLinkDest_Handle (id : string) (g : linkRegistry) : linkRegistry * list effect :=
  match lr_destinations g !! id with
  | None => (g, [])
  | Some d =>
    foldl (λ '(g, effs) r,
      match lr_states g !! r with
      | None => (g, effs)
      | Some s =>
        (put_state r (updateStatus StatusDestRemoved s) g,
         effs ++ match GetLink g (ls_linkId s) with Some link => [CloseLink link 0] | None => [] end)
      end) (set_destinations (delete id (lr_destinations g)) g, []) (statesOf g d)
  end.

Definition newLinkState (linkKey linkId : string) (d : DestRef) (listener : Listener)
    (dialer : Dialer) : linkState :=
  mkLinkSt linkKey linkId StatusPending 0 0 0 0 d listener dialer (-1) false [] false None.

(** One matching listener and dialer of [ApplyListenerChanges]. *)
Definition applyListener (env : Env) (d : DestRef) (id : string) (becameHealthy : bool)
    (acc : linkRegistry * gset string * list effect) (p : Listener * Dialer)
    : linkRegistry * gset string * list effect :=
  let '(g, currentLinkKeys, effs) := acc in
  let '(listener, dialer) := p in
  if e_ContainsAny env (li_Groups listener) (di_Groups dialer) then
    let linkKey := GetLinkKey (e_legacy env) (di_Binding dialer) (li_Protocol listener) id
                     (li_LocalBinding listener) in
    let currentLinkKeys := currentLinkKeys ∖ {[linkKey]} in
    match lr_dests g !! d with
    | None => (g, currentLinkKeys, effs)
    | Some dest =>
      match ld_linkMap dest !! linkKey with
      | None =>
        let r := fresh (dom (lr_states g)) in
        let g := put_state r (newLinkState linkKey (e_uuid env linkKey) d listener dialer) g in
        let g := put_dest d (mkLinkDest (ld_id dest) (ld_version dest) (ld_healthy dest)
                   (ld_unhealthyAt dest) (<[linkKey := r]> (ld_linkMap dest))) g in
        (evaluateLinkState env r g, currentLinkKeys, effs)
      | Some r =>
        match lr_states g !! r with
        | None => (g, currentLinkKeys, effs)
        | Some s =>
          let effs := if bool_decide (li_Address (ls_listener s) ≠ li_Address listener) then
                        effs ++ match ls_link s with Some l => [CloseLink l 0] | None => [] end
                      else effs in
          let s := set_listener listener s in
          if becameHealthy && bool_decide (ls_status s ≠ StatusEstablished)
          then (evaluateLinkState env r (put_state r (set_retry 0 (e_now env) s) g),
                currentLinkKeys, effs)
          else (put_state r s g, currentLinkKeys, effs)
        end
      end
    end
  else acc.

(** The orphaned entries at the end of [ApplyListenerChanges]. *)
Definition dropOrphan (d : DestRef) (acc : linkRegistry * list effect) (linkKey : string)
    : linkRegistry * list effect :=
  let '(g, effs) := acc in
  match lr_dests g !! d with
  | None => acc
  | Some dest =>
    match ld_linkMap dest !! linkKey with
    | None => acc
    | Some r =>
      (put_dest d (mkLinkDest (ld_id dest) (ld_version dest) (ld_healthy dest)
         (ld_unhealthyAt dest) (delete linkKey (ld_linkMap dest))) g,
       effs ++ match lr_states g !! r ≫= ls_link with Some l => [CloseLink l 0] | None => [] end)
    end
  end.

Definition ApplyListenerChanges (env : Env) (d : DestRef) (id : string) (becameHealthy : bool)
    (listeners : list Listener) (g : linkRegistry) : linkRegistry * list effect :=
  let current := dom (from_option ld_linkMap ∅ (lr_dests g !! d)) in
  let '(g, orphaned, effs) :=
    foldl (applyListener env d id becameHealthy) (g, current, [])
      (l ← listeners; dialer ← e_dialers env; [(l, dialer)]) in
  foldl (dropOrphan d) (g, effs) (elements orphaned).

Definition linkDestUpdate_Handle (env : Env) (id version : string) (healthy : bool)
    (listeners : list Listener) (g : linkRegistry) : linkRegistry * list effect :=
  let '(g, d, dest, becameHealthy) :=
    match lr_destinations g !! id with
    | Some d =>
      let dest := default (newLinkDest id) (lr_dests g !! d) in
      (g, d, dest, negb (ld_healthy dest) && healthy)
    | None =>
      let d := fresh (dom (lr_dests g)) in
      (set_destinations (<[id := d]> (lr_destinations g)) g, d, newLinkDest id, false)
    end in
  let g := put_dest d (linkDest_update (e_now env) version healthy dest) g in
  if healthy then ApplyListenerChanges env d id becameHealthy listeners g else (g, []).

(** The link state a link belongs to. *)
Definition stateForLink (g : linkRegistry) (link : Xlink) : option StateRef :=
  lr_destinations g !! x_DestinationId link ≫= λ d,
  lr_dests g !! d ≫= λ dest, ld_linkMap dest !! x_Key link.

Definition updateLinkStatusForLink_Handle (env : Env) (link : Xlink) (status : linkStatus)
    (g : linkRegistry) : linkRegistry * list effect :=
  match stateForLink g link with
  | None => (g, [])
  | Some r =>
    match lr_states g !! r with
    | None => (g, [])
    | Some s =>
      if bool_decide (ls_status s = StatusDestRemoved) then (g, [])
      else
        let s := updateStatus status s in
        if bool_decide (ls_status s = StatusEstablished) then
          (put_state r (set_status StatusEstablished (Some link)
             (set_retry 0 (ls_nextDial s)
               (set_notified false (wrap_u 64 (ls_connectedCount s + 1)) s))) g, [TriggerNotify])
        else if bool_decide (ls_status s = StatusLinkFailed) then
          let g := evaluateLinkState env r (put_state r (set_retry 0 (e_now env) s) g) in
          match lr_states g !! r with
          | Some s =>
            let s := addPendingLinkFault (x_Id link) (x_Iteration link) s in
            (put_state r (set_status (ls_status s) None s) g, [])
          | None => (g, [])
          end
        else (put_state r s g, [])
    end
  end.

Definition addLinkFaultForReplacedLink_Handle (link : Xlink) (g : linkRegistry) : linkRegistry :=
  match stateForLink g link with
  | None => g
  | Some r =>
    match lr_states g !! r with
    | None => g
    | Some s => put_state r (addPendingLinkFault (x_Id link) (x_Iteration link) s) g
    end
  end.

Definition updateLinkStatusToDialFailed_Handle (env : Env) (r : StateRef) (applyFailed : bool)
    (g : linkRegistry) : linkRegistry :=
  match lr_states g !! r with
  | None => g
  | Some s =>
    if bool_decide (ls_status s = StatusDialing)
    then dialFailed env r applyFailed (put_state r (updateStatus StatusDialFailed s) g)
    else g
  end.

Definition markNewLinksNotified_Handle (links : list (StateRef * Xlink)) (g : linkRegistry)
    : linkRegistry :=
  foldl (λ g p, match lr_states g !! p.1 with
    | Some s => if bool_decide (ls_status s = StatusEstablished) && isCurrent p.2 (ls_link s)
                then put_state p.1 (set_notified true (ls_connectedCount s) s) g else g
    | None => g
    end) g links.

Definition markFaultedLinksNotified_Handle (sent : list (StateRef * list linkFault))
    (g : linkRegistry) : linkRegistry :=
  foldl (λ g p, match lr_states g !! p.1 with
    | Some s => put_state p.1 (foldl (λ s f, clearFault f s) s p.2) g
    | None => g
    end) g sent.

Definition Handle (env : Env) (ev : event) (g : linkRegistry) : linkRegistry * list effect :=
  match ev with
  | EvRemoveLinkDest id => removeLinkDest_Handle id g
  | EvLinkDestUpdate id version healthy listeners =>
    linkDestUpdate_Handle env id version healthy listeners g
  | EvUpdateLinkStatusForLink link status => updateLinkStatusForLink_Handle env link status g
  | EvAddLinkFaultForReplacedLink link => (addLinkFaultForReplacedLink_Handle link g, [])
  | EvUpdateLinkStatusToDialFailed r applyFailed =>
    (updateLinkStatusToDialFailed_Handle env r applyFailed g, [])
  | EvMarkNewLinksNotified links => (markNewLinksNotified_Handle links g, [])
  | EvMarkFaultedLinksNotified sent => (markFaultedLinksNotified_Handle sent g, [])
  end.

(** [scanForLinkIdEvent.Handle] *)
Definition scanForLinkId (linkId : string) (g : linkRegistry) : bool :=
  existsb (λ r, match lr_states g !! r with
                | Some s => bool_decide (ls_linkId s = linkId)
                | None => false end)
    (concat (statesOf g <$> (map_to_list (lr_destinations g)).*2)).

(** [IsKnownLinkId], when the scan answers in time. *)
Definition IsKnownLinkId (g : linkRegistry) (linkId : string) : bool :=
  match GetLinkById g linkId with Some _ => true | None => scanForLinkId linkId g end.

(** ** The registry as a transition system *)

(** The registry with the notification job that may be in progress. A tick
    collects nothing while one is; what it collects is kept only if the
    rate-limited pool accepts the job. *)
Abbreviation regsys := (linkRegistry * option notification)%type.

Definition notifyTick (env : Env) (accepted : bool) (y : regsys) : regsys :=
  match y.2 with
  | Some _ => y
  | None =>
    let '(g, n) := notifyControllersOfLinks env y.1 in
    (g, if bool_decide (nt_links n = []) && bool_decide (nt_faults n = []) then None
        else if accepted then Some n else None)
  end.

Section System.
(** The router a link key leads to and the key a link id was created for. *)
Context (destOf : string → string).
Context (keyOf : string → string).
Context (dialers : list Dialer).

Definition link_wf (x : Xlink) : Prop :=
  x_DestinationId x = destOf (x_Key x) ∧ x_Key x = keyOf (x_Id x).

Definition event_ok (ev : event) : Prop :=
  match ev with
  | EvLinkDestUpdate id _ _ listeners => ∀ l dialer legacy, l ∈ listeners → dialer ∈ dialers →
      destOf (GetLinkKey legacy (di_Binding dialer) (li_Protocol l) id (li_LocalBinding l)) = id
  | EvUpdateLinkStatusForLink x st =>
      link_wf x ∧ (st = StatusEstablished ∨ st = StatusLinkFailed)
  | _ => True
  end.

Definition controller_event (ev : event) : Prop :=
  match ev with EvRemoveLinkDest _ | EvLinkDestUpdate _ _ _ _ => True | _ => False end.

Inductive reg_step : regsys → regsys → Prop :=
| step_post ev g n : controller_event ev → event_ok ev → reg_step (g, n) (queueEvent ev g, n)
| step_accepted env x g n : link_wf x → reg_step (g, n) ((LinkAccepted env x g).1.1.1, n)
| step_closed x g n : link_wf x → reg_step (g, n) (LinkClosed x g, n)
| step_forget id g n : reg_step (g, n) ((DebugForgetLink id g).1, n)
| step_job_start r g n : (r, false) ∈ lr_jobs g → reg_step (g, n) (dialJob_start r g, n)
| step_job_finish env r dialed g n : (r, true) ∈ lr_jobs g →
    (∀ x s, dialed = Some x → lr_states g !! r = Some s → link_wf x ∧ x_Key x = ls_linkKey s) →
    reg_step (g, n) ((dialJob_finish env r dialed g).1, n)
| step_handle env l1 ev l2 g n : e_dialers env = dialers → lr_events g = l1 ++ ev :: l2 →
    reg_step (g, n) (set_events (l1 ++ l2) (Handle env ev g).1, n)
| step_queue env fuel g g' n : evaluateLinkStateQueue fuel env g = Some g' → reg_step (g, n) (g', n)
| step_scan env g n : reg_step (g, n) (evaluateDestinations env g, n)
| step_notify env accepted y : reg_step y (notifyTick env accepted y)
| step_notified newCtrls faultCtrls g n :
    reg_step (g, Some n) (notifyJob newCtrls faultCtrls n g, None).

Definition emptyRegistry : linkRegistry := mkReg ∅ ∅ ∅ ∅ [] ∅ ∅ [] [].
Definition reg_reachable (y : regsys) : Prop := rtc reg_step (emptyRegistry, None) y.

(** A link state the registry still reaches, under its key. *)
Definition registered (g : linkRegistry) (r : StateRef) (k : string) : Prop :=
  ∃ id d dest, lr_destinations g !! id = Some d ∧ lr_dests g !! d = Some dest ∧
    ld_linkMap dest !! k = Some r.

(** A pending event that takes a state out of [StatusDialing]. *)
Definition resets (ev : event) (r : StateRef) (k : string) : Prop :=
  match ev with
  | EvUpdateLinkStatusToDialFailed r' _ => r' = r
  | EvUpdateLinkStatusForLink x _ => x_Key x = k
  | _ => False
  end.

(** No job will report back about the state: there is none, or it is past the
    test for an existing link and will find one when it registers its own. *)
Definition needsReset (g : linkRegistry) (r : StateRef) (s : linkState) : Prop :=
  ls_status s = StatusDialing ∧
  (ls_dialActive s = false ∨ ((r, true) ∈ lr_jobs g ∧ is_Some (lr_linkMap g !! ls_linkKey s))).

Definition state_ok (s : linkState) : Prop :=
  (is_Some (ls_link s) ↔ ls_status s = StatusEstablished) ∧
  NoDup (lf_linkId <$> ls_linkFaults s).

Record reg_wf (g : linkRegistry) : Prop := mkRegWf {
  inv_states : ∀ r s, lr_states g !! r = Some s → state_ok s ∧ is_Some (lr_dests g !! ls_dest s);
  inv_nodup : NoDup (lr_jobs g).*1;
  inv_jobs : ∀ r, r ∈ (lr_jobs g).*1 ↔
    ∃ s, lr_states g !! r = Some s ∧ ls_dialActive s = true;
  inv_dests : ∀ d dest k r, lr_dests g !! d = Some dest → ld_linkMap dest !! k = Some r →
    destOf k = ld_id dest ∧ ∃ s, lr_states g !! r = Some s ∧ ls_linkKey s = k ∧ ls_dest s = d;
  inv_destinations : ∀ id d, lr_destinations g !! id = Some d →
    ∃ dest, lr_dests g !! d = Some dest ∧ ld_id dest = id;
  inv_links : ∀ k x, lr_linkMap g !! k = Some x →
    x_Key x = k ∧ link_wf x ∧ lr_linkByIdMap g !! x_Id x = Some x;
  inv_byId : ∀ i x, lr_linkByIdMap g !! i = Some x → x_Id x = i ∧ link_wf x;
  inv_events : ∀ ev, ev ∈ lr_events g → event_ok ev;
}.

(** A registered state that only a pending event can take out of dialing. *)
Definition needy (g : linkRegistry) (r : StateRef) (s : linkState) : Prop :=
  registered g r (ls_linkKey s) ∧ lr_states g !! r = Some s ∧ needsReset g r s.

Definition reset_pending (g : linkRegistry) : Prop :=
  ∀ r s, needy g r s → ∃ ev, ev ∈ lr_events g ∧ resets ev r (ls_linkKey s).

Definition reg_inv (g : linkRegistry) : Prop := reg_wf g ∧ reset_pending g.

(** Most changes keep the registry well formed, leave the events alone and make
    no state needy. *)
Definition calm (g g' : linkRegistry) : Prop :=
  lr_events g' = lr_events g ∧
  ∀ r s', needy g' r s' → ∃ s, needy g r s ∧ ls_linkKey s = ls_linkKey s'.

Definition keeps (g g' : linkRegistry) : Prop := reg_wf g → reg_wf g' ∧ calm g g'.

Lemma keeps_refl g : keeps g g.
Proof. intros ?. split; [done|]. split; eauto. Qed.
Lemma keeps_trans g1 g2 g3 : keeps g1 g2 → keeps g2 g3 → keeps g1 g3.
Proof.
  intros H12 H23 W1. destruct (H12 W1) as (W2 & E12 & C12). destruct (H23 W2) as (W3 & E23 & C23).
  split; [done|]. split; [congruence|]. intros r s3 N3. destruct (C23 r s3 N3) as (s2 & N2 & K2).
  destruct (C12 r s2 N2) as (s1 & N1 & K1). exists s1. split; [done|congruence].
Qed.
Lemma keeps_foldl {A B} (f : A → B → A) (proj : A → linkRegistry) l a :
  (∀ a b, keeps (proj a) (proj (f a b))) → keeps (proj a) (proj (foldl f a l)).
Proof.
  intros Hf. revert a. induction l as [|b l IH]; intros a; simpl; [apply keeps_refl|].
  eapply keeps_trans; [apply Hf|apply IH].
Qed.
Lemma keeps_inv g g' : keeps g g' → reg_inv g → reg_inv g'.
Proof.
  intros Hk [W R]. destruct (Hk W) as (W' & E & C). split; [done|].
  intros r s' N. destruct (C r s' N) as (s & N' & K). destruct (R r s N') as (ev & H1 & H2).
  exists ev. by rewrite E, <- K.
Qed.

(** Changes of a single state that the invariant does not notice. *)
Definition state_le (s' s : linkState) : Prop :=
  state_ok s' ∧ ls_linkKey s' = ls_linkKey s ∧ ls_dest s' = ls_dest s ∧
  ls_dialActive s' = ls_dialActive s ∧ (ls_status s' = StatusDialing → ls_status s = StatusDialing).

Lemma put_state_wf g r s s' :
  reg_wf g → lr_states g !! r = Some s → state_ok s' → ls_linkKey s' = ls_linkKey s →
  ls_dest s' = ls_dest s → ls_dialActive s' = ls_dialActive s → reg_wf (put_state r s' g).
Proof.
  intros [I1 I2 I3 I4 I5 I6 I7 I8] Hr Hok Hk Hd Ha. split; simpl; try done.
  - intros r0 s0 H. apply lookup_insert_Some in H as [[<- <-]|[_ H]]; [|by apply I1 in H].
    split; [done|]. rewrite Hd. by apply (I1 r).
  - intros r0. rewrite I3. destruct (decide (r0 = r)) as [->|Hne].
    + rewrite lookup_insert_eq, Hr. split; intros (x & [= <-] & Hx); eexists; (split; [done|]); congruence.
    + by rewrite lookup_insert_ne.
  - intros d dest k r0 H1 H2. destruct (I4 d dest k r0 H1 H2) as (H3 & s0 & H4 & H5 & H6).
    split; [done|]. destruct (decide (r0 = r)) as [->|Hne].
    + exists s'. rewrite lookup_insert_eq. simplify_eq. by rewrite Hk, Hd.
    + exists s0. by rewrite lookup_insert_ne.
Qed.

Lemma put_state_keeps g r s s' :
  lr_states g !! r = Some s → (state_ok s → state_le s' s) → keeps g (put_state r s' g).
Proof.
  intros Hr Hle W. destruct (inv_states g W r s Hr) as [Hok _].
  destruct (Hle Hok) as (Hok' & Hk & Hd & Ha & Hs).
  split; [by eapply put_state_wf|]. split; [done|]. intros r0 s0 (Hreg & H & Hn1 & Hn2).
  simpl in *. destruct (decide (r0 = r)) as [->|Hne].
  - rewrite lookup_insert_eq in H. simplify_eq. exists s. rewrite Hk in *.
    split; [|done]. split; [done|]. split; [done|]. split; [auto|]. by rewrite <- Ha.
  - rewrite lookup_insert_ne in H by done. by exists s0.
Qed.

Lemma updateStatus_link v s : v ≠ StatusEstablished → state_ok s →
  state_ok (updateStatus v s) ∧ ls_status (updateStatus v s) = v.
Proof.
  intros Hv [H1 H2]. unfold updateStatus. case_bool_decide as He; [by subst|].
  rewrite bool_decide_false by done. simpl. split; [|done]. split; [|done]. simpl.
  split; [by intros []|done].
Qed.

Lemma updateStatus_frame v s :
  ls_linkKey (updateStatus v s) = ls_linkKey s ∧ ls_dest (updateStatus v s) = ls_dest s ∧
  ls_dialActive (updateStatus v s) = ls_dialActive s ∧ ls_status (updateStatus v s) = v ∧
  ls_linkFaults (updateStatus v s) = ls_linkFaults s ∧
  ls_dialAttempts (updateStatus v s) = ls_dialAttempts s ∧
  ls_linkId (updateStatus v s) = ls_linkId s ∧ ls_nextDial (updateStatus v s) = ls_nextDial s.
Proof. unfold updateStatus. case_bool_decide; [by subst|done]. Qed.

(** Leaving [StatusEstablished] or changing between failed states. *)
Lemma updateStatus_le v s : state_ok s → v ≠ StatusEstablished → v ≠ StatusDialing →
  state_le (updateStatus v s) s.
Proof.
  intros Hok Hv Hd. destruct (updateStatus_link v s Hv Hok) as [H1 H2].
  destruct (updateStatus_frame v s) as (F1 & F2 & F3 & _).
  split_and!; try done. congruence.
Qed.

(** Fields that no invariant mentions. *)
Lemma set_retry_le a b s : state_ok s → state_le (set_retry a b s) s.
Proof. intros [? ?]. by split_and!. Qed.
Lemma set_allowedDials_le a s : state_ok s → state_le (set_allowedDials a s) s.
Proof. intros [? ?]. by split_and!. Qed.
Lemma set_listener_le a s : state_ok s → state_le (set_listener a s) s.
Proof. intros [? ?]. by split_and!. Qed.
Lemma set_notified_le a b s : state_ok s → state_le (set_notified a b s) s.
Proof. intros [? ?]. by split_and!. Qed.
Lemma state_le_refl s : state_ok s → state_le s s.
Proof. intros ?. by split_and!. Qed.
Lemma state_le_trans s1 s2 s3 : state_le s1 s2 → state_le s2 s3 → state_le s1 s3.
Proof. intros (? & ? & ? & ? & ?) (? & ? & ? & ? & ?). split_and!; [done|congruence..|auto]. Qed.

(** *** Faults *)

Lemma raiseFault_Some id it fs fs' : raiseFault id it fs = Some fs' →
  lf_linkId <$> fs' = lf_linkId <$> fs.
Proof.
  revert fs'. induction fs as [|f fs IH]; intros fs' H; simpl in H; [done|].
  case_bool_decide as He.
  - simplify_eq. csimpl. f_equal. by destruct (lf_iteration f <? it).
  - destruct (raiseFault id it fs) as [fs0|] eqn:E; simplify_eq/=. csimpl. f_equal. by apply IH.
Qed.

Lemma raiseFault_None id it fs : raiseFault id it fs = None ↔ id ∉ lf_linkId <$> fs.
Proof.
  induction fs as [|f fs IH]; csimpl; [split; [intros _; apply not_elem_of_nil|done]|].
  rewrite not_elem_of_cons. case_bool_decide as He; [split; [done|naive_solver]|].
  destruct (raiseFault id it fs); simpl; naive_solver.
Qed.

Lemma addPendingLinkFault_nodup id it s :
  NoDup (lf_linkId <$> ls_linkFaults s) →
  NoDup (lf_linkId <$> ls_linkFaults (addPendingLinkFault id it s)).
Proof.
  intros Hn. unfold addPendingLinkFault. simpl.
  destruct (raiseFault id it (ls_linkFaults s)) as [fs|] eqn:E; simpl.
  - by rewrite (raiseFault_Some _ _ _ _ E).
  - apply raiseFault_None in E. rewrite fmap_app. apply NoDup_app. split_and!; [done| |].
    + intros x Hx Hx'. csimpl in Hx'. apply list_elem_of_singleton in Hx'. by subst.
    + apply NoDup_singleton.
Qed.

Lemma set_faults_le fs s : state_ok s → NoDup (lf_linkId <$> fs) → state_le (set_faults fs s) s.
Proof. intros [H1 _] Hn. by split_and!. Qed.

Lemma filter_faults_nodup (P : linkFault → Prop) `{∀ f, Decision (P f)} fs :
  NoDup (lf_linkId <$> fs) → NoDup (lf_linkId <$> filter P fs).
Proof.
  intros Hn. eapply sublist_NoDup; [exact Hn|]. apply fmap_sublist, sublist_filter.
Qed.

(** *** Failing a dial *)

Lemma registered_put_dest g d dest dest' r k :
  lr_dests g !! d = Some dest → ld_linkMap dest' ⊆ ld_linkMap dest →
  registered (put_dest d dest' g) r k → registered g r k.
Proof.
  intros Hd Hsub (id & d0 & dest0 & H1 & H2 & H3). simpl in *.
  apply lookup_insert_Some in H2 as [[<- <-]|[_ H2]]; [|by exists id, d0, dest0].
  exists id, d, dest. split_and!; [done|done|]. by eapply lookup_weaken.
Qed.

Lemma put_dest_keeps g d dest dest' :
  lr_dests g !! d = Some dest → ld_id dest' = ld_id dest →
  ld_linkMap dest' ⊆ ld_linkMap dest → keeps g (put_dest d dest' g).
Proof.
  intros Hd Hid Hsub [I1 I2 I3 I4 I5 I6 I7 I8]. split; [split; simpl; try done|].
  - intros r s H. destruct (I1 r s H) as [? ?]. split; [done|].
    destruct (decide (ls_dest s = d)) as [->|]; [by rewrite lookup_insert_eq|by rewrite lookup_insert_ne].
  - intros d0 dest0 k r H H2. apply lookup_insert_Some in H as [[<- <-]|[_ H]]; [|by eapply I4].
    rewrite Hid. apply (I4 d dest); [done|]. by eapply lookup_weaken.
  - intros id d0 H. destruct (I5 id d0 H) as (dest0 & H1 & H2).
    destruct (decide (d = d0)) as [<-|].
    + rewrite lookup_insert_eq. exists dest'. split; [done|]. congruence.
    + rewrite lookup_insert_ne by done. eauto.
  - split; [done|]. intros r s (Hreg & Hs & Hn). exists s. split; [|done].
    split; [by eapply registered_put_dest|done].
Qed.

Lemma set_queue_keeps g q : keeps g (set_queue q g).
Proof. intros []. split; [done|]. split; [done|]. intros r s N. by exists s. Qed.

Lemma dialFailed_keeps env r b g : keeps g (dialFailed env r b g).
Proof.
  unfold dialFailed. destruct (lr_states g !! r) as [s|] eqn:Er; [|apply keeps_refl].
  set (s1 := if ls_allowedDials s >? 0 then _ else s).
  assert (state_ok s → state_le s1 s) as Hle
    by (unfold s1; destruct (ls_allowedDials s >? 0); auto using set_allowedDials_le, state_le_refl).
  destruct (lr_dests g !! ls_dest s1) as [d|] eqn:Ed; [|apply keeps_refl].
  destruct (ls_allowedDials s1 =? 0).
  - eapply keeps_trans; [by apply (put_state_keeps g r s s1)|].
    eapply put_dest_keeps; [exact Ed|done|apply delete_subseteq].
  - eapply keeps_trans; [apply (put_state_keeps g r s)|apply set_queue_keeps]; [done|].
    intros Hok. eapply state_le_trans; [|by apply Hle]. apply set_retry_le. by apply Hle.
Qed.

(** *** Dialing *)

Lemma set_dial_ok b n s : state_ok s → state_ok (set_dial b n s).
Proof. by intros [? ?]. Qed.

(** Queueing a job for a state that has none. *)
Lemma queueJob_keeps g r s s' :
  lr_states g !! r = Some s → ls_dialActive s = false → state_ok s' →
  ls_linkKey s' = ls_linkKey s → ls_dest s' = ls_dest s → ls_dialActive s' = true →
  keeps g (set_jobs (lr_jobs g ++ [(r, false)]) (put_state r s' g)).
Proof.
  intros Hr Hact Hok Hk Hd Ha W. destruct W as [I1 I2 I3 I4 I5 I6 I7 I8] eqn:EW. clear EW.
  assert (r ∉ (lr_jobs g).*1) as Hnew.
  { intros (x & Hx & ?)%I3. congruence. }
  split; [split; simpl; try done|].
  - intros r0 s0 H. apply lookup_insert_Some in H as [[<- <-]|[_ H]]; [|by apply I1 in H].
    split; [done|]. rewrite Hd. by apply (I1 r).
  - rewrite fmap_app. apply NoDup_app. split_and!; [done| |apply NoDup_singleton].
    intros x Hx Hx'. apply list_elem_of_singleton in Hx'. simpl in Hx'. by subst.
  - intros r0. rewrite fmap_app, elem_of_app, I3. simpl. rewrite list_elem_of_singleton.
    destruct (decide (r0 = r)) as [->|Hne].
    + rewrite lookup_insert_eq. split; eauto.
    + rewrite lookup_insert_ne by done. split; [by intros [?|?]|auto].
  - intros d dest k r0 H1 H2. destruct (I4 d dest k r0 H1 H2) as (H3 & s0 & H4 & H5 & H6).
    split; [done|]. destruct (decide (r0 = r)) as [->|Hne].
    + exists s'. rewrite lookup_insert_eq. simplify_eq. by rewrite Hk, Hd.
    + exists s0. by rewrite lookup_insert_ne.
  - split; [done|]. intros r0 s0 (Hreg & H & Hn1 & Hn2). simpl in *.
    rewrite elem_of_app, list_elem_of_singleton in Hn2.
    destruct (decide (r0 = r)) as [->|Hne].
    + rewrite lookup_insert_eq in H. simplify_eq. exfalso.
      destruct Hn2 as [?|[[Hj|?] _]]; [congruence| |done]. apply Hnew.
      apply list_elem_of_fmap. by exists (r, true).
    + rewrite lookup_insert_ne in H by done. exists s0. split; [|done]. split; [done|].
      split; [done|]. split; [done|]. naive_solver.
Qed.

Lemma evaluateLinkState_keeps env r g : keeps g (evaluateLinkState env r g).
Proof.
  unfold evaluateLinkState. destruct (lr_states g !! r) as [s|] eqn:Er; [|apply keeps_refl].
  destruct (couldDial (e_later env) s) eqn:Ec; [|apply keeps_refl].
  destruct (ls_dialActive s) eqn:Ea; [apply keeps_refl|]. simpl.
  unfold couldDial in Ec. bool_prop.
  intros W. pose proof W as W'. destruct (inv_states g W' r s Er) as [Hok _]. revert W.
  destruct (updateStatus_link StatusDialing s ltac:(done) Hok) as [Hok1 _].
  destruct (updateStatus_frame StatusDialing s) as (F1 & F2 & _).
  change (keeps g (if e_pool env r
    then set_jobs (lr_jobs g ++ [(r, false)]) (put_state r
      (set_dial true (wrap_u 64 (ls_dialAttempts s + 1)) (updateStatus StatusDialing s)) g)
    else dialFailed env r false (put_state r (updateStatus StatusQueueFailed (set_dial false
      (wrap_u 64 (ls_dialAttempts s + 1))
      (set_dial true (wrap_u 64 (ls_dialAttempts s + 1)) (updateStatus StatusDialing s)))) g))).
  destruct (e_pool env r).
  - eapply queueJob_keeps; [done|done| |done|done|done]. by apply set_dial_ok.
  - eapply keeps_trans; [|apply dialFailed_keeps]. apply (put_state_keeps g r s _ Er). intros _.
    set (s1 := set_dial false _ _).
    destruct (updateStatus_link StatusQueueFailed s1 ltac:(done)) as [Hok2 Hst].
    { by repeat apply set_dial_ok. }
    destruct (updateStatus_frame StatusQueueFailed s1) as (G1 & G2 & G3 & _).
    split_and!; [done|rewrite G1; exact F1|rewrite G2; exact F2|rewrite G3; by rewrite Ea|congruence].
Qed.

(** *** Ticks *)

Lemma evaluateLinkStateQueue_keeps fuel env g g' :
  evaluateLinkStateQueue fuel env g = Some g' → keeps g g'.
Proof.
  revert g. induction fuel as [|fuel IH]; intros g H; simpl in H; [done|].
  destruct (lr_linkStateQueue g) as [|next q]; simplify_eq; [apply keeps_refl|].
  destruct (e_now env <? nextDialOf g next); simplify_eq; [apply keeps_refl|].
  eapply keeps_trans; [|by apply IH]. eapply keeps_trans; [apply set_queue_keeps|].
  apply evaluateLinkState_keeps.
Qed.

Lemma checkEstablished_keeps env r g : keeps g (checkEstablished env r g).1.
Proof.
  unfold checkEstablished. destruct (lr_states g !! r) as [s|] eqn:Er; [|apply keeps_refl].
  case_bool_decide; [|apply keeps_refl].
  assert (keeps g (put_state r (updateStatus StatusLinkFailed (set_retry 0 (e_now env) s)) g)) as Hk.
  { apply (put_state_keeps g r s _ Er). intros Hok. pose proof (set_retry_le 0 (e_now env) s Hok).
    eapply state_le_trans; [|done]. by apply updateStatus_le. }
  destruct (GetLink g (ls_linkKey s)) as [x|]; [|done]. destruct (e_closed env x); [done|apply keeps_refl].
Qed.

Lemma set_destinations_keeps g m :
  m ⊆ lr_destinations g → keeps g (set_destinations m g).
Proof.
  intros Hm [I1 I2 I3 I4 I5 I6 I7 I8]. split; [split; simpl; try done|split; [done|]].
  - intros id d H. apply (I5 id d). by eapply lookup_weaken.
  - intros r s ((id & d & dest & H1 & H2 & H3) & Hs & Hn). exists s. split; [|done].
    split; [|done]. exists id, d, dest. split_and!; [|done|done]. by eapply lookup_weaken.
Qed.

Lemma evaluateDestinations_keeps env g : keeps g (evaluateDestinations env g).
Proof.
  apply (keeps_foldl (evaluateDestination env) (λ g, g)). clear g. intros g [id d].
  unfold evaluateDestination. simpl.
  pose proof (keeps_foldl (evaluateState env) fst (statesOf g d) (g, false)) as Hk.
  destruct (foldl (evaluateState env) (g, false) (statesOf g d)) as [g1 est]. simpl in Hk.
  eapply keeps_trans; [apply Hk|].
  - intros [g2 b] r. unfold evaluateState. simpl.
    pose proof (checkEstablished_keeps env r g2). destruct (checkEstablished env r g2) as [g3 e3].
    simpl in *. eapply keeps_trans; [done|apply evaluateLinkState_keeps].
  - destruct (lr_dests g1 !! d); [|apply keeps_refl].
    destruct (_ || _); [|apply keeps_refl]. apply set_destinations_keeps, delete_subseteq.
Qed.

Lemma notifyState_keeps env acc r : keeps acc.1 (notifyState env acc r).1.
Proof.
  destruct acc as [g n]. unfold notifyState. simpl.
  destruct (lr_states g !! r) as [s|] eqn:Er; [|apply keeps_refl].
  destruct (negb (ls_ctrlsNotified s) && bool_decide (ls_status s = StatusEstablished)) eqn:Ec;
    [|simpl; by case_bool_decide; apply keeps_refl].
  unfold notifyEstablished. destruct (GetLink g (ls_linkKey s)) as [x|]; simpl.
  - apply (put_state_keeps g r s _ Er). intros Hok. apply set_faults_le; [done|].
    by apply filter_faults_nodup, Hok.
  - eapply keeps_trans; [|apply dialFailed_keeps].
    apply (put_state_keeps g r s _ Er). intros Hok. by apply updateStatus_le.
Qed.

Lemma notifyTick_keeps env accepted y : keeps y.1 (notifyTick env accepted y).1.
Proof.
  destruct y as [g [n|]]; [apply keeps_refl|]. unfold notifyTick, notifyControllersOfLinks. simpl.
  pose proof (keeps_foldl (notifyState env) fst
    (concat (statesOf g <$> (map_to_list (lr_destinations g)).*2)) (g, mkNotify [] [])
    (notifyState_keeps env)) as Hk.
  by destruct (foldl _ _ _) as [g1 n1].
Qed.

(** *** Links and events *)

Lemma queueEvent_inv ev g : event_ok ev → reg_inv g → reg_inv (queueEvent ev g).
Proof.
  intros Hev [[I1 I2 I3 I4 I5 I6 I7 I8] R]. split; [split; simpl; try done|].
  - intros ev0 [?|?%list_elem_of_singleton]%elem_of_app; [auto|by subst].
  - intros r s N. destruct (R r s N) as (ev0 & H1 & H2). exists ev0. split; [|done].
    apply elem_of_app. by left.
Qed.

Lemma set_links_keeps g m b :
  m ⊆ lr_linkMap g → b ⊆ lr_linkByIdMap g →
  (∀ k x, m !! k = Some x → lr_linkByIdMap g !! x_Id x = Some x → b !! x_Id x = Some x) →
  keeps g (set_links m b g).
Proof.
  intros Hm Hb Hidx [I1 I2 I3 I4 I5 I6 I7 I8]. split; [split; simpl; try done|split; [done|]].
  - intros k x Hk. destruct (I6 k x) as (H1 & H2 & H3); [by eapply lookup_weaken|]. eauto.
  - intros i x Hi. apply I7. by eapply lookup_weaken.
  - intros r s (Hreg & Hs & Hn1 & Hn2). exists s. split; [|done]. split; [done|]. split; [done|].
    split; [done|]. destruct Hn2 as [?|[Hj [x Hx]]]; [by left|right].
    split; [done|]. exists x. by eapply lookup_weaken.
Qed.

Lemma LinkClosed_inv x g : link_wf x → reg_inv g → reg_inv (LinkClosed x g).
Proof.
  intros Hx Hg. unfold LinkClosed.
  set (g' := set_links _ _ _).
  assert (reg_inv g') as Hg'.
  { eapply keeps_inv; [|exact Hg]. apply set_links_keeps.
    - destruct (isCurrent x (lr_linkMap g !! x_Key x)); [apply delete_subseteq|done].
    - destruct (isCurrent x (lr_linkByIdMap g !! x_Id x)); [apply delete_subseteq|done].
    - intros k y Hk Hi. destruct (isCurrent x (lr_linkByIdMap g !! x_Id x)) eqn:Ei; [|done].
      apply lookup_delete_Some. split; [|done]. intros Heq.
      assert (lr_linkMap g !! k = Some y) as Hk'.
      { destruct (isCurrent x (lr_linkMap g !! x_Key x)); [|done].
        by apply lookup_delete_Some in Hk as [_ ?]. }
      destruct Hg as [W _]. destruct (inv_links g W k y Hk') as (Hky & [_ Hky'] & _).
      assert (x_Key x = k) as Hkx by (rewrite <- Hky, Hky', <- Heq; apply Hx).
      rewrite Heq, Hi in Ei. rewrite Hkx, Hk' in Hk. rewrite Ei in Hk.
      by rewrite lookup_delete_eq in Hk. }
  destruct (isCurrent x (lr_linkMap g !! x_Key x)); apply queueEvent_inv; try done.
  split; [done|by right].
Qed.

Lemma DebugForgetLink_keeps id g : keeps g (DebugForgetLink id g).1.
Proof.
  unfold DebugForgetLink. destruct (lr_linkByIdMap g !! id) as [x|] eqn:E; [|apply keeps_refl].
  intros W. revert W. simpl. intros W. pose proof W as W'. revert W.
  apply set_links_keeps; [apply delete_subseteq..|].
  intros k y [Hne Hk]%lookup_delete_Some Hi. apply lookup_delete_Some. split; [|done].
  intros ->. rewrite Hi in E. simplify_eq. apply Hne. by apply (inv_links g W').
Qed.

Lemma registerLink_inv x g : link_wf x → reg_inv g → reg_inv (registerLink x g).
Proof.
  intros Hx [[I1 I2 I3 I4 I5 I6 I7 I8] R]. split; [split; simpl; try done|].
  - intros k y H. apply lookup_insert_Some in H as [[<- <-]|[Hne H]].
    { split_and!; [done|exact Hx|apply lookup_insert_eq]. }
    destruct (I6 k y H) as (H1 & H2 & H3). split_and!; [done|exact H2|].
    rewrite lookup_insert_ne; [done|]. intros Heq. apply Hne. rewrite <- H1.
    destruct Hx as [_ ->], H2 as [_ ->]. by rewrite Heq.
  - intros i y H. apply lookup_insert_Some in H as [[<- <-]|[Hne H]]; [done|by apply I7].
  - intros ev [?|?%list_elem_of_singleton]%elem_of_app; [auto|subst]. split; [done|by left].
  - intros r s (Hreg & Hs & Hn1 & Hn2). simpl in *. destruct (decide (x_Key x = ls_linkKey s)) as [He|He].
    + exists (EvUpdateLinkStatusForLink x StatusEstablished). split; [set_solver|done].
    + rewrite lookup_insert_ne in Hn2 by done. destruct (R r s) as (ev & H1 & H2); [done|].
      exists ev. set_solver.
Qed.

Lemma set_dups_keeps g d : keeps g (set_dups d g).
Proof. intros []. split; [done|]. split; [done|]. intros r s N. by exists s. Qed.

(** [applyLink] either registers the link, keeps what it has because the key is
    taken, or rejects a closed link. *)
Lemma applyLink_inv env x g :
  link_wf x → reg_inv g →
  let '(g', _, existing, success) := applyLink env x g in
  reg_inv g' ∧ lr_states g' = lr_states g ∧ lr_jobs g' = lr_jobs g ∧
  (∀ r k, registered g' r k → registered g r k) ∧
  (is_Some (lr_linkMap g' !! x_Key x) ∨ (success = false ∧ existing = None)).
Proof.
  intros Hx Hg. unfold applyLink. destruct (e_closed env x); [by split_and!; auto|].
  assert (∀ g, is_Some (lr_linkMap (registerLink x g) !! x_Key x)) as Hreg.
  { intros g0. simpl. rewrite lookup_insert_eq. eauto. }
  unfold GetLink. destruct (lr_linkMap g !! x_Key x) as [y|] eqn:E.
  2:{ split_and!; [by apply registerLink_inv|done..|by left]. }
  case_bool_decide; [split_and!; eauto|].
  set (d := if String.ltb (x_Id y) (x_Id x) then _ else (g, false)).
  assert (reg_inv d.1 ∧ lr_states d.1 = lr_states g ∧ lr_jobs d.1 = lr_jobs g ∧
    lr_linkMap d.1 = lr_linkMap g ∧ (∀ r k, registered d.1 r k → registered g r k)) as (H1 & H2 & H3 & H4 & H5).
  { unfold d. destruct (String.ltb _ _); [|by split_and!]. simpl. split_and!; try done.
    eapply keeps_inv; [apply set_dups_keeps|done]. }
  destruct d as [g1 keep]. simpl in *. destruct keep.
  - split_and!; try done. left. rewrite H4, E. eauto.
  - split_and!; [by apply registerLink_inv|done|done|exact H5|left; apply Hreg].
Qed.

(** *** Dial jobs *)

Lemma filter_job (l : list job) r ph r0 :
  NoDup l.*1 → (r, ph) ∈ l →
  r0 ∈ (filter (λ j, j ≠ (r, ph)) l).*1 ↔ r0 ∈ l.*1 ∧ r0 ≠ r.
Proof.
  intros Hn Hin. rewrite !list_elem_of_fmap. split.
  - intros ([r1 b] & -> & [Hne Hj]%list_elem_of_filter). simpl. split; [by exists (r1, b)|].
    intros ->. apply Hne. f_equal.
    apply list_elem_of_lookup in Hin as [i Hi]. apply list_elem_of_lookup in Hj as [j Hj].
    assert (i = j) as ->; [|by simplify_eq].
    eapply (NoDup_lookup l.*1); [done| |]; rewrite list_lookup_fmap; [by rewrite Hi|by rewrite Hj].
  - intros [([r1 b] & -> & Hj) Hne]. exists (r1, b). split; [done|].
    apply list_elem_of_filter. split; [|done]. intros [= -> ->]. by apply Hne.
Qed.

Lemma endJob_inv r ph g :
  reg_inv g → (r, ph) ∈ lr_jobs g →
  (∀ s, registered g r (ls_linkKey s) → lr_states g !! r = Some s → ls_status s = StatusDialing →
     ∃ ev, ev ∈ lr_events g ∧ resets ev r (ls_linkKey s)) →
  reg_inv (endJob r ph g).
Proof.
  intros [[I1 I2 I3 I4 I5 I6 I7 I8] R] Hj Hev. unfold endJob.
  destruct (proj1 (I3 r)) as (s & Hs & _). { apply list_elem_of_fmap. by exists (r, ph). }
  rewrite Hs. split; [split; simpl; try done|].
  - intros r0 s0 H. apply lookup_insert_Some in H as [[<- <-]|[_ H]]; [|by apply I1 in H].
    destruct (I1 r s Hs). split; [by apply set_dial_ok|done].
  - eapply sublist_NoDup; [exact I2|]. apply fmap_sublist, sublist_filter.
  - intros r0. rewrite filter_job, I3 by done. destruct (decide (r0 = r)) as [->|Hne].
    + rewrite lookup_insert_eq. split; [by intros [_ ?]|by intros (? & [= <-] & ?)].
    + rewrite lookup_insert_ne by done. naive_solver.
  - intros d dest k r0 H1 H2. destruct (I4 d dest k r0 H1 H2) as (H3 & s0 & H4 & H5 & H6).
    split; [done|]. destruct (decide (r0 = r)) as [->|Hne].
    + exists (set_dial false (ls_dialAttempts s) s). rewrite lookup_insert_eq. by simplify_eq.
    + exists s0. by rewrite lookup_insert_ne.
  - intros r0 s0 (Hreg & H & Hn1 & Hn2). simpl in *. destruct (decide (r0 = r)) as [->|Hne].
    + rewrite lookup_insert_eq in H. simplify_eq. by apply (Hev s).
    + rewrite lookup_insert_ne in H by done. apply R. split; [done|]. split; [done|].
      split; [done|]. destruct Hn2 as [?|[[_ ?]%list_elem_of_filter ?]]; auto.
Qed.

Lemma dialJob_start_inv r g : (r, false) ∈ lr_jobs g → reg_inv g → reg_inv (dialJob_start r g).
Proof.
  intros Hj Hg. unfold dialJob_start, GetLink. destruct (lr_states g !! r) as [s|] eqn:Es; [|done].
  destruct (lr_linkMap g !! ls_linkKey s) as [x|] eqn:Ex.
  - destruct (inv_links g (proj1 Hg) _ _ Ex) as (Hk & Hwf & _).
    apply endJob_inv; [apply queueEvent_inv; [split; [done|by left]|done]|done|].
    intros s0 _ Hs0 _. simpl in *. simplify_eq.
    exists (EvUpdateLinkStatusForLink x StatusEstablished). split; [set_solver|done].
  - destruct Hg as [[I1 I2 I3 I4 I5 I6 I7 I8] R].
    set (f := λ j : job, if bool_decide (j = (r, false)) then (r, true) else j).
    assert ((f <$> lr_jobs g).*1 = (lr_jobs g).*1) as Hf.
    { rewrite <- list_fmap_compose. apply list_fmap_ext. intros i [r1 b] _. unfold f. simpl.
      case_bool_decide; by simplify_eq. }
    split; [split; simpl; try done; fold f; rewrite Hf; done|].
    intros r0 s0 (Hreg & Hs0 & Hn1 & Hn2). simpl in *. apply R. split; [done|]. split; [done|].
    split; [done|]. destruct Hn2 as [?|[(j & Hj1 & Hj2)%list_elem_of_fmap Hl]]; [by left|].
    unfold f in Hj1. case_bool_decide; simplify_eq; [|by right]. rewrite Ex in Hl. by destruct Hl.
Qed.

Lemma dialJob_finish_inv env r dialed g :
  (r, true) ∈ lr_jobs g →
  (∀ x s, dialed = Some x → lr_states g !! r = Some s → link_wf x ∧ x_Key x = ls_linkKey s) →
  reg_inv g → reg_inv (dialJob_finish env r dialed g).1.
Proof.
  intros Hj Hd Hg. unfold dialJob_finish.
  assert (∀ g0 b, reg_inv g0 → (r, true) ∈ lr_jobs g0 →
    reg_inv (endJob r true (registry_dialFailed r b g0))) as Hfail.
  { intros g0 b H0 H1. apply endJob_inv; [by apply queueEvent_inv|done|]. intros s _ _ _.
    exists (EvUpdateLinkStatusToDialFailed r false). split; [set_solver|done]. }
  destruct dialed as [x|]; [|by apply Hfail].
  destruct (proj1 (inv_jobs g (proj1 Hg) r)) as (s & Hs & _).
  { apply list_elem_of_fmap. by exists (r, true). }
  destruct (Hd x s eq_refl Hs) as [Hwf Hk].
  pose proof (applyLink_inv env x g Hwf Hg) as Ha. unfold DialSucceeded.
  destruct (applyLink env x g) as [[[g1 effs] existing] success].
  destruct Ha as (H1 & H2 & H3 & H4 & H5). rewrite <- H3 in Hj. simpl.
  destruct (negb success && bool_decide (existing = None)) eqn:E; [by apply Hfail|].
  apply endJob_inv; [done|done|]. intros s0 Hreg Hs0 Hst.
  destruct H5 as [Hl|[-> ->]]; [|by rewrite bool_decide_true in E].
  apply H1. split; [done|]. split; [done|]. split; [done|]. right. split; [done|].
  rewrite H2, Hs in Hs0. simplify_eq. by rewrite <- Hk.
Qed.

(** *** Event handlers *)

Lemma removeLinkDest_keeps id g : keeps g (removeLinkDest_Handle id g).1.
Proof.
  unfold removeLinkDest_Handle. destruct (lr_destinations g !! id) as [d|]; [|apply keeps_refl].
  eapply keeps_trans; [apply (set_destinations_keeps g (delete id (lr_destinations g))), delete_subseteq|].
  apply (keeps_foldl _ fst _ (_, [])). intros [g1 effs] r. simpl.
  destruct (lr_states g1 !! r) as [s|] eqn:Er; [|apply keeps_refl].
  apply (put_state_keeps g1 r s _ Er). intros Hok. by apply updateStatus_le.
Qed.

(** A fresh destination object without link states. *)
Lemma newDest_keeps g id d dest :
  lr_destinations g !! id = None → lr_dests g !! d = None → ld_id dest = id → ld_linkMap dest = ∅ →
  keeps g (put_dest d dest (set_destinations (<[id := d]> (lr_destinations g)) g)).
Proof.
  intros Hid Hd Hi Hm [I1 I2 I3 I4 I5 I6 I7 I8]. split; [split; simpl; try done|split; [done|]].
  - intros r s H. destruct (I1 r s H) as [? [x Hx]]. split; [done|].
    rewrite lookup_insert_ne by congruence. eauto.
  - intros d0 dest0 k r H H2. apply lookup_insert_Some in H as [[<- <-]|[_ H]]; [|by eapply I4].
    by rewrite Hm, lookup_empty in H2.
  - intros id0 d0 H. apply lookup_insert_Some in H as [[<- <-]|[_ H]].
    { exists dest. by rewrite lookup_insert_eq. }
    destruct (I5 id0 d0 H) as (x & H1 & H2). exists x. rewrite lookup_insert_ne by congruence. done.
  - intros r s ((id0 & d0 & dest0 & H1 & H2 & H3) & Hs & Hn). exists s. split; [|done].
    split; [|done]. simpl in *. apply lookup_insert_Some in H2 as [[<- <-]|[Hne H2]].
    { by rewrite Hm, lookup_empty in H3. }
    apply lookup_insert_Some in H1 as [[_ ?]|[_ H1]]; [done|]. by exists id0, d0, dest0.
Qed.

(** A fresh link state under a key of the destination that is free. *)
Lemma newState_keeps g r d dest k listener dialer uuid :
  lr_states g !! r = None → lr_dests g !! d = Some dest → ld_linkMap dest !! k = None →
  destOf k = ld_id dest →
  keeps g (put_dest d (mkLinkDest (ld_id dest) (ld_version dest) (ld_healthy dest)
             (ld_unhealthyAt dest) (<[k := r]> (ld_linkMap dest)))
            (put_state r (newLinkState k uuid d listener dialer) g)).
Proof.
  intros Hr Hd Hk Hdest [I1 I2 I3 I4 I5 I6 I7 I8]. split; [split; simpl; try done|split; [done|]].
  - intros r0 s H. assert (∀ d0, is_Some (lr_dests g !! d0) →
      is_Some (<[d := mkLinkDest (ld_id dest) (ld_version dest) (ld_healthy dest)
             (ld_unhealthyAt dest) (<[k := r]> (ld_linkMap dest))]> (lr_dests g) !! d0)) as Hex.
    { intros d0 ?. apply lookup_insert_is_Some. destruct (decide (d = d0)); auto. }
    apply lookup_insert_Some in H as [[<- <-]|[_ H]].
    + split; [|apply Hex; eauto]. split; [|constructor]. simpl. by split; [intros []|].
    + destruct (I1 r0 s H). auto.
  - intros r0. rewrite I3. destruct (decide (r0 = r)) as [->|Hne].
    + rewrite lookup_insert_eq, Hr. split; [by intros (? & ? & _)|by intros (? & [= <-] & ?)].
    + by rewrite lookup_insert_ne.
  - intros d0 dest0 k0 r0 H H2.
    assert (∀ d1 dest1, lr_dests g !! d1 = Some dest1 → ld_linkMap dest1 !! k0 = Some r0 →
      destOf k0 = ld_id dest1 ∧ ∃ s, <[r := newLinkState k uuid d listener dialer]> (lr_states g) !! r0
        = Some s ∧ ls_linkKey s = k0 ∧ ls_dest s = d1) as Hold.
    { intros d1 dest1 H3 H4. destruct (I4 d1 dest1 k0 r0 H3 H4) as (? & s & ? & ?).
      split; [done|]. exists s. rewrite lookup_insert_ne by congruence. done. }
    apply lookup_insert_Some in H as [[<- <-]|[_ H]]; [|by apply Hold]. simpl in *.
    apply lookup_insert_Some in H2 as [[<- <-]|[_ H2]]; [|by apply Hold].
    split; [done|]. eexists. rewrite lookup_insert_eq. done.
  - intros id0 d0 H. destruct (I5 id0 d0 H) as (x & H1 & H2).
    destruct (decide (d = d0)) as [<-|]; [rewrite lookup_insert_eq|rewrite lookup_insert_ne by done; eauto].
    simplify_eq. eauto.
  - intros r0 s (Hreg & Hs & Hn1 & Hn2). simpl in *.
    apply lookup_insert_Some in Hs as [[<- <-]|[Hne Hs]]; [done|]. exists s. split; [|done].
    split; [|done]. destruct Hreg as (id0 & d0 & dest0 & H1 & H2 & H3). simpl in *.
    apply lookup_insert_Some in H2 as [[<- <-]|[_ H2]]; [|by exists id0, d0, dest0]. simpl in H3.
    apply lookup_insert_Some in H3 as [[_ ?]|[_ H3]]; [done|]. by exists id0, d, dest.
Qed.

Lemma applyListener_keeps env d id b acc l dialer :
  (∀ dest, lr_dests acc.1.1 !! d = Some dest → ld_id dest = id) →
  (∀ legacy, destOf (GetLinkKey legacy (di_Binding dialer) (li_Protocol l) id (li_LocalBinding l)) = id) →
  keeps acc.1.1 (applyListener env d id b acc (l, dialer)).1.1.
Proof.
  destruct acc as [[g cur] effs]. simpl. intros Hid Hkey.
  destruct (e_ContainsAny env (li_Groups l) (di_Groups dialer)); [|apply keeps_refl].
  destruct (lr_dests g !! d) as [dest|] eqn:Ed; [|apply keeps_refl].
  destruct (ld_linkMap dest !! _) as [r|] eqn:Ek.
  - destruct (lr_states g !! r) as [s|] eqn:Er; [|apply keeps_refl].
    destruct (b && _); simpl.
    + eapply keeps_trans; [|apply evaluateLinkState_keeps]. apply (put_state_keeps g r s _ Er).
      intros Hok. eapply state_le_trans; [|by apply (set_listener_le l)]. by apply set_retry_le.
    + apply (put_state_keeps g r s _ Er). intros Hok. by apply set_listener_le.
  - simpl. eapply keeps_trans; [|apply evaluateLinkState_keeps]. apply newState_keeps; try done.
    + apply not_elem_of_dom, is_fresh.
    + rewrite Hkey. symmetry. by apply Hid.
Qed.

(** Destination objects keep their router id. *)
Definition sameIds (g g' : linkRegistry) : Prop :=
  ∀ d dest', lr_dests g' !! d = Some dest' → ∃ dest, lr_dests g !! d = Some dest ∧
    ld_id dest' = ld_id dest.

Lemma dialFailed_sameIds env r b g : sameIds g (dialFailed env r b g).
Proof.
  unfold dialFailed. destruct (lr_states g !! r) as [s|]; [|by intros d dest; eauto].
  set (s1 := if ls_allowedDials s >? 0 then _ else s).
  destruct (lr_dests g !! ls_dest s1) as [x|] eqn:Ed; [|by intros d dest; eauto].
  destruct (ls_allowedDials s1 =? 0); intros d dest' H; simpl in H; [|by eauto].
  apply lookup_insert_Some in H as [[<- <-]|[_ H]]; eauto.
Qed.

Lemma evaluateLinkState_sameIds env r g : sameIds g (evaluateLinkState env r g).
Proof.
  unfold evaluateLinkState. destruct (lr_states g !! r) as [s|]; [|by intros d dest; eauto].
  destruct (_ && _); [|by intros d dest; eauto]. destruct (e_pool env r); [by intros d dest; eauto|].
  by intros d dest H%dialFailed_sameIds.
Qed.

Lemma applyListener_sameIds env d id b acc p :
  sameIds acc.1.1 (applyListener env d id b acc p).1.1.
Proof.
  destruct acc as [[g cur] effs], p as [l dialer]. simpl.
  assert (sameIds g g) as Hrefl by (intros d0 dest0; eauto).
  destruct (e_ContainsAny env (li_Groups l) (di_Groups dialer)); [|done].
  destruct (lr_dests g !! d) as [dest|] eqn:Ed; [|done].
  destruct (ld_linkMap dest !! _) as [r|].
  - destruct (lr_states g !! r) as [s|]; [|done].
    destruct (b && _); [|done]. by intros d0 dest0 H%evaluateLinkState_sameIds.
  - intros d0 dest0 (dest1 & H1 & H2)%evaluateLinkState_sameIds. simpl in H1.
    apply lookup_insert_Some in H1 as [[<- <-]|[_ H1]]; eauto.
Qed.

Lemma applyListeners_keeps env d id b ps acc :
  (∀ dest, lr_dests acc.1.1 !! d = Some dest → ld_id dest = id) →
  (∀ l dialer legacy, (l, dialer) ∈ ps →
     destOf (GetLinkKey legacy (di_Binding dialer) (li_Protocol l) id (li_LocalBinding l)) = id) →
  keeps acc.1.1 (foldl (applyListener env d id b) acc ps).1.1.
Proof.
  revert acc. induction ps as [|[l dialer] ps IH]; intros acc Hid Hps; simpl; [apply keeps_refl|].
  eapply keeps_trans; [apply (applyListener_keeps env d id b acc l dialer); [done|]|apply IH].
  - intros legacy. apply Hps. left.
  - intros dest (dest0 & H1 & H2)%applyListener_sameIds. rewrite H2. by apply Hid.
  - intros l0 d0 legacy Hin. apply Hps. by right.
Qed.

Lemma dropOrphan_keeps d acc k : keeps acc.1 (dropOrphan d acc k).1.
Proof.
  destruct acc as [g effs]. simpl. destruct (lr_dests g !! d) as [dest|] eqn:Ed; [|apply keeps_refl].
  destruct (ld_linkMap dest !! k); [|apply keeps_refl].
  eapply put_dest_keeps; [exact Ed|done|apply delete_subseteq].
Qed.

Lemma ApplyListenerChanges_keeps env d id b listeners g :
  e_dialers env = dialers → (∀ dest, lr_dests g !! d = Some dest → ld_id dest = id) →
  event_ok (EvLinkDestUpdate id "" true listeners) →
  keeps g (ApplyListenerChanges env d id b listeners g).1.
Proof.
  intros Hdial Hid Hok. unfold ApplyListenerChanges.
  pose proof (applyListeners_keeps env d id b (l ← listeners; dialer ← e_dialers env; [(l, dialer)])
    (g, dom (from_option ld_linkMap ∅ (lr_dests g !! d)), [])) as Hk.
  destruct (foldl _ _ _) as [[g1 orphaned] effs]. simpl in Hk.
  eapply keeps_trans; [apply Hk|apply (keeps_foldl (dropOrphan d) fst _ (g1, effs)), dropOrphan_keeps];
    [done|].
  intros l dialer legacy Hin. apply list_elem_of_bind in Hin as (l0 & Hin & Hl0).
  apply list_elem_of_bind in Hin as (di0 & Hin & Hdi0). apply list_elem_of_singleton in Hin.
  simplify_eq. rewrite Hdial in Hdi0. by apply Hok.
Qed.

Lemma linkDestUpdate_keeps env id version healthy listeners g :
  e_dialers env = dialers → event_ok (EvLinkDestUpdate id version healthy listeners) →
  keeps g (linkDestUpdate_Handle env id version healthy listeners g).1.
Proof.
  intros Hdial Hok W. unfold linkDestUpdate_Handle.
  destruct (lr_destinations g !! id) as [d|] eqn:Ed.
  - destruct (inv_destinations g W id d Ed) as (dest & Hd & Hid). rewrite Hd. simpl.
    assert (keeps g (put_dest d (linkDest_update (e_now env) version healthy dest) g)) as Hk
      by (by eapply put_dest_keeps).
    destruct healthy; [|by apply Hk]. revert W. eapply keeps_trans; [exact Hk|].
    apply ApplyListenerChanges_keeps; [done| |done]. intros x. simpl.
    rewrite lookup_insert_eq. intros [= <-]. done.
  - assert (lr_dests g !! fresh (dom (lr_dests g)) = None) as Hf by apply not_elem_of_dom, is_fresh.
    set (d := fresh (dom (lr_dests g))) in *.
    assert (keeps g (put_dest d (linkDest_update (e_now env) version healthy (newLinkDest id))
      (set_destinations (<[id := d]> (lr_destinations g)) g))) as Hk by (by apply newDest_keeps).
    destruct healthy; [|by apply Hk]. revert W. eapply keeps_trans; [exact Hk|].
    apply ApplyListenerChanges_keeps; [done| |done]. intros x. simpl.
    rewrite lookup_insert_eq. intros [= <-]. done.
Qed.

(** *** Status events *)

Lemma dialFailed_status env r b g s :
  lr_states g !! r = Some s →
  ∃ s', lr_states (dialFailed env r b g) !! r = Some s' ∧ ls_status s' = ls_status s.
Proof.
  intros Hr. unfold dialFailed. rewrite Hr.
  set (s1 := if ls_allowedDials s >? 0 then _ else s).
  assert (ls_status s1 = ls_status s) as Hs by (unfold s1; by destruct (ls_allowedDials s >? 0)).
  destruct (lr_dests g !! ls_dest s1) as [d|]; [|eauto].
  destruct (ls_allowedDials s1 =? 0); simpl; rewrite lookup_insert_eq; eauto.
Qed.

(** Evaluating a state never establishes it. *)
Lemma evaluateLinkState_status env r g s :
  lr_states g !! r = Some s →
  ∃ s', lr_states (evaluateLinkState env r g) !! r = Some s' ∧
    (ls_status s' = StatusEstablished → ls_status s = StatusEstablished).
Proof.
  intros Hr. unfold evaluateLinkState. rewrite Hr. destruct (_ && _); [|eauto].
  destruct (e_pool env r); simpl.
  - rewrite lookup_insert_eq. eexists. split; [done|]. simpl.
    by rewrite (proj1 (proj2 (proj2 (proj2 (updateStatus_frame StatusDialing s))))).
  - set (s1 := updateStatus StatusQueueFailed _).
    destruct (dialFailed_status env r false (put_state r s1 g) s1) as (s' & H1 & H2).
    { simpl. by rewrite lookup_insert_eq. }
    exists s'. split; [done|]. rewrite H2. unfold s1.
    by rewrite (proj1 (proj2 (proj2 (proj2 (updateStatus_frame StatusQueueFailed _))))).
Qed.

Lemma registered_stateForLink g x r :
  reg_wf g → link_wf x → registered g r (x_Key x) → stateForLink g x = Some r.
Proof.
  intros W [Hd _] (id & d & dest & H1 & H2 & H3). unfold stateForLink.
  destruct (inv_dests g W d dest _ r H2 H3) as [Hid _].
  destruct (inv_destinations g W id d H1) as (dest' & H4 & H5). simplify_eq.
  rewrite Hd, Hid, H1. simpl. by rewrite H2.
Qed.

(** Once the state of a key has left dialing, it is not needy; what keeps the
    registry well formed keeps it that way. *)
Lemma settled_key g g' x r s :
  reg_wf g → link_wf x → lr_states g !! r = Some s → stateForLink g x = Some r →
  ls_status s ≠ StatusDialing → calm g g' → ∀ r' s', needy g' r' s' → ls_linkKey s' ≠ x_Key x.
Proof.
  intros W Hx Hr Hst Hns [_ C] r' s' N Hk. destruct (C r' s' N) as (s0 & (Hreg & Hs0 & Hn) & Hk0).
  rewrite Hk0, Hk in Hreg. apply (registered_stateForLink g x) in Hreg; [|done|done].
  destruct Hn as [Hn _]. congruence.
Qed.

Lemma updateLinkStatusForLink_ok env x st g :
  reg_wf g → event_ok (EvUpdateLinkStatusForLink x st) →
  let g' := (updateLinkStatusForLink_Handle env x st g).1 in
  (reg_wf g' ∧ calm g g') ∧ ∀ r s, needy g' r s → ls_linkKey s ≠ x_Key x.
Proof.
  intros W [Hx Hst]. cbv zeta. unfold updateLinkStatusForLink_Handle.
  assert (∀ r s, needy g r s → ls_linkKey s = x_Key x → stateForLink g x = Some r) as Hneedy.
  { intros r s (Hreg & _ & _) Hk. rewrite Hk in Hreg. by apply registered_stateForLink. }
  destruct (stateForLink g x) as [r|] eqn:Est.
  2:{ split; [by apply keeps_refl|]. intros r s N Hk. by specialize (Hneedy r s N Hk). }
  destruct (lr_states g !! r) as [s|] eqn:Er.
  2:{ split; [by apply keeps_refl|]. intros r0 s N Hk. specialize (Hneedy r0 s N Hk).
      destruct N as (_ & N & _). simpl in N. congruence. }
  destruct (inv_states g W r s Er) as [Hok _].
  case_bool_decide as Hrem.
  { split; [by apply keeps_refl|]. intros r0 s0 N Hk. specialize (Hneedy r0 s0 N Hk).
    destruct N as (_ & N & [N' _]). simpl in N. simplify_eq. congruence. }
  destruct (updateStatus_frame st s) as (F1 & F2 & F3 & F4 & F5 & _). rewrite F4.
  destruct Hst as [-> | ->].
  - rewrite bool_decide_true by done. simpl.
    set (s1 := set_status StatusEstablished (Some x) _).
    assert (keeps g (put_state r s1 g)) as Hk.
    { apply (put_state_keeps g r s _ Er). intros [_ Hnd]. unfold s1. split_and!; try done.
      split; simpl; [by split|by rewrite F5]. }
    split; [by apply Hk|]. destruct (Hk W) as [W1 _].
    apply (settled_key (put_state r s1 g) _ x r s1); try done.
    + simpl. by rewrite lookup_insert_eq.
    + by apply keeps_refl.
  - rewrite bool_decide_false, bool_decide_true by done.
    set (s1 := set_retry 0 (e_now env) (updateStatus StatusLinkFailed s)).
    assert (keeps g (put_state r s1 g)) as Hk.
    { apply (put_state_keeps g r s _ Er). intros _. eapply state_le_trans; [apply set_retry_le|by apply updateStatus_le].
      by apply updateStatus_link. }
    destruct (Hk W) as [W1 C1].
    assert (lr_states (put_state r s1 g) !! r = Some s1) as Hr1 by (simpl; by rewrite lookup_insert_eq).
    destruct (evaluateLinkState_status env r _ s1 Hr1) as (s2 & Hr2 & Hne).
    set (g2 := evaluateLinkState env r (put_state r s1 g)) in *. rewrite Hr2. simpl.
    assert (keeps (put_state r s1 g) (put_state r (set_status (ls_status s2) None
      (addPendingLinkFault (x_Id x) (x_Iteration x) s2)) g2)) as Hk2.
    { eapply keeps_trans; [apply evaluateLinkState_keeps|]. apply (put_state_keeps g2 r s2 _ Hr2).
      intros [_ Hnd]. split_and!; try done. split.
      - simpl. split; [by intros []|]. intros He%Hne. unfold s1 in He. simpl in He. congruence.
      - apply (addPendingLinkFault_nodup (x_Id x) (x_Iteration x) s2 Hnd). }
    split; [by apply (keeps_trans _ _ _ Hk Hk2)|].
    apply (settled_key (put_state r s1 g) _ x r s1); try done.
    + unfold s1. simpl. by rewrite F4.
    + by apply Hk2.
Qed.

Lemma updateLinkStatusToDialFailed_ok env r b g :
  reg_wf g →
  let g' := updateLinkStatusToDialFailed_Handle env r b g in
  (reg_wf g' ∧ calm g g') ∧ ∀ s, ¬ needy g' r s.
Proof.
  intros W. cbv zeta. unfold updateLinkStatusToDialFailed_Handle.
  destruct (lr_states g !! r) as [s|] eqn:Er.
  2:{ split; [by apply keeps_refl|]. intros s (_ & H & _). congruence. }
  case_bool_decide as Hs.
  2:{ split; [by apply keeps_refl|]. intros s0 (_ & H & [H' _]). congruence. }
  assert (keeps g (put_state r (updateStatus StatusDialFailed s) g)) as Hk.
  { apply (put_state_keeps g r s _ Er). intros Hok. by apply updateStatus_le. }
  split; [by apply (keeps_trans _ _ _ Hk (dialFailed_keeps env r b _))|].
  destruct (Hk W) as [W1 _]. destruct (dialFailed_keeps env r b _ W1) as [_ [_ C]].
  intros s0 N. destruct (C r s0 N) as (s1 & (_ & H & [H' _]) & _). simpl in H.
  rewrite lookup_insert_eq in H. simplify_eq. revert H'.
  by rewrite (proj1 (proj2 (proj2 (proj2 (updateStatus_frame StatusDialFailed s))))).
Qed.

Lemma markNewLinksNotified_keeps links g : keeps g (markNewLinksNotified_Handle links g).
Proof.
  apply (keeps_foldl _ (λ g, g)). clear g. intros g [r x]. simpl.
  destruct (lr_states g !! r) as [s|] eqn:Er; [|apply keeps_refl].
  destruct (_ && _); [|apply keeps_refl]. apply (put_state_keeps g r s _ Er), set_notified_le.
Qed.

Lemma clearFaults_le fs s : state_ok s → state_le (foldl (λ s f, clearFault f s) s fs) s.
Proof.
  revert s. induction fs as [|f fs IH]; intros s Hok; simpl; [by apply state_le_refl|].
  assert (state_le (clearFault f s) s) as Hle
    by (apply set_faults_le; [done|]; apply filter_faults_nodup, Hok).
  eapply state_le_trans; [apply IH; apply Hle|exact Hle].
Qed.

Lemma markFaultedLinksNotified_keeps sent g : keeps g (markFaultedLinksNotified_Handle sent g).
Proof.
  apply (keeps_foldl _ (λ g, g)). clear g. intros g [r fs]. simpl.
  destruct (lr_states g !! r) as [s|] eqn:Er; [|apply keeps_refl].
  apply (put_state_keeps g r s _ Er), clearFaults_le.
Qed.

Lemma addLinkFaultForReplacedLink_keeps x g : keeps g (addLinkFaultForReplacedLink_Handle x g).
Proof.
  unfold addLinkFaultForReplacedLink_Handle. destruct (stateForLink g x) as [r|]; [|apply keeps_refl].
  destruct (lr_states g !! r) as [s|] eqn:Er; [|apply keeps_refl].
  apply (put_state_keeps g r s _ Er). intros Hok. apply set_faults_le; [done|].
  apply (addPendingLinkFault_nodup (x_Id x) (x_Iteration x) s), Hok.
Qed.

(** Every handler keeps the registry well formed, and afterwards no state still
    needs the event that was handled. *)
Lemma Handle_ok env ev g :
  reg_wf g → e_dialers env = dialers → event_ok ev →
  let g' := (Handle env ev g).1 in
  (reg_wf g' ∧ calm g g') ∧ ∀ r s, needy g' r s → ¬ resets ev r (ls_linkKey s).
Proof.
  intros W Hd Hok. destruct ev; cbv zeta; simpl Handle.
  - split; [by apply removeLinkDest_keeps|by intros ? ? ? []].
  - split; [by apply linkDestUpdate_keeps|by intros ? ? ? []].
  - destruct (updateLinkStatusForLink_ok env link status g W Hok) as [H1 H2].
    split; [done|]. intros r s N Hr. by apply (H2 r s N).
  - split; [by apply addLinkFaultForReplacedLink_keeps|by intros ? ? ? []].
  - destruct (updateLinkStatusToDialFailed_ok env r applyFailed g W) as [H1 H2].
    split; [done|]. simpl. intros r0 s N <-. by apply (H2 s).
  - split; [by apply markNewLinksNotified_keeps|by intros ? ? ? []].
  - split; [by apply markFaultedLinksNotified_keeps|by intros ? ? ? []].
Qed.

Lemma handle_step_inv env l1 ev l2 g :
  e_dialers env = dialers → lr_events g = l1 ++ ev :: l2 → reg_inv g →
  reg_inv (set_events (l1 ++ l2) (Handle env ev g).1).
Proof.
  intros Hd He [W R]. assert (event_ok ev) as Hok by (apply (inv_events g W); rewrite He; set_solver).
  destruct (Handle_ok env ev g W Hd Hok) as [[W' [_ C]] Hres]. split.
  - destruct W' as [I1 I2 I3 I4 I5 I6 I7 I8]. split; simpl; try done.
    intros ev0 Hin. apply (inv_events g W). rewrite He. set_solver.
  - intros r s N. destruct (C r s N) as (s0 & N0 & K0). destruct (R r s0 N0) as (ev0 & H1 & H2).
    rewrite K0 in H2. exists ev0. split; [|done]. simpl. rewrite He in H1.
    assert (ev0 ≠ ev) by (intros ->; by apply (Hres r s N)). set_solver.
Qed.

Lemma notifyJob_inv newCtrls faultCtrls n g :
  reg_inv g → reg_inv (notifyJob newCtrls faultCtrls n g).
Proof.
  intros [[I1 I2 I3 I4 I5 I6 I7 I8] R]. split; [split; simpl; try done|].
  - intros ev [?|[H|H]%elem_of_app]%elem_of_app; [auto|..].
    + case_bool_decide; [by apply not_elem_of_nil in H|]. unfold sendNewLinks in H.
      destruct (forallb _ _); [|by apply not_elem_of_nil in H].
      apply list_elem_of_singleton in H. by subst.
    + case_bool_decide; [by apply not_elem_of_nil in H|]. unfold sendLinkFaults in H.
      case_bool_decide; [by apply not_elem_of_nil in H|]. apply list_elem_of_singleton in H. by subst.
  - intros r s N. destruct (R r s N) as (ev & H1 & H2). exists ev. split; [|done].
    apply elem_of_app. by left.
Qed.

Lemma step_inv y y' : reg_inv y.1 → reg_step y y' → reg_inv y'.1.
Proof.
  intros Hg Hstep. destruct Hstep as [ev g n Hc Hok|env x g n Hx|x g n Hx|id g n|r g n Hj
    |env r dialed g n Hj Hd|env l1 ev l2 g n Hd He|env fuel g g' n H|env g n|env acc y|newC faultC g n];
    cbn [fst] in *.
  - by apply queueEvent_inv.
  - pose proof (applyLink_inv env x g Hx Hg) as Ha. unfold LinkAccepted.
    destruct (applyLink env x g) as [[[g1 e] o] b]. apply Ha.
  - by apply LinkClosed_inv.
  - eapply keeps_inv; [apply DebugForgetLink_keeps|done].
  - by apply dialJob_start_inv.
  - by apply dialJob_finish_inv.
  - by apply handle_step_inv.
  - eapply keeps_inv; [by eapply evaluateLinkStateQueue_keeps|done].
  - eapply keeps_inv; [apply evaluateDestinations_keeps|done].
  - eapply keeps_inv; [apply notifyTick_keeps|done].
  - by apply notifyJob_inv.
Qed.

Lemma reachable_inv y : reg_reachable y → reg_inv y.1.
Proof.
  apply (rtc_invariant reg_step (λ y, reg_inv y.1)); [intros ? ?; apply step_inv|].
  split; [|by intros r s (_ & ? & _)].
  split; simpl; try done; [constructor| |by intros ev ?%not_elem_of_nil].
  intros r. split; [by intros ?%not_elem_of_nil|by intros (? & ? & _)].
Qed.
End System.

(** ** Properties *)

(** C6. In every reachable state of the registry its two link indexes agree (a
    link found by key has that key and is also the link found by its own id, a
    link found by id has that id), no link state is dialed by two jobs at once, a
    state holds a link exactly while it is established, and it has at most one
    pending fault per link id. *)
Theorem registry_invariant destOf keyOf dialers y :
  reg_reachable destOf keyOf dialers y →
  (∀ k x, GetLink y.1 k = Some x → x_Key x = k ∧ GetLinkById y.1 (x_Id x) = Some x) ∧
  (∀ i x, GetLinkById y.1 i = Some x → x_Id x = i) ∧
  NoDup (lr_jobs y.1).*1 ∧
  ∀ r s, lr_states y.1 !! r = Some s →
    (ls_dialActive s = true ↔ ∃ phase, (r, phase) ∈ lr_jobs y.1) ∧
    (is_Some (ls_link s) ↔ ls_status s = StatusEstablished) ∧
    NoDup (lf_linkId <$> ls_linkFaults s).
Proof.
  intros [W _]%reachable_inv. split_and!; [| |apply W|].
  - intros k x Hk. by destruct (inv_links _ _ _ _ W k x Hk) as (H1 & _ & H2).
  - intros i x Hi. by apply (inv_byId _ _ _ _ W).
  - intros r s Hr. destruct (inv_states _ _ _ _ W r s Hr) as [[H1 H2] _].
    split_and!; [|apply H1..|done].
    pose proof (inv_jobs _ _ _ _ W r) as Hj. rewrite list_elem_of_fmap, Hr in Hj. split.
    + intros Ha. destruct (proj2 Hj) as ([r0 ph] & -> & ?); eauto.
    + intros [ph Hp]. destruct (proj1 Hj) as (s0 & [= <-] & ?); [by exists (r, ph)|done].
Qed.

(** C16. No link state the registry knows stays in dialing forever: in every
    reachable state, a dialing state has a dial job, or an event is pending
    after whose handling it is no longer dialing or has a new job. *)
Theorem dialing_never_stuck destOf keyOf dialers y r s :
  reg_reachable destOf keyOf dialers y →
  registered y.1 r (ls_linkKey s) → lr_states y.1 !! r = Some s → ls_status s = StatusDialing →
  (∃ phase, (r, phase) ∈ lr_jobs y.1) ∨
  ∃ l1 ev l2, lr_events y.1 = l1 ++ ev :: l2 ∧ ∀ env, e_dialers env = dialers →
    let g' := set_events (l1 ++ l2) (Handle env ev y.1).1 in
    ∀ s', registered g' r (ls_linkKey s') → ls_linkKey s' = ls_linkKey s →
      lr_states g' !! r = Some s' → ls_status s' = StatusDialing → ∃ phase, (r, phase) ∈ lr_jobs g'.
Proof.
  intros [W R]%reachable_inv Hreg Hr Hs. destruct (ls_dialActive s) eqn:Ea.
  - left. pose proof (proj2 (inv_jobs _ _ _ _ W r)) as Hj.
    destruct (proj1 (list_elem_of_fmap _ _ _) (Hj ltac:(eauto))) as ([r0 ph] & -> & ?). eauto.
  - right. destruct (R r s) as (ev & Hin & Hres). { split; [done|]. split; [done|]. by split; [|left]. }
    apply list_elem_of_split in Hin as (l1 & l2 & He). exists l1, ev, l2. split; [done|].
    intros env Hd g' s' Hreg' Hk Hr' Hs'.
    assert (event_ok destOf keyOf dialers ev) as Hok
      by (apply (inv_events _ _ _ _ W); rewrite He; set_solver).
    destruct (Handle_ok destOf keyOf dialers env ev y.1 W Hd Hok) as [[W' _] Hno].
    destruct (ls_dialActive s') eqn:Ea'.
    + pose proof (proj2 (inv_jobs _ _ _ _ W' r)) as Hj.
      destruct (proj1 (list_elem_of_fmap _ _ _) (Hj ltac:(eauto))) as ([r0 ph] & -> & ?). eauto.
    + exfalso. apply (Hno r s'); [|by rewrite Hk]. split; [done|]. split; [done|]. by split; [|left].
Qed.

(** Fault lists under a sequence of acknowledged faults. *)
Lemma clearFaults_elem sent s f :
  f ∈ ls_linkFaults (foldl (λ s t, clearFault t s) s sent) ↔
  f ∈ ls_linkFaults s ∧
  ∀ t, t ∈ sent → lf_linkId t = lf_linkId f → lf_iteration t < lf_iteration f.
Proof.
  revert s. induction sent as [|t sent IH]; intros s; simpl.
  { split; [intros; split; [done|by intros ? ?%not_elem_of_nil]|by intros [? _]]. }
  rewrite IH. simpl. rewrite list_elem_of_filter. split.
  - intros [[H1 H2] H3]. split; [done|]. intros t0 [->|Hin]%elem_of_cons Heq; [|by apply H3].
    destruct H1; [congruence|lia].
  - intros [H1 H2]. split; [split; [|done]|].
    + destruct (decide (lf_linkId f = lf_linkId t)) as [He|]; [|by left]. right.
      specialize (H2 t ltac:(left) ltac:(done)). lia.
    + intros t0 Hin. apply H2. by right.
Qed.

(** Link faults are not lost: after a fault is added, a pending fault for
    that link covers its iteration and every fault that was pending is still
    covered; an acknowledgement clears exactly the faults that were sent with an
    iteration at least as new, so that a fault raised again meanwhile stays. *)
Theorem fault_reports_not_lost linkId iteration sent s :
  let s1 := addPendingLinkFault linkId iteration s in
  (∃ f, f ∈ ls_linkFaults s1 ∧ lf_linkId f = linkId ∧ iteration ≤ lf_iteration f) ∧
  (∀ f, f ∈ ls_linkFaults s → ∃ f', f' ∈ ls_linkFaults s1 ∧ lf_linkId f' = lf_linkId f ∧
     lf_iteration f ≤ lf_iteration f') ∧
  (∀ f, f ∈ ls_linkFaults (foldl (λ s t, clearFault t s) s sent) ↔
     f ∈ ls_linkFaults s ∧
     ∀ t, t ∈ sent → lf_linkId t = lf_linkId f → lf_iteration t < lf_iteration f).
Proof.
  cbv zeta. split; [|split; [|apply clearFaults_elem]]; unfold addPendingLinkFault; simpl;
    generalize (ls_linkFaults s); intros fs.
  - destruct (raiseFault linkId iteration fs) as [fs'|] eqn:E; simpl.
    + revert fs' E. induction fs as [|f fs IH]; intros fs' E; simpl in E; [done|].
      case_bool_decide as He; simplify_eq.
      * eexists. split; [left|]. destruct (Z.ltb_spec (lf_iteration f) iteration); simpl; split; (done || lia).
      * destruct (raiseFault _ _ fs) as [fs0|]; simplify_eq/=.
        destruct (IH fs0 eq_refl) as (f0 & ? & ?). exists f0. split; [by right|done].
    + exists (mkFault linkId iteration). split; [set_solver|]. simpl. split; [done|lia].
  - destruct (raiseFault linkId iteration fs) as [fs'|] eqn:E; simpl.
    + revert fs' E. induction fs as [|f fs IH]; intros fs' E; simpl in E; [done|].
      intros f0 Hf0. case_bool_decide as He; simplify_eq.
      * apply elem_of_cons in Hf0 as [->|Hin]; [|exists f0; split; [by right|split; [done|lia]]].
        eexists. split; [left|]. destruct (Z.ltb_spec (lf_iteration f) iteration); simpl; split; (done || lia).
      * destruct (raiseFault _ _ fs) as [fs0|]; simplify_eq/=.
        apply elem_of_cons in Hf0 as [->|Hin]; [exists f; split; [left|split; [done|lia]]|].
        destruct (IH fs0 eq_refl f0 Hin) as (f1 & ? & ?). exists f1. split; [by right|done].
    + intros f Hf. exists f. split; [set_solver|]. split; [done|lia].
Qed.

(** Duplicate resolution on every branch: a closed link is rejected, a free
    key or the very link already there succeeds, and of two links for one key
    the one with the smaller id is kept until it has turned away five others,
    after which, or when its id is not smaller, the newcomer replaces it and the
    controllers are told of the duplicate. *)
Theorem applyLink_resolution env x g :
  let '(g', effs, existing, success) := applyLink env x g in
  if e_closed env x then g' = g ∧ effs = [] ∧ existing = None ∧ success = false
  else match GetLink g (x_Key x) with
  | None => GetLink g' (x_Key x) = Some x ∧ effs = [] ∧ success = true
  | Some y =>
    let turnedAway := uint32 (default 0 (lr_dups g !! x_ref y) + 1) in
    if bool_decide (x_ref y = x_ref x) then g' = g ∧ effs = [] ∧ success = true
    else if String.ltb (x_Id y) (x_Id x) && (turnedAway <=? 5)
    then GetLink g' (x_Key x) = Some y ∧ existing = Some y ∧ success = false ∧
         lr_dups g' !! x_ref y = Some turnedAway ∧ ∃ t, effs = [CloseLink x t]
    else GetLink g' (x_Key x) = Some x ∧ existing = None ∧ success = true ∧
         ∃ t, effs = [FaultDuplicate y (e_legacy env); CloseLink y t] ∧ 60 ≤ t
  end.
Proof.
  unfold applyLink, GetLink. destruct (lr_linkMap g !! x_Key x) as [y|] eqn:E;
    destruct (e_closed env x); try done.
  2:{ simpl. by rewrite lookup_insert_eq. }
  case_bool_decide; [done|]. destruct (String.ltb (x_Id y) (x_Id x)); simpl.
  - destruct (_ <=? 5); simpl.
    + rewrite E, lookup_insert_eq. split_and!; try done. eauto.
    + rewrite lookup_insert_eq. split_and!; try done. eexists. split; [done|]. by destruct (x_IsDialed y).
  - rewrite lookup_insert_eq. split_and!; try done. eexists. split; [done|]. by destruct (x_IsDialed y).
Qed.

(** ** The retry queue *)

Lemma Swap_perm i j h : Swap i j h ≡ₚ h.
Proof.
  unfold Swap. destruct (h !! i) as [a|] eqn:Ei; [|done]. destruct (h !! j) as [b|] eqn:Ej; [|done].
  by apply Permutation_insert_swap.
Qed.

Lemma Swap_length i j h : length (Swap i j h) = length h.
Proof. apply Permutation_length, Swap_perm. Qed.

Lemma heap_up_perm f fuel j h : heap_up f fuel j h ≡ₚ h.
Proof.
  revert j h. induction fuel as [|fuel IH]; intros j h; simpl; [done|].
  destruct (_ || _); [done|]. rewrite IH. apply Swap_perm.
Qed.

Lemma heap_Push_perm f x h : heap_Push f x h ≡ₚ x :: h.
Proof. unfold heap_Push. rewrite heap_up_perm. by rewrite Permutation_app_comm. Qed.

Lemma heap_down_spec f fuel i n h :
  (n ≤ length h)%nat → (i < n)%nat ∨ n = 0%nat →
  heap_down f fuel i n h ≡ₚ h ∧ ∀ k, (n ≤ k)%nat → heap_down f fuel i n h !! k = h !! k.
Proof.
  revert i h. induction fuel as [|fuel IH]; intros i h Hn Hi; cbn [heap_down]; [done|].
  case_bool_decide as Hj1; [done|].
  set (j := if _ && _ then _ else _).
  assert (j < n ∧ 2 * i + 1 ≤ j)%nat as [Hj Hij].
  { unfold j. destruct (bool_decide (2 * i + 1 + 1 < n)%nat) eqn:E; simpl; [|lia].
    apply bool_decide_eq_true in E. destruct (Less _ _ _ _); lia. }
  destruct (negb _); [done|].
  destruct (IH j (Swap i j h)) as [H1 H2]; [by rewrite Swap_length|by left|].
  split; [by rewrite H1, Swap_perm|]. intros k Hk. rewrite H2 by done.
  unfold Swap. destruct (h !! i); [|done]. destruct (h !! j); [|done].
  rewrite !list_lookup_insert_ne by lia. done.
Qed.

Lemma heap_Pop_perm f x h : heap_Pop f (x :: h) ≡ₚ h.
Proof.
  unfold heap_Pop. set (n := (length (x :: h) - 1)%nat). assert (n = length h) as Hn by (simpl in n; lia).
  destruct (heap_down_spec f (length (x :: h)) 0 n (Swap 0 n (x :: h))) as [Hp Hlook].
  { rewrite Swap_length. simpl. lia. } { lia. }
  set (d := heap_down _ _ _ _ _) in *.
  assert (length d = S n) as Hlen by (rewrite Hp, Swap_length; simpl; lia).
  assert (d !! n = Some x) as Hx.
  { rewrite Hlook by lia. unfold Swap. cbn [lookup list_lookup].
    destruct ((x :: h) !! n) as [b|] eqn:E; [|apply lookup_ge_None in E; simpl in E; lia].
    destruct (decide (n = 0%nat)) as [H0|H0].
    - rewrite H0 in *. simpl in E. by simplify_eq.
    - rewrite list_lookup_insert_ne by lia. apply list_lookup_insert_eq. simpl. lia. }
  apply (Permutation_cons_inv (a := x)). rewrite <- (Swap_perm 0 n (x :: h)), <- Hp.
  rewrite <- (take_drop n d) at 2. rewrite (drop_S d x n Hx), drop_ge by lia.
  by rewrite Permutation_app_comm.
Qed.

Definition backoff_ok (cfg : BackoffConfig) : Prop :=
  0 ≤ bc_MinRetryInterval cfg ≤ bc_MaxRetryInterval cfg.

Lemma nextRetryDelay_bounds cfg jitter delay :
  backoff_ok cfg →
  bc_MinRetryInterval cfg ≤ nextRetryDelay cfg jitter delay ≤ bc_MaxRetryInterval cfg ∧
  (0 ≤ delay ≤ bc_MaxRetryInterval cfg → delay ≤ nextRetryDelay cfg jitter delay).
Proof.
  intros [H0 H1]. unfold nextRetryDelay.
  set (f0 := (bc_RetryBackoffFactor cfg + jitter)%Q).
  set (f := if Qle_bool 1 f0 then f0 else 1%Q).
  assert (Zpos (Qden f) ≤ Qnum f) as Hf.
  { unfold f. destruct (Qle_bool 1 f0) eqn:E; [|done].
    unfold Qle_bool in E. apply Z.leb_le in E. cbn [Qnum Qden] in E. lia. }
  assert (0 ≤ delay → delay ≤ Z.quot (delay * Qnum f) (Zpos (Qden f))) as Hq.
  { intros Hd. apply Z.quot_le_lower_bound; [lia|]. nia. }
  set (q := Z.quot _ _) in *. rewrite Z.gtb_ltb.
  destruct (Z.ltb_spec q (bc_MinRetryInterval cfg));
    [destruct (Z.ltb_spec (bc_MaxRetryInterval cfg) (bc_MinRetryInterval cfg))
    |destruct (Z.ltb_spec (bc_MaxRetryInterval cfg) q)]; lia.
Qed.

(** The states whose dialers have sensible retry intervals. *)
Definition dialers_ok (g : linkRegistry) : Prop :=
  ∀ r s healthy, lr_states g !! r = Some s → backoff_ok (backoffConfig healthy (ls_dialer s)).

(** How many entries of the queue are due. *)
Definition dueCount (now : Z) (g : linkRegistry) : nat :=
  length (filter (λ r, nextDialOf g r ≤ now) (lr_linkStateQueue g)).

Lemma filter_length_mono (P Q : StateRef → Prop) `{∀ x, Decision (P x)} `{∀ x, Decision (Q x)} l :
  (∀ x, P x → Q x) → (length (filter P l) ≤ length (filter Q l))%nat.
Proof.
  intros Hpq. induction l as [|x l IH]; [done|]. rewrite !filter_cons.
  repeat case_decide; simpl; try lia. exfalso. auto.
Qed.

Lemma put_state_nextDial g r s s' r0 :
  lr_states g !! r = Some s → ls_nextDial s' = ls_nextDial s →
  nextDialOf (put_state r s' g) r0 = nextDialOf g r0.
Proof.
  intros Hr Hn. unfold nextDialOf. simpl. destruct (decide (r = r0)) as [<-|].
  - by rewrite lookup_insert_eq, Hr.
  - by rewrite lookup_insert_ne.
Qed.

Lemma dialFailed_due env r b g now s :
  now < e_later env → lr_states g !! r = Some s → 0 ≤ e_extra env r →
  (∀ healthy, backoff_ok (backoffConfig healthy (ls_dialer s))) →
  (dueCount now (dialFailed env r b g) ≤ dueCount now g)%nat.
Proof.
  intros Hnow Hr Hex Hok. unfold dialFailed. rewrite Hr.
  set (s1 := if ls_allowedDials s >? 0 then _ else s).
  assert (ls_dialer s1 = ls_dialer s ∧ ls_nextDial s1 = ls_nextDial s) as [Hd Hn]
    by (unfold s1; by destruct (ls_allowedDials s >? 0)).
  destruct (lr_dests g !! ls_dest s1) as [d|]; [|done].
  destruct (ls_allowedDials s1 =? 0).
  - apply filter_length_mono. intros r0. change (nextDialOf (put_dest _ _ ?g) r0) with (nextDialOf g r0).
    by rewrite (put_state_nextDial g r s s1 r0 Hr Hn).
  - rewrite Hd. set (cfg := backoffConfig _ _).
    pose proof (nextRetryDelay_bounds cfg (e_jitter env r) (ls_retryDelay s1) (Hok _)) as [Hb _].
    set (delay := nextRetryDelay _ _ _) in *. destruct (Hok (ld_healthy d)) as [H0 _].
    set (s2 := set_retry delay _ s1). unfold dueCount. cbn [lr_linkStateQueue set_queue].
    assert (∀ r0, nextDialOf (set_queue (heap_Push (nextDialOf (put_state r s2 g)) r
      (lr_linkStateQueue (put_state r s2 g))) (put_state r s2 g)) r0 ≤ now →
      r0 ≠ r ∧ nextDialOf g r0 ≤ now) as Hdue.
    { intros r0. unfold nextDialOf at 1. simpl. destruct (decide (r = r0)) as [<-|Hne].
      - rewrite lookup_insert_eq. simpl. fold cfg in H0. destruct b; lia.
      - rewrite lookup_insert_ne by done. intros ?. split; [congruence|done]. }
    rewrite heap_Push_perm, filter_cons. rewrite decide_False by (intros [? _]%Hdue; done).
    apply filter_length_mono. intros r0 H%Hdue. apply H.
Qed.

Lemma evaluateLinkState_due env r g now :
  now < e_later env → 0 ≤ e_extra env r → dialers_ok g →
  (dueCount now (evaluateLinkState env r g) ≤ dueCount now g)%nat ∧
  dialers_ok (evaluateLinkState env r g).
Proof.
  intros Hnow Hex Hok. unfold evaluateLinkState. destruct (lr_states g !! r) as [s|] eqn:Er; [|done].
  destruct (_ && _); [|done].
  set (s1 := set_dial true _ _).
  assert (ls_nextDial s1 = ls_nextDial s ∧ ls_dialer s1 = ls_dialer s) as [Hn Hd]
    by (unfold s1, updateStatus; simpl; by case_bool_decide).
  assert (∀ s2, ls_dialer s2 = ls_dialer s → dialers_ok (put_state r s2 g)) as Hput.
  { intros s2 H2 r0 s0 h H. simpl in H.
    apply lookup_insert_Some in H as [[<- <-]|[_ H]]; [rewrite H2|]; by eapply Hok. }
  destruct (e_pool env r).
  - split; [|by apply (Hput s1)]. apply filter_length_mono. intros r0.
    change (nextDialOf (set_jobs _ ?g) r0) with (nextDialOf g r0).
    by rewrite (put_state_nextDial g r s s1 r0 Er Hn).
  - set (s2 := updateStatus StatusQueueFailed _).
    assert (ls_nextDial s2 = ls_nextDial s ∧ ls_dialer s2 = ls_dialer s) as [Hn2 Hd2].
    { unfold s2, updateStatus. case_bool_decide; simpl; done. }
    assert (lr_states (put_state r s2 g) !! r = Some s2) as Hr2 by (simpl; by rewrite lookup_insert_eq).
    split.
    + etrans; [apply (dialFailed_due _ _ _ _ _ s2); try done|].
      * intros h. rewrite Hd2. by apply (Hok r s).
      * apply filter_length_mono. intros r0. by rewrite (put_state_nextDial g r s s2 r0 Er Hn2).
    + unfold dialFailed. rewrite Hr2. set (s3 := if ls_allowedDials s2 >? 0 then _ else s2).
      assert (ls_dialer s3 = ls_dialer s) as Hd3 by (unfold s3; destruct (ls_allowedDials s2 >? 0); done).
      assert (∀ s4, ls_dialer s4 = ls_dialer s → dialers_ok (put_state r s4 (put_state r s2 g))) as Hput2.
      { intros s4 H4 r0 s0 h H. simpl in H. rewrite insert_insert_eq in H. by apply (Hput s4 H4 r0). }
      destruct (lr_dests _ !! _) as [d|]; [|by apply Hput].
      destruct (_ =? 0); [by apply (Hput2 s3)|by apply (Hput2 (set_retry _ _ s3))].
Qed.

(** C32. Working off the retry queue terminates: if the clock advances after the
    pass has read it and the dialers' retry intervals are sensible, a pass
    evaluates at most as many states as the queue had entries, even if every
    dial is refused and requeued, and ends with the queue empty or its first
    entry not yet due. *)
Theorem retry_queue_drains env g :
  e_now env < e_later env → (∀ r, 0 ≤ e_extra env r) → dialers_ok g →
  ∃ g', evaluateLinkStateQueue (S (length (lr_linkStateQueue g))) env g = Some g' ∧
    match lr_linkStateQueue g' with [] => True | r :: _ => e_now env < nextDialOf g' r end.
Proof.
  intros Hnow Hex Hok.
  assert (∀ n g, (dueCount (e_now env) g ≤ n)%nat → dialers_ok g →
    ∃ g', evaluateLinkStateQueue (S n) env g = Some g' ∧
      match lr_linkStateQueue g' with [] => True | r :: _ => e_now env < nextDialOf g' r end) as Hgen.
  { clear g Hok. intros n. induction n as [|n IH]; intros g Hdue Hok; cbn [evaluateLinkStateQueue];
      destruct (lr_linkStateQueue g) as [|next q] eqn:Eq; try (exists g; by rewrite Eq);
      destruct (Z.ltb_spec (e_now env) (nextDialOf g next)) as [Hlt|Hge];
      try (exists g; by rewrite Eq).
    - exfalso. unfold dueCount in Hdue. rewrite Eq, filter_cons, decide_True in Hdue by lia.
      simpl in Hdue. lia.
    - set (g1 := set_queue _ g).
      assert (S (dueCount (e_now env) g1) ≤ dueCount (e_now env) g)%nat as Hdec.
      { unfold dueCount, g1. cbn [lr_linkStateQueue set_queue].
        change (λ r, nextDialOf (set_queue ?q g) r ≤ e_now env) with (λ r, nextDialOf g r ≤ e_now env).
        rewrite heap_Pop_perm, Eq, filter_cons, decide_True by lia. simpl. done. }
      destruct (evaluateLinkState_due env next g1 (e_now env) Hnow (Hex next) Hok) as [H1 H2].
      apply IH; [lia|done]. }
  apply Hgen; [|done]. unfold dueCount. apply length_filter.
Qed.

(** A failed dial is retried with backoff: a state whose dials are not
    limited gets a delay within the interval of its destination's health, never
    shorter than the previous one within that interval, its next dial lies that
    delay ahead and it is in the retry queue. *)
Lemma dialFailed_backs_off env r g s dest :
  lr_states g !! r = Some s → lr_dests g !! ls_dest s = Some dest → ls_allowedDials s < 0 →
  let cfg := backoffConfig (ld_healthy dest) (ls_dialer s) in
  backoff_ok cfg →
  ∃ s', lr_states (dialFailed env r false g) !! r = Some s' ∧
    bc_MinRetryInterval cfg ≤ ls_retryDelay s' ≤ bc_MaxRetryInterval cfg ∧
    (0 ≤ ls_retryDelay s ≤ bc_MaxRetryInterval cfg → ls_retryDelay s ≤ ls_retryDelay s') ∧
    ls_nextDial s' = e_later env + ls_retryDelay s' ∧
    r ∈ lr_linkStateQueue (dialFailed env r false g).
Proof.
  intros Hr Hd Ha cfg Hok. unfold dialFailed. rewrite Hr.
  destruct (Z.gtb_spec (ls_allowedDials s) 0); [lia|]. rewrite Hd.
  destruct (Z.eqb_spec (ls_allowedDials s) 0); [lia|]. fold cfg. simpl.
  rewrite lookup_insert_eq. eexists. split; [done|]. simpl.
  destruct (nextRetryDelay_bounds cfg (e_jitter env r) (ls_retryDelay s) Hok) as [H1 H2].
  split_and!; try done; [lia..|]. rewrite heap_Push_perm. left.
Qed.

(** ** Removing a destination *)

(** The loop of [removeLinkDest.Handle], from one state's point of view. *)
Lemma removeLinkDest_loop l g effs :
  let res := foldl (λ '(g, effs) r,
      match lr_states g !! r with
      | None => (g, effs)
      | Some s =>
        (put_state r (updateStatus StatusDestRemoved s) g,
         effs ++ match GetLink g (ls_linkId s) with Some link => [CloseLink link 0] | None => [] end)
      end) (g, effs) l in
  lr_linkStateQueue res.1 = lr_linkStateQueue g ∧ lr_destinations res.1 = lr_destinations g ∧
  lr_linkMap res.1 = lr_linkMap g ∧
  (∀ r s, lr_states g !! r = Some s → ∃ s', lr_states res.1 !! r = Some s' ∧
     (r ∈ l ∨ ls_status s = StatusDestRemoved → ls_status s' = StatusDestRemoved) ∧
     ls_nextDial s' = ls_nextDial s ∧ ls_dialActive s' = ls_dialActive s ∧ ls_linkId s' = ls_linkId s) ∧
  ((∀ r s, lr_states g !! r = Some s → lr_linkMap g !! ls_linkId s = None) → res.2 = effs).
Proof.
  revert g effs. induction l as [|r0 l IH]; intros g effs; cbn [foldl].
  { cbv zeta. split_and!; try done. intros r s Hr. exists s. split; [done|].
    split_and!; try done. by intros [?%not_elem_of_nil|?]. }
  destruct (lr_states g !! r0) as [s0|] eqn:E0.
  - destruct (updateStatus_frame StatusDestRemoved s0) as (F1 & F2 & F3 & F4 & F5 & F6 & F7 & F8).
    specialize (IH (put_state r0 (updateStatus StatusDestRemoved s0) g)
      (effs ++ match GetLink g (ls_linkId s0) with Some link => [CloseLink link 0] | None => [] end)).
    cbv zeta in *. destruct (foldl _ _ l) as [g' effs']. destruct IH as (H1 & H2 & H3 & H4 & H5).
    split_and!; try done.
    + intros r s Hr. simpl in H4. destruct (decide (r = r0)) as [->|Hne].
      * destruct (H4 r0 (updateStatus StatusDestRemoved s0)) as (s' & K1 & K2 & K3 & K4 & K5);
          [by rewrite lookup_insert_eq|]. simplify_eq. exists s'. split_and!; [done|auto|congruence..].
      * destruct (H4 r s) as (s' & K1 & K2 & K3 & K4 & K5); [by rewrite lookup_insert_ne|].
        exists s'. split_and!; try done. intros [Hin|?]; [|auto].
        apply elem_of_cons in Hin as [?|?]; [done|auto].
    + intros Hno. simpl in H5. unfold GetLink in H5. rewrite (Hno r0 s0 E0), app_nil_r in H5.
      apply H5. intros r s Hr. apply lookup_insert_Some in Hr as [[<- <-]|[_ Hr]]; [|by eapply Hno].
      rewrite F7. by apply (Hno r0).
  - specialize (IH g effs). cbv zeta in *. destruct (foldl _ _ l) as [g' effs'].
    destruct IH as (H1 & H2 & H3 & H4 & H5). split_and!; try done.
    intros r s Hr. destruct (H4 r s Hr) as (s' & K1 & K2 & K3). exists s'. split_and!; try done; [|apply K3..].
    intros [Hin|?]; [|auto]. apply elem_of_cons in Hin as [->|?]; [congruence|auto].
Qed.

(** A removed destination is not forgotten: handling its removal closes none
    of its links as long as no link id is also a link key, since the links are
    looked up by id in the map of keys; and a state of it that waits in the
    retry queue is dialed again when it is due, although its destination is gone
    and its status says so. *)
Theorem removed_dest_redialed env g id d r s :
  lr_destinations g !! id = Some d → r ∈ statesOf g d → lr_states g !! r = Some s →
  (∀ r' s', lr_states g !! r' = Some s' → GetLink g (ls_linkId s') = None) →
  lr_linkStateQueue g = [r] → ls_dialActive s = false →
  ls_nextDial s ≤ e_now env → e_now env < e_later env → e_pool env r = true →
  let '(g1, effs) := removeLinkDest_Handle id g in
  effs = [] ∧ lr_linkMap g1 = lr_linkMap g ∧ lr_destinations g1 !! id = None ∧
  (ls_status <$> lr_states g1 !! r) = Some StatusDestRemoved ∧
  ∃ g2, evaluateLinkStateQueue 2 env g1 = Some g2 ∧
    (ls_status <$> lr_states g2 !! r) = Some StatusDialing ∧ (r, false) ∈ lr_jobs g2.
Proof.
  intros Hid Hin Hr Hno Hq Hact Hdue Hnow Hpool. unfold removeLinkDest_Handle. rewrite Hid.
  pose proof (removeLinkDest_loop (statesOf g d) (set_destinations (delete id (lr_destinations g)) g) [])
    as (H1 & H2 & H3 & H4 & H5). destruct (foldl _ _ _) as [g1 effs]. cbn [fst snd] in *.
  destruct (H4 r s Hr) as (s1 & K1 & K2 & K3 & K4 & _). specialize (K2 (or_introl Hin)).
  split; [by apply H5|]. split; [done|]. split; [rewrite H2; simpl; by rewrite lookup_delete_eq|].
  split; [by rewrite K1; simpl; rewrite K2|].
  assert (lr_linkStateQueue g1 = [r]) as Hq1 by (rewrite H1; exact Hq).
  set (g0 := set_queue (heap_Pop (nextDialOf g1) [r]) g1).
  assert (lr_linkStateQueue g0 = []) as Hq0.
  { unfold g0. cbn [lr_linkStateQueue set_queue]. apply Permutation_nil_r, heap_Pop_perm. }
  assert (evaluateLinkState env r g0 = set_jobs (lr_jobs g0 ++ [(r, false)]) (put_state r
    (set_dial true (wrap_u 64 (ls_dialAttempts s1 + 1)) (updateStatus StatusDialing s1)) g0)) as He.
  { unfold evaluateLinkState. change (lr_states g0) with (lr_states g1). rewrite K1, Hpool.
    unfold couldDial. rewrite K2, K4, Hact, !bool_decide_true by done.
    by rewrite (proj2 (Z.ltb_lt _ _)) by lia. }
  exists (evaluateLinkState env r g0). split.
  - cbn [evaluateLinkStateQueue]. rewrite Hq1.
    assert (nextDialOf g1 r = ls_nextDial s1) as Hnd by (unfold nextDialOf; by rewrite K1).
    rewrite Hnd, (proj2 (Z.ltb_ge _ _)) by lia. fold g0. rewrite He.
    cbn [lr_linkStateQueue set_jobs put_state]. by rewrite Hq0.
  - rewrite He. simpl. rewrite lookup_insert_eq. simpl.
    split; [|apply elem_of_app; right; by apply list_elem_of_singleton].
    f_equal. apply (updateStatus_frame StatusDialing s1).
Qed.

(** ** Witnesses *)

Definition demoDialer : Dialer :=
  mkDialer "" ["default"] (mkBackoff 5 300 (3 # 2)) (mkBackoff 60 3600 10).
Definition demoListener : Listener := mkListener "tls:r2:6000" "tls" ["default"] "".
Definition demoEnv (now : Z) : Env :=
  mkEnv now (now + 1) (λ _, false) (λ _, true) (λ _, 0%Q) (λ _, 1) (λ _, "l1"%string) [demoDialer] false
    (λ a b, existsb (λ x, existsb (String.eqb x) b) a).
Definition demoKey : string := "default->tls:r2->default".
Definition demoUpdate : event := EvLinkDestUpdate "r2" "v1" true [demoListener].

(** A destination has been announced and its link is being dialed. *)
Definition demoReg : linkRegistry :=
  set_events [] (Handle (demoEnv 1) demoUpdate (queueEvent demoUpdate emptyRegistry)).1.

Abbreviation demo_reachable := (reg_reachable (λ _, "r2"%string) (λ _, demoKey) [demoDialer]).

Lemma demoReg_reachable : demo_reachable (demoReg, None).
Proof.
  eapply rtc_l; [by apply (step_post _ _ _ demoUpdate)|].
  eapply rtc_l; [by apply (step_handle _ _ _ (demoEnv 1) [] demoUpdate [])|]. apply rtc_refl.
Qed.

Lemma registry_invariant_witness :
  NoDup (lr_jobs demoReg).*1 ∧ lr_jobs demoReg = [(0%nat, false)].
Proof.
  split; [|vm_compute; reflexivity].
  apply (registry_invariant (λ _, "r2"%string) (λ _, demoKey) [demoDialer] (demoReg, None)
    demoReg_reachable).
Defined.

Definition demoState : linkState := default (newLinkState "" "" 0 demoListener demoDialer)
  (lr_states demoReg !! 0%nat).

Lemma dialing_never_stuck_witness :
  ls_status demoState = StatusDialing ∧ ∃ phase, (0%nat, phase) ∈ lr_jobs demoReg.
Proof.
  split; [vm_compute; reflexivity|].
  destruct (dialing_never_stuck (λ _, "r2"%string) (λ _, demoKey) [demoDialer] (demoReg, None)
    0%nat demoState demoReg_reachable) as [H|(l1 & ev & l2 & H & _)].
  - exists "r2"%string, 0%nat. eexists. split; [vm_compute; reflexivity|].
    split; vm_compute; reflexivity.
  - vm_compute. reflexivity.
  - vm_compute. reflexivity.
  - exact H.
  - exfalso. vm_compute in H. by destruct l1.
Defined.

(** The dial has failed and the state waits for its retry. *)
Definition demoFailed : linkRegistry :=
  updateLinkStatusToDialFailed_Handle (demoEnv 2) 0 false
    (dialJob_finish (demoEnv 2) 0 None (dialJob_start 0 demoReg)).1.

Lemma retry_queue_drains_witness :
  ∃ g', evaluateLinkStateQueue 2 (demoEnv 1000) demoFailed = Some g' ∧
    match lr_linkStateQueue g' with [] => True | r :: _ => 1000 < nextDialOf g' r end.
Proof.
  apply (retry_queue_drains (demoEnv 1000) demoFailed).
  - vm_compute. reflexivity.
  - intros r. vm_compute. discriminate.
  - intros r s h Hr. apply elem_of_map_to_list in Hr. vm_compute in Hr.
    apply list_elem_of_singleton in Hr. simplify_eq. destruct h; split; vm_compute; discriminate.
Defined.

Lemma removed_dest_redialed_witness :
  let g1 := (removeLinkDest_Handle "r2" demoFailed).1 in
  lr_destinations g1 !! "r2"%string = None ∧
  ∃ g2, evaluateLinkStateQueue 2 (demoEnv 1000) g1 = Some g2 ∧
    (ls_status <$> lr_states g2 !! 0%nat) = Some StatusDialing.
Proof.
  assert (∃ s, lr_states demoFailed !! 0%nat = Some s ∧ ls_dialActive s = false ∧
    ls_nextDial s <= 1000) as (s & Hs & Ha & Hn)
    by (eexists; split; [vm_compute; reflexivity|split; vm_compute; [reflexivity|discriminate]]).
  assert (∀ r' s', lr_states demoFailed !! r' = Some s' → GetLink demoFailed (ls_linkId s') = None)
    as Hno.
  { intros r' s' Hr. apply elem_of_map_to_list in Hr. vm_compute in Hr.
    apply list_elem_of_singleton in Hr. simplify_eq. vm_compute. reflexivity. }
  assert (0%nat ∈ statesOf demoFailed 0) as Hin
    by (apply (bool_decide_unpack _); vm_compute; exact I).
  pose proof (removed_dest_redialed (demoEnv 1000) demoFailed "r2" 0%nat 0%nat s
    ltac:(vm_compute; reflexivity) Hin Hs Hno ltac:(vm_compute; reflexivity) Ha Hn
    ltac:(vm_compute; reflexivity) ltac:(reflexivity)) as H.
  destruct (removeLinkDest_Handle "r2" demoFailed) as [g1 effs]. simpl.
  destruct H as (_ & _ & H1 & _ & g2 & H2 & H3 & _).
  split; [exact H1|]. exists g2. split; [exact H2|exact H3].
Defined.
