(* ===== verification/EventCache.v ===== *)
(** * The controller's event cache and the per-router sender (common/event_cache.go, controller/sync_strats/rtx.go)

    [LoggingEventCache] keeps the last change sets of the router data model in a
    ring, so that a router that reconnects can be brought up to date from the
    index it has. [RouterSender] decides, per router, between replaying events
    and sending the full state. The cache is described by the history of what
    has been stored; the theorems say what a replay returns in terms of it.

    Indexes are [uint64] in the code. They are produced by incrementing and
    only compared; the one increment here stops at the head index, so that plain
    integers are faithful. *)

From stdpp Require Import base gmap list strings fin_maps relations sorting.
From Stdlib Require Import ZArith Lia.
From S2P Require Import Prelude.

Open Scope Z_scope.

(** [DataState_ChangeSet], over the type of the single changes. *)
Record ChangeSet (Change : Type) := mkChangeSet {
  cs_Index : Z;
  cs_IsSynthetic : bool;
  cs_Changes : list Change;
}.
Arguments mkChangeSet {_} _ _ _.
Arguments cs_Index {_} _.
Arguments cs_IsSynthetic {_} _.
Arguments cs_Changes {_} _.

Inductive ReplayResult :=
| ReplayResultSuccess
| ReplayResultFullSyncRequired
| ReplayResultRequestFromFuture.
#[global] Instance ReplayResult_eq_dec : EqDecision ReplayResult.
Proof. solve_decision. Defined.

Section Cache.
Context {Change : Type}.
Abbreviation CS := (ChangeSet Change).

Record LoggingEventCache := mkCache {
  lc_HeadLogIndex : nat;
  lc_MinEntryIndex : Z;
  lc_LogSize : nat;
  lc_Log : list Z;
  lc_Events : gmap Z CS;
}.

Definition NewLoggingEventCache (logSize : nat) : LoggingEventCache :=
  mkCache 0 0 logSize (replicate logSize 0) ∅.

(** The minimum entry index is left as it is. *)
Definition SetCurrentIndex (index : Z) (c : LoggingEventCache) : LoggingEventCache :=
  mkCache 0 (lc_MinEntryIndex c) (lc_LogSize c)
    (<[0%nat := index]> (replicate (lc_LogSize c) 0)) ∅.

Definition currentIndex (c : LoggingEventCache) : Z :=
  default 0 (lc_Log c !! lc_HeadLogIndex c).

(** [storeLocked]: [Err] carries the current index of an out of order event,
    [Ok true] means stored, [Ok false] synthetic. In both cases of [Ok] the
    success callback runs. *)
Definition storeLocked (event : CS) (c : LoggingEventCache)
    : LoggingEventCache * result bool Z :=
  if cs_IsSynthetic event then (c, Ok false)
  else if currentIndex c >=? cs_Index event then (c, Err (currentIndex c))
  else
    let targetLogIndex := ((lc_HeadLogIndex c + 1) mod lc_LogSize c)%nat in
    let prevCachedIndex := default 0 (lc_Log c !! targetLogIndex) in
    let '(events, min) :=
      if bool_decide (prevCachedIndex ≠ 0)
      then (delete prevCachedIndex (lc_Events c), prevCachedIndex + 1)
      else (lc_Events c, lc_MinEntryIndex c) in
    (mkCache targetLogIndex (if min =? 0 then cs_Index event else min) (lc_LogSize c)
       (<[targetLogIndex := cs_Index event]> (lc_Log c)) (<[cs_Index event := event]> events),
     Ok true).

(** The loop that moves a start index without an event forward; [None] when the
    fuel runs out. *)
Fixpoint findStart (fuel : nat) (c : LoggingEventCache) (startIndex headIndex : Z)
    : option (Z + ReplayResult) :=
  match fuel with
  | O => None
  | S fuel =>
    match lc_Events c !! startIndex with
    | Some _ => Some (inl startIndex)
    | None =>
      if startIndex >? headIndex then Some (inr ReplayResultRequestFromFuture)
      else if startIndex <? lc_MinEntryIndex c then Some (inr ReplayResultFullSyncRequired)
      else
        let startIndex := startIndex + 1 in
        if startIndex >? headIndex then Some (inr ReplayResultFullSyncRequired)
        else findStart fuel c startIndex headIndex
    end
  end.

(** The search for the position of the start index, from a guess and around. *)
Definition findPos (log : list Z) (tryStart : nat) (x : Z) : option nat :=
  head (filter (λ i, log !! i = Some x) (seq tryStart (length log - tryStart) ++ seq 0 tryStart)).

Definition ReplayFrom (startIndex : Z) (c : LoggingEventCache)
    : option (list (option CS) * ReplayResult) :=
  let headIndex := currentIndex c in
  match findStart (S (Z.to_nat (headIndex - startIndex))) c startIndex headIndex with
  | None => None
  | Some (inr r) => Some ([], r)
  | Some (inl startIndex) =>
    let tryOffset := headIndex - startIndex in
    let tryStartIndex :=
      if Z.of_nat (lc_HeadLogIndex c) - tryOffset >=? 0
      then Z.to_nat (Z.of_nat (lc_HeadLogIndex c) - tryOffset) else 0%nat in
    match findPos (lc_Log c) tryStartIndex startIndex with
    | None => Some ([], ReplayResultFullSyncRequired)
    | Some p =>
      let keys :=
        if bool_decide (p ≤ lc_HeadLogIndex c)%nat
        then drop p (take (lc_HeadLogIndex c + 1) (lc_Log c))
        else drop p (lc_Log c) ++ take (lc_HeadLogIndex c + 1) (lc_Log c) in
      Some ((λ key, lc_Events c !! key) <$> keys, ReplayResultSuccess)
    end
  end.

(** ** What the cache holds *)

Implicit Types e x : CS.
Implicit Types hist kept : list CS.

(** The log read from its oldest to its newest entry. *)
Definition ring (c : LoggingEventCache) : list Z :=
  drop (lc_HeadLogIndex c + 1) (lc_Log c) ++ take (lc_HeadLogIndex c + 1) (lc_Log c).

(** [hist] is everything stored since the index was set to [base], [kept] what
    the cache still holds of it. *)
Record cache_inv (base : Z) (hist kept : list CS) (c : LoggingEventCache) : Prop := mkCacheInv {
  ci_size : length (lc_Log c) = lc_LogSize c;
  ci_head : (lc_HeadLogIndex c < lc_LogSize c)%nat;
  ci_base : 0 ≤ base;
  ci_suffix : ∃ old, hist = old ++ kept;
  ci_sorted : StronglySorted (λ a b, cs_Index a < cs_Index b) hist;
  ci_above : ∀ e, e ∈ hist → base < cs_Index e;
  ci_ring : ∃ pre, ring c = pre ++ (cs_Index <$> kept) ∧
    (pre = [] ∨ (hist = kept ∧ ∃ k, pre = replicate k 0 ++ [base]));
  ci_events : ∀ i e, lc_Events c !! i = Some e ↔ e ∈ kept ∧ cs_Index e = i;
  ci_min : (hist = [] ∧ lc_MinEntryIndex c = 0) ∨
    (kept ≠ [] ∧ base < lc_MinEntryIndex c ∧ (∀ e, e ∈ kept → lc_MinEntryIndex c ≤ cs_Index e) ∧
     ∀ e, e ∈ hist → lc_MinEntryIndex c ≤ cs_Index e → e ∈ kept);
}.

Lemma ring_length c : (lc_HeadLogIndex c < length (lc_Log c))%nat → length (ring c) = length (lc_Log c).
Proof. intros H. unfold ring. rewrite length_app, length_drop, length_take. lia. Qed.

Lemma ring_last c : (lc_HeadLogIndex c < length (lc_Log c))%nat →
  last (ring c) = Some (currentIndex c).
Proof.
  intros H. unfold ring, currentIndex.
  destruct (lookup_lt_is_Some_2 (lc_Log c) (lc_HeadLogIndex c) H) as [x Hx]. rewrite Hx. simpl.
  rewrite Nat.add_1_r, (take_S_r _ _ x Hx), app_assoc. apply last_snoc.
Qed.

(** Storing moves the ring by one. *)
Lemma ring_store c (x : Z) :
  let t := ((lc_HeadLogIndex c + 1) mod length (lc_Log c))%nat in
  (lc_HeadLogIndex c < length (lc_Log c))%nat →
  head (ring c) = lc_Log c !! t ∧
  drop (t + 1) (<[t := x]> (lc_Log c)) ++ take (t + 1) (<[t := x]> (lc_Log c)) = tail (ring c) ++ [x].
Proof.
  intros t H. unfold ring. destruct (decide (lc_HeadLogIndex c + 1 = length (lc_Log c))%nat) as [He|Hne].
  - assert (t = 0%nat) as -> by (unfold t; rewrite He; apply Nat.Div0.mod_same).
    rewrite He, drop_ge, take_ge by lia. simpl app. destruct (lc_Log c) as [|y l]; [simpl in H; lia|].
    done.
  - assert (t = lc_HeadLogIndex c + 1)%nat as Ht by (unfold t; rewrite Nat.mod_small; lia).
    rewrite <- Ht. assert (t < length (lc_Log c))%nat as Hlt by lia.
    destruct (lookup_lt_is_Some_2 _ _ Hlt) as [y Hy]. rewrite (drop_S _ _ _ Hy). simpl. split; [done|].
    rewrite Nat.add_1_r. rewrite drop_insert_lt by lia.
    rewrite (take_S_r _ t x) by (by apply list_lookup_insert_eq). rewrite take_insert_ge by lia.
    by rewrite app_assoc.
Qed.

Lemma new_inv n : (0 < n)%nat → cache_inv 0 [] [] (NewLoggingEventCache n).
Proof.
  intros Hn. split; simpl; try done.
  - apply length_replicate.
  - by exists [].
  - constructor.
  - intros e ?%not_elem_of_nil. done.
  - exists (replicate (n - 1) 0 ++ [0]). split; [|right; eauto].
    rewrite app_nil_r. unfold ring. simpl. rewrite drop_replicate, take_replicate.
    by rewrite Nat.min_l by lia.
  - intros i e. rewrite lookup_empty. split; [done|]. by intros [?%not_elem_of_nil _].
  - by left.
Qed.

(** Setting the index of a cache nothing has been stored in. *)
Lemma set_index_inv n index :
  (0 < n)%nat → 0 ≤ index → cache_inv index [] [] (SetCurrentIndex index (NewLoggingEventCache n)).
Proof.
  intros Hn Hi. split; simpl; try done.
  - rewrite length_insert. apply length_replicate.
  - by exists [].
  - constructor.
  - intros e ?%not_elem_of_nil. done.
  - exists (replicate (n - 1) 0 ++ [index]). split; [|right; eauto].
    rewrite app_nil_r. unfold ring. simpl. rewrite drop_insert_lt, drop_replicate by lia.
    rewrite take_insert_lt, take_replicate, Nat.min_l by lia. done.
  - intros i e. rewrite lookup_empty. split; [done|]. by intros [?%not_elem_of_nil _].
  - by left.
Qed.

Lemma last_index base hist kept c :
  cache_inv base hist kept c → currentIndex c = default base (cs_Index <$> last kept) ∧
  (kept = [] → hist = []).
Proof.
  intros I. assert (lc_HeadLogIndex c < length (lc_Log c))%nat as Hh
    by (rewrite (ci_size _ _ _ _ I); apply I).
  pose proof (ring_last c Hh) as Hl. destruct (ci_ring _ _ _ _ I) as (pre & Hr & Hpre).
  rewrite Hr, last_app, fmap_last in Hl. destruct (last kept) as [e|] eqn:E; simpl in *.
  - simplify_eq. split; [done|]. intros ->. done.
  - apply last_None in E. subst. destruct Hpre as [->|[-> (k & ->)]]; [done|].
    rewrite last_snoc in Hl. by simplify_eq.
Qed.

Lemma kept_le_current base hist kept c e :
  cache_inv base hist kept c → e ∈ hist → cs_Index e ≤ currentIndex c.
Proof.
  intros I He. destruct (last_index _ _ _ _ I) as [Hc Hk]. destruct (ci_suffix _ _ _ _ I) as [old Hold].
  destruct (last kept) as [x|] eqn:E.
  - rewrite Hc. simpl. apply last_Some in E as [l ->]. pose proof (ci_sorted _ _ _ _ I) as Hs.
    rewrite Hold, app_assoc in Hs, He. apply elem_of_app in He as [He|He].
    + apply StronglySorted_app_1_elem_of with (x1 := e) (x2 := x) in Hs; [lia|done|set_solver].
    + apply list_elem_of_singleton in He. by subst.
  - apply last_None in E. rewrite (Hk E) in He. by apply not_elem_of_nil in He.
Qed.

Lemma events_insert (events : gmap Z CS) kept0 e :
  (∀ i x, events !! i = Some x ↔ x ∈ kept0 ∧ cs_Index x = i) →
  (∀ x, x ∈ kept0 → cs_Index x < cs_Index e) →
  ∀ i x, <[cs_Index e := e]> events !! i = Some x ↔ x ∈ kept0 ++ [e] ∧ cs_Index x = i.
Proof.
  intros Hev Hlt i x. rewrite lookup_insert_Some, elem_of_app, list_elem_of_singleton, Hev. split.
  - intros [[<- <-]|[? [? ?]]]; auto.
  - intros [[Hin| ->] <-]; [|by left]. right. specialize (Hlt x Hin). split; [lia|done].
Qed.

Lemma events_delete (events : gmap Z CS) x0 kept0 :
  (∀ i x, events !! i = Some x ↔ x ∈ x0 :: kept0 ∧ cs_Index x = i) →
  (∀ x, x ∈ kept0 → cs_Index x0 < cs_Index x) →
  ∀ i x, delete (cs_Index x0) events !! i = Some x ↔ x ∈ kept0 ∧ cs_Index x = i.
Proof.
  intros Hev Hlt i x. rewrite lookup_delete_Some, Hev, elem_of_cons. split.
  - intros [Hne [[->|?] ?]]; [congruence|done].
  - intros [Hin <-]. specialize (Hlt x Hin). split; [lia|auto].
Qed.

(** The cache after an entry has been written, for any choice of what is given
    up. *)
Lemma store_record_inv base hist kept c e t kept0 pre0 (events0 : gmap Z CS) min :
  cache_inv base hist kept c → t = ((lc_HeadLogIndex c + 1) mod lc_LogSize c)%nat →
  (∀ x, x ∈ hist → cs_Index x < cs_Index e) → base < cs_Index e →
  (∃ old0, hist = old0 ++ kept0) → tail (ring c) = pre0 ++ (cs_Index <$> kept0) →
  (pre0 = [] ∨ (hist = kept0 ∧ ∃ k, pre0 = replicate k 0 ++ [base])) →
  (∀ i x, events0 !! i = Some x ↔ x ∈ kept0 ∧ cs_Index x = i) →
  (hist = [] ∧ min = 0 ∨ base < min ∧ (∀ x, x ∈ kept0 → min ≤ cs_Index x) ∧
     (∀ x, x ∈ hist → min ≤ cs_Index x → x ∈ kept0) ∧ min ≤ cs_Index e) →
  cache_inv base (hist ++ [e]) (kept0 ++ [e])
    (mkCache t (if min =? 0 then cs_Index e else min) (lc_LogSize c)
      (<[t := cs_Index e]> (lc_Log c)) (<[cs_Index e := e]> events0)).
Proof.
  intros [I1 I2 I3 _ I5 I6 _ _ _] Ht Hnew Hbe [old0 Hold] Htail Hp Hev Hmin.
  destruct (ring_store c (cs_Index e)) as [_ Htl]; [lia|]. rewrite I1, <- Ht in Htl.
  split; simpl; try done.
  - by rewrite length_insert.
  - rewrite Ht. apply Nat.mod_upper_bound. lia.
  - exists old0. by rewrite Hold, app_assoc.
  - apply StronglySorted_app_2; [|done|repeat constructor].
    intros x1 x2 H1 H2%list_elem_of_singleton. subst. by apply Hnew.
  - intros x [?|?%list_elem_of_singleton]%elem_of_app; [auto|by subst].
  - exists pre0. unfold ring. simpl. rewrite Htl, Htail, fmap_app, app_assoc. split; [done|].
    destruct Hp as [->|[-> ?]]; auto.
  - apply events_insert; [done|]. intros x Hx. apply Hnew. rewrite Hold. set_solver.
  - right. split; [by destruct kept0|]. destruct Hmin as [[Hh ->]|(Hb & H1 & H2 & H3)].
    + rewrite Hh in Hold. symmetry in Hold. apply app_nil in Hold as [-> ->]. rewrite Z.eqb_refl, Hh.
      simpl. split_and!; [done| |].
      * intros x ->%list_elem_of_singleton. lia.
      * intros x Hx _. done.
    + rewrite (proj2 (Z.eqb_neq _ _)) by lia. split_and!; [done| |].
      * intros x [?|?%list_elem_of_singleton]%elem_of_app; [auto|by subst].
      * intros x [Hx|Hx]%elem_of_app Hm; apply elem_of_app; [left; auto|by right].
Qed.

(** The minimum entry index, seen from a new entry. *)
Lemma min_bound base hist kept c e :
  cache_inv base hist kept c → (∀ x, x ∈ hist → cs_Index x < cs_Index e) →
  hist = [] ∧ lc_MinEntryIndex c = 0 ∨ base < lc_MinEntryIndex c ∧
    (∀ x, x ∈ kept → lc_MinEntryIndex c ≤ cs_Index x) ∧
    (∀ x, x ∈ hist → lc_MinEntryIndex c ≤ cs_Index x → x ∈ kept) ∧
    lc_MinEntryIndex c ≤ cs_Index e.
Proof.
  intros I Hnew. destruct (ci_min _ _ _ _ I) as [?|(H0 & H1 & H2 & H3)]; [by left|right].
  split_and!; try done. destruct kept as [|x kept]; [done|]. destruct (ci_suffix _ _ _ _ I) as [old Hold].
  assert (x ∈ hist) as Hx by (rewrite Hold; set_solver).
  pose proof (H2 x ltac:(left)). pose proof (Hnew x Hx). lia.
Qed.

(** Storing gives up padding, the base index or the oldest entry of the ring. *)
Lemma store_inv base hist kept c e :
  cache_inv base hist kept c → cs_IsSynthetic e = false → currentIndex c < cs_Index e →
  ∃ kept', cache_inv base (hist ++ [e]) kept' (storeLocked e c).1 ∧ (storeLocked e c).2 = Ok true.
Proof.
  intros I Hsyn Hlt. unfold storeLocked. rewrite Hsyn, Z.geb_leb, (proj2 (Z.leb_gt _ _)) by lia.
  pose proof I as [I1 I2 I3 [old I4] I5 I6 (pre & Hring & Hpre) I8 _].
  assert (∀ x, x ∈ hist → cs_Index x < cs_Index e) as Hnew.
  { intros x Hx. pose proof (kept_le_current _ _ _ _ x I Hx). lia. }
  assert (base < cs_Index e) as Hbe.
  { destruct (last_index _ _ _ _ I) as [Hc _]. destruct (last kept) as [x|] eqn:E; simpl in Hc; [|lia].
    apply last_Some in E as [l ->]. assert (x ∈ hist) as Hx by (rewrite I4; set_solver).
    specialize (I6 x Hx). lia. }
  destruct (ring_store c (cs_Index e)) as [Hhd _]; [lia|]. rewrite I1 in Hhd. rewrite Hring in Hhd.
  pose proof (min_bound _ _ _ _ e I Hnew) as Hmin.
  destruct Hpre as [->|(Hh & [|k] & ->)]; cbn [replicate app head] in Hhd.
  - destruct kept as [|x0 kept]; simpl in Hhd.
    { exfalso. assert (length (ring c) = 0%nat) as H0 by (by rewrite Hring).
      rewrite ring_length in H0; lia. }
    rewrite <- Hhd. simpl default. assert (base < cs_Index x0) by (apply I6; rewrite I4; set_solver).
    rewrite bool_decide_true by lia. exists (kept ++ [e]). split; [|done].
    assert (∀ x, x ∈ kept → cs_Index x0 < cs_Index x) as Hx0.
    { intros x Hx. rewrite I4 in I5. apply StronglySorted_app_1_r in I5.
      apply StronglySorted_inv in I5 as [_ I5]. by apply (proj1 (Forall_forall _ _) I5). }
    eapply (store_record_inv _ hist (x0 :: kept) c e _ kept []); try done.
    + exists (old ++ [x0]). by rewrite <- app_assoc.
    + by rewrite Hring.
    + by left.
    + by apply events_delete.
    + right. split_and!; [lia|intros x Hx; specialize (Hx0 x Hx); lia| |].
      * intros x Hx Hge. rewrite I4 in Hx, I5. apply elem_of_app in Hx as [Hx|Hx].
        -- pose proof (StronglySorted_app_1_elem_of _ _ _ x x0 I5 Hx ltac:(left)). simpl in *. lia.
        -- apply elem_of_cons in Hx as [->|?]; [lia|done].
      * assert (cs_Index x0 < cs_Index e); [|lia]. apply Hnew. rewrite I4. set_solver.
  - rewrite <- Hhd. simpl default. exists (kept ++ [e]). case_bool_decide as Hb; (split; [|done]);
      (eapply (store_record_inv _ hist kept c e _ kept []); try done;
        [by exists []|by rewrite Hring|by left|..]).
    + intros i x. rewrite lookup_delete_Some, I8. split; [by intros [_ ?]|].
      intros [Hx <-]. split; [|done]. rewrite <- Hh in Hx. specialize (I6 x Hx). lia.
    + right. split_and!; [lia|intros x Hx; rewrite <- Hh in Hx; specialize (I6 x Hx); lia| |lia].
      intros x Hx _. by rewrite <- Hh.
  - rewrite <- Hhd. simpl default. rewrite bool_decide_false by lia. exists (kept ++ [e]). split; [|done].
    eapply (store_record_inv _ hist kept c e _ kept (replicate k 0 ++ [base])); try done.
    + by exists [].
    + by rewrite Hring.
    + right. eauto.
Qed.

(** ** Replay *)

Lemma findStart_spec c head fuel start :
  (Z.to_nat (head - start) < fuel)%nat →
  match findStart fuel c start head with
  | Some (inl s) => start ≤ s ∧ is_Some (lc_Events c !! s) ∧
      ∀ i, start ≤ i < s → lc_Events c !! i = None ∧ lc_MinEntryIndex c ≤ i
  | Some (inr ReplayResultRequestFromFuture) => head < start
  | Some (inr ReplayResultFullSyncRequired) => start ≤ head ∧
      (start < lc_MinEntryIndex c ∨ ∀ i, start ≤ i ≤ head → lc_Events c !! i = None)
  | _ => False
  end.
Proof.
  revert start. induction fuel as [|fuel IH]; intros start Hf; [lia|]. cbn [findStart].
  destruct (lc_Events c !! start) as [e|] eqn:E.
  { split; [lia|]. split; [eauto|]. intros i ?. lia. }
  destruct (Z.gtb_spec start head); [done|].
  destruct (Z.ltb_spec start (lc_MinEntryIndex c)); [auto|].
  destruct (Z.gtb_spec (start + 1) head).
  { split; [done|]. right. intros i ?. by replace i with start by lia. }
  specialize (IH (start + 1)). destruct (findStart fuel c (start + 1) head) as [[s0|[]]|];
    try (apply IH; lia).
  - destruct IH as (K1 & K2 & K3); [lia|]. split; [lia|]. split; [done|]. intros i Hi.
    destruct (decide (i = start)) as [->|]; [auto|]. apply K3. lia.
  - destruct IH as (K1 & K2); [lia|]. split; [lia|]. destruct K2 as [?|K2]; [lia|]. right.
    intros i Hi. destruct (decide (i = start)) as [->|]; [auto|]. apply K2. lia.
  - exfalso. specialize (IH ltac:(lia)). simpl in IH. lia.
Qed.

Lemma findPos_spec log t (x : Z) :
  x ∈ log → (t ≤ length log)%nat → ∃ p, findPos log t x = Some p ∧ log !! p = Some x.
Proof.
  intros Hx Ht. unfold findPos.
  destruct (head (filter _ _)) as [p|] eqn:E.
  - exists p. split; [done|]. apply head_Some_elem_of in E. by apply list_elem_of_filter in E as [? _].
  - exfalso. apply head_None in E. apply list_elem_of_lookup in Hx as [i Hi].
    pose proof (lookup_lt_Some _ _ _ Hi) as Hlt.
    assert (i ∈ filter (λ i, log !! i = Some x) (seq t (length log - t) ++ seq 0 t)) as Hin.
    { apply list_elem_of_filter. split; [done|]. rewrite elem_of_app, !elem_of_seq. lia. }
    rewrite E in Hin. by apply not_elem_of_nil in Hin.
Qed.

(** The keys that are replayed are the end of the ring. *)
Lemma replay_keys c p (x : Z) :
  (lc_HeadLogIndex c < length (lc_Log c))%nat → lc_Log c !! p = Some x →
  ∃ j, ring c !! j = Some x ∧
    (if bool_decide (p ≤ lc_HeadLogIndex c)%nat
     then drop p (take (lc_HeadLogIndex c + 1) (lc_Log c))
     else drop p (lc_Log c) ++ take (lc_HeadLogIndex c + 1) (lc_Log c)) = drop j (ring c).
Proof.
  intros Hh Hp. pose proof (lookup_lt_Some _ _ _ Hp) as Hlt. unfold ring.
  set (h := lc_HeadLogIndex c) in *. set (log := lc_Log c) in *. case_bool_decide as Hle.
  - exists (length (drop (h + 1) log) + p)%nat.
    rewrite lookup_app_r, drop_app_ge by lia.
    replace (length (drop (h + 1) log) + p - length (drop (h + 1) log))%nat with p by lia.
    split; [|done]. by rewrite lookup_take_lt by lia.
  - exists (p - (h + 1))%nat. rewrite lookup_app_l by (rewrite length_drop; lia).
    rewrite lookup_drop, drop_app_le by (rewrite length_drop; lia).
    rewrite drop_drop. replace (h + 1 + (p - (h + 1)))%nat with p by lia. done.
Qed.

Lemma filter_split (P : CS → Prop) `{∀ e, Decision (P e)} (l1 l2 : list CS) :
  (∀ e, e ∈ l1 → ¬ P e) → (∀ e, e ∈ l2 → P e) → filter P (l1 ++ l2) = l2.
Proof.
  intros H1 H2. rewrite filter_app.
  assert (filter P l1 = []) as ->.
  { induction l1 as [|x l1 IH]; [done|]. rewrite filter_cons, decide_False by (apply H1; left).
    apply IH. intros e He. apply H1. by right. }
  simpl. induction l2 as [|x l2 IH]; [done|]. rewrite filter_cons, decide_True by (apply H2; left).
  f_equal. apply IH. intros e He. apply H2. by right.
Qed.

(** From a kept entry on, the ring holds exactly the rest of the kept entries. *)
Lemma ring_drop base hist kept c e j q :
  cache_inv base hist kept c → kept !! q = Some e → ring c !! j = Some (cs_Index e) →
  drop j (ring c) = cs_Index <$> drop q kept.
Proof.
  intros I Hq Hj. destruct (ci_ring _ _ _ _ I) as (pre & Hr & Hpre).
  destruct (ci_suffix _ _ _ _ I) as [old Hold].
  assert (e ∈ hist) as He by (rewrite Hold; apply elem_of_app; right; by eapply list_elem_of_lookup_2).
  pose proof (ci_above _ _ _ _ I e He) as Habove. pose proof (ci_base _ _ _ _ I) as Hb.
  rewrite Hr in Hj |- *. destruct (decide (j < length pre)%nat) as [Hlt|Hge].
  - exfalso. rewrite lookup_app_l in Hj by done. apply list_elem_of_lookup_2 in Hj.
    destruct Hpre as [->|[_ [k ->]]]; [by apply not_elem_of_nil in Hj|].
    apply elem_of_app in Hj as [Hj|Hj]; [apply elem_of_replicate in Hj; lia|].
    apply list_elem_of_singleton in Hj. lia.
  - rewrite lookup_app_r in Hj by lia. rewrite drop_app_ge, fmap_drop by lia. f_equal.
    rewrite list_lookup_fmap in Hj. destruct (kept !! (j - length pre)%nat) as [x|] eqn:Ex; [|done].
    simpl in Hj. injection Hj as Hj. destruct (Nat.lt_trichotomy (j - length pre) q) as [Hl|[?|Hl]]; [|done|];
      exfalso; pose proof (ci_sorted _ _ _ _ I) as Hs; rewrite Hold in Hs;
      apply StronglySorted_app_1_r in Hs; rewrite <- (take_drop (max (j - length pre) q) kept) in Hs.
    + pose proof (StronglySorted_app_1_elem_of _ _ _ x e Hs) as Hlt. rewrite Nat.max_r in Hlt by lia.
      assert (cs_Index x < cs_Index e); [|lia]. apply Hlt.
      * apply (list_elem_of_lookup_2 _ (j - length pre)). rewrite lookup_take_lt by lia; exact Ex.
      * rewrite (drop_S _ _ _ Hq). left.
    + pose proof (StronglySorted_app_1_elem_of _ _ _ e x Hs) as Hlt. rewrite Nat.max_l in Hlt by lia.
      assert (cs_Index e < cs_Index x); [|lia]. apply Hlt.
      * apply (list_elem_of_lookup_2 _ q). rewrite lookup_take_lt by lia; exact Hq.
      * rewrite (drop_S _ _ _ Ex). left.
Qed.

Lemma elem_part {A} (a : A) n l : a ∈ take n l ∨ a ∈ drop n l → a ∈ l.
Proof. intros H. rewrite <- (take_drop n l). by apply elem_of_app. Qed.

(** If nothing lies between the start index and a kept entry, and what lies there
    would have been kept, the history from the start index is what is kept from
    that entry on. *)
Lemma replay_suffix base hist kept c start e q :
  cache_inv base hist kept c → kept !! q = Some e → start ≤ cs_Index e →
  (∀ k, start ≤ k < cs_Index e → lc_Events c !! k = None ∧ lc_MinEntryIndex c ≤ k) →
  filter (λ e, start ≤ cs_Index e) hist = drop q kept.
Proof.
  intros [_ _ _ [old I4] I5 _ _ I8 I9] Hq Hle Hgap.
  assert (e ∈ kept) as Hin by (by eapply list_elem_of_lookup_2).
  rewrite I4, <- (take_drop q kept), app_assoc, (drop_S _ _ _ Hq) in I5.
  rewrite I4. rewrite <- (take_drop q kept) at 1. rewrite app_assoc. apply filter_split.
  - intros x Hx Hsx. assert (cs_Index x < cs_Index e) as Hxi.
    { apply (StronglySorted_app_1_elem_of _ _ _ x e I5); [done|left]. }
    destruct (Hgap (cs_Index x)) as [Hnone Hmin]; [lia|].
    assert (x ∈ kept) as Hxk.
    { destruct I9 as [[Hn _]|(_ & _ & _ & H3)].
      - rewrite I4 in Hn. apply app_nil in Hn as [_ ->]. by apply not_elem_of_nil in Hin.
      - apply H3; [|done]. rewrite I4. apply elem_of_app in Hx as [?|Hx]; [set_solver|].
        apply elem_of_app. right. apply (elem_part x q). by left. }
    assert (lc_Events c !! cs_Index x = Some x) by (by apply I8). congruence.
  - intros x Hx. rewrite (drop_S _ _ _ Hq) in Hx. apply elem_of_cons in Hx as [->|Hx]; [lia|].
    apply StronglySorted_app_1_r in I5. apply StronglySorted_inv in I5 as [_ I5].
    pose proof (proj1 (Forall_forall _ _) I5 x Hx). simpl in *. lia.
Qed.

(** A successful search: what is returned is the history from the start index. *)
Lemma replay_success base hist kept c start i t :
  cache_inv base hist kept c → start ≤ i → is_Some (lc_Events c !! i) →
  (∀ k, start ≤ k < i → lc_Events c !! k = None ∧ lc_MinEntryIndex c ≤ k) →
  (t ≤ length (lc_Log c))%nat →
  ∃ p, findPos (lc_Log c) t i = Some p ∧ lc_Log c !! p = Some i ∧
    ∀ j, ring c !! j = Some i →
    (λ key, lc_Events c !! key) <$> drop j (ring c) = Some <$> filter (λ e, start ≤ cs_Index e) hist ∧
    filter (λ e, start ≤ cs_Index e) hist ≠ [].
Proof.
  intros I Hle [e He] Hgap Ht. pose proof I as [_ _ _ _ _ _ (pre & Hring & _) I8 _].
  apply I8 in He as [Hin <-]. pose proof (proj1 (list_elem_of_lookup _ _) Hin) as [q Hq].
  assert (cs_Index e ∈ lc_Log c) as Hlog.
  { assert (cs_Index e ∈ ring c) as Hr
      by (rewrite Hring; apply elem_of_app; right; apply list_elem_of_fmap; eauto).
    unfold ring in Hr. apply (elem_part _ (lc_HeadLogIndex c + 1)). set_solver. }
  destruct (findPos_spec (lc_Log c) t _ Hlog Ht) as (p & Hp & Hlp). exists p. split_and!; try done.
  intros j Hj. rewrite (replay_suffix _ _ _ _ _ _ _ I Hq Hle Hgap).
  rewrite (ring_drop _ _ _ _ e _ q I Hq Hj), <- list_fmap_compose. split.
  - apply list_fmap_ext. intros k x Hx. simpl. apply I8. split; [|done].
    apply list_elem_of_lookup_2 in Hx. apply (elem_part x q). by right.
  - by rewrite (drop_S _ _ _ Hq).
Qed.

Lemma ReplayFrom_spec base hist kept c start :
  cache_inv base hist kept c →
  ∃ res r, ReplayFrom start c = Some (res, r) ∧
  match r with
  | ReplayResultSuccess => res = Some <$> filter (λ e, start ≤ cs_Index e) hist ∧ res ≠ []
  | ReplayResultRequestFromFuture => res = [] ∧ currentIndex c < start
  | ReplayResultFullSyncRequired => res = [] ∧ start ≤ currentIndex c ∧
      ((∀ e, e ∈ hist → cs_Index e < start) ∨ (∀ i e, lc_Events c !! i = Some e → start < i))
  end.
Proof.
  intros I. unfold ReplayFrom.
  pose proof (findStart_spec c (currentIndex c) (S (Z.to_nat (currentIndex c - start))) start
    ltac:(lia)) as Hf.
  destruct (findStart _ c start (currentIndex c)) as [[i|[]]|]; try done.
  - destruct Hf as (H1 & H2 & H3).
    set (t := if Z.of_nat (lc_HeadLogIndex c) - (currentIndex c - i) >=? 0 then _ else 0%nat).
    assert (i ≤ currentIndex c) as Hi.
    { destruct H2 as [e He]. apply (ci_events _ _ _ _ I) in He as [He <-].
      destruct (ci_suffix _ _ _ _ I) as [old Hold].
      apply (kept_le_current _ _ _ _ e I). rewrite Hold. set_solver. }
    pose proof (ci_size _ _ _ _ I) as Hs. pose proof (ci_head _ _ _ _ I) as Hh.
    destruct (replay_success _ _ _ _ start i t I H1 H2 H3) as (p & Hp & Hlp & Hres).
    { unfold t. destruct (_ >=? 0); lia. }
    rewrite Hp. destruct (replay_keys c p i ltac:(lia) Hlp) as (j & Hj & ->).
    destruct (Hres j Hj) as [-> Hne]. eexists _, _. split; [done|]. simpl. split; [done|].
    by destruct (filter _ hist).
  - destruct Hf as [H1 H2]. eexists _, _. split; [done|]. simpl. split; [done|]. split; [done|].
    destruct H2 as [H2|H2].
    + right. intros i e He%(ci_events _ _ _ _ I). destruct He as [He <-].
      destruct (ci_min _ _ _ _ I) as [[Hn Hm]|(_ & _ & Hm & _)]; [|specialize (Hm e He); lia].
      destruct (ci_suffix _ _ _ _ I) as [old Hold]. rewrite Hn in Hold. symmetry in Hold.
      apply app_nil in Hold as [_ ->]. by apply not_elem_of_nil in He.
    + left. intros e He. destruct (decide (cs_Index e < start)) as [?|Hge]; [done|]. exfalso.
      pose proof (kept_le_current _ _ _ _ e I He) as Hc.
      destruct (last_index _ _ _ _ I) as [Hcur Hk]. destruct (last kept) as [x|] eqn:E.
      * simpl in Hcur. assert (x ∈ kept) as Hx by (apply last_Some in E as [l ->]; set_solver).
        assert (lc_Events c !! cs_Index x = Some x) as Hxe by (by apply (ci_events _ _ _ _ I)).
        rewrite H2 in Hxe by lia. done.
      * apply last_None in E. rewrite (Hk E) in He. by apply not_elem_of_nil in He.
  - by eexists _, _.
Qed.

(** ** The router sender (controller/sync_strats/rtx.go)

    Marshalling and sending is an oracle per message; a send that fails ends a
    replay, after which the full state is tried. *)

Record RouterSender := mkSender {
  rs_currentIndex : Z;
  rs_syncRdmUntil : Z;           (* nanoseconds *)
  rs_timelineId : string;
  rs_subscriptionId : string;
}.

(** [SubscribeToDataModelRequest] *)
Record SubscribeRequest := mkSubscribe {
  sr_CurrentIndex : Z;
  sr_Renew : bool;
  sr_SubscriptionId : string;
  sr_DurationSeconds : Z;
  sr_TimelineId : string;
}.

(** What a router is sent: a change set (nil if the cache had none for the key)
    or the full state with its end index and timeline. *)
Inductive router_msg :=
| MsgChangeSet (event : option CS)
| MsgDataState (endIndex : Z) (timelineId : string).

Section Rtx.
Context (now : Z) (isLeader : bool) (ctrlTimelineId : string).
Context (sends : router_msg → bool).

Definition set_currentIndex (i : Z) (rtx : RouterSender) : RouterSender :=
  mkSender i (rs_syncRdmUntil rtx) (rs_timelineId rtx) (rs_subscriptionId rtx).

(** The loop that sends the replayed events; [true] when all were sent. *)
Fixpoint sendEvents (events : list (option CS)) (rtx : RouterSender)
    : RouterSender * list router_msg * bool :=
  match events with
  | [] => (rtx, [], true)
  | ev :: events =>
    if sends (MsgChangeSet ev) then
      let '(rtx, msgs, ok) := sendEvents events
        (set_currentIndex (from_option cs_Index 0 ev) rtx) in
      (rtx, MsgChangeSet ev :: msgs, ok)
    else (rtx, [], false)
  end.

(** The full sync at the end of [handleModelChange]. *)
Definition sendFullState (c : LoggingEventCache) (rtx : RouterSender)
    : RouterSender * list router_msg :=
  let msg := MsgDataState (currentIndex c) ctrlTimelineId in
  if sends msg
  then (mkSender (currentIndex c) (rs_syncRdmUntil rtx) ctrlTimelineId (rs_subscriptionId rtx), [msg])
  else (rtx, []).

Definition handleModelChange (c : LoggingEventCache) (rtx : RouterSender)
    : RouterSender * list router_msg :=
  if rs_syncRdmUntil rtx <? now then (rtx, [])
  else
    let '(events, replayResult) :=
      if (rs_currentIndex rtx >? 0) && bool_decide (rs_timelineId rtx = ctrlTimelineId)
      then default ([], ReplayResultFullSyncRequired) (ReplayFrom (rs_currentIndex rtx) c)
      else ([], ReplayResultFullSyncRequired) in
    let '(rtx, msgs, sent) :=
      if bool_decide (replayResult = ReplayResultSuccess) then sendEvents (tail events) rtx
      else (rtx, [], true) in
    if negb sent || bool_decide (replayResult = ReplayResultFullSyncRequired) ||
       (isLeader && bool_decide (replayResult = ReplayResultRequestFromFuture))
    then let '(rtx, full) := sendFullState c rtx in (rtx, msgs ++ full)
    else (rtx, msgs).

Definition clampDuration (d : Z) : Z := let d := if d <? 10 then 10 else d in if d >? 360 then 360 else d.

Definition handleSyncRequest (req : SubscribeRequest) (c : LoggingEventCache) (rtx : RouterSender)
    : RouterSender * list router_msg :=
  let current := if negb (sr_Renew req) || bool_decide (sr_SubscriptionId req ≠ rs_subscriptionId rtx)
                 then sr_CurrentIndex req else rs_currentIndex rtx in
  let timelineChange := bool_decide (rs_timelineId rtx ≠ sr_TimelineId req) in
  let rtx := mkSender current (now + clampDuration (sr_DurationSeconds req) * 1000000000)
               (sr_TimelineId req) (sr_SubscriptionId req) in
  if (currentIndex c >? rs_currentIndex rtx) || timelineChange
  then handleModelChange c rtx else (rtx, []).
End Rtx.

(** ** Histories *)

(** A cache that was initialised at an index and has stored the accepted ones of
    a sequence of change sets. *)
Definition storeAll (es : list CS) (c : LoggingEventCache) : LoggingEventCache * list CS :=
  foldl (λ '(c, hist) e, let '(c', r) := storeLocked e c in
     (c', match r with Ok true => hist ++ [e] | _ => hist end)) (c, []) es.

Definition initialised (n : nat) (index : Z) (es : list CS) : LoggingEventCache * list CS :=
  storeAll es (SetCurrentIndex index (NewLoggingEventCache n)).

Lemma initialised_inv n index es :
  (0 < n)%nat → 0 ≤ index →
  ∃ kept, cache_inv index (initialised n index es).2 kept (initialised n index es).1.
Proof.
  intros Hn Hi. unfold initialised, storeAll.
  assert (∀ es c hist kept, cache_inv index hist kept c → ∃ kept',
    let res := foldl (λ '(c, hist) e, let '(c', r) := storeLocked e c in
       (c', match r with Ok true => hist ++ [e] | _ => hist end)) (c, hist) es in
    cache_inv index res.2 kept' res.1) as Hgen.
  { intros es0. induction es0 as [|e es0 IH]; intros c hist kept I; [by exists kept|].
    cbn [foldl]. destruct (cs_IsSynthetic e) eqn:Es.
    { assert (storeLocked e c = (c, Ok false)) as -> by (unfold storeLocked; by rewrite Es).
      by eapply IH. }
    destruct (decide (currentIndex c < cs_Index e)) as [Hlt|Hge].
    - destruct (store_inv _ _ _ _ e I Es Hlt) as (kept' & I' & Hr).
      destruct (storeLocked e c) as [c' r]. simpl in *. subst r. by eapply IH.
    - assert (storeLocked e c = (c, Err (currentIndex c))) as ->.
      { unfold storeLocked. by rewrite Es, Z.geb_leb, (proj2 (Z.leb_le _ _)) by lia. }
      by eapply IH. }
  destruct (Hgen es _ [] [] (set_index_inv n index Hn Hi)) as [kept' H]. eauto.
Qed.

(** C7. Replay is exact: from a cache initialised at some index, whatever has
    been stored since, [ReplayFrom] always answers; on success it returns
    exactly the accepted change sets with an index from the requested one on,
    in order and without a gap, however often the ring has wrapped. It reports a
    request from the future only beyond the current index, and asks for a full
    sync only if nothing was stored from that index on or the cache holds only
    later entries. *)
Theorem replay_exact n index es start :
  (0 < n)%nat → 0 ≤ index →
  let '(c, hist) := initialised n index es in
  ∃ res r, ReplayFrom start c = Some (res, r) ∧
  match r with
  | ReplayResultSuccess => res = Some <$> filter (λ e, start ≤ cs_Index e) hist ∧ res ≠ []
  | ReplayResultRequestFromFuture => res = [] ∧ currentIndex c < start
  | ReplayResultFullSyncRequired => res = [] ∧ start ≤ currentIndex c ∧
      ((∀ e, e ∈ hist → cs_Index e < start) ∨ (∀ i e, lc_Events c !! i = Some e → start < i))
  end.
Proof.
  intros Hn Hi. destruct (initialised_inv n index es Hn Hi) as [kept I].
  destruct (initialised n index es) as [c hist]. by eapply ReplayFrom_spec.
Qed.

(** ** Keeping routers up to date *)

Lemma filter_from_index hist e :
  StronglySorted (λ a b, cs_Index a < cs_Index b) hist → e ∈ hist →
  filter (λ x, cs_Index e ≤ cs_Index x) hist = e :: filter (λ x, cs_Index e < cs_Index x) hist.
Proof.
  intros Hs He. apply list_elem_of_split in He as (l1 & l2 & ->).
  assert (∀ x, x ∈ l1 → cs_Index x < cs_Index e) as H1.
  { intros x Hx. apply (StronglySorted_app_1_elem_of _ _ _ x e Hs Hx). left. }
  assert (∀ x, x ∈ l2 → cs_Index e < cs_Index x) as H2.
  { intros x Hx. apply StronglySorted_app_1_r, StronglySorted_inv in Hs as [_ Hs].
    by apply (proj1 (Forall_forall _ _) Hs). }
  rewrite (filter_split (λ x, cs_Index e ≤ cs_Index x)).
  - f_equal. rewrite cons_middle, app_assoc. symmetry. apply filter_split; [|done].
    intros x [Hx|Hx%list_elem_of_singleton]%elem_of_app; [specialize (H1 x Hx); lia|subst; lia].
  - intros x Hx. specialize (H1 x Hx). lia.
  - intros x Hx. apply elem_of_cons in Hx as [->|Hx]; [lia|]. specialize (H2 x Hx). lia.
Qed.

Lemma sendEvents_all (events : list CS) rtx :
  sendEvents (λ _, true) (Some <$> events) rtx =
  (set_currentIndex (default (rs_currentIndex rtx) (cs_Index <$> last events)) rtx,
   (λ e, MsgChangeSet (Some e)) <$> events, true).
Proof.
  revert rtx. induction events as [|e events IH]; intros rtx; [by destruct rtx|].
  csimpl. rewrite IH. simpl. do 2 f_equal. destruct events as [|e' events]; [done|].
  change (last (e :: e' :: events)) with (last (e' :: events)).
  destruct (last (e' :: events)) eqn:E; [by destruct rtx|]. by apply last_None in E.
Qed.

(** The end of the history from an index on is the end of the history. *)
Lemma last_filter base hist kept c i :
  cache_inv base hist kept c → filter (λ e, i ≤ cs_Index e) hist ≠ [] →
  cs_Index <$> last (filter (λ e, i ≤ cs_Index e) hist) = Some (currentIndex c).
Proof.
  intros I Hne. destruct (last_index _ _ _ _ I) as [Hc Hk]. destruct (ci_suffix _ _ _ _ I) as [old Hold].
  destruct (last kept) as [x|] eqn:E.
  2:{ apply last_None in E. rewrite (Hk E) in Hne. done. }
  apply last_Some in E as [l El]. rewrite Hc. simpl. subst kept. rewrite app_assoc in Hold.
  assert (i ≤ cs_Index x) as Hx.
  { destruct (filter _ hist) as [|y ys] eqn:Ef; [done|].
    assert (y ∈ filter (λ e, i ≤ cs_Index e) hist) as Hy by (rewrite Ef; left).
    apply list_elem_of_filter in Hy as [Hy1 Hy2]. pose proof (kept_le_current _ _ _ _ y I Hy2) as Hle.
    rewrite Hc in Hle. simpl in Hle. lia. }
  rewrite Hold, filter_app. rewrite filter_cons, decide_True, filter_nil by done. by rewrite last_snoc.
Qed.


(** A router whose index is no index of the controller's cache loses a change
    set: [ReplayFrom] then answers with the change sets after that index, and
    the sender drops the first of them, taking it for the one the router already
    has. The router is never sent that change set, and if others follow it is
    considered up to date. *)
Theorem replay_gap_loses_event now isLeader timeline n index es rtx first rest :
  (0 < n)%nat → 0 ≤ index → now ≤ rs_syncRdmUntil rtx → 0 < rs_currentIndex rtx →
  rs_timelineId rtx = timeline →
  let '(c, hist) := initialised n index es in
  (∃ res, ReplayFrom (rs_currentIndex rtx) c = Some (res, ReplayResultSuccess)) →
  filter (λ x, rs_currentIndex rtx ≤ cs_Index x) hist = first :: rest →
  cs_Index first ≠ rs_currentIndex rtx →
  let '(rtx', msgs) := handleModelChange now isLeader timeline (λ _, true) c rtx in
  msgs = (λ x, MsgChangeSet (Some x)) <$> rest ∧
  rs_currentIndex rtx < cs_Index first ∧
  (rest ≠ [] → rs_currentIndex rtx' = currentIndex c).
Proof.
  intros Hn Hi Hnow Hpos Ht. destruct (initialised_inv n index es Hn Hi) as [kept I].
  destruct (initialised n index es) as [c hist]. cbn [fst snd] in I. intros [res Hres] Hf Hne.
  unfold handleModelChange. rewrite (proj2 (Z.ltb_ge _ _)) by lia.
  rewrite Z.gtb_ltb, (proj2 (Z.ltb_lt _ _)), bool_decide_true by done. simpl.
  destruct (ReplayFrom_spec _ _ _ _ (rs_currentIndex rtx) I) as (res' & r & Hr & Hspec).
  rewrite Hr in Hres |- *. simplify_eq. simpl. destruct Hspec as [-> _]. rewrite Hf. csimpl.
  rewrite sendEvents_all. simpl. rewrite ?andb_false_r. simpl. split; [done|]. split.
  - assert (first ∈ filter (λ x, rs_currentIndex rtx ≤ cs_Index x) hist) as Hin by (rewrite Hf; left).
    apply list_elem_of_filter in Hin as [? _]. lia.
  - intros Hrest. pose proof (last_filter _ _ _ _ (rs_currentIndex rtx) I) as Hl. rewrite Hf, last_cons in Hl.
    destruct (last rest) eqn:E; [|by apply last_None in E]. simpl in *. specialize (Hl ltac:(done)). congruence.
Qed.
End Cache.

(** ** Witnesses *)

Definition demoEvent (i : Z) : ChangeSet unit := mkChangeSet i false [].
Definition demoEvents : list (ChangeSet unit) := demoEvent <$> [1; 5; 5; 6; 9; 10].
Definition demoRtx (i : Z) : RouterSender := mkSender i 100 "t" "s".

Lemma replay_exact_witness :
  ∃ res, ReplayFrom 6 (initialised 3 0 demoEvents).1 = Some (res, ReplayResultSuccess) ∧
    res = Some <$> (demoEvent <$> [6; 9; 10]).
Proof.
  pose proof (replay_exact 3 0 demoEvents 6 ltac:(lia) ltac:(lia)) as H.
  destruct (initialised 3 0 demoEvents) as [c hist] eqn:E. destruct H as (res & r & H1 & H2).
  exists res. assert (r = ReplayResultSuccess) as ->.
  { vm_compute in E. injection E as <- <-. vm_compute in H1. congruence. }
  split; [exact H1|]. destruct H2 as [-> _]. vm_compute in E. injection E as <- <-.
  vm_compute. reflexivity.
Defined.


(** The router is at index 3, where some other controller started. *)
Lemma replay_gap_loses_event_witness :
  (handleModelChange 0 true "t" (λ _, true) (initialised 8 0 demoEvents).1 (demoRtx 3)).2 =
  (λ x, MsgChangeSet (Some (demoEvent x))) <$> [6; 9; 10].
Proof.
  pose proof (replay_gap_loses_event 0 true "t" 8 0 demoEvents (demoRtx 3) (demoEvent 5)
    (demoEvent <$> [6; 9; 10]) ltac:(lia) ltac:(lia) ltac:(vm_compute; discriminate)
    ltac:(reflexivity) eq_refl) as H.
  destruct (initialised 8 0 demoEvents) as [c hist] eqn:E. vm_compute in E. injection E as <- <-.
  specialize (H ltac:(eexists; vm_compute; reflexivity) ltac:(vm_compute; reflexivity)
    ltac:(vm_compute; discriminate)).
  destruct (handleModelChange 0 true "t" (λ _, true) _ (demoRtx 3)) as [rtx' msgs].
  simpl. destruct H as [-> _]. vm_compute. reflexivity.
Defined.
