(* ===== verification/DataModel.v ===== *)
(** * The data model of policies as it is exchanged, and the controller's copy (common/pb/edge_ctrl_pb/edge_ctrl.proto, common/router_data_model_sender.go)

    The messages of the router data model and [RouterDataModelSender], the copy
    a controller keeps in order to bring routers up to date: change events are
    applied to it, and [getDataStateAlreadyLocked] turns it back into a list of
    create events. Concurrent maps are finite maps and sets; a handler runs
    under the event cache's lock and is one transition. Iterating over a map
    goes through [map_to_list] and [elements], whose order stands for Go's
    unspecified one; no theorem depends on it. *)

From stdpp Require Import base gmap list strings fin_maps fin_sets.
From Stdlib Require Import ZArith Lia.
From S2P Require Import Prelude EventCache.

Open Scope Z_scope.

(** ** Messages *)

Inductive PolicyType := InvalidPolicy | DialPolicy | BindPolicy.
#[global] Instance PolicyType_eq_dec : EqDecision PolicyType.
Proof. solve_decision. Defined.

Record DataState_ConfigType := mkConfigTypeM { ctm_Id : string; ctm_Name : string }.
Record DataState_Config := mkConfigM {
  cm_Id : string; cm_TypeId : string; cm_Name : string; cm_DataJson : string;
}.
#[global] Instance DataState_Config_eq_dec : EqDecision DataState_Config.
Proof. solve_decision. Defined.

Record DataState_Identity := mkIdentityM {
  im_Id : string;
  im_Name : string;
  im_DefaultHostingPrecedence : Z;
  im_DefaultHostingCost : Z;                              (* uint32 *)
  im_ServiceHostingPrecedences : gmap string Z;
  im_ServiceHostingCosts : gmap string Z;
  im_AppDataJson : string;
  im_ServiceConfigs : gmap string (gmap string string);   (* service, config type, config *)
  im_Disabled : bool;
}.

Record DataState_Service := mkServiceM {
  sm_Id : string; sm_Name : string; sm_EncryptionRequired : bool; sm_Configs : list string;
}.
Record DataState_ServicePolicy := mkPolicyM {
  pm_Id : string; pm_Name : string; pm_PolicyType : PolicyType;
}.

Record Posture_Os := mkOs { os_OsType : string; os_OsVersions : list string }.
Record Posture_Process := mkProcess {
  pr_OsType : string; pr_Path : string; pr_Hashes : list string; pr_Fingerprints : list string;
}.
Inductive PostureSubtype :=
| Posture_Mac (macAddresses : list string)
| Posture_Mfa (TimeoutSeconds : Z) (PromptOnWake PromptOnUnlock IgnoreLegacyEndpoints : bool)
| Posture_OsList (osList : list Posture_Os)
| Posture_ProcessOne (process : Posture_Process)
| Posture_ProcessMulti (semantic : string) (processes : list Posture_Process)
| Posture_Domains (domains : list string).
Record DataState_PostureCheck := mkPostureCheckM {
  pcm_Id : string; pcm_Name : string; pcm_TypeId : string; pcm_Subtype : option PostureSubtype;
}.

Inductive KeyFormat := X509CertDer | PKIXPublicKey.
Record DataState_PublicKey := mkPublicKeyM {
  pk_Kid : string; pk_Data : string; pk_Usages : list Z; pk_Format : KeyFormat;
}.
Record DataState_Revocation := mkRevocationM { rev_Id : string; rev_ExpiresAt : Z }.

Inductive RelatedEntityType := RelatedService | RelatedIdentity | RelatedPostureCheck.
#[global] Instance RelatedEntityType_eq_dec : EqDecision RelatedEntityType.
Proof. solve_decision. Defined.
Record DataState_ServicePolicyChange := mkPolicyChange {
  pch_PolicyId : string;
  pch_RelatedEntityIds : list string;
  pch_RelatedEntityType : RelatedEntityType;
  pch_Add : bool;
}.

Inductive Action := Create | Update | Delete.
#[global] Instance Action_eq_dec : EqDecision Action.
Proof. solve_decision. Defined.

(** [DataState_Event], the event's action with its model. Policy changes carry
    their own direction. *)
Inductive Event :=
| EvConfigType (action : Action) (model : DataState_ConfigType)
| EvConfig (action : Action) (model : DataState_Config)
| EvIdentity (action : Action) (model : DataState_Identity)
| EvService (action : Action) (model : DataState_Service)
| EvServicePolicy (action : Action) (model : DataState_ServicePolicy)
| EvPostureCheck (action : Action) (model : DataState_PostureCheck)
| EvPublicKey (action : Action) (model : DataState_PublicKey)
| EvRevocation (action : Action) (model : DataState_Revocation)
| EvServicePolicyChange (model : DataState_ServicePolicyChange).

(** A full state: its events, end index and timeline. *)
Record DataState := mkDataState {
  ds_Events : list Event;
  ds_EndIndex : Z;
  ds_TimelineId : string;
  ds_TerminatorIds : gmap string string;      (* the terminator id cache *)
}.

(** ** The controller's copy *)

Record SenderIdentity := mkSIdentity {
  si_Model : DataState_Identity;
  si_ServicePolicies : gset string;
}.
Record SenderServicePolicy := mkSPolicy {
  sp_Model : DataState_ServicePolicy;
  sp_Services : gset string;
  sp_PostureChecks : gset string;
}.

(** An identity entry may be nil: updating the policies of an unknown identity
    leaves such an entry behind. *)
Record RouterDataModelSender := mkRdmSender {
  sn_ConfigTypes : gmap string DataState_ConfigType;
  sn_Configs : gmap string DataState_Config;
  sn_Identities : gmap string (option SenderIdentity);
  sn_Services : gmap string DataState_Service;
  sn_ServicePolicies : gmap string SenderServicePolicy;
  sn_PostureChecks : gmap string DataState_PostureCheck;
  sn_PublicKeys : gmap string DataState_PublicKey;
  sn_Revocations : gmap string DataState_Revocation;
}.

Definition NewRouterDataModelSender : RouterDataModelSender := mkRdmSender ∅ ∅ ∅ ∅ ∅ ∅ ∅ ∅.

Module Sender.
Abbreviation rdms := RouterDataModelSender.

Definition set_ConfigTypes (x : gmap string DataState_ConfigType) (m : rdms) : rdms :=
  mkRdmSender x (sn_Configs m) (sn_Identities m) (sn_Services m) (sn_ServicePolicies m)
    (sn_PostureChecks m) (sn_PublicKeys m) (sn_Revocations m).
Definition set_Configs (x : gmap string DataState_Config) (m : rdms) : rdms :=
  mkRdmSender (sn_ConfigTypes m) x (sn_Identities m) (sn_Services m) (sn_ServicePolicies m)
    (sn_PostureChecks m) (sn_PublicKeys m) (sn_Revocations m).
Definition set_Identities (x : gmap string (option SenderIdentity)) (m : rdms) : rdms :=
  mkRdmSender (sn_ConfigTypes m) (sn_Configs m) x (sn_Services m) (sn_ServicePolicies m)
    (sn_PostureChecks m) (sn_PublicKeys m) (sn_Revocations m).
Definition set_Services (x : gmap string DataState_Service) (m : rdms) : rdms :=
  mkRdmSender (sn_ConfigTypes m) (sn_Configs m) (sn_Identities m) x (sn_ServicePolicies m)
    (sn_PostureChecks m) (sn_PublicKeys m) (sn_Revocations m).
Definition set_ServicePolicies (x : gmap string SenderServicePolicy) (m : rdms) : rdms :=
  mkRdmSender (sn_ConfigTypes m) (sn_Configs m) (sn_Identities m) (sn_Services m) x
    (sn_PostureChecks m) (sn_PublicKeys m) (sn_Revocations m).
Definition set_PostureChecks (x : gmap string DataState_PostureCheck) (m : rdms) : rdms :=
  mkRdmSender (sn_ConfigTypes m) (sn_Configs m) (sn_Identities m) (sn_Services m)
    (sn_ServicePolicies m) x (sn_PublicKeys m) (sn_Revocations m).
Definition set_PublicKeys (x : gmap string DataState_PublicKey) (m : rdms) : rdms :=
  mkRdmSender (sn_ConfigTypes m) (sn_Configs m) (sn_Identities m) (sn_Services m)
    (sn_ServicePolicies m) (sn_PostureChecks m) x (sn_Revocations m).
Definition set_Revocations (x : gmap string DataState_Revocation) (m : rdms) : rdms :=
  mkRdmSender (sn_ConfigTypes m) (sn_Configs m) (sn_Identities m) (sn_Services m)
    (sn_ServicePolicies m) (sn_PostureChecks m) (sn_PublicKeys m) x.

(** Delete, or set for create and update. *)
Definition putOrDelete {V} (a : Action) (k : string) (v : V) (m : gmap string V) : gmap string V :=
  match a with Delete => delete k m | _ => <[k := v]> m end.

Definition HandleConfigTypeEvent (a : Action) (ct : DataState_ConfigType) (m : rdms) : rdms :=
  set_ConfigTypes (putOrDelete a (ctm_Id ct) ct (sn_ConfigTypes m)) m.
Definition HandleConfigEvent (a : Action) (c : DataState_Config) (m : rdms) : rdms :=
  set_Configs (putOrDelete a (cm_Id c) c (sn_Configs m)) m.

Definition HandleIdentityEvent (a : Action) (i : DataState_Identity) (m : rdms) : rdms :=
  set_Identities
    match a with
    | Delete => delete (im_Id i) (sn_Identities m)
    | _ => <[im_Id i := Some (mkSIdentity i
              match sn_Identities m !! im_Id i with
              | Some (Some old) => si_ServicePolicies old
              | _ => ∅
              end)]> (sn_Identities m)
    end m.

Definition HandleServiceEvent (a : Action) (s : DataState_Service) (m : rdms) : rdms :=
  match a with
  | Delete =>
    set_ServicePolicies
      ((λ p, mkSPolicy (sp_Model p) (sp_Services p ∖ {[sm_Id s]}) (sp_PostureChecks p))
         <$> sn_ServicePolicies m)
      (set_Services (delete (sm_Id s) (sn_Services m)) m)
  | _ => set_Services (<[sm_Id s := s]> (sn_Services m)) m
  end.

Definition applyUpdateServicePolicyEvent (p : DataState_ServicePolicy) (m : rdms) : rdms :=
  set_ServicePolicies (<[pm_Id p :=
    match sn_ServicePolicies m !! pm_Id p with
    | Some old => mkSPolicy p (sp_Services old) (sp_PostureChecks old)
    | None => mkSPolicy p ∅ ∅
    end]> (sn_ServicePolicies m)) m.
Definition applyDeleteServicePolicyEvent (p : DataState_ServicePolicy) (m : rdms) : rdms :=
  set_ServicePolicies (delete (pm_Id p) (sn_ServicePolicies m)) m.
Definition HandleServicePolicyEvent (a : Action) (p : DataState_ServicePolicy) (m : rdms) : rdms :=
  match a with
  | Create | Update => applyUpdateServicePolicyEvent p m
  | Delete => applyDeleteServicePolicyEvent p m
  end.

Definition HandlePostureCheckEvent (a : Action) (c : DataState_PostureCheck) (m : rdms) : rdms :=
  set_PostureChecks (putOrDelete a (pcm_Id c) c (sn_PostureChecks m)) m.
Definition HandlePublicKeyEvent (a : Action) (k : DataState_PublicKey) (m : rdms) : rdms :=
  set_PublicKeys (putOrDelete a (pk_Kid k) k (sn_PublicKeys m)) m.
Definition HandleRevocationEvent (a : Action) (r : DataState_Revocation) (m : rdms) : rdms :=
  set_Revocations (putOrDelete a (rev_Id r) r (sn_Revocations m)) m.

(** Adding to or removing from a set of ids. *)
Definition addOrRemove (add : bool) (ids : list string) (X : gset string) : gset string :=
  if add then X ∪ list_to_set ids else X ∖ list_to_set ids.

Definition HandleServicePolicyChange (c : DataState_ServicePolicyChange) (m : rdms) : rdms :=
  match pch_RelatedEntityType c with
  | RelatedIdentity =>
    set_Identities (foldl (λ ids identityId,
      <[identityId :=
        match ids !! identityId with
        | Some (Some v) =>
          Some (mkSIdentity (si_Model v)
                  (addOrRemove (pch_Add c) [pch_PolicyId c] (si_ServicePolicies v)))
        | _ => None
        end]> ids) (sn_Identities m) (pch_RelatedEntityIds c)) m
  | RelatedService =>
    match sn_ServicePolicies m !! pch_PolicyId c with
    | None => m
    | Some p => set_ServicePolicies (<[pch_PolicyId c :=
        mkSPolicy (sp_Model p) (addOrRemove (pch_Add c) (pch_RelatedEntityIds c) (sp_Services p))
          (sp_PostureChecks p)]> (sn_ServicePolicies m)) m
    end
  | RelatedPostureCheck =>
    match sn_ServicePolicies m !! pch_PolicyId c with
    | None => m
    | Some p => set_ServicePolicies (<[pch_PolicyId c :=
        mkSPolicy (sp_Model p) (sp_Services p)
          (addOrRemove (pch_Add c) (pch_RelatedEntityIds c) (sp_PostureChecks p))]>
          (sn_ServicePolicies m)) m
    end
  end.

Definition Handle (ev : Event) (m : rdms) : rdms :=
  match ev with
  | EvConfigType a ct => HandleConfigTypeEvent a ct m
  | EvConfig a c => HandleConfigEvent a c m
  | EvIdentity a i => HandleIdentityEvent a i m
  | EvService a s => HandleServiceEvent a s m
  | EvServicePolicy a p => HandleServicePolicyEvent a p m
  | EvPostureCheck a c => HandlePostureCheckEvent a c m
  | EvPublicKey a k => HandlePublicKeyEvent a k m
  | EvRevocation a r => HandleRevocationEvent a r m
  | EvServicePolicyChange c => HandleServicePolicyChange c m
  end.

(** [ApplyChangeSet]: the change set is stored in the cache; if it is accepted
    (or synthetic) its events are handled and it is passed on to the listeners,
    as the last component tells. *)
Definition ApplyChangeSet (cs : ChangeSet Event) (st : LoggingEventCache (Change := Event) * rdms)
    : LoggingEventCache (Change := Event) * rdms * bool :=
  let '(cache, m) := st in
  let '(cache, r) := storeLocked cs cache in
  match r with
  | Ok _ => (cache, foldl (λ m ev, Handle ev m) m (cs_Changes cs), true)
  | Err _ => (cache, m, false)
  end.

(** The identities of each policy, collected while going over the identities. *)
Definition policyIdentities (ids : list SenderIdentity) : gmap string (list string) :=
  foldl (λ acc v,
    foldl (λ acc policyId, <[policyId := default [] (acc !! policyId) ++ [im_Id (si_Model v)]]> acc)
      acc (elements (si_ServicePolicies v))) ∅ ids.

Definition policyEvents (pids : gmap string (list string)) (v : SenderServicePolicy) : list Event :=
  [EvServicePolicy Create (sp_Model v);
   EvServicePolicyChange (mkPolicyChange (pm_Id (sp_Model v)) (elements (sp_Services v))
     RelatedService true);
   EvServicePolicyChange (mkPolicyChange (pm_Id (sp_Model v)) (elements (sp_PostureChecks v))
     RelatedPostureCheck true)] ++
  match pids !! pm_Id (sp_Model v) with
  | Some ids => [EvServicePolicyChange (mkPolicyChange (pm_Id (sp_Model v)) ids RelatedIdentity true)]
  | None => []
  end.

(** [getDataStateAlreadyLocked]; [None] is the nil dereference on an identity
    entry that is nil. Revocations are not part of it. *)
Definition getDataState (index : Z) (timelineId : string) (m : rdms) : option DataState :=
  ids ← mapM id (map_to_list (sn_Identities m)).*2;
  Some (mkDataState
    ((EvConfigType Create <$> (map_to_list (sn_ConfigTypes m)).*2) ++
     (EvConfig Create <$> (map_to_list (sn_Configs m)).*2) ++
     ((λ v, EvIdentity Create (si_Model v)) <$> ids) ++
     (EvService Create <$> (map_to_list (sn_Services m)).*2) ++
     (EvPostureCheck Create <$> (map_to_list (sn_PostureChecks m)).*2) ++
     concat (policyEvents (policyIdentities ids) <$> (map_to_list (sn_ServicePolicies m)).*2) ++
     (EvPublicKey Create <$> (map_to_list (sn_PublicKeys m)).*2))
    index timelineId ∅).
End Sender.
