(* ===== verification/DataModelSpec.v ===== *)
(** * What a copy of the data model has to be: an abstract model and an interface

    [Abs] is the data model as policies relate it: entities, and per policy the
    services, posture checks and identities it has. [abs_handle] says what a
    change event means, [wf_event] what the controller's store guarantees of the
    events it emits. [DataModelCopy] is the interface that both the controller's
    and the router's copy implement: applying an event to a copy does to what it
    represents what [abs_handle] says, and does not panic. The theorems on
    keeping copies in step are proved against this interface. *)

From stdpp Require Import base gmap list strings fin_maps fin_sets.
From Stdlib Require Import ZArith Lia.
From S2P Require Import Prelude EventCache DataModel.

Import Sender(addOrRemove, putOrDelete).

(** ** The abstract model *)

Record AbsPolicy := mkAbsPolicy {
  ap_Model : DataState_ServicePolicy;
  ap_Services : gset string;
  ap_Checks : gset string;
  ap_Identities : gset string;
}.

(** [a_Used] are the policy ids that were ever in use: ids are not used again. *)
Record Abs := mkAbs {
  a_ConfigTypes : gmap string DataState_ConfigType;
  a_Configs : gmap string DataState_Config;
  a_Identities : gmap string DataState_Identity;
  a_Services : gmap string DataState_Service;
  a_Policies : gmap string AbsPolicy;
  a_Checks : gmap string DataState_PostureCheck;
  a_Keys : gmap string DataState_PublicKey;
  a_Revocations : gmap string DataState_Revocation;
  a_Used : gset string;
}.

Definition abs_empty : Abs := mkAbs ∅ ∅ ∅ ∅ ∅ ∅ ∅ ∅ ∅.

Definition set_related (t : RelatedEntityType) (f : gset string → gset string) (P : AbsPolicy)
    : AbsPolicy :=
  match t with
  | RelatedService => mkAbsPolicy (ap_Model P) (f (ap_Services P)) (ap_Checks P) (ap_Identities P)
  | RelatedPostureCheck => mkAbsPolicy (ap_Model P) (ap_Services P) (f (ap_Checks P)) (ap_Identities P)
  | RelatedIdentity => mkAbsPolicy (ap_Model P) (ap_Services P) (ap_Checks P) (f (ap_Identities P))
  end.
Definition related (t : RelatedEntityType) (P : AbsPolicy) : gset string :=
  match t with
  | RelatedService => ap_Services P
  | RelatedPostureCheck => ap_Checks P
  | RelatedIdentity => ap_Identities P
  end.

Definition with_Policies (x : gmap string AbsPolicy) (a : Abs) : Abs :=
  mkAbs (a_ConfigTypes a) (a_Configs a) (a_Identities a) (a_Services a) x (a_Checks a) (a_Keys a)
    (a_Revocations a) (a_Used a).

(** An entity that is deleted leaves all policies. *)
Definition drop_related (t : RelatedEntityType) (id : string) (a : Abs) : Abs :=
  with_Policies (set_related t (λ X, X ∖ {[id]}) <$> a_Policies a) a.

Definition abs_change (c : DataState_ServicePolicyChange) (a : Abs) : Abs :=
  match a_Policies a !! pch_PolicyId c with
  | None => a
  | Some P =>
    with_Policies (<[pch_PolicyId c :=
      set_related (pch_RelatedEntityType c) (addOrRemove (pch_Add c) (pch_RelatedEntityIds c)) P]>
      (a_Policies a)) a
  end.

Definition abs_policy (act : Action) (p : DataState_ServicePolicy) (a : Abs) : Abs :=
  match act with
  | Delete => with_Policies (delete (pm_Id p) (a_Policies a)) a
  | _ =>
    mkAbs (a_ConfigTypes a) (a_Configs a) (a_Identities a) (a_Services a)
      (<[pm_Id p := match a_Policies a !! pm_Id p with
                    | Some P => mkAbsPolicy p (ap_Services P) (ap_Checks P) (ap_Identities P)
                    | None => mkAbsPolicy p ∅ ∅ ∅
                    end]> (a_Policies a))
      (a_Checks a) (a_Keys a) (a_Revocations a) ({[pm_Id p]} ∪ a_Used a)
  end.

Definition abs_handle (ev : Event) (a : Abs) : Abs :=
  match ev with
  | EvConfigType act x =>
    mkAbs (putOrDelete act (ctm_Id x) x (a_ConfigTypes a)) (a_Configs a) (a_Identities a)
      (a_Services a) (a_Policies a) (a_Checks a) (a_Keys a) (a_Revocations a) (a_Used a)
  | EvConfig act x =>
    mkAbs (a_ConfigTypes a) (putOrDelete act (cm_Id x) x (a_Configs a)) (a_Identities a)
      (a_Services a) (a_Policies a) (a_Checks a) (a_Keys a) (a_Revocations a) (a_Used a)
  | EvIdentity act x =>
    let a := if bool_decide (act = Delete) then drop_related RelatedIdentity (im_Id x) a else a in
    mkAbs (a_ConfigTypes a) (a_Configs a) (putOrDelete act (im_Id x) x (a_Identities a))
      (a_Services a) (a_Policies a) (a_Checks a) (a_Keys a) (a_Revocations a) (a_Used a)
  | EvService act x =>
    let a := if bool_decide (act = Delete) then drop_related RelatedService (sm_Id x) a else a in
    mkAbs (a_ConfigTypes a) (a_Configs a) (a_Identities a)
      (putOrDelete act (sm_Id x) x (a_Services a)) (a_Policies a) (a_Checks a) (a_Keys a)
      (a_Revocations a) (a_Used a)
  | EvServicePolicy act x => abs_policy act x a
  | EvPostureCheck act x =>
    let a := if bool_decide (act = Delete) then drop_related RelatedPostureCheck (pcm_Id x) a else a in
    mkAbs (a_ConfigTypes a) (a_Configs a) (a_Identities a) (a_Services a) (a_Policies a)
      (putOrDelete act (pcm_Id x) x (a_Checks a)) (a_Keys a) (a_Revocations a) (a_Used a)
  | EvPublicKey act x =>
    mkAbs (a_ConfigTypes a) (a_Configs a) (a_Identities a) (a_Services a) (a_Policies a)
      (a_Checks a) (putOrDelete act (pk_Kid x) x (a_Keys a)) (a_Revocations a) (a_Used a)
  | EvRevocation act x =>
    mkAbs (a_ConfigTypes a) (a_Configs a) (a_Identities a) (a_Services a) (a_Policies a)
      (a_Checks a) (a_Keys a) (putOrDelete act (rev_Id x) x (a_Revocations a)) (a_Used a)
  | EvServicePolicyChange c => abs_change c a
  end.

(** ** Events as the controller's store emits them *)

(** An identity refers to a config in one of its service overrides. *)
Definition config_refs (i : DataState_Identity) : list string :=
  (map_to_list (im_ServiceConfigs i)).*2 ≫= λ cs, (map_to_list cs).*2.

Definition entity_ids (t : RelatedEntityType) (a : Abs) : gset string :=
  match t with
  | RelatedService => dom (a_Services a)
  | RelatedPostureCheck => dom (a_Checks a)
  | RelatedIdentity => dom (a_Identities a)
  end.

(** A change names existing identities; services and posture checks that are
    added exist and are not yet in the policy, those removed are in it. *)
Definition wf_change (c : DataState_ServicePolicyChange) (a : Abs) : Prop :=
  match a_Policies a !! pch_PolicyId c with
  | None =>
    pch_Add c = false ∧
    (pch_RelatedEntityType c = RelatedIdentity →
     Forall (λ x, x ∈ dom (a_Identities a)) (pch_RelatedEntityIds c))
  | Some P =>
    match pch_RelatedEntityType c with
    | RelatedIdentity => Forall (λ x, x ∈ dom (a_Identities a)) (pch_RelatedEntityIds c)
    | t =>
      NoDup (pch_RelatedEntityIds c) ∧
      if pch_Add c
      then Forall (λ x, x ∈ entity_ids t a ∧ x ∉ related t P) (pch_RelatedEntityIds c)
      else Forall (λ x, x ∈ related t P) (pch_RelatedEntityIds c)
    end
  end.

Definition wf_event (ev : Event) (a : Abs) : Prop :=
  match ev with
  | EvConfig Delete _ => True
  | EvConfig _ c =>
    cm_Id c ∈ dom (a_Configs a) ∨ map_Forall (λ _ i, cm_Id c ∉ config_refs i) (a_Identities a)
  | EvServicePolicy Delete _ => True
  | EvServicePolicy _ p =>
    pm_PolicyType p ≠ InvalidPolicy ∧
    (pm_Id p ∈ dom (a_Policies a) ∨
     (pm_Id p ∉ a_Used a) ∧ (Z.of_nat (size (a_Policies a)) < 2 ^ 31 - 1)%Z)
  | EvPostureCheck Delete c => map_Forall (λ _ P, pcm_Id c ∉ ap_Checks P) (a_Policies a)
  | EvServicePolicyChange c => wf_change c a
  | _ => True
  end.

#[global] Instance wf_change_dec c a : Decision (wf_change c a).
Proof.
  unfold wf_change. destruct (a_Policies a !! pch_PolicyId c); [|apply _].
  destruct (pch_RelatedEntityType c), (pch_Add c); apply _.
Defined.
#[global] Instance wf_event_dec ev a : Decision (wf_event ev a).
Proof. destruct ev as [[] ?|[] ?|[] ?|[] ?|[] ?|[] ?|[] ?|[] ?|?]; simpl; apply _. Defined.

(** A sequence of events, each well formed when it comes. *)
Fixpoint wf_events (evs : list Event) (a : Abs) : Prop :=
  match evs with
  | [] => True
  | ev :: evs => wf_event ev a ∧ wf_events evs (abs_handle ev a)
  end.
#[global] Instance wf_events_dec evs a : Decision (wf_events evs a).
Proof. revert a. induction evs as [|ev evs IH]; intros a; simpl; apply _. Defined.

Definition abs_run (evs : list Event) (a : Abs) : Abs := foldl (λ a ev, abs_handle ev a) a evs.

(** What the store's state satisfies. *)
Record abs_ok (a : Abs) : Prop := mkAbsOk {
  ok_ct : map_Forall (λ k x, ctm_Id x = k) (a_ConfigTypes a);
  ok_cfg : map_Forall (λ k x, cm_Id x = k) (a_Configs a);
  ok_id : map_Forall (λ k x, im_Id x = k) (a_Identities a);
  ok_svc : map_Forall (λ k x, sm_Id x = k) (a_Services a);
  ok_chk : map_Forall (λ k x, pcm_Id x = k) (a_Checks a);
  ok_key : map_Forall (λ k x, pk_Kid x = k) (a_Keys a);
  ok_pol : map_Forall (λ k P, pm_Id (ap_Model P) = k ∧ pm_PolicyType (ap_Model P) ≠ InvalidPolicy ∧
             k ∈ a_Used a ∧ ∀ t, related t P ⊆ entity_ids t a) (a_Policies a);
  ok_size : (Z.of_nat (size (a_Policies a)) < 2 ^ 31)%Z;
}.

Lemma abs_empty_ok : abs_ok abs_empty.
Proof. split; simpl; first [rewrite map_size_empty; lia|apply map_Forall_empty]. Qed.

Lemma option_Forall2_impl {A B} (P Q : A → B → Prop) x y :
  (∀ a b, P a b → Q a b) → option_Forall2 P x y → option_Forall2 Q x y.
Proof. intros HPQ []; constructor; auto. Qed.

Lemma putOrDelete_Forall {V} (P : string → V → Prop) act k x m :
  P k x → map_Forall P m → map_Forall P (putOrDelete act k x m).
Proof.
  intros Hx Hm. destruct act; simpl; [by apply map_Forall_insert_2..|].
  by apply map_Forall_delete.
Qed.

Lemma putOrDelete_dom {V} act k (x : V) m :
  dom (putOrDelete act k x m) = if bool_decide (act = Delete) then dom m ∖ {[k]} else {[k]} ∪ dom m.
Proof. destruct act; simpl; by rewrite ?dom_insert_L, ?dom_delete_L. Qed.

Lemma related_set t f P t' :
  related t' (set_related t f P) = if decide (t' = t) then f (related t P) else related t' P.
Proof. by destruct t, t'. Qed.
Lemma set_related_model t f P : ap_Model (set_related t f P) = ap_Model P.
Proof. by destruct t. Qed.

(** The policies of a state, relative to the rest of it. *)
Definition pols_ok (ids : RelatedEntityType → gset string) (used : gset string)
    (pols : gmap string AbsPolicy) : Prop :=
  map_Forall (λ k P, pm_Id (ap_Model P) = k ∧ pm_PolicyType (ap_Model P) ≠ InvalidPolicy ∧
    k ∈ used ∧ ∀ t, related t P ⊆ ids t) pols.

(** Deleting one kind of entity, or adding one. *)
Lemma pols_ok_drop ids used pols t id :
  pols_ok ids used pols →
  pols_ok (λ t', if decide (t' = t) then ids t ∖ {[id]} else ids t') used
    (set_related t (λ X, X ∖ {[id]}) <$> pols).
Proof.
  intros H k P. rewrite lookup_fmap_Some. intros (P0 & <- & HP0).
  destruct (H k P0 HP0) as (? & ? & ? & Hr). rewrite set_related_model.
  split_and!; try done. intros t'. rewrite related_set. specialize (Hr t').
  destruct (decide (t' = t)) as [->|]; set_solver.
Qed.
Lemma pols_ok_mono ids ids' used used' pols :
  (∀ t, ids t ⊆ ids' t) → used ⊆ used' → pols_ok ids used pols → pols_ok ids' used' pols.
Proof. intros Hi Hu H k P HP. destruct (H k P HP) as (? & ? & ? & Hr). split_and!; set_solver. Qed.

Lemma pols_ok_change c a :
  abs_ok a → wf_change c a →
  pols_ok (λ t, entity_ids t a) (a_Used a) (a_Policies (abs_change c a)) ∧
  size (a_Policies (abs_change c a)) = size (a_Policies a).
Proof.
  intros [] Hwf. unfold abs_change. unfold wf_change in Hwf.
  destruct (a_Policies a !! pch_PolicyId c) as [P|] eqn:HP; simpl; [|done].
  split; [|by rewrite map_size_insert, HP].
  apply map_Forall_insert_2; [|done]. destruct (ok_pol0 _ _ HP) as (? & ? & ? & Hr).
  rewrite set_related_model. split_and!; try done.
  intros t'. rewrite related_set. destruct (decide _) as [->|]; [|apply Hr].
  specialize (Hr (pch_RelatedEntityType c)). unfold addOrRemove.
  destruct (pch_Add c); [|set_solver].
  apply union_subseteq. split; [done|]. intros x Hx%elem_of_list_to_set.
  destruct (pch_RelatedEntityType c); simpl in *; try destruct Hwf as [_ Hwf];
    rewrite Forall_forall in Hwf; apply (Hwf x Hx).
Qed.

Lemma abs_policy_ok act x a : abs_ok a → wf_event (EvServicePolicy act x) a → abs_ok (abs_policy act x a).
Proof.
  intros [] Hwf. unfold abs_policy. destruct (decide (act = Delete)) as [->|Hact].
  { split; simpl; try done; [by apply map_Forall_delete|].
    rewrite map_size_delete. destruct (_ !! _); simpl; lia. }
  assert (pm_PolicyType x ≠ InvalidPolicy ∧ (pm_Id x ∈ dom (a_Policies a) ∨
    (pm_Id x ∉ a_Used a) ∧ (Z.of_nat (size (a_Policies a)) < 2 ^ 31 - 1)%Z)) as [Ht Hfresh]
    by by destruct act.
  destruct act; [| |done]; (split; simpl; try done;
    [ apply map_Forall_insert_2;
      [|eapply (pols_ok_mono (λ t, entity_ids t a) _ (a_Used a)); [done|set_solver|done]];
      destruct (a_Policies a !! pm_Id x) as [P|] eqn:HP; simpl;
        (split_and!; [done|done|set_solver|]); intros t; [|destruct t; set_solver];
      destruct (ok_pol0 _ _ HP) as (? & ? & ? & Hr); specialize (Hr t); by destruct t
    | rewrite map_size_insert; destruct (a_Policies a !! pm_Id x) as [P|] eqn:HP; simpl; [done|];
      destruct Hfresh as [Hd|[_ Hs]]; [by apply elem_of_dom in Hd as [? ?]; simplify_eq|lia] ]).
Qed.

(** Entities are deleted with their place in the policies, or set. *)
Ltac entity_ok a := case_bool_decide; subst; simpl; (split; simpl; try done);
  [ by apply map_Forall_delete
  | eapply pols_ok_mono; [| |by eapply (pols_ok_drop (λ t, entity_ids t a))]; [|done];
    intros []; simpl; set_solver
  | by rewrite map_size_fmap
  | by apply putOrDelete_Forall
  | eapply (pols_ok_mono (λ t, entity_ids t a)); [|done|done];
    intros []; simpl; rewrite ?putOrDelete_dom; rewrite ?bool_decide_false by done; set_solver ].

Lemma abs_handle_ok ev a : abs_ok a → wf_event ev a → abs_ok (abs_handle ev a).
Proof.
  intros Ha Hwf. pose proof Ha as [].
  destruct ev as [act x|act x|act x|act x|act x|act x|act x|act x|c]; simpl.
  - split; simpl; try done. by apply putOrDelete_Forall.
  - split; simpl; try done. by apply putOrDelete_Forall.
  - entity_ok a.
  - entity_ok a.
  - by apply abs_policy_ok.
  - entity_ok a.
  - split; simpl; try done. by apply putOrDelete_Forall.
  - split; simpl; try done.
  - destruct (pols_ok_change c a Ha Hwf) as [Hp Hs]. revert Hp Hs.
    unfold abs_change. destruct (a_Policies a !! _); [|done].
    intros Hp Hs. split; simpl in *; try done. by rewrite Hs.
Qed.

Lemma abs_run_ok evs a : abs_ok a → wf_events evs a → abs_ok (abs_run evs a).
Proof.
  revert a. induction evs as [|ev evs IH]; intros a Ha Hwf; [done|].
  destruct Hwf as [Hev Hevs]. apply IH; [by apply abs_handle_ok|done].
Qed.
Lemma wf_events_app l1 l2 a : wf_events (l1 ++ l2) a ↔ wf_events l1 a ∧ wf_events l2 (abs_run l1 a).
Proof. revert a. induction l1 as [|ev l1 IH]; intros a; simpl; [tauto|]. rewrite IH. tauto. Qed.
Lemma abs_run_app l1 l2 a : abs_run (l1 ++ l2) a = abs_run l2 (abs_run l1 a).
Proof. apply foldl_app. Qed.

(** ** The interface of a copy *)

Class DataModelCopy (M : Type) := {
  dm_rep : M → Abs → Prop;                 (* what a copy represents *)
  dm_new : M;
  dm_Handle : Z → Event → M → option M;    (* [None] is a panic *)
  dm_new_rep : dm_rep dm_new abs_empty;
  dm_Handle_rep idx ev m a :
    abs_ok a → wf_event ev a → dm_rep m a →
    ∃ m', dm_Handle idx ev m = Some m' ∧ dm_rep m' (abs_handle ev a);
}.

Section Copies.
Context `{DataModelCopy M}.

Lemma dm_run_rep idx evs m a :
  abs_ok a → wf_events evs a → dm_rep m a →
  ∃ m', foldM (dm_Handle idx) evs m = Some m' ∧ dm_rep m' (abs_run evs a).
Proof.
  revert m a. induction evs as [|ev evs IH]; intros m a Ha Hwf Hm; simpl; [eauto|].
  destruct Hwf as [Hev Hevs].
  destruct (dm_Handle_rep idx ev m a Ha Hev Hm) as (m1 & -> & Hm1). simpl.
  apply IH; [by apply abs_handle_ok|done|done].
Qed.
End Copies.
