(* ===== verification/SenderCopy.v ===== *)
(** * The controller's copy implements the data model

    [RouterDataModelSender] represents an abstract model ([sender_rep]) and its
    handlers implement the events, so it is an instance of [DataModelCopy]. Its
    full state, [getDataState], is a well-formed sequence of events that builds
    the same model from nothing, revocations apart. *)

From stdpp Require Import base gmap list strings fin_maps fin_sets.
From Stdlib Require Import ZArith Lia.
From S2P Require Import Prelude EventCache DataModel DataModelSpec.

Import Sender.

(** ** What the controller's copy represents *)

Definition policy_of (P : AbsPolicy) : SenderServicePolicy :=
  mkSPolicy (ap_Model P) (ap_Services P) (ap_Checks P).

(** An entry of the identities. The ids of deleted policies may remain in it. *)
Definition sender_identity (a : Abs) (i : string) (o : option SenderIdentity)
    (x : DataState_Identity) : Prop :=
  match o with
  | None => False
  | Some v =>
    si_Model v = x ∧ si_ServicePolicies v ⊆ a_Used a ∧
    ∀ p P, a_Policies a !! p = Some P → (p ∈ si_ServicePolicies v ↔ i ∈ ap_Identities P)
  end.

Record sender_rep (m : RouterDataModelSender) (a : Abs) : Prop := mkSenderRep {
  sr_ct : sn_ConfigTypes m = a_ConfigTypes a;
  sr_cfg : sn_Configs m = a_Configs a;
  sr_svc : sn_Services m = a_Services a;
  sr_chk : sn_PostureChecks m = a_Checks a;
  sr_key : sn_PublicKeys m = a_Keys a;
  sr_rev : sn_Revocations m = a_Revocations a;
  sr_pol : sn_ServicePolicies m = policy_of <$> a_Policies a;
  sr_id : ∀ i, option_Forall2 (sender_identity a i) (sn_Identities m !! i) (a_Identities a !! i);
}.

Lemma sender_identity_mono a a' i o x :
  a_Used a ⊆ a_Used a' →
  (∀ p P', a_Policies a' !! p = Some P' →
     (∃ P, a_Policies a !! p = Some P ∧ (i ∈ ap_Identities P ↔ i ∈ ap_Identities P')) ∨
     (p ∉ a_Used a) ∧ i ∉ ap_Identities P') →
  sender_identity a i o x → sender_identity a' i o x.
Proof.
  intros Hu Hp. destruct o as [v|]; [|done]. intros (? & ? & Hv). split_and!; [done|set_solver|].
  intros p P' HP'. destruct (Hp p P' HP') as [(P & HP & <-)|[? ?]]; [by apply Hv|].
  split; intros; [set_solver|done].
Qed.

(** Events that leave the identities and the policies' identities as they are. *)
Lemma sender_ids_mono m m' a a' :
  sn_Identities m' = sn_Identities m → a_Identities a' = a_Identities a →
  a_Used a ⊆ a_Used a' →
  (∀ i p P', a_Policies a' !! p = Some P' →
     (∃ P, a_Policies a !! p = Some P ∧ (i ∈ ap_Identities P ↔ i ∈ ap_Identities P')) ∨
     (p ∉ a_Used a) ∧ i ∉ ap_Identities P') →
  sender_rep m a →
  ∀ i, option_Forall2 (sender_identity a' i) (sn_Identities m' !! i) (a_Identities a' !! i).
Proof.
  intros -> -> Hu Hp [] i. eapply option_Forall2_impl; [|apply sr_id0].
  intros o x. apply sender_identity_mono; [done|]. intros p P'. apply Hp.
Qed.

Lemma sender_new_rep : sender_rep NewRouterDataModelSender abs_empty.
Proof.
  split; try done. intros i. simpl. rewrite !lookup_empty. constructor.
Qed.

Lemma sender_identity_event act x m a :
  abs_ok a → sender_rep m a →
  sender_rep (HandleIdentityEvent act x m) (abs_handle (EvIdentity act x) a).
Proof.
  intros Ha Hm. pose proof Hm as []. destruct (decide (act = Delete)) as [->|Hact]; simpl.
  - split; simpl; try done.
    + rewrite sr_pol0, <- map_fmap_compose. apply map_fmap_ext. done.
    + intros i. destruct (decide (i = im_Id x)) as [->|Hne].
      { rewrite !lookup_delete_eq. constructor. }
      rewrite !lookup_delete_ne by done. eapply option_Forall2_impl; [|apply sr_id0].
      intros o y. apply sender_identity_mono; [done|]. simpl. intros p P'.
      rewrite lookup_fmap_Some. intros (P & <- & HP). left. exists P. simpl. set_solver.
  - rewrite bool_decide_false by done. split; simpl; try done. intros i.
    assert (putOrDelete act (im_Id x) x (a_Identities a) = <[im_Id x := x]> (a_Identities a))
      as -> by by destruct act.
    set (v := mkSIdentity _ _).
    assert ((match act with Delete => delete (im_Id x) (sn_Identities m)
             | _ => <[im_Id x := Some v]> (sn_Identities m) end) =
            <[im_Id x := Some v]> (sn_Identities m)) as -> by by destruct act.
    destruct (decide (i = im_Id x)) as [->|Hne]; [|rewrite !lookup_insert_ne by done; apply sr_id0].
    rewrite !lookup_insert_eq. constructor. unfold v. simpl.
    specialize (sr_id0 (im_Id x)).
    destruct (sn_Identities m !! im_Id x) as [[old|]|] eqn:Hold;
      inversion sr_id0 as [? ? Hs|Hn]; subst.
    + destruct Hs as (? & ? & ?). done.
    + done.
    + split_and!; [done|set_solver|]. intros p P HP. split; [set_solver|]. intros Hi.
      destruct (ok_pol _ Ha _ _ HP) as (_ & _ & _ & Hr). specialize (Hr RelatedIdentity _ Hi).
      simpl in Hr. apply elem_of_dom in Hr as [? ?]. congruence.
Qed.

(** Changing the membership of identities. *)
Lemma upsert_lookup {V} (g : V → V) l (m : gmap string (option V)) i :
  (∀ v, g (g v) = g v) → (∀ x, x ∈ l → ∃ v, m !! x = Some (Some v)) →
  foldl (λ ids x, <[x := match ids !! x with Some (Some v) => Some (g v) | _ => None end]> ids) m l !! i
  = if decide (i ∈ l) then fmap g <$> m !! i else m !! i.
Proof.
  intros Hg. revert m. induction l as [|x l IH]; intros m Hl; simpl; [done|].
  destruct (Hl x) as [v Hv]; [left|]. rewrite Hv, IH.
  - destruct (decide (i = x)) as [->|Hne].
    + rewrite lookup_insert_eq, (decide_True (P := x ∈ x :: l)) by left. rewrite Hv. simpl.
      destruct (decide (x ∈ l)); simpl; by rewrite ?Hg.
    + rewrite lookup_insert_ne by done. destruct (decide (i ∈ l)).
      * by rewrite decide_True by (by right).
      * by rewrite decide_False by set_solver.
  - intros y Hy. destruct (decide (y = x)) as [->|]; [rewrite lookup_insert_eq; eauto|].
    rewrite lookup_insert_ne by done. apply Hl. by right.
Qed.

Lemma addOrRemove_idemp add l X : addOrRemove add l (addOrRemove add l X) = addOrRemove add l X.
Proof. destruct add; simpl; set_solver. Qed.
Lemma elem_of_addOrRemove add l X x :
  x ∈ addOrRemove add l X ↔ if add then x ∈ X ∨ x ∈ l else x ∈ X ∧ x ∉ l.
Proof. destruct add; simpl; set_solver. Qed.

(** An identity that a change names has its membership changed. *)
Definition set_membership (c : DataState_ServicePolicyChange) (v : SenderIdentity) : SenderIdentity :=
  mkSIdentity (si_Model v) (addOrRemove (pch_Add c) [pch_PolicyId c] (si_ServicePolicies v)).

Lemma abs_change_identities c a p P' :
  pch_RelatedEntityType c = RelatedIdentity → a_Policies (abs_change c a) !! p = Some P' →
  ∃ P, a_Policies a !! p = Some P ∧
    ap_Identities P' = if decide (p = pch_PolicyId c)
      then addOrRemove (pch_Add c) (pch_RelatedEntityIds c) (ap_Identities P) else ap_Identities P.
Proof.
  intros Ht. unfold abs_change. rewrite Ht.
  destruct (a_Policies a !! pch_PolicyId c) as [P|] eqn:HP; simpl.
  - rewrite lookup_insert_Some. intros [[<- <-]|[? ?]]; [exists P|exists P'];
      [rewrite decide_True|rewrite decide_False]; done.
  - intros HP'. exists P'. rewrite decide_False by congruence. done.
Qed.

Lemma sender_identity_change c a i v x :
  pch_RelatedEntityType c = RelatedIdentity → (pch_Add c = true → pch_PolicyId c ∈ a_Used a) →
  sender_identity a i (Some v) x →
  sender_identity (abs_change c a) i
    (Some (if decide (i ∈ pch_RelatedEntityIds c) then set_membership c v else v)) x.
Proof.
  intros Ht Hused (Hmod & Hsub & Hv).
  assert (a_Used (abs_change c a) = a_Used a) as Hu by (unfold abs_change; by destruct (_ !! _)).
  unfold sender_identity. rewrite Hu.
  destruct (decide (i ∈ pch_RelatedEntityIds c)) as [Hin|Hni]; simpl; (split_and!; [done|..]).
  - unfold addOrRemove. destruct (pch_Add c); [specialize (Hused eq_refl)|]; set_solver.
  - intros p P' HP'. destruct (abs_change_identities c a p P' Ht HP') as (P & HP & ->).
    specialize (Hv p P HP).
    destruct (decide (p = pch_PolicyId c)) as [->|]; rewrite !elem_of_addOrRemove;
      destruct (pch_Add c); set_solver.
  - done.
  - intros p P' HP'. destruct (abs_change_identities c a p P' Ht HP') as (P & HP & ->).
    specialize (Hv p P HP). destruct (decide (p = pch_PolicyId c)) as [->|]; [|done].
    rewrite elem_of_addOrRemove. destruct (pch_Add c); set_solver.
Qed.

Lemma sender_change_ids c m a :
  abs_ok a → wf_change c a → sender_rep m a → pch_RelatedEntityType c = RelatedIdentity → ∀ i,
  option_Forall2 (sender_identity (abs_change c a) i)
    (sn_Identities (HandleServicePolicyChange c m) !! i) (a_Identities a !! i).
Proof.
  intros Ha Hwf Hm Ht i. pose proof (sr_id _ _ Hm) as Hid.
  assert (Forall (λ x, x ∈ dom (a_Identities a)) (pch_RelatedEntityIds c)) as Hin.
  { unfold wf_change in Hwf. rewrite Ht in Hwf.
    destruct (a_Policies a !! pch_PolicyId c); [done|]. by apply Hwf. }
  rewrite Forall_forall in Hin. unfold HandleServicePolicyChange. rewrite Ht. simpl.
  rewrite (upsert_lookup (set_membership c)).
  - specialize (Hid i).
    destruct (sn_Identities m !! i) as [[v|]|], (a_Identities a !! i) as [x|];
      inversion Hid as [? ? Hs|]; subst; [|done|by destruct (decide _); constructor].
    apply (sender_identity_change c) in Hs; [destruct (decide _); by constructor|done|].
    intros Hadd. unfold wf_change in Hwf.
    destruct (a_Policies a !! pch_PolicyId c) as [P|] eqn:HP.
    + by destruct (ok_pol _ Ha _ _ HP) as (_ & _ & ? & _).
    + destruct Hwf as [Hf _]. congruence.
  - intros v. unfold set_membership. simpl. f_equal. apply addOrRemove_idemp.
  - intros x Hx. specialize (Hin x Hx). apply elem_of_dom in Hin as [y Hy].
    specialize (Hid x). rewrite Hy in Hid. inversion Hid as [o ? Hs|]; subst.
    destruct o; [eauto|done].
Qed.

Lemma sender_change_rep c m a :
  abs_ok a → wf_change c a → sender_rep m a →
  sender_rep (HandleServicePolicyChange c m) (abs_change c a).
Proof.
  intros Ha Hwf Hm. pose proof Hm as [].
  assert (sn_ServicePolicies m !! pch_PolicyId c = policy_of <$> a_Policies a !! pch_PolicyId c) as Hl
    by by rewrite sr_pol0, lookup_fmap.
  destruct (decide (pch_RelatedEntityType c = RelatedIdentity)) as [Ht|Ht].
  { pose proof (sender_change_ids c m a Ha Hwf Hm Ht) as Hids. revert Hids.
    unfold HandleServicePolicyChange, abs_change. rewrite Ht.
    destruct (a_Policies a !! pch_PolicyId c) as [P|] eqn:HP; intros Hids; split; simpl in *; try done.
    rewrite sr_pol0, fmap_insert. symmetry. apply insert_id. by rewrite lookup_fmap, HP. }
  unfold HandleServicePolicyChange, abs_change.
  destruct (pch_RelatedEntityType c); [|done|]; rewrite Hl;
    (destruct (a_Policies a !! pch_PolicyId c) as [P|] eqn:HP; simpl; [|done]);
    (split; simpl; try done; [by rewrite sr_pol0, fmap_insert|]);
    (apply (sender_ids_mono m m a (with_Policies _ a)); [done..| |done]);
    simpl; intros i p P' HP'; left;
    apply lookup_insert_Some in HP' as [[<- <-]|[? ?]]; simpl; eauto.
Qed.

Lemma sender_policy_rep act x m a :
  abs_ok a → wf_event (EvServicePolicy act x) a → sender_rep m a →
  sender_rep (HandleServicePolicyEvent act x m) (abs_policy act x a).
Proof.
  intros Ha Hwf Hm. pose proof Hm as [].
  assert (sn_ServicePolicies m !! pm_Id x = policy_of <$> a_Policies a !! pm_Id x) as Hl
    by by rewrite sr_pol0, lookup_fmap.
  destruct (decide (act = Delete)) as [->|Hact].
  { split; simpl; try done; [by rewrite sr_pol0, fmap_delete|].
    apply (sender_ids_mono m m a (with_Policies _ a)); [done..| |done]. simpl.
    intros i p P'. rewrite lookup_delete_Some. intros [? ?]. left. eauto. }
  assert (HandleServicePolicyEvent act x m = applyUpdateServicePolicyEvent x m) as -> by by destruct act.
  assert (abs_policy act x a = abs_policy Create x a) as -> by by destruct act.
  assert (pm_Id x ∈ dom (a_Policies a) ∨ pm_Id x ∉ a_Used a) as Hfresh
    by (destruct act; simpl in Hwf; tauto).
  unfold applyUpdateServicePolicyEvent. split; simpl; try done.
  - rewrite Hl, sr_pol0, fmap_insert. by destruct (a_Policies a !! pm_Id x).
  - intros i. eapply option_Forall2_impl; [|apply sr_id0]. intros o y.
    apply sender_identity_mono; simpl; [set_solver|]. intros p P'.
    rewrite lookup_insert_Some. intros [[<- <-]|[? ?]]; [|eauto].
    destruct (a_Policies a !! pm_Id x) as [P|] eqn:HP; [left; eauto|]. right.
    split; [|simpl; set_solver]. destruct Hfresh as [Hd|]; [|done].
    apply elem_of_dom in Hd as [? ?]. congruence.
Qed.

Lemma sender_check_rep act x m a :
  wf_event (EvPostureCheck act x) a → sender_rep m a →
  sender_rep (HandlePostureCheckEvent act x m) (abs_handle (EvPostureCheck act x) a).
Proof.
  intros Hwf Hm. pose proof Hm as []. simpl. case_bool_decide; subst.
  - simpl in Hwf.
    assert (set_related RelatedPostureCheck (λ X, X ∖ {[pcm_Id x]}) <$> a_Policies a = a_Policies a) as Hid.
    { apply map_eq. intros p. rewrite lookup_fmap. destruct (a_Policies a !! p) as [P|] eqn:HP; [|done].
      simpl. f_equal. specialize (Hwf p P HP). destruct P as [? ? C ?]; simpl in *.
      f_equal. set_solver. }
    split; simpl; rewrite ?Hid; try done. by rewrite sr_chk0.
  - split; simpl; try done. by rewrite sr_chk0.
Qed.

(** ** The controller's copy is a copy *)

Lemma sender_handle_rep ev m a :
  abs_ok a → wf_event ev a → sender_rep m a → sender_rep (Handle ev m) (abs_handle ev a).
Proof.
  intros Ha Hwf Hm. pose proof Hm as [].
  destruct ev as [act x|act x|act x|act x|act x|act x|act x|act x|c]; simpl.
  - split; simpl; try done. by rewrite sr_ct0.
  - split; simpl; try done. by rewrite sr_cfg0.
  - by apply (sender_identity_event act x).
  - unfold HandleServiceEvent. case_bool_decide; subst; simpl.
    + split; simpl; try done; [by rewrite sr_svc0| |].
      * rewrite sr_pol0, <- !map_fmap_compose. done.
      * intros i. eapply option_Forall2_impl; [|apply sr_id0]. intros o y.
        apply sender_identity_mono; simpl; [done|]. intros p P'. rewrite lookup_fmap_Some. intros (P & <- & HP). left. eauto.
    + destruct act; [| |done]; split; simpl; try done; by rewrite sr_svc0.
  - by apply sender_policy_rep.
  - by apply (sender_check_rep act x).
  - split; simpl; try done. by rewrite sr_key0.
  - split; simpl; try done. by rewrite sr_rev0.
  - by apply sender_change_rep.
Qed.

#[global] Program Instance SenderCopy : DataModelCopy RouterDataModelSender := {|
  dm_rep := sender_rep;
  dm_new := NewRouterDataModelSender;
  dm_Handle idx ev m := Some (Handle ev m);
  dm_new_rep := sender_new_rep;
|}.
Next Obligation. eauto using sender_handle_rep. Qed.

(** ** The full state *)

(** What a full state tells of a model: everything but the revocations. *)
Definition without_revocations (a : Abs) : Abs :=
  mkAbs (a_ConfigTypes a) (a_Configs a) (a_Identities a) (a_Services a) (a_Policies a) (a_Checks a)
    (a_Keys a) ∅ (dom (a_Policies a)).

(** Loading a map, entry by entry. *)
Section Load.
Context {V : Type} (M : gmap string V) (step : V → list Event) (P : gmap string V → Abs → Prop).
Hypothesis Hstep : ∀ k x done a, M !! k = Some x → done !! k = None → done ⊆ M → P done a →
  wf_events (step x) a ∧ P (<[k := x]> done) (abs_run (step x) a).

Lemma load_list l done a :
  NoDup l.*1 → (∀ k x, (k, x) ∈ l → M !! k = Some x ∧ done !! k = None) → done ⊆ M → P done a →
  wf_events (concat (step <$> l.*2)) a ∧ P (list_to_map l ∪ done) (abs_run (concat (step <$> l.*2)) a).
Proof.
  revert done a. induction l as [|[k x] l IH]; intros done a Hnd Hl Hsub HP; csimpl in *.
  { by rewrite (left_id_L ∅ (∪)). }
  apply NoDup_cons in Hnd as [Hk Hnd]. destruct (Hl k x) as [Hkx Hnone]; [left|].
  destruct (Hstep k x done a Hkx Hnone Hsub HP) as [Hwf HP'].
  destruct (IH (<[k := x]> done) (abs_run (step x) a)) as [Hwf2 HP2]; [done| | |done|].
  - intros k' x' Hin. destruct (Hl k' x') as [? ?]; [by right|]. split; [done|].
    rewrite lookup_insert_ne; [done|]. intros ->. apply Hk. apply list_elem_of_fmap.
    by exists (k', x').
  - by apply insert_subseteq_l.
  - rewrite wf_events_app, abs_run_app. split; [done|].
    rewrite <- insert_union_l. by rewrite insert_union_r
      by (apply not_elem_of_list_to_map_1; done).
Qed.

Lemma load_map a :
  P ∅ a → wf_events (concat (step <$> (map_to_list M).*2)) a ∧
  P M (abs_run (concat (step <$> (map_to_list M).*2)) a).
Proof.
  intros HP. destruct (load_list (map_to_list M) ∅ a) as [Hwf HP'].
  - apply NoDup_fst_map_to_list.
  - intros k x Hin. split; [by apply elem_of_map_to_list|apply lookup_empty].
  - apply map_empty_subseteq.
  - done.
  - rewrite list_to_map_to_list, (right_id_L ∅ (∪)) in HP'. done.
Qed.
End Load.

Lemma fmap_concat {A B} (f : A → B) l : f <$> l = concat ((λ x, [f x]) <$> l).
Proof. induction l as [|x l IH]; csimpl; [done|by rewrite IH]. Qed.

(** The events of one policy. *)
Lemma load_policy pids P a :
  let p := pm_Id (ap_Model P) in
  a_Policies a !! p = None → p ∉ a_Used a → pm_PolicyType (ap_Model P) ≠ InvalidPolicy →
  (Z.of_nat (size (a_Policies a)) < 2 ^ 31 - 1)%Z → (∀ t, related t P ⊆ entity_ids t a) →
  list_to_set (default [] (pids !! p)) = ap_Identities P →
  wf_events (policyEvents pids (policy_of P)) a ∧
  abs_run (policyEvents pids (policy_of P)) a =
    mkAbs (a_ConfigTypes a) (a_Configs a) (a_Identities a) (a_Services a)
      (<[p := P]> (a_Policies a)) (a_Checks a) (a_Keys a) (a_Revocations a) ({[p]} ∪ a_Used a).
Proof.
  intros p Hp Hu Ht Hs Hrel Hids. unfold policyEvents. simpl.
  assert (∀ X : gset string, addOrRemove true (elements X) ∅ = X) as Hadd by (simpl; set_solver).
  assert (Forall (λ x, x ∈ dom (a_Identities a)) (default [] (pids !! p))) as Hin.
  { apply Forall_forall. intros x Hx. apply (Hrel RelatedIdentity). simpl. set_solver. }
  fold p. unfold abs_policy, wf_change, abs_change. fold p. rewrite Hp. simpl.
  rewrite !lookup_insert_eq. simpl. rewrite !lookup_insert_eq. simpl. rewrite !insert_insert_eq.
  destruct (pids !! p) as [ids|] eqn:Hpids; simpl in *;
    unfold wf_change, abs_change; simpl; rewrite ?lookup_insert_eq; simpl; rewrite ?insert_insert_eq.
  all: split;
    [ split_and!; try done; try apply NoDup_elements; eauto;
      apply Forall_forall; intros x Hx%elem_of_elements;
        (split; [first [by apply (Hrel RelatedService)|by apply (Hrel RelatedPostureCheck)]|set_solver])
    | unfold with_Policies; simpl; do 2 f_equal; destruct P; simpl in *; f_equal; set_solver ].
Qed.

(** The identities of each policy. *)
Lemma policyIdentities_spec ids p i :
  i ∈ default [] (policyIdentities ids !! p) ↔
  ∃ v, v ∈ ids ∧ p ∈ si_ServicePolicies v ∧ im_Id (si_Model v) = i.
Proof.
  assert (∀ x L (acc : gmap string (list string)),
    i ∈ default [] (foldl (λ acc q, <[q := default [] (acc !! q) ++ [x]]> acc) acc L !! p) ↔
    i ∈ default [] (acc !! p) ∨ (p ∈ L ∧ i = x)) as Hinner.
  { intros x L. induction L as [|q L IH]; intros acc; simpl; [set_solver|].
    rewrite IH. destruct (decide (p = q)) as [->|].
    - rewrite lookup_insert_eq. simpl. set_solver.
    - rewrite lookup_insert_ne by done. set_solver. }
  induction ids as [|v ids IH] using rev_ind.
  { unfold policyIdentities. simpl. rewrite lookup_empty. simpl. set_solver. }
  unfold policyIdentities in *. rewrite foldl_app. simpl. rewrite Hinner, IH.
  rewrite elem_of_elements. split.
  - intros [(w & ? & ? & ?)|[? ->]]; [exists w|exists v]; set_solver.
  - intros (w & Hw & ? & ?). apply elem_of_app in Hw as [?|Hw]; [left; eauto|].
    apply list_elem_of_singleton in Hw as ->. right. done.
Qed.

(** No identity entry is nil, so that the full state can be taken. *)
Lemma sender_identities m a :
  sender_rep m a → ∃ N, sn_Identities m = Some <$> N ∧ si_Model <$> N = a_Identities a ∧
  mapM id (map_to_list (sn_Identities m)).*2 = Some (map_to_list N).*2.
Proof.
  intros Hm. pose proof (sr_id _ _ Hm) as Hid. exists (omap id (sn_Identities m)).
  assert (sn_Identities m = Some <$> omap id (sn_Identities m)) as HN.
  { apply map_eq. intros i. rewrite lookup_fmap, lookup_omap. specialize (Hid i).
    destruct (sn_Identities m !! i) as [[v|]|]; inversion Hid; by simplify_eq. }
  split_and!; [done| |].
  - apply map_eq. intros i. rewrite lookup_fmap, lookup_omap. specialize (Hid i).
    destruct (sn_Identities m !! i) as [[v|]|]; inversion Hid as [? x Hs|]; simplify_eq; [|done..].
    destruct Hs as [Hx _]. simpl. by rewrite Hx.
  - rewrite HN at 1. rewrite map_to_list_fmap.
    assert (∀ l : list (string * SenderIdentity), (prod_map id Some <$> l).*2 = Some <$> l.*2) as ->
      by (intros l; rewrite <- !list_fmap_compose; done).
    by apply mapM_fmap_Some.
Qed.

(** The identities of a policy, as the full state names them. *)
Lemma sender_policy_identities m a N p P :
  abs_ok a → sender_rep m a → sn_Identities m = Some <$> N → a_Policies a !! p = Some P →
  list_to_set (default [] (policyIdentities (map_to_list N).*2 !! p)) = ap_Identities P.
Proof.
  intros Ha Hm HN HP. apply set_eq. intros i. rewrite elem_of_list_to_set, policyIdentities_spec.
  pose proof (sr_id _ _ Hm) as Hid. split.
  - intros (v & Hv & Hp & <-). apply list_elem_of_fmap in Hv as ([k w] & -> & Hk).
    apply elem_of_map_to_list in Hk. simpl in *. specialize (Hid k).
    rewrite HN, lookup_fmap, Hk in Hid. inversion Hid as [? x Hs|]; simplify_eq.
    destruct Hs as (Hx & _ & Hv). rewrite (ok_id _ Ha k (si_Model w)) by congruence.
    by apply (Hv p P HP).
  - intros Hi. destruct (ok_pol _ Ha _ _ HP) as (_ & _ & _ & Hr).
    pose proof (Hr RelatedIdentity _ Hi) as Hd. simpl in Hd. apply elem_of_dom in Hd as [x Hx].
    specialize (Hid i). rewrite HN, lookup_fmap, Hx in Hid.
    inversion Hid as [? y Hs Hn|]; simplify_eq. destruct (N !! i) as [v|] eqn:HNi; [|done].
    simpl in *. simplify_eq. destruct Hs as (? & _ & Hv). exists v. split_and!.
    + apply list_elem_of_fmap. exists (i, v). split; [done|]. by apply elem_of_map_to_list.
    + by apply (Hv p P HP).
    + subst. by apply (ok_id _ Ha i).
Qed.

(** A stage of single create events. *)
Ltac load_stage F M ctx :=
  rewrite (fmap_concat F);
  apply (load_map M (λ x, [F x]) (λ acc b, b = ctx acc)); [|done];
  intros k x acc b Hk Hnone Hsub ->; simpl.

Section FullState.
Context (m : RouterDataModelSender) (a : Abs) (Ha : abs_ok a) (Hm : sender_rep m a).

Lemma load_configTypes :
  let evs := EvConfigType Create <$> (map_to_list (sn_ConfigTypes m)).*2 in
  wf_events evs abs_empty ∧ abs_run evs abs_empty = mkAbs (a_ConfigTypes a) ∅ ∅ ∅ ∅ ∅ ∅ ∅ ∅.
Proof.
  simpl. rewrite (sr_ct _ _ Hm).
  load_stage (EvConfigType Create) (a_ConfigTypes a) (λ acc, mkAbs acc ∅ ∅ ∅ ∅ ∅ ∅ ∅ ∅).
  by rewrite (ok_ct _ Ha k x Hk).
Qed.

Lemma load_configs :
  let evs := EvConfig Create <$> (map_to_list (sn_Configs m)).*2 in
  let a1 := mkAbs (a_ConfigTypes a) ∅ ∅ ∅ ∅ ∅ ∅ ∅ ∅ in
  wf_events evs a1 ∧ abs_run evs a1 = mkAbs (a_ConfigTypes a) (a_Configs a) ∅ ∅ ∅ ∅ ∅ ∅ ∅.
Proof.
  simpl. rewrite (sr_cfg _ _ Hm).
  load_stage (EvConfig Create) (a_Configs a) (λ acc, mkAbs (a_ConfigTypes a) acc ∅ ∅ ∅ ∅ ∅ ∅ ∅).
  rewrite (ok_cfg _ Ha k x Hk). split; [|done]. split; [|done]. right. apply map_Forall_empty.
Qed.

Lemma load_identities N :
  si_Model <$> N = a_Identities a →
  let evs := (λ v, EvIdentity Create (si_Model v)) <$> (map_to_list N).*2 in
  let a1 := mkAbs (a_ConfigTypes a) (a_Configs a) ∅ ∅ ∅ ∅ ∅ ∅ ∅ in
  wf_events evs a1 ∧
  abs_run evs a1 = mkAbs (a_ConfigTypes a) (a_Configs a) (a_Identities a) ∅ ∅ ∅ ∅ ∅ ∅.
Proof.
  intros HN. simpl. rewrite <- HN.
  load_stage (λ v, EvIdentity Create (si_Model v)) N
    (λ acc : gmap string SenderIdentity,
       mkAbs (a_ConfigTypes a) (a_Configs a) (si_Model <$> acc) ∅ ∅ ∅ ∅ ∅ ∅).
  split; [done|]. rewrite fmap_insert, (ok_id _ Ha k (si_Model x)); [done|].
  by rewrite <- HN, lookup_fmap, Hk.
Qed.

Lemma load_services :
  let evs := EvService Create <$> (map_to_list (sn_Services m)).*2 in
  let a1 := mkAbs (a_ConfigTypes a) (a_Configs a) (a_Identities a) ∅ ∅ ∅ ∅ ∅ ∅ in
  wf_events evs a1 ∧
  abs_run evs a1 = mkAbs (a_ConfigTypes a) (a_Configs a) (a_Identities a) (a_Services a) ∅ ∅ ∅ ∅ ∅.
Proof.
  simpl. rewrite (sr_svc _ _ Hm).
  load_stage (EvService Create) (a_Services a)
    (λ acc, mkAbs (a_ConfigTypes a) (a_Configs a) (a_Identities a) acc ∅ ∅ ∅ ∅ ∅).
  by rewrite (ok_svc _ Ha k x Hk).
Qed.

Lemma load_checks :
  let evs := EvPostureCheck Create <$> (map_to_list (sn_PostureChecks m)).*2 in
  let a1 := mkAbs (a_ConfigTypes a) (a_Configs a) (a_Identities a) (a_Services a) ∅ ∅ ∅ ∅ ∅ in
  wf_events evs a1 ∧
  abs_run evs a1 = mkAbs (a_ConfigTypes a) (a_Configs a) (a_Identities a) (a_Services a) ∅
                     (a_Checks a) ∅ ∅ ∅.
Proof.
  simpl. rewrite (sr_chk _ _ Hm).
  load_stage (EvPostureCheck Create) (a_Checks a)
    (λ acc, mkAbs (a_ConfigTypes a) (a_Configs a) (a_Identities a) (a_Services a) ∅ acc ∅ ∅ ∅).
  by rewrite (ok_chk _ Ha k x Hk).
Qed.

Lemma load_policies N :
  sn_Identities m = Some <$> N →
  let evs := concat (policyEvents (policyIdentities (map_to_list N).*2) <$>
               (map_to_list (sn_ServicePolicies m)).*2) in
  let a1 := mkAbs (a_ConfigTypes a) (a_Configs a) (a_Identities a) (a_Services a) ∅ (a_Checks a)
              ∅ ∅ ∅ in
  wf_events evs a1 ∧
  abs_run evs a1 = mkAbs (a_ConfigTypes a) (a_Configs a) (a_Identities a) (a_Services a)
                     (a_Policies a) (a_Checks a) ∅ ∅ (dom (a_Policies a)).
Proof.
  intros HN. simpl. rewrite (sr_pol _ _ Hm), map_to_list_fmap.
  assert (∀ l : list (string * AbsPolicy), (prod_map id policy_of <$> l).*2 = policy_of <$> l.*2) as ->
    by (intros l; rewrite <- !list_fmap_compose; done).
  rewrite <- list_fmap_compose.
  apply (load_map (a_Policies a) (policyEvents (policyIdentities (map_to_list N).*2) ∘ policy_of)
    (λ acc a', a' = mkAbs (a_ConfigTypes a) (a_Configs a) (a_Identities a) (a_Services a) acc
       (a_Checks a) ∅ ∅ (dom acc))); [|by rewrite dom_empty_L].
  intros p P acc a' HP Hnone Hsub ->. unfold compose.
  destruct (ok_pol _ Ha _ _ HP) as (Hid & Ht & _ & Hr). subst p.
  match goal with |- wf_events _ ?A ∧ _ => destruct (load_policy (policyIdentities (map_to_list N).*2) P A)
    as [Hwf Hrun] end; simpl; try done.
  - by apply not_elem_of_dom.
  - pose proof (insert_subseteq_l acc (a_Policies a) _ _ HP Hsub) as Hle.
    apply map_subseteq_size in Hle. rewrite map_size_insert_None in Hle by done.
    pose proof (ok_size _ Ha). lia.
  - by apply (sender_policy_identities m a).
  - split; [done|]. etrans; [exact Hrun|]. simpl. by rewrite dom_insert_L.
Qed.

Lemma load_keys :
  let evs := EvPublicKey Create <$> (map_to_list (sn_PublicKeys m)).*2 in
  let a1 := mkAbs (a_ConfigTypes a) (a_Configs a) (a_Identities a) (a_Services a) (a_Policies a)
              (a_Checks a) ∅ ∅ (dom (a_Policies a)) in
  wf_events evs a1 ∧ abs_run evs a1 = without_revocations a.
Proof.
  simpl. rewrite (sr_key _ _ Hm).
  load_stage (EvPublicKey Create) (a_Keys a)
    (λ acc, mkAbs (a_ConfigTypes a) (a_Configs a) (a_Identities a) (a_Services a) (a_Policies a)
       (a_Checks a) acc ∅ (dom (a_Policies a))).
  by rewrite (ok_key _ Ha k x Hk).
Qed.

(** The full state can be taken, its events are well formed, and they build the
    model without its revocations. *)
Lemma sender_full_state idx tl :
  ∃ evs, getDataState idx tl m = Some (mkDataState evs idx tl ∅) ∧
  wf_events evs abs_empty ∧ abs_run evs abs_empty = without_revocations a.
Proof.
  destruct (sender_identities m a Hm) as (N & HN & Hmodel & Hmap).
  unfold getDataState. rewrite Hmap. simpl. eexists. split; [reflexivity|].
  destruct load_configTypes as [W1 R1], load_configs as [W2 R2],
    (load_identities N Hmodel) as [W3 R3], load_services as [W4 R4], load_checks as [W5 R5],
    (load_policies N HN) as [W6 R6], load_keys as [W7 R7].
  rewrite !wf_events_app, !abs_run_app, R1, R2, R3, R4, R5, R6, R7. done.
Qed.
End FullState.
