(* ===== verification/RouterDataModel.v ===== *)
(** * The router's copy of the data model (common/router_data_model.go)

    [RouterDataModel] in receiver mode: what a router uses to decide which
    identity may dial or bind which service. Besides the entities it keeps
    denormalised data: for each identity the number of policies that let it
    dial and bind a service ([serviceAccess]) and the number of its policies
    that use a posture check; for services, configs and posture checks the
    entities to notify of a change.

    A handler runs under the model's lock and is one transition. [option] is
    the panic monad: [None] is a nil dereference. Policies, services and
    identities are replaced or changed in place through the map that holds
    them, so the entry of the map is the object; nothing else that is modelled
    keeps one. Iteration over a map or set goes through [map_to_list] and
    [elements]. Counts are [int32] and wrap around. *)

From stdpp Require Import base gmap list strings fin_maps fin_sets sorting.
From Stdlib Require Import ZArith Lia.
From S2P Require Import Prelude EventCache DataModel.

Open Scope Z_scope.

(** ** Entities *)

Record serviceAccess := mkAccess {
  DialPoliciesCount : Z;     (* int32 *)
  BindPoliciesCount : Z;
  dialPoliciesIndex : Z;     (* uint64 *)
  bindPoliciesIndex : Z;
}.

Record Identity := mkIdentity {
  id_Model : DataState_Identity;                (* Id ... Disabled *)
  id_ServicePolicies : gset string;
  id_ServiceAccess : gmap string serviceAccess;
  id_PostureChecks : gmap string Z;             (* int32 *)
  id_identityIndex : Z;
  id_serviceAccessTrackingEnabled : bool;
}.

Record ConfigType := mkConfigType { ct_Model : DataState_ConfigType; ct_index : Z }.
Record Config := mkConfig {
  c_Model : DataState_Config;
  c_services : gset string;
  c_identities : gset string;
  c_index : Z;
}.
Record Service := mkService {
  s_Model : DataState_Service;
  s_servicePolicies : gset string;
  s_index : Z;
}.
Record PostureCheck := mkPostureCheck {
  pc_Model : DataState_PostureCheck;
  pc_servicePolicies : gset string;
  pc_index : Z;
}.
Record ServicePolicy := mkServicePolicy {
  po_Model : DataState_ServicePolicy;           (* Id, Name, PolicyType *)
  po_Services : gset string;
  po_PostureChecks : gset string;
  po_Identities : gset string;
  po_servicesIndex : Z;
  po_postureChecksIndex : Z;
}.

(** What is queued for the goroutine that serves the subscriptions. *)
Inductive subscriberEvent :=
| checkForIdentityChangesEvent (identityId : string)
| identityCreatedEvent (identityId : string)
| identityDeletedEvent (identityId : string)
| syncAllSubscribersEvent.

(** Of the subscriptions, the handlers only ask whether there is one. *)
Record RouterDataModel := mkRdm {
  r_ConfigTypes : gmap string ConfigType;
  r_Configs : gmap string Config;
  r_Identities : gmap string Identity;
  r_Services : gmap string Service;
  r_ServicePolicies : gmap string ServicePolicy;
  r_PostureChecks : gmap string PostureCheck;
  r_PublicKeys : gmap string DataState_PublicKey;
  r_Revocations : gmap string DataState_Revocation;
  r_terminatorIdCache : gmap string string;
  r_subscriptions : gset string;
  r_updatedIdentities : gmap string Z;            (* byte flags *)
  r_events : list subscriberEvent;                (* a channel of 250 *)
  r_scanSubsNotify : bool;                        (* a channel of 1 *)
  r_timelineId : string;
  r_index : Z;
}.

Definition NewReceiverRouterDataModel : RouterDataModel :=
  mkRdm ∅ ∅ ∅ ∅ ∅ ∅ ∅ ∅ ∅ ∅ ∅ [] false "" 0.

(** ** Service access *)

Definition IsDial (p : ServicePolicy) : bool :=
  bool_decide (pm_PolicyType (po_Model p) = DialPolicy).
Definition IsBind (p : ServicePolicy) : bool :=
  bool_decide (pm_PolicyType (po_Model p) = BindPolicy).

Definition updateServicePolicies (servicePolicy : ServicePolicy) (index : Z) (add : bool)
    (self : serviceAccess) : serviceAccess :=
  if IsDial servicePolicy then
    mkAccess (int32 (if add then DialPoliciesCount self + 1 else DialPoliciesCount self - 1))
      (BindPoliciesCount self)
      (if index >? dialPoliciesIndex self then index else dialPoliciesIndex self)
      (bindPoliciesIndex self)
  else if IsBind servicePolicy then
    mkAccess (DialPoliciesCount self)
      (int32 (if add then BindPoliciesCount self + 1 else BindPoliciesCount self - 1))
      (dialPoliciesIndex self)
      (if index >? bindPoliciesIndex self then index else bindPoliciesIndex self)
  else self.

Definition updatePostureChecksIndex (servicePolicy : ServicePolicy) (index : Z)
    (self : serviceAccess) : serviceAccess :=
  if IsDial servicePolicy then
    mkAccess (DialPoliciesCount self) (BindPoliciesCount self)
      (if index >? dialPoliciesIndex self then index else dialPoliciesIndex self)
      (bindPoliciesIndex self)
  else if IsBind servicePolicy then
    mkAccess (DialPoliciesCount self) (BindPoliciesCount self) (dialPoliciesIndex self)
      (if index >? bindPoliciesIndex self then index else bindPoliciesIndex self)
  else self.

Definition IsDialAllowed (a : serviceAccess) : bool := DialPoliciesCount a >? 0.
Definition IsBindAllowed (a : serviceAccess) : bool := BindPoliciesCount a >? 0.
Definition HasAccess (a : serviceAccess) : bool := IsDialAllowed a || IsBindAllowed a.

Definition noAccess : serviceAccess := mkAccess 0 0 0 0.

(** ** Operations of an identity *)

Definition set_ServicePolicies (x : gset string) (i : Identity) : Identity :=
  mkIdentity (id_Model i) x (id_ServiceAccess i) (id_PostureChecks i) (id_identityIndex i)
    (id_serviceAccessTrackingEnabled i).
Definition set_ServiceAccess (x : gmap string serviceAccess) (i : Identity) : Identity :=
  mkIdentity (id_Model i) (id_ServicePolicies i) x (id_PostureChecks i) (id_identityIndex i)
    (id_serviceAccessTrackingEnabled i).
Definition set_PostureChecks (x : gmap string Z) (i : Identity) : Identity :=
  mkIdentity (id_Model i) (id_ServicePolicies i) (id_ServiceAccess i) x (id_identityIndex i)
    (id_serviceAccessTrackingEnabled i).

Definition updateServiceCount (policy : ServicePolicy) (serviceId : string) (index : Z) (add : bool)
    (m : gmap string serviceAccess) : gmap string serviceAccess :=
  let current := updateServicePolicies policy index add (default noAccess (m !! serviceId)) in
  if HasAccess current then <[serviceId := current]> m else delete serviceId m.

Definition decrementUseCount (m : gmap string Z) (id : string) : gmap string Z :=
  match m !! id with
  | Some currentValue =>
    let currentValue := int32 (currentValue - 1) in
    if currentValue <? 1 then delete id m else <[id := currentValue]> m
  | None => m
  end.
Definition incrementUseCount (m : gmap string Z) (id : string) : gmap string Z :=
  <[id := int32 (default 0 (m !! id) + 1)]> m.

Definition updateServiceCounts (policy : ServicePolicy) (serviceIds : list string) (index : Z)
    (add : bool) (i : Identity) : Identity :=
  if id_serviceAccessTrackingEnabled i then
    set_ServiceAccess (foldl (λ m serviceId, updateServiceCount policy serviceId index add m)
      (id_ServiceAccess i) serviceIds) i
  else i.

Definition addedToPolicy (policy : ServicePolicy) (index : Z) (self : Identity) : Identity :=
  if bool_decide (pm_Id (po_Model policy) ∈ id_ServicePolicies self) then self
  else
    let self := set_ServicePolicies ({[pm_Id (po_Model policy)]} ∪ id_ServicePolicies self) self in
    let self := updateServiceCounts policy (elements (po_Services policy)) index true self in
    if bool_decide (po_Services policy = ∅) then self
    else set_PostureChecks (foldl incrementUseCount (id_PostureChecks self)
           (elements (po_PostureChecks policy))) self.

Definition removedFromPolicy (policy : ServicePolicy) (index : Z) (self : Identity) : Identity :=
  if bool_decide (pm_Id (po_Model policy) ∈ id_ServicePolicies self) then
    let self := set_ServicePolicies (id_ServicePolicies self ∖ {[pm_Id (po_Model policy)]}) self in
    let self := updateServiceCounts policy (elements (po_Services policy)) index false self in
    if bool_decide (po_Services policy = ∅) then self
    else set_PostureChecks (foldl decrementUseCount (id_PostureChecks self)
           (elements (po_PostureChecks policy))) self
  else self.

Definition servicesAddedToPolicy (policy : ServicePolicy) (serviceIds : list string) (index : Z)
    (self : Identity) : Identity :=
  if bool_decide (pm_Id (po_Model policy) ∈ id_ServicePolicies self) then
    updateServiceCounts policy serviceIds index true self
  else self.
Definition servicesRemovedFromPolicy (policy : ServicePolicy) (serviceIds : list string) (index : Z)
    (self : Identity) : Identity :=
  if bool_decide (pm_Id (po_Model policy) ∈ id_ServicePolicies self) then
    updateServiceCounts policy serviceIds index false self
  else self.

(** The index of the access entry of each service of the policy; a missing
    entry is a nil pointer, which is dereferenced for dial and bind policies. *)
Definition touchAccess (policy : ServicePolicy) (index : Z) (serviceId : string)
    (m : gmap string serviceAccess) : option (gmap string serviceAccess) :=
  match m !! serviceId with
  | Some access => Some (<[serviceId := updatePostureChecksIndex policy index access]> m)
  | None => if IsDial policy || IsBind policy then None else Some m
  end.
Definition touchServices (policy : ServicePolicy) (index : Z) (self : Identity) : option Identity :=
  if id_serviceAccessTrackingEnabled self then
    m ← foldM (touchAccess policy index) (elements (po_Services policy)) (id_ServiceAccess self);
    Some (set_ServiceAccess m self)
  else Some self.

Definition postureChecksAddedToPolicy (policy : ServicePolicy) (postureCheckIds : list string)
    (index : Z) (self : Identity) : option Identity :=
  let self :=
    if bool_decide (pm_Id (po_Model policy) ∈ id_ServicePolicies self) then
      set_PostureChecks (foldl incrementUseCount (id_PostureChecks self) postureCheckIds) self
    else self in
  touchServices policy index self.
Definition postureChecksRemovedFromPolicy (policy : ServicePolicy) (postureCheckIds : list string)
    (index : Z) (self : Identity) : option Identity :=
  let self :=
    if bool_decide (pm_Id (po_Model policy) ∈ id_ServicePolicies self) then
      set_PostureChecks (foldl decrementUseCount (id_PostureChecks self) postureCheckIds) self
    else self in
  touchServices policy index self.

(** [getReferencedConfigs]. *)
Definition getReferencedConfigs (i : DataState_Identity) : gset string :=
  list_to_set ((map_to_list (im_ServiceConfigs i)).*2 ≫= λ cs, (map_to_list cs).*2).

(** ** Setting the parts of the model *)

Definition upd_ConfigTypes (x : gmap string ConfigType) (m : RouterDataModel) : RouterDataModel :=
  mkRdm x (r_Configs m) (r_Identities m) (r_Services m) (r_ServicePolicies m) (r_PostureChecks m)
    (r_PublicKeys m) (r_Revocations m) (r_terminatorIdCache m) (r_subscriptions m)
    (r_updatedIdentities m) (r_events m) (r_scanSubsNotify m) (r_timelineId m) (r_index m).
Definition upd_Configs (x : gmap string Config) (m : RouterDataModel) : RouterDataModel :=
  mkRdm (r_ConfigTypes m) x (r_Identities m) (r_Services m) (r_ServicePolicies m) (r_PostureChecks m)
    (r_PublicKeys m) (r_Revocations m) (r_terminatorIdCache m) (r_subscriptions m)
    (r_updatedIdentities m) (r_events m) (r_scanSubsNotify m) (r_timelineId m) (r_index m).
Definition upd_Identities (x : gmap string Identity) (m : RouterDataModel) : RouterDataModel :=
  mkRdm (r_ConfigTypes m) (r_Configs m) x (r_Services m) (r_ServicePolicies m) (r_PostureChecks m)
    (r_PublicKeys m) (r_Revocations m) (r_terminatorIdCache m) (r_subscriptions m)
    (r_updatedIdentities m) (r_events m) (r_scanSubsNotify m) (r_timelineId m) (r_index m).
Definition upd_Services (x : gmap string Service) (m : RouterDataModel) : RouterDataModel :=
  mkRdm (r_ConfigTypes m) (r_Configs m) (r_Identities m) x (r_ServicePolicies m) (r_PostureChecks m)
    (r_PublicKeys m) (r_Revocations m) (r_terminatorIdCache m) (r_subscriptions m)
    (r_updatedIdentities m) (r_events m) (r_scanSubsNotify m) (r_timelineId m) (r_index m).
Definition upd_ServicePolicies (x : gmap string ServicePolicy) (m : RouterDataModel)
    : RouterDataModel :=
  mkRdm (r_ConfigTypes m) (r_Configs m) (r_Identities m) (r_Services m) x (r_PostureChecks m)
    (r_PublicKeys m) (r_Revocations m) (r_terminatorIdCache m) (r_subscriptions m)
    (r_updatedIdentities m) (r_events m) (r_scanSubsNotify m) (r_timelineId m) (r_index m).
Definition upd_PostureChecks (x : gmap string PostureCheck) (m : RouterDataModel) : RouterDataModel :=
  mkRdm (r_ConfigTypes m) (r_Configs m) (r_Identities m) (r_Services m) (r_ServicePolicies m) x
    (r_PublicKeys m) (r_Revocations m) (r_terminatorIdCache m) (r_subscriptions m)
    (r_updatedIdentities m) (r_events m) (r_scanSubsNotify m) (r_timelineId m) (r_index m).
Definition upd_PublicKeys (x : gmap string DataState_PublicKey) (m : RouterDataModel)
    : RouterDataModel :=
  mkRdm (r_ConfigTypes m) (r_Configs m) (r_Identities m) (r_Services m) (r_ServicePolicies m)
    (r_PostureChecks m) x (r_Revocations m) (r_terminatorIdCache m) (r_subscriptions m)
    (r_updatedIdentities m) (r_events m) (r_scanSubsNotify m) (r_timelineId m) (r_index m).
Definition upd_Revocations (x : gmap string DataState_Revocation) (m : RouterDataModel)
    : RouterDataModel :=
  mkRdm (r_ConfigTypes m) (r_Configs m) (r_Identities m) (r_Services m) (r_ServicePolicies m)
    (r_PostureChecks m) (r_PublicKeys m) x (r_terminatorIdCache m) (r_subscriptions m)
    (r_updatedIdentities m) (r_events m) (r_scanSubsNotify m) (r_timelineId m) (r_index m).
Definition upd_queue (u : gmap string Z) (evs : list subscriberEvent) (scan : bool)
    (m : RouterDataModel) : RouterDataModel :=
  mkRdm (r_ConfigTypes m) (r_Configs m) (r_Identities m) (r_Services m) (r_ServicePolicies m)
    (r_PostureChecks m) (r_PublicKeys m) (r_Revocations m) (r_terminatorIdCache m)
    (r_subscriptions m) u evs scan (r_timelineId m) (r_index m).
Definition upd_index (x : Z) (m : RouterDataModel) : RouterDataModel :=
  mkRdm (r_ConfigTypes m) (r_Configs m) (r_Identities m) (r_Services m) (r_ServicePolicies m)
    (r_PostureChecks m) (r_PublicKeys m) (r_Revocations m) (r_terminatorIdCache m)
    (r_subscriptions m) (r_updatedIdentities m) (r_events m) (r_scanSubsNotify m)
    (r_timelineId m) x.

(** ** Queueing checks of subscriptions *)

Definition IdentityAdded : Z := 1.
Definition IdentityUpdated : Z := 2.
Definition IdentityDeleted : Z := 4.

(** [markIdentityForCheck], and a non-blocking send: when the channel is full
    the scan of all marked identities is requested instead. *)
Definition queueCheck (flag : Z) (event : subscriberEvent) (identityId : string)
    (m : RouterDataModel) : RouterDataModel :=
  if bool_decide (identityId ∈ r_subscriptions m) then
    let u := <[identityId := Z.lor (default 0 (r_updatedIdentities m !! identityId)) flag]>
               (r_updatedIdentities m) in
    if (length (r_events m) <? 250)%nat
    then upd_queue u (r_events m ++ [event]) (r_scanSubsNotify m) m
    else upd_queue u (r_events m) true m
  else m.

Definition queueSyncCheck (identityId : string) : RouterDataModel → RouterDataModel :=
  queueCheck IdentityUpdated (checkForIdentityChangesEvent identityId) identityId.
Definition queueNewIdentitySubCheck (identityId : string) : RouterDataModel → RouterDataModel :=
  queueCheck IdentityAdded (identityCreatedEvent identityId) identityId.
Definition queueIdentityDeletedSubCheck (identityId : string) : RouterDataModel → RouterDataModel :=
  queueCheck IdentityDeleted (identityDeletedEvent identityId) identityId.

(** [NotifyIdentityChange], and [NotifyServiceChange] of the identity found. *)
Definition NotifyIdentityChange (identityId : string) (m : RouterDataModel) : RouterDataModel :=
  match r_Identities m !! identityId with
  | Some _ => queueSyncCheck identityId m
  | None => m
  end.
Definition notifyAll (identityIds : list string) (m : RouterDataModel) : RouterDataModel :=
  foldl (λ m i, NotifyIdentityChange i m) m identityIds.

Definition NotifyServicePolicyServiceChange (servicePolicyId : string) (serviceIndex : Z)
    (m : RouterDataModel) : RouterDataModel :=
  match r_ServicePolicies m !! servicePolicyId with
  | None => m
  | Some p =>
    let m' :=
      if po_servicesIndex p <? serviceIndex then
        upd_ServicePolicies (<[servicePolicyId :=
          mkServicePolicy (po_Model p) (po_Services p) (po_PostureChecks p) (po_Identities p)
            serviceIndex (po_postureChecksIndex p)]> (r_ServicePolicies m)) m
      else m in
    notifyAll (elements (po_Identities p)) m'
  end.

Definition NotifyServicePolicyPostureChecksChange (servicePolicyId : string) (postureChecksIndex : Z)
    (m : RouterDataModel) : RouterDataModel :=
  match r_ServicePolicies m !! servicePolicyId with
  | None => m
  | Some p =>
    let m' :=
      if po_postureChecksIndex p <? postureChecksIndex then
        upd_ServicePolicies (<[servicePolicyId :=
          mkServicePolicy (po_Model p) (po_Services p) (po_PostureChecks p) (po_Identities p)
            (po_servicesIndex p) postureChecksIndex]> (r_ServicePolicies m)) m
      else m in
    notifyAll (elements (po_Identities p)) m'
  end.

Definition NotifyServiceOfConfigChange (serviceId : string) (index : Z) (m : RouterDataModel)
    : RouterDataModel :=
  match r_Services m !! serviceId with
  | None => m
  | Some service =>
    let m' :=
      if s_index service <? index then
        upd_Services (<[serviceId := mkService (s_Model service) (s_servicePolicies service) index]>
          (r_Services m)) m
      else m in
    foldl (λ m p, NotifyServicePolicyServiceChange p index m) m' (elements (s_servicePolicies service))
  end.

(** ** Handlers of change events *)

Module Receiver.
Import Sender(addOrRemove, putOrDelete).

Definition withLockedIdentity (identityId : string) (f : Identity → option Identity)
    (m : RouterDataModel) : option RouterDataModel :=
  match r_Identities m !! identityId with
  | Some identity =>
    v ← f identity; Some (upd_Identities (<[identityId := v]> (r_Identities m)) m)
  | None => Some m
  end.

(** ... for each of several identities. *)
Definition withLockedIdentities (identityIds : list string) (f : Identity → option Identity)
  : RouterDataModel → option RouterDataModel := foldM (λ i, withLockedIdentity i f) identityIds.

Definition withServices (serviceIds : list string) (f : Service → Service) (m : RouterDataModel)
    : RouterDataModel :=
  upd_Services (foldl (λ svcs s, match svcs !! s with
                                 | Some v => <[s := f v]> svcs
                                 | None => svcs
                                 end) (r_Services m) serviceIds) m.
Definition withPostureChecks (postureCheckIds : list string) (f : PostureCheck → PostureCheck)
    (m : RouterDataModel) : RouterDataModel :=
  upd_PostureChecks (foldl (λ cs c, match cs !! c with
                                    | Some v => <[c := f v]> cs
                                    | None => cs
                                    end) (r_PostureChecks m) postureCheckIds) m.

Definition svc_setPolicy (add : bool) (policyId : string) (s : Service) : Service :=
  mkService (s_Model s) (addOrRemove add [policyId] (s_servicePolicies s)) (s_index s).
Definition check_setPolicy (add : bool) (policyId : string) (c : PostureCheck) : PostureCheck :=
  mkPostureCheck (pc_Model c) (addOrRemove add [policyId] (pc_servicePolicies c)) (pc_index c).

(** One identity of a change: the policy's set and the identity's data. *)
Definition changeIdentity (add : bool) (index : Z) (identityId : string)
    (pm : ServicePolicy * RouterDataModel) : option (ServicePolicy * RouterDataModel) :=
  let '(p, m) := pm in
  match r_Identities m !! identityId with
  | None => Some pm
  | Some identity =>
    let p' := mkServicePolicy (po_Model p) (po_Services p) (po_PostureChecks p)
                (addOrRemove add [identityId] (po_Identities p))
                (po_servicesIndex p) (po_postureChecksIndex p) in
    let identity := if add then addedToPolicy p' index identity
                    else removedFromPolicy p' index identity in
    Some (p', upd_Identities (<[identityId := identity]> (r_Identities m)) m)
  end.

(** Adding or removing services. The posture checks of the policy count for
    its identities while it has services. *)
Definition changeServices (add : bool) (ids : list string) (index : Z)
    (pm : ServicePolicy * RouterDataModel) : option (ServicePolicy * RouterDataModel) :=
  let '(p, m) := pm in
  m ← withLockedIdentities (elements (po_Identities p))
        (λ i, Some (if add then servicesAddedToPolicy p ids index i
                    else servicesRemovedFromPolicy p ids index i)) m;
  let p' := mkServicePolicy (po_Model p) (addOrRemove add ids (po_Services p)) (po_PostureChecks p)
              (po_Identities p) index (po_postureChecksIndex p) in
  let m := withServices ids (svc_setPolicy add (pm_Id (po_Model p))) m in
  let wasEmpty := bool_decide (po_Services p = ∅) in
  let isEmpty := bool_decide (po_Services p' = ∅) in
  m ← (if add then
         if wasEmpty && negb isEmpty then
           withLockedIdentities (elements (po_Identities p))
             (postureChecksAddedToPolicy p' (elements (po_PostureChecks p)) index) m
         else Some m
       else
         if negb wasEmpty && isEmpty then
           withLockedIdentities (elements (po_Identities p))
             (postureChecksRemovedFromPolicy p' (elements (po_PostureChecks p)) index) m
         else Some m);
  Some (p', m).

Definition changePostureChecks (add : bool) (ids : list string) (index : Z)
    (pm : ServicePolicy * RouterDataModel) : option (ServicePolicy * RouterDataModel) :=
  let '(p, m) := pm in
  m ← (if bool_decide (po_Services p = ∅) then Some m
       else withLockedIdentities (elements (po_Identities p))
              (if add then postureChecksAddedToPolicy p ids index
               else postureChecksRemovedFromPolicy p ids index) m);
  let p' := mkServicePolicy (po_Model p) (po_Services p) (addOrRemove add ids (po_PostureChecks p))
              (po_Identities p) (po_servicesIndex p) index in
  Some (p', withPostureChecks ids (check_setPolicy add (pm_Id (po_Model p))) m).

Definition HandleServicePolicyChange (index : Z) (c : DataState_ServicePolicyChange)
    (m : RouterDataModel) : option RouterDataModel :=
  match r_ServicePolicies m !! pch_PolicyId c with
  | None => Some m
  | Some servicePolicy =>
    pm ← (match pch_RelatedEntityType c with
          | RelatedIdentity =>
            foldM (changeIdentity (pch_Add c) index) (pch_RelatedEntityIds c) (servicePolicy, m)
          | RelatedService =>
            changeServices (pch_Add c) (pch_RelatedEntityIds c) index (servicePolicy, m)
          | RelatedPostureCheck =>
            changePostureChecks (pch_Add c) (pch_RelatedEntityIds c) index (servicePolicy, m)
          end);
    let '(p, m) := pm in
    let additionalIdentitiesToUpdate :=
      match pch_RelatedEntityType c with
      | RelatedIdentity => if pch_Add c then [] else pch_RelatedEntityIds c
      | _ => []
      end in
    let m := upd_ServicePolicies (<[pch_PolicyId c := p]> (r_ServicePolicies m)) m in
    Some (notifyAll additionalIdentitiesToUpdate (notifyAll (elements (po_Identities p)) m))
  end.

(** The policies of a list that still have an entity, and removing it from
    them. *)
Definition policiesWith (f : ServicePolicy → gset string) (id : string) (m : RouterDataModel)
    (policyIds : list string) : list string :=
  filter (λ p, id ∈ from_option f ∅ (r_ServicePolicies m !! p)) policyIds.
Definition cleanup (index : Z) (policyIds : list string) (related : RelatedEntityType) (id : string)
  : RouterDataModel → option RouterDataModel :=
  foldM (λ p, HandleServicePolicyChange index (mkPolicyChange p [id] related false)) policyIds.

(** [removeConfigReferences] and [addConfigReferences]. *)
Definition referenceConfigs (add : bool) (i : DataState_Identity) (m : RouterDataModel)
    : RouterDataModel :=
  upd_Configs (foldl (λ cs c,
      match cs !! c with
      | Some v => <[c := mkConfig (c_Model v) (c_services v)
                           (addOrRemove add [im_Id i] (c_identities v)) (c_index v)]> cs
      | None => cs
      end) (r_Configs m) (elements (getReferencedConfigs i))) m.

Definition HandleIdentityEvent (index : Z) (a : Action) (model : DataState_Identity)
    (m : RouterDataModel) : option RouterDataModel :=
  match a with
  | Delete =>
    let '(m, policyIds) :=
      match r_Identities m !! im_Id model with
      | None => (m, [])
      | Some identity =>
        (referenceConfigs false (id_Model identity) m,
         policiesWith po_Identities (im_Id model) m (elements (id_ServicePolicies identity)))
      end in
    m ← cleanup index policyIds RelatedIdentity (im_Id model) m;
    Some (queueIdentityDeletedSubCheck (im_Id model)
            (upd_Identities (delete (im_Id model) (r_Identities m)) m))
  | _ =>
    let '(identity, m) :=
      match r_Identities m !! im_Id model with
      | None => (mkIdentity model ∅ ∅ ∅ index false, m)
      | Some v =>
        (mkIdentity model (id_ServicePolicies v) (id_ServiceAccess v) (id_PostureChecks v) index
           (id_serviceAccessTrackingEnabled v), referenceConfigs false (id_Model v) m)
      end in
    let m := referenceConfigs true model m in
    let m := upd_Identities (<[im_Id model := identity]> (r_Identities m)) m in
    Some (match a with
          | Create => queueNewIdentitySubCheck (im_Id model) m
          | _ => queueSyncCheck (im_Id model) m
          end)
  end.

(** The difference of two sorted slices. *)

Fixpoint diffSorted (slice1 : list string) : list string → list string * list string :=
  match slice1 with
  | [] => λ slice2, ([], slice2)
  | x :: s1 =>
    fix go slice2 :=
      match slice2 with
      | [] => (x :: s1, [])
      | y :: s2 =>
        match String.compare x y with
        | Lt => let '(only1, only2) := diffSorted s1 (y :: s2) in (x :: only1, only2)
        | Gt => let '(only1, only2) := go s2 in (only1, y :: only2)
        | Eq => diffSorted s1 s2
        end
      end
  end.
Definition diffStringSlices (slice1 slice2 : list string) : list string * list string :=
  diffSorted (sortStrings slice1) (sortStrings slice2).

(** [removeFromConfigs] and [addToConfigs]. *)
Definition referenceService (add : bool) (serviceId : string) (configIds : list string)
    (m : RouterDataModel) : RouterDataModel :=
  upd_Configs (foldl (λ cs c,
      match cs !! c with
      | Some v => <[c := mkConfig (c_Model v) (addOrRemove add [serviceId] (c_services v))
                           (c_identities v) (c_index v)]> cs
      | None => cs
      end) (r_Configs m) configIds) m.

(** The slices compared by [diffStringSlices] are sorted in place, so that an
    updated service has its configs in order. *)
Definition HandleServiceEvent (index : Z) (a : Action) (model : DataState_Service)
    (m : RouterDataModel) : option RouterDataModel :=
  match a with
  | Delete =>
    match r_Services m !! sm_Id model with
    | None => Some m
    | Some v =>
      let policyIds :=
        policiesWith po_Services (sm_Id model) m (elements (s_servicePolicies v)) in
      let m := referenceService false (sm_Id model) (sm_Configs (s_Model v)) m in
      cleanup index policyIds RelatedService (sm_Id model)
        (upd_Services (delete (sm_Id model) (r_Services m)) m)
    end
  | _ =>
    let '(updatedService, configsToRemove, configsToAdd) :=
      match r_Services m !! sm_Id model with
      | None => (mkService model ∅ index, [], sm_Configs model)
      | Some v =>
        let '(only1, only2) := diffStringSlices (sm_Configs (s_Model v)) (sm_Configs model) in
        (mkService (mkServiceM (sm_Id model) (sm_Name model) (sm_EncryptionRequired model)
                      (sortStrings (sm_Configs model))) (s_servicePolicies v) index, only1, only2)
      end in
    let m := referenceService false (sm_Id model) configsToRemove m in
    let m := referenceService true (sm_Id model) configsToAdd m in
    let m := upd_Services (<[sm_Id model := updatedService]> (r_Services m)) m in
    Some (foldl (λ m p, NotifyServicePolicyServiceChange p index m) m
            (elements (s_servicePolicies updatedService)))
  end.

Definition notifyConfig (index : Z) (v : Config) (m : RouterDataModel) : RouterDataModel :=
  notifyAll (elements (c_identities v))
    (foldl (λ m s, NotifyServiceOfConfigChange s index m) m (elements (c_services v))).

Definition HandleConfigTypeEvent (index : Z) (a : Action) (model : DataState_ConfigType)
    (m : RouterDataModel) : option RouterDataModel :=
  Some match a with
  | Delete => upd_ConfigTypes (delete (ctm_Id model) (r_ConfigTypes m)) m
  | _ =>
    let m := upd_ConfigTypes (<[ctm_Id model := mkConfigType model index]> (r_ConfigTypes m)) m in
    foldl (λ m config, if bool_decide (cm_TypeId (c_Model config) = ctm_Id model)
                       then notifyConfig index config m else m)
      m (map_to_list (r_Configs m)).*2
  end.

(** The references of an identity to a config that is removed. *)
Definition pruneConfig (configId : string) (i : DataState_Identity) : DataState_Identity :=
  mkIdentityM (im_Id i) (im_Name i) (im_DefaultHostingPrecedence i) (im_DefaultHostingCost i)
    (im_ServiceHostingPrecedences i) (im_ServiceHostingCosts i) (im_AppDataJson i)
    (filter (λ kv, kv.2 ≠ ∅) ((filter (λ kv, kv.2 ≠ configId)) <$> im_ServiceConfigs i))
    (im_Disabled i).
Definition pruneIdentity (configId : string) (i : Identity) : Identity :=
  mkIdentity (pruneConfig configId (id_Model i)) (id_ServicePolicies i) (id_ServiceAccess i)
    (id_PostureChecks i) (id_identityIndex i) (id_serviceAccessTrackingEnabled i).

Definition HandleConfigEvent (index : Z) (a : Action) (model : DataState_Config)
    (m : RouterDataModel) : option RouterDataModel :=
  match a with
  | Delete =>
    match r_Configs m !! cm_Id model with
    | None => Some m
    | Some v =>
      let m := foldl (λ m s, NotifyServiceOfConfigChange s index m) m (elements (c_services v)) in
      m ← foldM (λ i m,
            m ← withLockedIdentity i (λ identity, Some (pruneIdentity (cm_Id (c_Model v)) identity)) m;
            Some (NotifyIdentityChange i m)) (elements (c_identities v)) m;
      Some (upd_Configs (delete (cm_Id model) (r_Configs m)) m)
    end
  | _ =>
    let old := r_Configs m !! cm_Id model in
    let result := mkConfig model (from_option c_services ∅ old) (from_option c_identities ∅ old) index in
    let changed := match old with Some v => negb (bool_decide (model = c_Model v)) | None => true end in
    let m := if changed then notifyConfig index result m else m in
    Some (upd_Configs (<[cm_Id model := result]> (r_Configs m)) m)
  end.

(** A changed policy type moves the identities from the old to the new policy.
    The posture check index of an updated policy starts at 0 again. *)
Definition applyUpdateServicePolicyEvent (index : Z) (model : DataState_ServicePolicy)
    (m : RouterDataModel) : option RouterDataModel :=
  match r_ServicePolicies m !! pm_Id model with
  | None =>
    Some (upd_ServicePolicies (<[pm_Id model := mkServicePolicy model ∅ ∅ ∅ index 0]>
            (r_ServicePolicies m)) m)
  | Some v =>
    let updated := mkServicePolicy model (po_Services v) (po_PostureChecks v) (po_Identities v)
                     index 0 in
    m ← (if bool_decide (pm_PolicyType (po_Model v) = pm_PolicyType model) then Some m
         else withLockedIdentities (elements (po_Identities v))
                (λ i, Some (addedToPolicy updated index (removedFromPolicy v index i))) m);
    Some (upd_ServicePolicies (<[pm_Id model := updated]> (r_ServicePolicies m)) m)
  end.

Definition applyDeleteServicePolicyEvent (index : Z) (model : DataState_ServicePolicy)
    (m : RouterDataModel) : option RouterDataModel :=
  match r_ServicePolicies m !! pm_Id model with
  | None => Some m
  | Some v =>
    m ← foldM (λ i m,
          m ← withLockedIdentity i (λ identity, Some (removedFromPolicy v index identity)) m;
          Some (queueSyncCheck i m)) (elements (po_Identities v)) m;
    Some (upd_ServicePolicies (delete (pm_Id model) (r_ServicePolicies m)) m)
  end.

Definition HandleServicePolicyEvent (index : Z) (a : Action) (model : DataState_ServicePolicy)
    : RouterDataModel → option RouterDataModel :=
  match a with
  | Create | Update => applyUpdateServicePolicyEvent index model
  | Delete => applyDeleteServicePolicyEvent index model
  end.

Definition HandlePostureCheckEvent (index : Z) (a : Action) (model : DataState_PostureCheck)
    (m : RouterDataModel) : option RouterDataModel :=
  match a with
  | Delete =>
    let policyIds :=
      match r_PostureChecks m !! pcm_Id model with
      | None => []
      | Some v =>
        policiesWith po_PostureChecks (pcm_Id model) m (elements (pc_servicePolicies v))
      end in
    m ← cleanup index policyIds RelatedPostureCheck (pcm_Id model) m;
    Some (upd_PostureChecks (delete (pcm_Id model) (r_PostureChecks m)) m)
  | _ =>
    let postureCheck := mkPostureCheck model
      (from_option pc_servicePolicies ∅ (r_PostureChecks m !! pcm_Id model)) index in
    let m := upd_PostureChecks (<[pcm_Id model := postureCheck]> (r_PostureChecks m)) m in
    Some (foldl (λ m p, NotifyServicePolicyPostureChecksChange p index m) m
            (elements (pc_servicePolicies postureCheck)))
  end.

Definition HandlePublicKeyEvent (a : Action) (k : DataState_PublicKey) (m : RouterDataModel)
    : RouterDataModel :=
  upd_PublicKeys (putOrDelete a (pk_Kid k) k (r_PublicKeys m)) m.
Definition HandleRevocationEvent (a : Action) (r : DataState_Revocation) (m : RouterDataModel)
    : RouterDataModel :=
  upd_Revocations (putOrDelete a (rev_Id r) r (r_Revocations m)) m.

Definition Handle (index : Z) (ev : Event) (m : RouterDataModel) : option RouterDataModel :=
  match ev with
  | EvConfigType a ct => HandleConfigTypeEvent index a ct m
  | EvConfig a c => HandleConfigEvent index a c m
  | EvIdentity a i => HandleIdentityEvent index a i m
  | EvService a s => HandleServiceEvent index a s m
  | EvServicePolicy a p => HandleServicePolicyEvent index a p m
  | EvPostureCheck a c => HandlePostureCheckEvent index a c m
  | EvPublicKey a k => Some (HandlePublicKeyEvent a k m)
  | EvRevocation a r => Some (HandleRevocationEvent a r m)
  | EvServicePolicyChange c => HandleServicePolicyChange index c m
  end.

(** [ApplyChangeSet] with [Store]: a change set that is not newer than the
    model is refused, a synthetic one is applied without an index. *)
Definition ApplyChangeSet (change : ChangeSet Event) (m : RouterDataModel)
    : option RouterDataModel :=
  if cs_IsSynthetic change then foldM (Handle (cs_Index change)) (cs_Changes change) m
  else if (r_index m >? 0) && (r_index m >=? cs_Index change) then Some m
  else foldM (Handle (cs_Index change)) (cs_Changes change) (upd_index (cs_Index change) m).

Definition NewReceiverRouterDataModelFromDataState (ds : DataState) : option RouterDataModel :=
  m ← foldM (Handle (ds_EndIndex ds)) (ds_Events ds)
        (mkRdm ∅ ∅ ∅ ∅ ∅ ∅ ∅ ∅ (ds_TerminatorIds ds) ∅ ∅ [] false (ds_TimelineId ds) 0);
  Some (upd_index (ds_EndIndex ds) m).

(** ** Service lists of an identity *)

Record IdentityConfig := mkIdentityConfig { ic_TypeId : string; ic_TypeName : string; ic_DataJson : string }.
Record IdentityService := mkIdentityService {
  is_Service : Service;
  is_Configs : gmap string IdentityConfig;
  is_DialAllowed : bool;
  is_BindAllowed : bool;
  is_dialPoliciesIndex : Z;
  is_bindPoliciesIndex : Z;
}.

(** [buildServiceAccessList]: the counts, from the policies of an identity. *)
Definition countPolicy (policy : ServicePolicy) (services : gmap string serviceAccess)
    : gmap string serviceAccess :=
  foldl (λ acc serviceId,
      <[serviceId := updateServicePolicies policy
          (Z.max (po_postureChecksIndex policy) (po_servicesIndex policy)) true
          (default noAccess (acc !! serviceId))]> acc)
    services (elements (po_Services policy)).
Definition buildServiceAccessList (identity : Identity) (m : RouterDataModel)
    : gmap string serviceAccess :=
  foldl (λ services p,
      match r_ServicePolicies m !! p with
      | Some policy => countPolicy policy services
      | None => services
      end) ∅ (elements (id_ServicePolicies identity)).

Definition set_tracking (b : bool) (access : gmap string serviceAccess) (i : Identity) : Identity :=
  mkIdentity (id_Model i) (id_ServicePolicies i) access (id_PostureChecks i) (id_identityIndex i) b.

Definition EnableServiceAccessTracking (identityId : string) (m : RouterDataModel)
    : option RouterDataModel :=
  withLockedIdentity identityId (λ identity, Some
    (if id_serviceAccessTrackingEnabled identity then identity
     else set_tracking true (buildServiceAccessList identity m) identity)) m.
Definition DisableServiceAccessTracking (identityId : string) (m : RouterDataModel)
    : option RouterDataModel :=
  withLockedIdentity identityId (λ identity, Some
    (if id_serviceAccessTrackingEnabled identity then set_tracking false ∅ identity
     else identity)) m.

Definition loadIdentityConfig (configId : string) (m : RouterDataModel) : option IdentityConfig :=
  config ← r_Configs m !! configId;
  configType ← r_ConfigTypes m !! cm_TypeId (c_Model config);
  Some (mkIdentityConfig (ctm_Id (ct_Model configType)) (ctm_Name (ct_Model configType))
          (cm_DataJson (c_Model config))).
Definition loadConfigs (m : RouterDataModel) (configIds : list string)
    (acc : gmap string IdentityConfig) : gmap string IdentityConfig :=
  foldl (λ acc configId,
      match loadIdentityConfig configId m with
      | Some c => <[ic_TypeName c := c]> acc
      | None => acc
      end) acc configIds.
(** The configs of the service, then those the identity overrides. *)
Definition loadServiceConfigs (identity : Identity) (svc : Service) (m : RouterDataModel)
    : gmap string IdentityConfig :=
  let result := loadConfigs m (sm_Configs (s_Model svc)) ∅ in
  match im_ServiceConfigs (id_Model identity) !! sm_Id (s_Model svc) with
  | Some serviceConfigs => loadConfigs m (map_to_list serviceConfigs).*2 result
  | None => result
  end.

(** The list from the denormalised data; [subIdentity] is the identity of the
    subscription, the one whose configs are used. *)
Definition buildServiceListUsingDenormalizedData (identityId : string) (subIdentity : Identity)
    (m : RouterDataModel) : gmap string IdentityService * gmap string PostureCheck :=
  match r_Identities m !! identityId with
  | None => (∅, ∅)
  | Some identity =>
    (map_imap (λ serviceId access,
       service ← r_Services m !! serviceId;
       Some (mkIdentityService service (loadServiceConfigs subIdentity service m)
               (IsDialAllowed access) (IsBindAllowed access)
               (dialPoliciesIndex access) (bindPoliciesIndex access))) (id_ServiceAccess identity),
     map_imap (λ postureCheckId _, r_PostureChecks m !! postureCheckId) (id_PostureChecks identity))
  end.

(** One service of one policy in [buildServiceList]. *)
Definition addPolicyService (identity : Identity) (m : RouterDataModel) (policy : ServicePolicy)
    (services : gmap string IdentityService) (serviceId : string) : gmap string IdentityService :=
  match r_Services m !! serviceId with
  | None => services
  | Some service =>
    let isv := match services !! serviceId with
              | Some isv => isv
              | None => mkIdentityService service (loadServiceConfigs identity service m)
                          false false 0 0
              end in
    <[serviceId :=
      if IsDial policy then
        mkIdentityService (is_Service isv) (is_Configs isv) true (is_BindAllowed isv)
          (if po_postureChecksIndex policy >? is_dialPoliciesIndex isv
           then po_postureChecksIndex policy else is_dialPoliciesIndex isv)
          (is_bindPoliciesIndex isv)
      else if IsBind policy then
        mkIdentityService (is_Service isv) (is_Configs isv) (is_DialAllowed isv) true
          (is_dialPoliciesIndex isv)
          (if po_postureChecksIndex policy >? is_bindPoliciesIndex isv
           then po_postureChecksIndex policy else is_bindPoliciesIndex isv)
      else isv]> services
  end.

Definition loadServicePostureChecks (m : RouterDataModel) (policy : ServicePolicy)
    (checks : gmap string PostureCheck) : gmap string PostureCheck :=
  if bool_decide (po_Services policy = ∅) then checks
  else foldl (λ checks postureCheckId,
         match checks !! postureCheckId, r_PostureChecks m !! postureCheckId with
         | None, Some check => <[postureCheckId := check]> checks
         | _, _ => checks
         end) checks (elements (po_PostureChecks policy)).

Definition buildServiceList (identity : Identity) (m : RouterDataModel)
    : gmap string IdentityService * gmap string PostureCheck :=
  foldl (λ acc policyId,
      match r_ServicePolicies m !! policyId with
      | None => acc
      | Some policy =>
        (foldl (addPolicyService identity m policy) acc.1 (elements (po_Services policy)),
         loadServicePostureChecks m policy acc.2)
      end) (∅, ∅) (elements (id_ServicePolicies identity)).

(** ** Access decisions *)

Record AccessPolicies := mkAccessPolicies {
  ap_Identity : Identity;
  ap_Service : Service;
  ap_Policies : list ServicePolicy;
  ap_PostureChecks : gmap string DataState_PostureCheck;
}.

Definition addPolicyCheck (m : RouterDataModel) (postureCheckId : string)
    (checks : gmap string DataState_PostureCheck) : option (gmap string DataState_PostureCheck) :=
  match checks !! postureCheckId with
  | Some _ => Some checks
  | None =>
    postureCheck ← r_PostureChecks m !! postureCheckId;
    Some (<[postureCheckId := pc_Model postureCheck]> checks)
  end.

(** The outer [option] is the panic, the [result] what is returned. *)
Definition GetServiceAccessPolicies (identityId serviceId : string) (policyType : PolicyType)
    (m : RouterDataModel) : option (result AccessPolicies string) :=
  match r_Identities m !! identityId, r_Services m !! serviceId with
  | None, _ => Some (Err "identity not found by id")
  | _, None => Some (Err "service not found by id")
  | Some identity, Some service =>
    let policies :=
      omap (λ p, policy ← r_ServicePolicies m !! p;
                 if bool_decide (pm_PolicyType (po_Model policy) = policyType)
                 then Some policy else None)
        (elements (id_ServicePolicies identity)) in
    checks ← foldM (λ policy, foldM (addPolicyCheck m) (elements (po_PostureChecks policy)))
               policies ∅;
    Some (Ok (mkAccessPolicies identity service policies checks))
  end.

(** ** The full state *)

Definition policyIdentities (ids : list Identity) : gmap string (list string) :=
  foldl (λ acc v,
    foldl (λ acc policyId, <[policyId := default [] (acc !! policyId) ++ [im_Id (id_Model v)]]> acc)
      acc (elements (id_ServicePolicies v))) ∅ ids.

Definition policyEvents (pids : gmap string (list string)) (v : ServicePolicy) : list Event :=
  [EvServicePolicy Create (po_Model v);
   EvServicePolicyChange (mkPolicyChange (pm_Id (po_Model v)) (elements (po_Services v))
     RelatedService true);
   EvServicePolicyChange (mkPolicyChange (pm_Id (po_Model v)) (elements (po_PostureChecks v))
     RelatedPostureCheck true)] ++
  match pids !! pm_Id (po_Model v) with
  | Some ids => [EvServicePolicyChange (mkPolicyChange (pm_Id (po_Model v)) ids RelatedIdentity true)]
  | None => []
  end.

Definition getDataState (m : RouterDataModel) : DataState :=
  let ids := (map_to_list (r_Identities m)).*2 in
  mkDataState
    (((λ v, EvConfigType Create (ct_Model v)) <$> (map_to_list (r_ConfigTypes m)).*2) ++
     ((λ v, EvConfig Create (c_Model v)) <$> (map_to_list (r_Configs m)).*2) ++
     ((λ v, EvIdentity Create (id_Model v)) <$> ids) ++
     ((λ v, EvService Create (s_Model v)) <$> (map_to_list (r_Services m)).*2) ++
     ((λ v, EvPostureCheck Create (pc_Model v)) <$> (map_to_list (r_PostureChecks m)).*2) ++
     concat (policyEvents (policyIdentities ids) <$> (map_to_list (r_ServicePolicies m)).*2) ++
     (EvPublicKey Create <$> (map_to_list (r_PublicKeys m)).*2))
    (r_index m) (r_timelineId m)
    (filter (λ kv, is_Some (r_Services m !! kv.1)) (r_terminatorIdCache m)).
End Receiver.
