(* ===== verification/RouterCopy.v ===== *)
(** * The router's copy implements the data model, and its denormalised data are exact

    [router_rep] says what a [RouterDataModel] represents and that its counts
    are those of the policies it represents. Every handler implements its event
    and never dereferences a nil pointer, so the router's copy is an instance of
    [DataModelCopy] as the controller's is. *)

From stdpp Require Import base gmap list strings fin_maps fin_sets sorting.
From Stdlib Require Import ZArith Lia.
From S2P Require Import Prelude EventCache DataModel DataModelSpec RouterDataModel.

Import Sender(addOrRemove, putOrDelete).
Import Receiver.

Open Scope Z_scope.

(** ** Exact counts *)

(** A policy grants an identity a service; a policy asks a posture check of an
    identity, which it does only if it grants some service. *)
Definition grants (t : PolicyType) (i s : string) (P : AbsPolicy) : bool :=
  bool_decide (pm_PolicyType (ap_Model P) = t) && bool_decide (i ∈ ap_Identities P) &&
  bool_decide (s ∈ ap_Services P).
Definition asks (i c : string) (P : AbsPolicy) : bool :=
  bool_decide (i ∈ ap_Identities P) && bool_decide (ap_Services P ≠ ∅) &&
  bool_decide (c ∈ ap_Checks P).

(** An access entry counts [d] dial and [b] bind policies; there is one exactly
    if some policy counts. *)
Definition acc_ok (d b : nat) (o : option serviceAccess) : Prop :=
  match o with
  | Some a => DialPoliciesCount a = Z.of_nat d ∧ BindPoliciesCount a = Z.of_nat b ∧ (0 < d + b)%nat
  | None => d = 0%nat ∧ b = 0%nat
  end.
Definition use_ok (n : nat) (o : option Z) : Prop :=
  match o with
  | Some z => z = Z.of_nat n ∧ (0 < n)%nat
  | None => n = 0%nat
  end.

Abbreviation policies := (gmap string AbsPolicy).

Definition access_counts (pols : policies) (i : string) (m : gmap string serviceAccess) : Prop :=
  ∀ s, acc_ok (count_if (grants DialPolicy i s) pols) (count_if (grants BindPolicy i s) pols) (m !! s).
Definition check_counts (pols : policies) (i : string) (m : gmap string Z) : Prop :=
  ∀ c, use_ok (count_if (asks i c) pols) (m !! c).
Definition membership (pols : policies) (i : string) (X : gset string) : Prop :=
  X ⊆ dom pols ∧ ∀ p P, pols !! p = Some P → (p ∈ X ↔ i ∈ ap_Identities P).

(** The denormalised data of an identity are those of the policies. *)
Record ident_ok (pols : policies) (i : string) (v : Identity) : Prop := mkIdentOk {
  io_member : membership pols i (id_ServicePolicies v);
  io_access : id_serviceAccessTrackingEnabled v = true → access_counts pols i (id_ServiceAccess v);
  io_checks : check_counts pols i (id_PostureChecks v);
}.

(** *** Single updates *)

Lemma count_if_le_size {V} (f : V → bool) (m : gmap string V) : (count_if f m ≤ size m)%nat.
Proof. unfold count_if. apply map_subseteq_size, map_filter_subseteq. Qed.

Definition bumpAccess (policy : ServicePolicy) (index : Z) (add : bool) (o : option serviceAccess)
    : option serviceAccess :=
  let current := updateServicePolicies policy index add (default noAccess o) in
  if HasAccess current then Some current else None.

Lemma updateServiceCount_alter policy s index add m :
  updateServiceCount policy s index add m = partial_alter (bumpAccess policy index add) s m.
Proof.
  unfold updateServiceCount. set (c := updateServicePolicies _ _ _ _).
  assert (bumpAccess policy index add (m !! s) = if HasAccess c then Some c else None) as Hb by done.
  apply map_eq. intros s'. destruct (decide (s' = s)) as [->|Hne].
  - rewrite lookup_partial_alter_eq, Hb. destruct (HasAccess c).
    + by rewrite lookup_insert_eq.
    + by rewrite lookup_delete_eq.
  - rewrite lookup_partial_alter_ne by done. destruct (HasAccess c).
    + by rewrite lookup_insert_ne.
    + by rewrite lookup_delete_ne.
Qed.

Definition delta (add : bool) (k : bool) (n n' : nat) : Prop :=
  if add then n' = (n + Nat.b2n k)%nat else n = (n' + Nat.b2n k)%nat.

Lemma bumpAccess_ok policy index add d b d' b' o :
  acc_ok d b o → delta add (IsDial policy) d d' → delta add (IsBind policy) b b' →
  Z.of_nat d' < 2 ^ 31 → Z.of_nat b' < 2 ^ 31 → acc_ok d' b' (bumpAccess policy index add o).
Proof.
  intros Ho Hd Hb Hlt Hlt'. unfold bumpAccess.
  assert (IsDial policy && IsBind policy = false) as Hexcl.
  { unfold IsDial, IsBind. do 2 case_bool_decide; try done; congruence. }
  assert (DialPoliciesCount (default noAccess o) = Z.of_nat d ∧
          BindPoliciesCount (default noAccess o) = Z.of_nat b) as [HD HB].
  { destruct o as [a|]; simpl in *; [tauto|]. destruct Ho as [-> ->]. done. }
  set (c := updateServicePolicies _ _ _ _).
  assert (DialPoliciesCount c = Z.of_nat d' ∧ BindPoliciesCount c = Z.of_nat b') as [HD' HB'].
  { unfold c, updateServicePolicies, delta in *.
    destruct (IsDial policy), (IsBind policy), add; simpl in *; try done; subst;
      rewrite ?HD, ?HB; (split; [|try lia]); try lia; rewrite int32_small; unfold in_int32; lia. }
  unfold HasAccess, IsDialAllowed, IsBindAllowed. rewrite HD', HB'.
  destruct (Z.of_nat d' >? 0) eqn:E1, (Z.of_nat b' >? 0) eqn:E2; simpl; bool_prop; try lia;
    try (split_and!; done || lia).
Qed.

Lemma increment_ok n (o : option Z) :
  use_ok n o → Z.of_nat (S n) < 2 ^ 31 → use_ok (S n) (Some (int32 (default 0 o + 1))).
Proof.
  intros Ho Hlt. assert (default 0 o = Z.of_nat n) as ->.
  { destruct o; simpl in *; [tauto|by subst]. }
  simpl. rewrite int32_small by (unfold in_int32; lia). lia.
Qed.

Definition dropUse (o : option Z) : option Z :=
  z ← o; let z := int32 (z - 1) in if z <? 1 then None else Some z.
Lemma dropUse_ok n o : use_ok (S n) o → Z.of_nat (S n) < 2 ^ 31 → use_ok n (dropUse o).
Proof.
  intros Ho Hlt. destruct o as [z|]; simpl in *; [|done]. destruct Ho as [-> _].
  rewrite int32_small by (unfold in_int32; lia).
  destruct (Z.of_nat (S n) - 1 <? 1) eqn:E; bool_prop; simpl; lia.
Qed.

Lemma decrementUseCount_alter m c : decrementUseCount m c = partial_alter dropUse c m.
Proof.
  unfold decrementUseCount. apply map_eq. intros c'. destruct (decide (c' = c)) as [->|Hne].
  - rewrite lookup_partial_alter_eq. unfold dropUse. destruct (m !! c) as [z|] eqn:E; simpl; [|done].
    destruct (_ <? 1); by rewrite ?lookup_delete_eq, ?lookup_insert_eq.
  - rewrite lookup_partial_alter_ne by done. destruct (m !! c) as [z|] eqn:E; simpl; [|done].
    destruct (_ <? 1); by rewrite ?lookup_delete_ne, ?lookup_insert_ne by done.
Qed.
Lemma incrementUseCount_alter m c :
  incrementUseCount m c = partial_alter (λ o, Some (int32 (default 0 o + 1))) c m.
Proof.
  unfold incrementUseCount. apply map_eq. intros c'. destruct (decide (c' = c)) as [->|Hne].
  - by rewrite lookup_partial_alter_eq, lookup_insert_eq.
  - by rewrite lookup_partial_alter_ne, lookup_insert_ne by done.
Qed.

Lemma foldl_ext' {A B} (f g : A → B → A) l a : (∀ a x, f a x = g a x) → foldl f a l = foldl g a l.
Proof. intros Hfg. revert a. induction l as [|x l IH]; intros a; simpl; [done|]. by rewrite Hfg, IH. Qed.

(** *** One policy changes *)

Section Step.
Context (pols : policies) (p i : string) (P P' : AbsPolicy).
Context (HP : pols !! p = Some P) (Hsize : Z.of_nat (size pols) < 2 ^ 31).
Abbreviation pols' := (<[p := P']> pols).

Lemma count_step (f : AbsPolicy → bool) add k :
  delta add k (Nat.b2n (f P)) (Nat.b2n (f P')) → delta add k (count_if f pols) (count_if f pols').
Proof.
  pose proof (count_if_insert f pols p P' P HP) as Hc. unfold delta. intros Hd. destruct add; lia.
Qed.
Lemma count_bound (f : AbsPolicy → bool) : Z.of_nat (count_if f pols') < 2 ^ 31.
Proof.
  pose proof (count_if_le_size f pols') as Hle. rewrite map_size_insert, HP in Hle. simpl in Hle. lia.
Qed.
Lemma count_bound_old (f : AbsPolicy → bool) : Z.of_nat (count_if f pols) < 2 ^ 31.
Proof. pose proof (count_if_le_size f pols). lia. Qed.

(** The access entries of some services, changed as the grants of the policy. *)
Lemma access_step pol idx add l m :
  NoDup l →
  (∀ s, delta add (IsDial pol && bool_decide (s ∈ l)) (Nat.b2n (grants DialPolicy i s P))
          (Nat.b2n (grants DialPolicy i s P'))) →
  (∀ s, delta add (IsBind pol && bool_decide (s ∈ l)) (Nat.b2n (grants BindPolicy i s P))
          (Nat.b2n (grants BindPolicy i s P'))) →
  access_counts pols i m →
  access_counts pols' i (foldl (λ m s, updateServiceCount pol s idx add m) m l).
Proof.
  intros Hnd HD HB Hm s. specialize (Hm s).
  erewrite foldl_ext' by (intros; apply updateServiceCount_alter).
  rewrite foldl_alter_lookup by done.
  specialize (HD s). specialize (HB s). apply count_step in HD. apply count_step in HB.
  destruct (decide (s ∈ l)) as [Hin|Hni].
  - rewrite bool_decide_true in HD by done. rewrite bool_decide_true in HB by done.
    rewrite andb_true_r in HD, HB.
    by eapply bumpAccess_ok; eauto using count_bound.
  - rewrite bool_decide_false in HD by done. rewrite bool_decide_false in HB by done.
    rewrite andb_false_r in HD, HB. unfold delta in HD, HB. simpl in HD, HB.
    assert (count_if (grants DialPolicy i s) pols' = count_if (grants DialPolicy i s) pols) as ->
      by (destruct add; lia).
    assert (count_if (grants BindPolicy i s) pols' = count_if (grants BindPolicy i s) pols) as ->
      by (destruct add; lia). done.
Qed.

(** The use counts of some posture checks, changed as what the policy asks. *)
Lemma check_step add l m :
  NoDup l →
  (∀ c, delta add (bool_decide (c ∈ l)) (Nat.b2n (asks i c P)) (Nat.b2n (asks i c P'))) →
  check_counts pols i m →
  check_counts pols' i (foldl (if add then incrementUseCount else decrementUseCount) m l).
Proof.
  intros Hnd Hc Hm c. specialize (Hm c). specialize (Hc c). apply count_step in Hc.
  pose proof (count_bound (asks i c)). pose proof (count_bound_old (asks i c)).
  unfold delta in Hc. destruct add.
  - erewrite foldl_ext' by (intros; apply incrementUseCount_alter).
    rewrite foldl_alter_lookup by done. destruct (decide (c ∈ l)) as [Hin|Hni].
    + rewrite bool_decide_true in Hc by done. simpl in Hc. rewrite Nat.add_1_r in Hc. rewrite Hc.
      apply increment_ok; [done|lia].
    + rewrite bool_decide_false in Hc by done. simpl in Hc. by rewrite Hc, Nat.add_0_r.
  - erewrite foldl_ext' by (intros; apply decrementUseCount_alter).
    rewrite foldl_alter_lookup by done. destruct (decide (c ∈ l)) as [Hin|Hni].
    + rewrite bool_decide_true in Hc by done. simpl in Hc. rewrite Nat.add_1_r in Hc.
      rewrite Hc in Hm. apply dropUse_ok; [done|lia].
    + rewrite bool_decide_false in Hc by done. simpl in Hc. rewrite Nat.add_0_r in Hc.
      by rewrite <- Hc.
Qed.

Lemma member_step X X' :
  X' ∖ {[p]} = X ∖ {[p]} → (p ∈ X' ↔ i ∈ ap_Identities P') →
  membership pols i X → membership pols' i X'.
Proof.
  intros HX Hp [Hsub Hmem].
  assert (∀ q, q ≠ p → (q ∈ X' ↔ q ∈ X)) as Hne.
  { intros q Hq. trans (q ∈ X' ∖ {[p]}); [|rewrite HX];
      rewrite elem_of_difference, elem_of_singleton; tauto. }
  split.
  - intros q Hq. rewrite dom_insert_L. apply elem_of_union. rewrite elem_of_singleton.
    destruct (decide (q = p)); [by left|right]. by apply Hsub, Hne.
  - intros q Q HQ. apply lookup_insert_Some in HQ as [[<- <-]|[? HQ]]; [done|].
    rewrite Hne by done. by apply Hmem.
Qed.

(** An identity whose part of the policy does not change. *)
Lemma ident_ok_same v :
  (∀ t s, grants t i s P = grants t i s P') → (∀ c, asks i c P = asks i c P') →
  (i ∈ ap_Identities P ↔ i ∈ ap_Identities P') → ident_ok pols i v → ident_ok pols' i v.
Proof.
  intros Hg Ha Hi [Hmem Hacc Hchk]. split.
  - apply (member_step (id_ServicePolicies v)); [done| |done].
    destruct Hmem as [_ Hmem]. by rewrite (Hmem p P HP).
  - intros Htr. apply (access_step (mkServicePolicy (ap_Model P) ∅ ∅ ∅ 0 0) 0 true [] _);
      [apply NoDup_nil_2| | |by apply Hacc]; intros s; rewrite bool_decide_false by set_solver;
      rewrite andb_false_r; simpl; rewrite Hg; unfold delta; simpl; lia.
  - apply (check_step true []); [apply NoDup_nil_2| |done].
    intros c. rewrite bool_decide_false by set_solver. rewrite Ha. unfold delta. simpl. lia.
Qed.
End Step.

(** *** Operations of an identity *)

(** A policy of the router with the model, services and checks of an abstract
    one. *)
Record pol_like (pol : ServicePolicy) (P : AbsPolicy) : Prop := mkPolLike {
  pl_model : po_Model pol = ap_Model P;
  pl_services : po_Services pol = ap_Services P;
  pl_checks : po_PostureChecks pol = ap_Checks P;
}.

(** Parts of an identity that the operations leave alone. *)
Definition same_base (v v' : Identity) : Prop :=
  id_Model v' = id_Model v ∧ id_identityIndex v' = id_identityIndex v ∧
  id_serviceAccessTrackingEnabled v' = id_serviceAccessTrackingEnabled v.
#[global] Instance same_base_preorder : PreOrder same_base.
Proof.
  split; [intros v; by split_and!|]. intros v1 v2 v3 (? & ? & ?) (? & ? & ?). split_and!; congruence.
Qed.

Lemma grants_eq t i s P :
  grants t i s P = bool_decide (pm_PolicyType (ap_Model P) = t) && bool_decide (i ∈ ap_Identities P) &&
    bool_decide (s ∈ ap_Services P).
Proof. done. Qed.
Lemma bool_elem_elements (x : string) (X : gset string) :
  bool_decide (x ∈ elements X) = bool_decide (x ∈ X).
Proof. apply bool_decide_ext. apply elem_of_elements. Qed.

Section Ops.
Context (pols : policies) (p i : string) (P P' : AbsPolicy) (pol : ServicePolicy) (idx : Z).
Context (HP : pols !! p = Some P) (Hsize : Z.of_nat (size pols) < 2 ^ 31).
Context (Hid : pm_Id (po_Model pol) = p).

Abbreviation pols' := (<[p := P']> pols).

Lemma updateServiceCounts_base l add v : same_base v (updateServiceCounts pol l idx add v).
Proof. unfold updateServiceCounts. by destruct (id_serviceAccessTrackingEnabled v). Qed.

Lemma addedToPolicy_base v : same_base v (addedToPolicy pol idx v).
Proof.
  unfold addedToPolicy, updateServiceCounts. case_bool_decide; [done|].
  simpl. destruct (id_serviceAccessTrackingEnabled v) eqn:E; case_bool_decide; by split_and!.
Qed.
Lemma removedFromPolicy_base v : same_base v (removedFromPolicy pol idx v).
Proof.
  unfold removedFromPolicy, updateServiceCounts. case_bool_decide; [|done].
  simpl. destruct (id_serviceAccessTrackingEnabled v) eqn:E; case_bool_decide; by split_and!.
Qed.

(** The identity gets into the policy, or leaves it. [Q] is the side with the
    identity. *)
Lemma ident_toggle (add : bool) (v : Identity) (X' : gset string) :
  let Q := if add then P' else P in
  pol_like pol Q → i ∈ ap_Identities Q → i ∉ ap_Identities (if add then P else P') →
  X' ∖ {[p]} = id_ServicePolicies v ∖ {[p]} → (p ∈ X' ↔ add = true) →
  ident_ok pols i v →
  ident_ok pols' i
    (let v := updateServiceCounts pol (elements (po_Services pol)) idx add (set_ServicePolicies X' v) in
     if bool_decide (po_Services pol = ∅) then v
     else set_PostureChecks (foldl (if add then incrementUseCount else decrementUseCount)
            (id_PostureChecks v) (elements (po_PostureChecks pol))) v).
Proof.
  intros Q [Hm Hs Hc] Hin Hni HX Hp [Hmem Hacc Hchk]. subst Q.
  assert (∀ t s, grants t i s (if add then P else P') = false) as Hg0.
  { intros t s. unfold grants. rewrite (bool_decide_false (i ∈ _)) by done.
    by rewrite andb_false_r. }
  assert (∀ c, asks i c (if add then P else P') = false) as Ha0.
  { intros c. unfold asks. by rewrite (bool_decide_false (i ∈ _)). }
  assert (∀ t s, grants t i s (if add then P' else P) =
    bool_decide (pm_PolicyType (po_Model pol) = t) && bool_decide (s ∈ elements (po_Services pol))) as Hg1.
  { intros t s. unfold grants. rewrite (bool_decide_true (i ∈ _)) by done.
    by rewrite andb_true_r, bool_elem_elements, Hm, Hs. }
  assert (∀ t s k, k = grants t i s (if add then P' else P) →
    delta add k (Nat.b2n (grants t i s P)) (Nat.b2n (grants t i s P'))) as Hd.
  { intros t s k ->. specialize (Hg0 t s). unfold delta. destruct add; rewrite Hg0; simpl; lia. }
  assert (membership pols' i X') as Hmem'.
  { eapply member_step; [done| |exact Hmem]. rewrite Hp. destruct add; naive_solver. }
  assert (access_counts pols i (id_ServiceAccess v) → access_counts pols' i
    (foldl (λ m s, updateServiceCount pol s idx add m) (id_ServiceAccess v) (elements (po_Services pol))))
    as Hacc'.
  { intros Ha. eapply access_step; [done|done|apply NoDup_elements|..|done]; intros s;
      apply Hd; by rewrite Hg1. }
  assert (check_counts pols' i
    (if bool_decide (po_Services pol = ∅) then id_PostureChecks v
     else foldl (if add then incrementUseCount else decrementUseCount) (id_PostureChecks v)
            (elements (po_PostureChecks pol)))) as Hchk'.
  { assert (∀ c, asks i c (if add then P' else P) =
      bool_decide (po_Services pol ≠ ∅) && bool_decide (c ∈ elements (po_PostureChecks pol))) as Ha1.
    { intros c. unfold asks. rewrite (bool_decide_true (i ∈ _)) by done. simpl.
      by rewrite bool_elem_elements, Hs, Hc. }
    assert (∀ c k, k = asks i c (if add then P' else P) →
      delta add k (Nat.b2n (asks i c P)) (Nat.b2n (asks i c P'))) as Hd'.
    { intros c k ->. specialize (Ha0 c). unfold delta. destruct add; rewrite Ha0; simpl; lia. }
    destruct (decide (po_Services pol = ∅)) as [He|He];
      [rewrite (bool_decide_true (po_Services pol = ∅)) by done
      |rewrite (bool_decide_false (po_Services pol = ∅)) by done].
    - apply (check_step pols p i P P' HP Hsize true [] (id_PostureChecks v)); [apply NoDup_nil_2| |done].
      intros c. rewrite bool_decide_false by apply not_elem_of_nil.
      specialize (Hd' c false). rewrite Ha1, (bool_decide_false (_ ≠ _)) in Hd' by naive_solver.
      specialize (Hd' eq_refl). unfold delta in *. destruct add; simpl in *; lia.
    - eapply check_step; [done|done|apply NoDup_elements| |done]. intros c. apply Hd'.
      rewrite Ha1. by rewrite (bool_decide_true (_ ≠ _)). }
  unfold updateServiceCounts. simpl.
  destruct (id_serviceAccessTrackingEnabled v) eqn:Htr; case_bool_decide; split; simpl in *; auto;
    congruence.
Qed.

Lemma ident_added v :
  pol_like pol P' → i ∈ ap_Identities P' →
  (i ∈ ap_Identities P → ap_Model P = ap_Model P' ∧ ap_Services P = ap_Services P' ∧
                         ap_Checks P = ap_Checks P') →
  ident_ok pols i v → ident_ok pols' i (addedToPolicy pol idx v).
Proof.
  intros Hlike Hi Hsame Hv. pose proof (proj2 (io_member _ _ _ Hv) p P HP) as Hmem.
  unfold addedToPolicy. rewrite Hid. case_bool_decide as Hin.
  - apply (ident_ok_same pols p i P P'); try done; apply Hmem in Hin as Hin';
      destruct (Hsame Hin') as (Em & Es & Ec).
    + intros t s. unfold grants. by rewrite Em, Es, !(bool_decide_true (i ∈ _)).
    + intros c. unfold asks. by rewrite Es, Ec, !(bool_decide_true (i ∈ _)).
    + tauto.
  - apply (ident_toggle true v ({[p]} ∪ id_ServicePolicies v)); try done; naive_solver set_solver.
Qed.

Lemma ident_removed v :
  pol_like pol P → i ∉ ap_Identities P' → ident_ok pols i v →
  ident_ok pols' i (removedFromPolicy pol idx v).
Proof.
  intros Hlike Hi Hv. pose proof (proj2 (io_member _ _ _ Hv) p P HP) as Hmem.
  unfold removedFromPolicy. rewrite Hid. case_bool_decide as Hin.
  - apply (ident_toggle false v (id_ServicePolicies v ∖ {[p]})); try done; naive_solver set_solver.
  - apply (ident_ok_same pols p i P P'); try done.
    + intros t s. unfold grants. rewrite !(bool_decide_false (i ∈ _)) by naive_solver.
      by rewrite !andb_false_r.
    + intros c. unfold asks. by rewrite !(bool_decide_false (i ∈ _)) by naive_solver.
    + naive_solver.
Qed.

(** Touching the access entries of services that have one. *)
Lemma touch_list (D B : string → nat) l m :
  (∀ s, acc_ok (D s) (B s) (m !! s)) → (∀ s, s ∈ l → (0 < D s + B s)%nat) →
  ∃ m', foldM (touchAccess pol idx) l m = Some m' ∧ ∀ s, acc_ok (D s) (B s) (m' !! s).
Proof.
  revert m. induction l as [|s l IH]; intros m Hm Hl; simpl; [eauto|].
  pose proof (Hm s) as Hs. specialize (Hl s ltac:(left)) as Hpos. unfold touchAccess.
  destruct (m !! s) as [acc|] eqn:E; simpl in *; [|lia].
  apply IH; [|intros; apply Hl; by right]. intros s'.
  destruct (decide (s' = s)) as [->|Hne]; [|by rewrite lookup_insert_ne].
  rewrite lookup_insert_eq. unfold updatePostureChecksIndex.
  destruct (IsDial pol), (IsBind pol); simpl; done.
Qed.

(** The model of a policy is valid, and each of its services is granted. *)
Lemma touch_ok Q pls v :
  pls !! p = Some Q → po_Services pol = ap_Services Q → pm_PolicyType (ap_Model Q) ≠ InvalidPolicy →
  i ∈ ap_Identities Q → ident_ok pls i v →
  ∃ v', touchServices pol idx v = Some v' ∧ ident_ok pls i v' ∧ same_base v v'.
Proof.
  intros HQ Hs Ht Hi [Hmem Hacc Hchk]. unfold touchServices.
  destruct (id_serviceAccessTrackingEnabled v) eqn:Htr; [|eexists; split; [done|]; split; [|done]].
  - destruct (touch_list (λ s, count_if (grants DialPolicy i s) pls)
      (λ s, count_if (grants BindPolicy i s) pls) (elements (po_Services pol)) (id_ServiceAccess v))
      as (m' & -> & Hm'); [by apply Hacc| |].
    + intros s Hin%elem_of_elements. rewrite Hs in Hin.
      destruct (pm_PolicyType (ap_Model Q)) eqn:Et; [done|..].
      * assert (0 < count_if (grants DialPolicy i s) pls)%nat; [|lia].
        apply (count_if_pos _ _ p Q HQ). unfold grants. by rewrite Et, !bool_decide_true.
      * assert (0 < count_if (grants BindPolicy i s) pls)%nat; [|lia].
        apply (count_if_pos _ _ p Q HQ). unfold grants. by rewrite Et, !bool_decide_true.
    + simpl. eexists. split; [done|]. split; [|done]. split; simpl; done.
  - split; try done. congruence.
Qed.
End Ops.

(** *** Services and posture checks of a policy change *)

(** Adding what is not there, or removing what is. *)
Definition proper_change (add : bool) (l : list string) (X : gset string) : Prop :=
  NoDup l ∧ ∀ x, x ∈ l → if add then x ∉ X else x ∈ X.

Lemma change_delta add l X x :
  proper_change add l X →
  delta add (bool_decide (x ∈ l)) (Nat.b2n (bool_decide (x ∈ X)))
    (Nat.b2n (bool_decide (x ∈ addOrRemove add l X))).
Proof.
  intros [_ Hl]. specialize (Hl x). unfold delta, addOrRemove. destruct add.
  - destruct (decide (x ∈ l)) as [Hin|Hni].
    + rewrite (bool_decide_true (x ∈ l)), (bool_decide_false (x ∈ X)), bool_decide_true; set_solver.
    + rewrite (bool_decide_false (x ∈ l)) by done. simpl. rewrite Nat.add_0_r. f_equal.
      apply bool_decide_ext. set_solver.
  - destruct (decide (x ∈ l)) as [Hin|Hni].
    + rewrite (bool_decide_true (x ∈ l)), (bool_decide_true (x ∈ X)), bool_decide_false; set_solver.
    + rewrite (bool_decide_false (x ∈ l)) by done. simpl. rewrite Nat.add_0_r. f_equal.
      apply bool_decide_ext. set_solver.
Qed.

Lemma delta_and add k n n' (b : bool) :
  delta add k (Nat.b2n n) (Nat.b2n n') → delta add (b && k) (Nat.b2n (b && n)) (Nat.b2n (b && n')).
Proof. unfold delta. destruct b; simpl; [done|]. by destruct add. Qed.
Lemma delta_false add n n' : n = n' → delta add false n n'.
Proof. intros ->. unfold delta. simpl. destruct add; lia. Qed.

Lemma bool_empty (X : gset string) : bool_decide (X = ∅) = negb (bool_decide (X ≠ ∅)).
Proof.
  destruct (decide (X = ∅)) as [E|E].
  - rewrite bool_decide_true, bool_decide_false by tauto. done.
  - rewrite bool_decide_false, bool_decide_true by done. done.
Qed.
Lemma nonempty_cases (add : bool) (X Y : gset string) :
  (if add then X ≠ ∅ → Y ≠ ∅ else X = ∅ → Y = ∅) →
  bool_decide (X ≠ ∅) = bool_decide (Y ≠ ∅) ∨
  bool_decide (X ≠ ∅) = negb add ∧ bool_decide (Y ≠ ∅) = add.
Proof. intros H. destruct add; do 2 case_bool_decide; tauto. Qed.

Section Change.
Context (pols : policies) (p i : string) (P : AbsPolicy) (pol pol' : ServicePolicy) (idx : Z).
Context (add : bool) (l : list string) (v : Identity).
Context (HP : pols !! p = Some P) (Hsize : Z.of_nat (size pols) < 2 ^ 31).
Context (Hid : pm_Id (po_Model pol) = p) (Hid' : pm_Id (po_Model pol') = p).
Context (Hlike : pol_like pol P) (Ht : pm_PolicyType (ap_Model P) ≠ InvalidPolicy).
Context (Hi : i ∈ ap_Identities P) (Hv : ident_ok pols i v).

(** Services: the access counts follow, and the posture checks of the policy
    count from its first to its last service. *)
Let P1 := set_related RelatedService (addOrRemove add l) P.
Context (Hlike' : pol_like pol' P1).

Lemma ident_services_access :
  proper_change add l (ap_Services P) →
  let v1 := updateServiceCounts pol l idx add v in
  membership (<[p := P1]> pols) i (id_ServicePolicies v1) ∧
  (id_serviceAccessTrackingEnabled v1 = true → access_counts (<[p := P1]> pols) i (id_ServiceAccess v1)).
Proof.
  intros Hc v1. destruct Hv as [Hmem Hacc Hchk]. split.
  { unfold v1, updateServiceCounts.
    assert (membership (<[p := P1]> pols) i (id_ServicePolicies v)) as Hmem'.
    { eapply member_step; [done| |exact Hmem]. by apply (proj2 Hmem p P HP). }
    by destruct (id_serviceAccessTrackingEnabled v). }
  unfold v1, updateServiceCounts. destruct (id_serviceAccessTrackingEnabled v) eqn:Htr; [|congruence].
  intros _. simpl. pose proof (proj1 Hc) as Hnd.
  eapply access_step; [done|done|done| | |by apply Hacc]; intros s; unfold grants;
    rewrite !(bool_decide_true (i ∈ _)) by done; rewrite !andb_true_r;
    unfold IsDial, IsBind; rewrite (pl_model _ _ Hlike); simpl; apply delta_and, change_delta, Hc.
Qed.

(** The step on the posture checks that follows. *)
Definition servicesChecks (v1 : Identity) : option Identity :=
  let wasEmpty := bool_decide (po_Services pol = ∅) in
  let isEmpty := bool_decide (po_Services pol' = ∅) in
  if add then
    if wasEmpty && negb isEmpty
    then postureChecksAddedToPolicy pol' (elements (po_PostureChecks pol)) idx v1 else Some v1
  else
    if negb wasEmpty && isEmpty
    then postureChecksRemovedFromPolicy pol' (elements (po_PostureChecks pol)) idx v1 else Some v1.

Lemma addOrRemove_nonempty :
  if add then ap_Services P ≠ ∅ → ap_Services P1 ≠ ∅ else ap_Services P = ∅ → ap_Services P1 = ∅.
Proof. unfold P1. simpl. destruct add; simpl; set_solver. Qed.

Lemma ident_services :
  proper_change add l (ap_Services P) →
  ∃ v2, servicesChecks (updateServiceCounts pol l idx add v) = Some v2 ∧
        ident_ok (<[p := P1]> pols) i v2 ∧ same_base v v2.
Proof.
  intros Hc. destruct (ident_services_access Hc) as [Hmem Hacc].
  pose proof (updateServiceCounts_base pol idx l add v) as Hbase.
  set (v1 := updateServiceCounts pol l idx add v) in *.
  assert (id_PostureChecks v1 = id_PostureChecks v) as Hchk1
    by (unfold v1, updateServiceCounts; by destruct (id_serviceAccessTrackingEnabled v)).
  assert (∀ c Q, i ∈ ap_Identities Q → asks i c Q =
    bool_decide (ap_Services Q ≠ ∅) && bool_decide (c ∈ ap_Checks Q)) as Hasks.
  { intros c Q HQ. unfold asks. by rewrite (bool_decide_true (i ∈ _)). }
  assert (bool_decide (ap_Services P ≠ ∅) = bool_decide (ap_Services P1 ≠ ∅) →
          ident_ok (<[p := P1]> pols) i v1) as Hsame.
  { intros He. split; [done|done|]. rewrite Hchk1.
    apply (check_step pols p i P P1 HP Hsize true [] (id_PostureChecks v));
      [apply NoDup_nil_2| |apply Hv]. intros c. rewrite bool_decide_false by apply not_elem_of_nil.
    apply delta_false. rewrite (Hasks c P), (Hasks c P1) by done. by rewrite He. }
  assert (bool_decide (ap_Services P ≠ ∅) = negb add → bool_decide (ap_Services P1 ≠ ∅) = add →
    let v2 := set_PostureChecks (foldl (if add then incrementUseCount else decrementUseCount)
      (id_PostureChecks v1) (elements (po_PostureChecks pol))) v1 in
    ident_ok (<[p := P1]> pols) i v2) as Hflip.
  { intros E0 E1. split; [done|done|]. simpl. rewrite Hchk1.
    eapply check_step; [done|done|apply NoDup_elements| |apply Hv]. intros c.
    rewrite bool_elem_elements, (pl_checks _ _ Hlike), (Hasks c P), (Hasks c P1) by done.
    rewrite E0, E1. unfold delta. destruct add; simpl; lia. }
  assert (pm_Id (po_Model pol') ∈ id_ServicePolicies v1) as Hin.
  { rewrite Hid'. apply (proj2 Hmem p P1); [by rewrite lookup_insert_eq|done]. }
  assert (∀ w, ident_ok (<[p := P1]> pols) i w → same_base v w →
    ∃ v2, touchServices pol' idx w = Some v2 ∧ ident_ok (<[p := P1]> pols) i v2 ∧ same_base v v2) as Htouch.
  { intros w Hw Hb. destruct (touch_ok pols p i pol' idx P1 (<[p := P1]> pols) w) as (v2 & ? & ? & ?);
      [by rewrite lookup_insert_eq|apply Hlike'|done..|]. exists v2. split_and!; [done..|by trans w]. }
  pose proof (nonempty_cases add (ap_Services P) (ap_Services P1) addOrRemove_nonempty) as Hcase.
  unfold servicesChecks. rewrite (pl_services _ _ Hlike), (pl_services _ _ Hlike'), !bool_empty.
  unfold postureChecksAddedToPolicy, postureChecksRemovedFromPolicy.
  rewrite (bool_decide_true (pm_Id (po_Model pol') ∈ _)) by done.
  destruct Hcase as [He|[E0 E1]].
  - rewrite He. exists v1. destruct add, (bool_decide (ap_Services P1 ≠ ∅)); simpl; auto.
  - specialize (Hflip E0 E1). apply Htouch in Hflip as (v2 & Hv2 & ? & ?);
      [|by destruct Hbase as (? & ? & ?); split_and!].
    exists v2. rewrite E0, E1. destruct add; simpl in *; done.
Qed.
End Change.

Section ChangeChecks.
Context (pols : policies) (p i : string) (P : AbsPolicy) (pol : ServicePolicy) (idx : Z).
Context (add : bool) (l : list string) (v : Identity).
Context (HP : pols !! p = Some P) (Hsize : Z.of_nat (size pols) < 2 ^ 31).
Context (Hid : pm_Id (po_Model pol) = p).
Context (Hlike : pol_like pol P) (Ht : pm_PolicyType (ap_Model P) ≠ InvalidPolicy).
Context (Hi : i ∈ ap_Identities P) (Hv : ident_ok pols i v).
Context (Hc : proper_change add l (ap_Checks P)).
Let P1 := set_related RelatedPostureCheck (addOrRemove add l) P.

Lemma ident_checks :
  ∃ v2, (if bool_decide (po_Services pol = ∅) then Some v
         else (if add then postureChecksAddedToPolicy pol l idx
               else postureChecksRemovedFromPolicy pol l idx) v) = Some v2 ∧
        ident_ok (<[p := P1]> pols) i v2 ∧ same_base v v2.
Proof.
  assert (∀ c, asks i c P = bool_decide (ap_Services P ≠ ∅) && bool_decide (c ∈ ap_Checks P)) as A0.
  { intros c. unfold asks. by rewrite (bool_decide_true (i ∈ _)). }
  assert (∀ c, asks i c P1 = bool_decide (ap_Services P ≠ ∅) && bool_decide (c ∈ ap_Checks P1)) as A1.
  { intros c. unfold asks. by rewrite (bool_decide_true (i ∈ _)). }
  rewrite bool_empty, (pl_services _ _ Hlike).
  destruct (bool_decide (ap_Services P ≠ ∅)) eqn:E; simpl.
  - assert (ident_ok (<[p := P1]> pols) i (set_PostureChecks (foldl (if add then incrementUseCount
      else decrementUseCount) (id_PostureChecks v) l) v)) as Hv1.
    { destruct Hv as [Hmem Hacc Hchk]. split; simpl.
      - eapply member_step; [done| |exact Hmem]. by apply (proj2 Hmem p P HP).
      - intros Htr. apply (access_step pols p i P P1 HP Hsize pol 0 true []);
          [apply NoDup_nil_2|..|by apply Hacc]; intros s;
          rewrite (bool_decide_false (s ∈ [])) by apply not_elem_of_nil;
          rewrite andb_false_r; by apply delta_false.
      - eapply check_step; [done|done|apply Hc| |done]. intros c. rewrite A0, A1. simpl.
        by apply change_delta. }
    assert (pm_Id (po_Model pol) ∈ id_ServicePolicies v) as Hin.
    { rewrite Hid. by apply (proj2 (io_member _ _ _ Hv) p P HP). }
    destruct (touch_ok pols p i pol idx P1 (<[p := P1]> pols) (set_PostureChecks (foldl (if add
      then incrementUseCount else decrementUseCount) (id_PostureChecks v) l) v)) as (v2 & Hv2 & ? & ?);
      [by rewrite lookup_insert_eq|apply Hlike|done..|].
    exists v2. split_and!; [|done|done].
    destruct add; unfold postureChecksAddedToPolicy, postureChecksRemovedFromPolicy;
      by rewrite bool_decide_true by done.
  - exists v. split_and!; try done. apply (ident_ok_same pols p i P P1); try done.
    intros c. by rewrite A0, A1.
Qed.
End ChangeChecks.

(** ** What the router's copy represents *)

(** Services are the same up to the order of their configs. *)
Definition svc_sim (v x : DataState_Service) : Prop :=
  sm_Id v = sm_Id x ∧ sm_Name v = sm_Name x ∧ sm_EncryptionRequired v = sm_EncryptionRequired x ∧
  sm_Configs v ≡ₚ sm_Configs x.

(** Identities are the same up to references to configs that do not exist. *)
Definition override (i : DataState_Identity) (s t : string) : option string :=
  im_ServiceConfigs i !! s ≫= (.!! t).
Definition id_sim (configs : gset string) (v x : DataState_Identity) : Prop :=
  im_Id v = im_Id x ∧ im_Name v = im_Name x ∧
  im_DefaultHostingPrecedence v = im_DefaultHostingPrecedence x ∧
  im_DefaultHostingCost v = im_DefaultHostingCost x ∧
  im_ServiceHostingPrecedences v = im_ServiceHostingPrecedences x ∧
  im_ServiceHostingCosts v = im_ServiceHostingCosts x ∧
  im_AppDataJson v = im_AppDataJson x ∧ im_Disabled v = im_Disabled x ∧
  (∀ s t c, override v s t = Some c → override x s t = Some c) ∧
  (∀ s t c, c ∈ configs → override x s t = Some c → override v s t = Some c).

Definition svc_rel (pols : policies) (s : string) (v : Service) (x : DataState_Service) : Prop :=
  svc_sim (s_Model v) x ∧
  ∀ p P, pols !! p = Some P → s ∈ ap_Services P → p ∈ s_servicePolicies v.
Definition chk_rel (pols : policies) (c : string) (v : PostureCheck) (x : DataState_PostureCheck) : Prop :=
  pc_Model v = x ∧ ∀ p P, pols !! p = Some P → c ∈ ap_Checks P → p ∈ pc_servicePolicies v.
Definition pol_rel (v : ServicePolicy) (P : AbsPolicy) : Prop :=
  pol_like v P ∧ po_Identities v = ap_Identities P.
Definition id_rel (a : Abs) (i : string) (v : Identity) (x : DataState_Identity) : Prop :=
  id_sim (dom (a_Configs a)) (id_Model v) x ∧ ident_ok (a_Policies a) i v.

Record router_rep (m : RouterDataModel) (a : Abs) : Prop := mkRouterRep {
  rr_ct : ct_Model <$> r_ConfigTypes m = a_ConfigTypes a;
  rr_cfg : c_Model <$> r_Configs m = a_Configs a;
  rr_key : r_PublicKeys m = a_Keys a;
  rr_rev : r_Revocations m = a_Revocations a;
  rr_svc : ∀ s, option_Forall2 (svc_rel (a_Policies a) s) (r_Services m !! s) (a_Services a !! s);
  rr_chk : ∀ c, option_Forall2 (chk_rel (a_Policies a) c) (r_PostureChecks m !! c) (a_Checks a !! c);
  rr_pol : ∀ p, option_Forall2 pol_rel (r_ServicePolicies m !! p) (a_Policies a !! p);
  rr_id : ∀ i, option_Forall2 (id_rel a i) (r_Identities m !! i) (a_Identities a !! i);
}.

Lemma svc_sim_refl x : svc_sim x x.
Proof. by split_and!. Qed.
Lemma id_sim_refl configs x : id_sim configs x x.
Proof. by split_and!. Qed.

Lemma router_new_rep : router_rep NewReceiverRouterDataModel abs_empty.
Proof. split; try done; intros k; simpl; rewrite !lookup_empty; constructor. Qed.

(** *** Notifications change nothing that is represented *)

Lemma queueCheck_rep flag ev i m a : router_rep m a → router_rep (queueCheck flag ev i m) a.
Proof.
  intros []. unfold queueCheck. case_bool_decide; [|done].
  destruct (_ <? _)%nat; by split.
Qed.
Lemma NotifyIdentityChange_rep i m a : router_rep m a → router_rep (NotifyIdentityChange i m) a.
Proof. intros. unfold NotifyIdentityChange. destruct (_ !! _); [by apply queueCheck_rep|done]. Qed.
Lemma notifyAll_rep l m a : router_rep m a → router_rep (notifyAll l m) a.
Proof. apply (foldl_pres _ (λ m, router_rep m a)). intros. by apply NotifyIdentityChange_rep. Qed.

(** Replacing a policy or a service by one that differs in its index. *)
Lemma policy_reindex_rep p v si ci m a :
  r_ServicePolicies m !! p = Some v → router_rep m a →
  router_rep (upd_ServicePolicies (<[p := mkServicePolicy (po_Model v) (po_Services v)
    (po_PostureChecks v) (po_Identities v) si ci]> (r_ServicePolicies m)) m) a.
Proof.
  intros Hv []. split; try done. intros q. simpl. destruct (decide (q = p)) as [->|Hne].
  - rewrite lookup_insert_eq. specialize (rr_pol0 p). rewrite Hv in rr_pol0.
    inversion rr_pol0 as [? P [[] ?]|]; subst. constructor. by split.
  - by rewrite lookup_insert_ne.
Qed.
Lemma service_reindex_rep s v idx m a :
  r_Services m !! s = Some v → router_rep m a →
  router_rep (upd_Services (<[s := mkService (s_Model v) (s_servicePolicies v) idx]>
    (r_Services m)) m) a.
Proof.
  intros Hv []. split; try done. intros q. simpl. destruct (decide (q = s)) as [->|Hne].
  - rewrite lookup_insert_eq. specialize (rr_svc0 s). rewrite Hv in rr_svc0.
    inversion rr_svc0 as [? P [? ?]|]; subst. constructor. by split.
  - by rewrite lookup_insert_ne.
Qed.

Lemma NotifyServicePolicyServiceChange_rep p idx m a :
  router_rep m a → router_rep (NotifyServicePolicyServiceChange p idx m) a.
Proof.
  intros Hm. unfold NotifyServicePolicyServiceChange.
  destruct (r_ServicePolicies m !! p) as [v|] eqn:Hv; [|done].
  apply notifyAll_rep. destruct (_ <? _); [by apply policy_reindex_rep|done].
Qed.
Lemma NotifyServicePolicyPostureChecksChange_rep p idx m a :
  router_rep m a → router_rep (NotifyServicePolicyPostureChecksChange p idx m) a.
Proof.
  intros Hm. unfold NotifyServicePolicyPostureChecksChange.
  destruct (r_ServicePolicies m !! p) as [v|] eqn:Hv; [|done].
  apply notifyAll_rep. destruct (_ <? _); [by apply policy_reindex_rep|done].
Qed.
Lemma NotifyServiceOfConfigChange_rep s idx m a :
  router_rep m a → router_rep (NotifyServiceOfConfigChange s idx m) a.
Proof.
  intros Hm. unfold NotifyServiceOfConfigChange.
  destruct (r_Services m !! s) as [v|] eqn:Hv; [|done].
  apply (foldl_pres _ (λ m, router_rep m a)).
  { intros. by apply NotifyServicePolicyServiceChange_rep. }
  destruct (_ <? _); [by apply service_reindex_rep|done].
Qed.
Lemma notifyConfig_rep idx v m a : router_rep m a → router_rep (notifyConfig idx v m) a.
Proof.
  intros Hm. apply notifyAll_rep, (foldl_pres _ (λ m, router_rep m a)); [|done].
  intros. by apply NotifyServiceOfConfigChange_rep.
Qed.
#[export] Hint Resolve queueCheck_rep notifyAll_rep notifyConfig_rep NotifyIdentityChange_rep
  NotifyServicePolicyServiceChange_rep NotifyServicePolicyPostureChecksChange_rep
  NotifyServiceOfConfigChange_rep : zt.

(** *** Loops over identities, services and checks *)

Lemma upd_Identities_id m : upd_Identities (r_Identities m) m = m.
Proof. by destruct m. Qed.

Lemma withLocked_spec l f m :
  NoDup l → (∀ i v, i ∈ l → r_Identities m !! i = Some v → is_Some (f v)) →
  ∃ ids, withLockedIdentities l f m = Some (upd_Identities ids m) ∧
    ∀ i, ids !! i = if decide (i ∈ l) then r_Identities m !! i ≫= f else r_Identities m !! i.
Proof.
  intros Hnd Hf.
  destruct (foldM_inv (λ i, withLockedIdentity i f)
    (λ l1 m', ∃ ids, m' = upd_Identities ids m ∧
       ∀ i, ids !! i = if decide (i ∈ l1) then r_Identities m !! i ≫= f else r_Identities m !! i) l m)
    as (m' & Hm' & ids & -> & Hids).
  - intros l1 x l2 m1 -> (ids & -> & Hids). unfold withLockedIdentity. simpl.
    apply NoDup_app in Hnd as (_ & Hx & _).
    assert (x ∉ l1) as Hx1 by (intros Hin; apply (Hx x Hin); left).
    pose proof (Hids x) as Hx'. rewrite decide_False in Hx' by done. rewrite Hx'.
    destruct (r_Identities m !! x) as [v|] eqn:Hv.
    + destruct (Hf x v) as [v' Hv']; [set_solver|done|]. rewrite Hv'. simpl.
      eexists. split; [done|]. exists (<[x := v']> ids). split; [done|]. intros i.
      destruct (decide (i = x)) as [->|Hne].
      * rewrite lookup_insert_eq, decide_True by set_solver. by rewrite Hv.
      * rewrite lookup_insert_ne by done. rewrite Hids.
        destruct (decide (i ∈ l1)); [rewrite decide_True by set_solver|rewrite decide_False by set_solver]; done.
    + eexists. split; [done|]. exists ids. split; [done|]. intros i. rewrite Hids.
      destruct (decide (i = x)) as [->|Hne].
      * rewrite decide_False by done. rewrite decide_True by set_solver. by rewrite Hv.
      * destruct (decide (i ∈ l1)); [rewrite decide_True by set_solver|rewrite decide_False by set_solver]; done.
  - exists (r_Identities m). by rewrite upd_Identities_id.
  - eauto.
Qed.

Lemma alter_fold {V} (f : V → V) l (M : gmap string V) k :
  NoDup l →
  foldl (λ M x, match M !! x with Some v => <[x := f v]> M | None => M end) M l !! k =
  if decide (k ∈ l) then f <$> M !! k else M !! k.
Proof.
  intros Hnd. rewrite <- (foldl_alter_lookup (fmap f) l M k Hnd). f_equal. apply foldl_ext'.
  intros M' x. apply map_eq. intros y. destruct (decide (y = x)) as [->|Hne].
  - rewrite lookup_partial_alter_eq. destruct (M' !! x) as [v|] eqn:E; [|by rewrite E].
    by rewrite lookup_insert_eq.
  - rewrite lookup_partial_alter_ne by done. destruct (M' !! x) as [v|]; [|done].
    by rewrite lookup_insert_ne.
Qed.

(** *** Policy changes *)

(** Identities that are not in the policy are not concerned by a change of its
    services or checks. *)
Lemma ident_ok_outside pols p P P' i v :
  pols !! p = Some P → Z.of_nat (size pols) < 2 ^ 31 → i ∉ ap_Identities P → i ∉ ap_Identities P' →
  ident_ok pols i v → ident_ok (<[p := P']> pols) i v.
Proof.
  intros HP Hs Hi Hi'. apply (ident_ok_same pols p i P P'); try done.
  - intros t s. unfold grants. rewrite !(bool_decide_false (i ∈ _)) by done. by rewrite !andb_false_r.
  - intros c. unfold asks. by rewrite !(bool_decide_false (i ∈ _)).
Qed.

(** The reverse references of the services that come and go. *)
Lemma svc_change add l p P pols s v x :
  pols !! p = Some P →
  svc_rel pols s v x →
  svc_rel (<[p := set_related RelatedService (addOrRemove add l) P]> pols) s
    (if decide (s ∈ l) then svc_setPolicy add p v else v) x.
Proof.
  intros HP [Hsim Hrev]. split; [by destruct (decide _)|].
  intros q Q HQ Hs. apply lookup_insert_Some in HQ as [[<- <-]|[Hne HQ]]; simpl in *.
  - destruct (decide (s ∈ l)) as [Hin|Hni]; unfold addOrRemove in *; destruct add; simpl;
      first [set_solver|apply (Hrev p P HP); set_solver].
  - pose proof (Hrev q Q HQ Hs). destruct (decide _); simpl; [|done].
    unfold addOrRemove. destruct add; set_solver.
Qed.
Lemma chk_change add l p P pols s v x :
  pols !! p = Some P →
  chk_rel pols s v x →
  chk_rel (<[p := set_related RelatedPostureCheck (addOrRemove add l) P]> pols) s
    (if decide (s ∈ l) then check_setPolicy add p v else v) x.
Proof.
  intros HP [Hsim Hrev]. split; [by destruct (decide _)|].
  intros q Q HQ Hs. apply lookup_insert_Some in HQ as [[<- <-]|[Hne HQ]]; simpl in *.
  - destruct (decide (s ∈ l)) as [Hin|Hni]; unfold addOrRemove in *; destruct add; simpl;
      first [set_solver|apply (Hrev p P HP); set_solver].
  - pose proof (Hrev q Q HQ Hs). destruct (decide _); simpl; [|done].
    unfold addOrRemove. destruct add; set_solver.
Qed.
(** A change that leaves the services, or the checks, of the policy alone. *)
Lemma svc_other p P P' pols s v x :
  pols !! p = Some P → ap_Services P' = ap_Services P → svc_rel pols s v x →
  svc_rel (<[p := P']> pols) s v x.
Proof.
  intros HP HS [Hsim Hrev]. split; [done|]. intros q Q HQ Hs.
  apply lookup_insert_Some in HQ as [[<- <-]|[Hne HQ]]; [apply (Hrev p P HP); congruence|eauto].
Qed.
Lemma chk_other p P P' pols s v x :
  pols !! p = Some P → ap_Checks P' = ap_Checks P → chk_rel pols s v x →
  chk_rel (<[p := P']> pols) s v x.
Proof.
  intros HP HS [Hsim Hrev]. split; [done|]. intros q Q HQ Hs.
  apply lookup_insert_Some in HQ as [[<- <-]|[Hne HQ]]; [apply (Hrev p P HP); congruence|eauto].
Qed.

(** What the policy changes rely on. *)
Definition pols_pre (a : Abs) : Prop :=
  map_Forall (λ k P, pm_Id (ap_Model P) = k ∧ pm_PolicyType (ap_Model P) ≠ InvalidPolicy)
    (a_Policies a) ∧ Z.of_nat (size (a_Policies a)) < 2 ^ 31.
Lemma abs_ok_pre a : abs_ok a → pols_pre a.
Proof.
  intros Ha. split; [|apply Ha]. intros p P HP. by destruct (ok_pol _ Ha _ _ HP) as (? & ? & _).
Qed.
Lemma abs_change_pre c a : pols_pre a → pols_pre (abs_change c a).
Proof.
  intros [Hp Hs]. unfold abs_change. destruct (a_Policies a !! pch_PolicyId c) as [P|] eqn:HP; [|done].
  split; simpl; [|by rewrite map_size_insert, HP].
  apply map_Forall_insert_2; [|done]. rewrite set_related_model. by apply (Hp _ _ HP).
Qed.

Section PolicyChange.
Context (m : RouterDataModel) (a : Abs) (Ha : pols_pre a) (Hm : router_rep m a).
Context (p : string) (P : AbsPolicy) (pol : ServicePolicy) (idx : Z) (add : bool) (l : list string).
Context (HP : a_Policies a !! p = Some P) (Hpol : r_ServicePolicies m !! p = Some pol).

Lemma pol_facts :
  pol_like pol P ∧ po_Identities pol = ap_Identities P ∧ pm_Id (po_Model pol) = p ∧
  pm_PolicyType (ap_Model P) ≠ InvalidPolicy.
Proof.
  pose proof (rr_pol _ _ Hm p) as Hr. rewrite HP, Hpol in Hr.
  inversion Hr as [? ? [Hlike Hids]|]; subst. destruct (proj1 Ha _ _ HP) as [Hid Ht].
  split_and!; [done..| |done]. by rewrite (pl_model _ _ Hlike).
Qed.

Lemma ident_facts i v :
  r_Identities m !! i = Some v → ∃ x, a_Identities a !! i = Some x ∧ id_rel a i v x.
Proof.
  intros Hv. pose proof (rr_id _ _ Hm i) as Hr. rewrite Hv in Hr. inversion Hr; subst. eauto.
Qed.

(** The representation after a change of one policy. *)
Lemma rep_change pol' P' ids svcs chks :
  pol_rel pol' P' →
  (∀ i, option_Forall2 (λ v x, id_sim (dom (a_Configs a)) (id_Model v) x ∧
          ident_ok (<[p := P']> (a_Policies a)) i v) (ids !! i) (a_Identities a !! i)) →
  (∀ s, option_Forall2 (svc_rel (<[p := P']> (a_Policies a)) s) (svcs !! s) (a_Services a !! s)) →
  (∀ c, option_Forall2 (chk_rel (<[p := P']> (a_Policies a)) c) (chks !! c) (a_Checks a !! c)) →
  router_rep (upd_ServicePolicies (<[p := pol']> (r_ServicePolicies m))
    (upd_PostureChecks chks (upd_Services svcs (upd_Identities ids m))))
    (with_Policies (<[p := P']> (a_Policies a)) a).
Proof.
  intros Hp Hi Hs Hc. pose proof Hm as []. split; simpl; try done. intros q.
  destruct (decide (q = p)) as [->|Hne]; [rewrite !lookup_insert_eq; by constructor|].
  by rewrite !lookup_insert_ne.
Qed.

(** Every identity of the policy is changed by a step that keeps its data
    exact; the others are left alone. *)
Lemma rep_idents (P' : AbsPolicy) (f : Identity → option Identity) (ids : gmap string Identity) :
  ap_Identities P' = ap_Identities P →
  (∀ i v, i ∈ ap_Identities P → ident_ok (a_Policies a) i v →
     ∃ v', f v = Some v' ∧ ident_ok (<[p := P']> (a_Policies a)) i v' ∧ same_base v v') →
  (∀ i, ids !! i = if decide (i ∈ elements (po_Identities pol)) then r_Identities m !! i ≫= f
                   else r_Identities m !! i) →
  ∀ i, option_Forall2 (λ v x, id_sim (dom (a_Configs a)) (id_Model v) x ∧
          ident_ok (<[p := P']> (a_Policies a)) i v) (ids !! i) (a_Identities a !! i).
Proof.
  intros Hids' Hf Hids i. destruct pol_facts as (_ & Hpi & _ & _). rewrite Hids.
  pose proof (rr_id _ _ Hm i) as Hr. destruct (r_Identities m !! i) as [v|] eqn:Hv;
    inversion Hr as [? x [Hsim Hok]|]; subst; [|destruct (decide _); constructor].
  destruct (decide (i ∈ elements (po_Identities pol))) as [Hin|Hni]; simpl.
  - rewrite elem_of_elements, Hpi in Hin. destruct (Hf i v Hin Hok) as (v' & -> & Hok' & Hb & _).
    constructor. by rewrite Hb.
  - rewrite elem_of_elements, Hpi in Hni. constructor. split; [done|].
    apply (ident_ok_outside _ p P); [done|apply Ha|done|by rewrite Hids'|done].
Qed.

Definition after_services : ServicePolicy :=
  mkServicePolicy (po_Model pol) (addOrRemove add l (po_Services pol)) (po_PostureChecks pol)
    (po_Identities pol) idx (po_postureChecksIndex pol).

(** The second pass over the identities, which the code skips when the policy
    does not become empty or non-empty. *)
Lemma second_pass (m2 : RouterDataModel) :
  let f2 := servicesChecks pol after_services idx add in
  (∀ i v, i ∈ elements (po_Identities pol) → r_Identities m2 !! i = Some v → is_Some (f2 v)) →
  ∃ ids2, (if add then
             if bool_decide (po_Services pol = ∅) && negb (bool_decide (po_Services after_services = ∅))
             then withLockedIdentities (elements (po_Identities pol))
               (postureChecksAddedToPolicy after_services (elements (po_PostureChecks pol)) idx) m2
             else Some m2
           else
             if negb (bool_decide (po_Services pol = ∅)) && bool_decide (po_Services after_services = ∅)
             then withLockedIdentities (elements (po_Identities pol))
               (postureChecksRemovedFromPolicy after_services (elements (po_PostureChecks pol)) idx) m2
             else Some m2) = Some (upd_Identities ids2 m2) ∧
    ∀ i, ids2 !! i = if decide (i ∈ elements (po_Identities pol)) then r_Identities m2 !! i ≫= f2
                     else r_Identities m2 !! i.
Proof.
  intros f2 Hf2. unfold f2, servicesChecks in *.
  destruct add; destruct (_ && _) eqn:E;
    try (apply withLocked_spec; [apply NoDup_elements|exact Hf2]);
    (exists (r_Identities m2); rewrite upd_Identities_id; split; [done|]; intros i;
     destruct (decide _); [|done]; by destruct (r_Identities m2 !! i)).
Qed.

Lemma services_step i v :
  proper_change add l (ap_Services P) → i ∈ ap_Identities P → ident_ok (a_Policies a) i v →
  ∃ v', servicesChecks pol after_services idx add
          (if add then servicesAddedToPolicy pol l idx v else servicesRemovedFromPolicy pol l idx v)
        = Some v' ∧
    ident_ok (<[p := set_related RelatedService (addOrRemove add l) P]> (a_Policies a)) i v' ∧
    same_base v v'.
Proof.
  intros Hc Hi Hv. destruct pol_facts as (Hlike & Hpi & Hid & Ht).
  assert (pm_Id (po_Model pol) ∈ id_ServicePolicies v) as Hin
    by (rewrite Hid; by apply (proj2 (io_member _ _ _ Hv) p P HP)).
  replace (if add then _ else _) with (updateServiceCounts pol l idx add v).
  - apply (ident_services (a_Policies a) p i P); try done; [apply Ha|].
    destruct Hlike. split; simpl; congruence.
  - unfold servicesAddedToPolicy, servicesRemovedFromPolicy.
    rewrite bool_decide_true by done. by destruct add.
Qed.

Lemma changeServices_rep :
  proper_change add l (ap_Services P) →
  ∃ m', changeServices add l idx (pol, m) = Some (after_services, m') ∧
    router_rep (upd_ServicePolicies (<[p := after_services]> (r_ServicePolicies m')) m')
      (with_Policies (<[p := set_related RelatedService (addOrRemove add l) P]> (a_Policies a)) a).
Proof.
  intros Hc. destruct pol_facts as (Hlike & Hpi & Hid & Ht).
  set (f1 := λ v, Some (if add then servicesAddedToPolicy pol l idx v
                        else servicesRemovedFromPolicy pol l idx v)).
  destruct (withLocked_spec (elements (po_Identities pol)) f1 m) as (ids1 & Hw1 & Hids1);
    [apply NoDup_elements|unfold f1; eauto|].
  unfold changeServices. fold f1. rewrite Hw1, Hid. clear Hid. simpl. fold after_services.
  set (m2 := withServices l (svc_setPolicy add p) (upd_Identities ids1 m)).
  destruct (second_pass m2) as (ids2 & Hw2 & Hids2).
  { intros i v Hin Hv. simpl in Hv. rewrite Hids1, decide_True in Hv by done.
    destruct (r_Identities m !! i) as [v0|] eqn:Hv0; [|done]. simpl in Hv. injection Hv as <-.
    destruct (ident_facts i v0 Hv0) as (x & _ & _ & Hok). rewrite elem_of_elements, Hpi in Hin.
    destruct (services_step i v0 Hc Hin Hok) as (v' & Hv' & _). eauto. }
  simpl in Hw2. rewrite Hw2. simpl. eexists. split; [done|].
  apply (rep_change _ _ ids2 (r_Services m2) (r_PostureChecks m)).
  - split; [|done]. destruct Hlike. split; simpl; congruence.
  - apply (rep_idents _ (λ v, f1 v ≫= servicesChecks pol after_services idx add)); [done|..].
    + intros i v Hi Hv. by apply services_step.
    + intros i. rewrite Hids2. simpl. rewrite Hids1. destruct (decide _); [|done].
      by destruct (r_Identities m !! i).
  - intros s. simpl. rewrite alter_fold by apply Hc. pose proof (rr_svc _ _ Hm s) as Hs.
    destruct (r_Services m !! s) as [v|]; inversion Hs as [? x Hx|]; subst;
      [|destruct (decide _); constructor].
    pose proof (svc_change add l p P _ s v x HP Hx) as Hx'.
    destruct (decide _); by constructor.
  - intros c. eapply option_Forall2_impl; [|apply Hm]. intros v x. by apply (chk_other p P).
Qed.

Definition after_checks : ServicePolicy :=
  mkServicePolicy (po_Model pol) (po_Services pol) (addOrRemove add l (po_PostureChecks pol))
    (po_Identities pol) (po_servicesIndex pol) idx.

Lemma changePostureChecks_rep :
  proper_change add l (ap_Checks P) →
  ∃ m', changePostureChecks add l idx (pol, m) = Some (after_checks, m') ∧
    router_rep (upd_ServicePolicies (<[p := after_checks]> (r_ServicePolicies m')) m')
      (with_Policies (<[p := set_related RelatedPostureCheck (addOrRemove add l) P]> (a_Policies a)) a).
Proof.
  intros Hc. destruct pol_facts as (Hlike & Hpi & Hid & Ht).
  set (f := λ v, if bool_decide (po_Services pol = ∅) then Some v
         else (if add then postureChecksAddedToPolicy pol l idx
               else postureChecksRemovedFromPolicy pol l idx) v).
  assert (∀ i v, i ∈ ap_Identities P → ident_ok (a_Policies a) i v → ∃ v', f v = Some v' ∧
    ident_ok (<[p := set_related RelatedPostureCheck (addOrRemove add l) P]> (a_Policies a)) i v' ∧
    same_base v v') as Hf.
  { intros i v Hi Hv. apply (ident_checks (a_Policies a) p i P); try done. apply Ha. }
  assert (∃ ids, (if bool_decide (po_Services pol = ∅) then Some m
    else withLockedIdentities (elements (po_Identities pol))
           (if add then postureChecksAddedToPolicy pol l idx
            else postureChecksRemovedFromPolicy pol l idx) m) = Some (upd_Identities ids m) ∧
    ∀ i, ids !! i = if decide (i ∈ elements (po_Identities pol)) then r_Identities m !! i ≫= f
                    else r_Identities m !! i) as (ids & Hw & Hids).
  { unfold f in *. destruct (bool_decide _) eqn:E.
    - exists (r_Identities m). rewrite upd_Identities_id. split; [done|]. intros i.
      destruct (decide _); [|done]. by destruct (r_Identities m !! i).
    - apply withLocked_spec; [apply NoDup_elements|]. intros i v Hin Hv.
      destruct (ident_facts i v Hv) as (x & _ & _ & Hok). rewrite elem_of_elements, Hpi in Hin.
      destruct (Hf i v Hin Hok) as (v' & Hv' & _). eauto. }
  unfold changePostureChecks. rewrite Hid. clear Hid. simpl in *. rewrite Hw. simpl. fold after_checks.
  eexists. split; [done|].
  set (m2 := withPostureChecks l (check_setPolicy add p) (upd_Identities ids m)).
  apply (rep_change _ _ ids (r_Services m) (r_PostureChecks m2)).
  - split; [|done]. destruct Hlike. split; simpl; congruence.
  - by apply (rep_idents _ f).
  - intros s. eapply option_Forall2_impl; [|apply Hm]. intros v x. by apply (svc_other p P).
  - intros s. simpl. rewrite alter_fold by apply Hc. pose proof (rr_chk _ _ Hm s) as Hs.
    destruct (r_PostureChecks m !! s) as [v|]; inversion Hs as [? x Hx|]; subst;
      [|destruct (decide _); constructor].
    pose proof (chk_change add l p P _ s v _ HP Hx) as Hx'. destruct (decide _); by constructor.
Qed.

(** One identity of a change. *)
Lemma changeIdentity_rep x :
  x ∈ dom (a_Identities a) →
  ∃ pol' m', changeIdentity add idx x (pol, m) = Some (pol', m') ∧
    r_ServicePolicies m' = r_ServicePolicies m ∧
    router_rep (upd_ServicePolicies (<[p := pol']> (r_ServicePolicies m)) m')
      (with_Policies (<[p := set_related RelatedIdentity (addOrRemove add [x]) P]> (a_Policies a)) a).
Proof.
  intros Hx. destruct pol_facts as (Hlike & Hpi & Hid & Ht).
  set (P' := set_related RelatedIdentity (addOrRemove add [x]) P).
  assert (x ∈ ap_Identities P' ↔ add = true) as HxP'.
  { simpl. unfold addOrRemove. destruct add; set_solver. }
  assert (∀ j, j ≠ x → (j ∈ ap_Identities P ↔ j ∈ ap_Identities P')) as HjP'.
  { intros j Hj. simpl. unfold addOrRemove. destruct add; set_solver. }
  apply elem_of_dom in Hx as [y Hy]. pose proof (rr_id _ _ Hm x) as Hr. rewrite Hy in Hr.
  destruct (r_Identities m !! x) as [v|] eqn:Hv; [|inversion Hr].
  unfold changeIdentity. rewrite Hv.
  set (pol' := mkServicePolicy _ _ _ _ _ _). set (v' := if add then _ else _).
  assert (pol_rel pol' P') as Hrel.
  { split; [by destruct Hlike; split|]. simpl. by rewrite Hpi. }
  assert (id_sim (dom (a_Configs a)) (id_Model v') y ∧ ident_ok (<[p := P']> (a_Policies a)) x v') as Hv'.
  { inversion Hr as [? ? [Hsim Hok]|]; subst v'. split.
    - assert (same_base v (if add then addedToPolicy pol' idx v else removedFromPolicy pol' idx v))
        as [Hb _] by (destruct add; [apply addedToPolicy_base|apply removedFromPolicy_base]).
      by rewrite Hb.
    - destruct add.
      + apply (ident_added _ p x P P'); try done; [apply Ha|apply Hrel|by apply HxP'].
      + apply (ident_removed _ p x P P'); try done; [apply Ha|by destruct Hlike|by rewrite HxP']. }
  eexists pol', _. split; [done|]. split; [done|].
  apply (rep_change _ _ (<[x := v']> (r_Identities m)) (r_Services m) (r_PostureChecks m)); [done|..].
  - intros j. destruct (decide (j = x)) as [->|Hj].
    + rewrite lookup_insert_eq, Hy. by constructor.
    + rewrite lookup_insert_ne by done. eapply option_Forall2_impl; [|apply Hm].
      intros w z [Hsim Hok]. split; [done|]. specialize (HjP' j Hj).
      apply (ident_ok_same (a_Policies a) p j P P'); try done; [apply Ha|..].
      * intros t s. unfold grants. simpl. by rewrite (bool_decide_ext _ _ HjP').
      * intros c. unfold asks. simpl. by rewrite (bool_decide_ext _ _ HjP').
  - intros s. eapply option_Forall2_impl; [|apply Hm]. intros w z. by apply (svc_other p P).
  - intros s. eapply option_Forall2_impl; [|apply Hm]. intros w z. by apply (chk_other p P).
Qed.
End PolicyChange.

(** Changing identities does not look at the policies of the model. *)
Lemma changeIdentity_frame add idx l X pol m :
  foldM (changeIdentity add idx) l (pol, upd_ServicePolicies X m) =
  (λ pm, (pm.1, upd_ServicePolicies X pm.2)) <$> foldM (changeIdentity add idx) l (pol, m).
Proof.
  revert pol m. induction l as [|x l IH]; intros pol m; simpl; [done|].
  destruct (r_Identities m !! x) as [v|]; simpl; [|apply IH].
  rewrite <- IH. by destruct m.
Qed.

Lemma changeIdentity_policies add idx l pol m pm :
  foldM (changeIdentity add idx) l (pol, m) = Some pm → r_ServicePolicies pm.2 = r_ServicePolicies m.
Proof.
  revert pol m. induction l as [|x l IH]; intros pol m; simpl; [by intros [= <-]|].
  destruct (r_Identities m !! x) as [v|]; simpl; [|apply IH]. intros H. by apply IH in H.
Qed.

Lemma addOrRemove_cons add x l X :
  addOrRemove add (x :: l) X = addOrRemove add l (addOrRemove add [x] X).
Proof. unfold addOrRemove. destruct add; set_solver. Qed.

Lemma changeIdentities_rep add idx p l m a P pol :
  pols_pre a → router_rep m a → a_Policies a !! p = Some P → r_ServicePolicies m !! p = Some pol →
  Forall (λ x, x ∈ dom (a_Identities a)) l →
  ∃ pol' m', foldM (changeIdentity add idx) l (pol, m) = Some (pol', m') ∧
    router_rep (upd_ServicePolicies (<[p := pol']> (r_ServicePolicies m')) m')
      (with_Policies (<[p := set_related RelatedIdentity (addOrRemove add l) P]> (a_Policies a)) a).
Proof.
  revert m a P pol. induction l as [|x l IH]; intros m a P pol Ha Hm HP Hpol Hl.
  { exists pol, m. split; [done|]. rewrite !insert_id; try done.
    - by destruct m, a.
    - rewrite HP. f_equal. destruct P, add; simpl; f_equal; set_solver. }
  inversion Hl as [|? ? Hx Hl']; subst.
  destruct (changeIdentity_rep m a Ha Hm p P pol idx add HP Hpol x Hx) as (pol1 & m1 & H1 & HSP & Hm1).
  set (c := mkPolicyChange p [x] RelatedIdentity add).
  assert (pols_pre (abs_change c a)) as Ha1 by by apply abs_change_pre.
  unfold abs_change in Ha1. simpl in Ha1. rewrite HP in Ha1.
  destruct (IH _ _ (set_related RelatedIdentity (addOrRemove add [x]) P) pol1 Ha1 Hm1)
    as (pol2 & m2 & H2 & Hm2); [by simpl; rewrite lookup_insert_eq..|done|].
  cbn [foldM]. rewrite H1. simpl. rewrite changeIdentity_frame in H2.
  destruct (foldM (changeIdentity add idx) l (pol1, m1)) as [[pol3 m3]|] eqn:H3; simplify_eq/=.
  apply changeIdentity_policies in H3 as HSP3. simpl in HSP3.
  exists pol2, m3. split; [done|]. revert Hm2. unfold with_Policies. simpl.
  rewrite !insert_insert_eq, (addOrRemove_cons add x l), HSP3, HSP. done.
Qed.

Lemma wf_proper (add : bool) (l : list string) (P ids : gset string) :
  NoDup l ∧ (if add then Forall (λ x, x ∈ ids ∧ x ∉ P) l else Forall (λ x, x ∈ P) l) →
  proper_change add l P.
Proof.
  intros [Hnd Hl]. split; [done|]. intros x Hx. destruct add; rewrite Forall_forall in Hl.
  - by apply (Hl x Hx).
  - by apply (Hl x Hx).
Qed.

(** A policy change is carried out, without a panic. *)
Lemma HandleServicePolicyChange_rep idx c m a :
  pols_pre a → wf_change c a → router_rep m a →
  ∃ m', HandleServicePolicyChange idx c m = Some m' ∧ router_rep m' (abs_change c a).
Proof.
  intros Ha Hwf Hm. unfold HandleServicePolicyChange, abs_change.
  pose proof (rr_pol _ _ Hm (pch_PolicyId c)) as Hr. unfold wf_change in Hwf.
  destruct (r_ServicePolicies m !! pch_PolicyId c) as [pol|] eqn:Hpol,
    (a_Policies a !! pch_PolicyId c) as [P|] eqn:HP; inversion Hr as [? ? Hrel|]; [|eauto].
  destruct (pch_RelatedEntityType c).
  - destruct (changeServices_rep m a Ha Hm _ P pol idx (pch_Add c) (pch_RelatedEntityIds c) HP Hpol)
      as (m' & -> & Hm'); [by eapply wf_proper|]. simpl. eexists. split; [done|]. auto with zt.
  - destruct (changeIdentities_rep (pch_Add c) idx _ (pch_RelatedEntityIds c) m a P pol Ha Hm HP Hpol)
      as (pol' & m' & -> & Hm'); [done|]. simpl. eexists. split; [done|]. auto with zt.
  - destruct (changePostureChecks_rep m a Ha Hm _ P pol idx (pch_Add c) (pch_RelatedEntityIds c) HP Hpol)
      as (m' & -> & Hm'); [by eapply wf_proper|]. simpl. eexists. split; [done|]. auto with zt.
Qed.

(** *** Removing an entity from the policies that have it *)

Definition abs_cleanup (t : RelatedEntityType) (id : string) (l : list string) (a : Abs) : Abs :=
  foldl (λ a p, abs_change (mkPolicyChange p [id] t false) a) a l.

Lemma set_related_ext t f g P : (∀ X, f X = g X) → set_related t f P = set_related t g P.
Proof. intros Hfg. destruct t; simpl; by rewrite Hfg. Qed.

Lemma abs_cleanup_spec t id l a :
  NoDup l →
  ∃ pols, abs_cleanup t id l a = with_Policies pols a ∧
    ∀ q, pols !! q = if decide (q ∈ l) then set_related t (λ X, X ∖ {[id]}) <$> a_Policies a !! q
                     else a_Policies a !! q.
Proof.
  intros Hnd. revert a. induction Hnd as [|p l Hp Hnd IH]; intros a; simpl.
  { exists (a_Policies a). split; [by destruct a|done]. }
  destruct (IH (abs_change (mkPolicyChange p [id] t false) a)) as (pols & -> & Hpols).
  exists pols. split.
  { unfold abs_change. simpl. by destruct (a_Policies a !! p). }
  assert (∀ X : gset string, addOrRemove false [id] X = X ∖ {[id]}) as Hrm
    by (intros X; unfold addOrRemove; set_solver).
  intros q. rewrite Hpols. unfold abs_change. simpl.
  destruct (a_Policies a !! p) as [P|] eqn:HP; simpl.
  - destruct (decide (q = p)) as [->|Hne].
    + rewrite decide_False, decide_True by (done || left). rewrite lookup_insert_eq, HP. simpl.
      f_equal. by apply set_related_ext.
    + rewrite lookup_insert_ne by done.
      destruct (decide (q ∈ l)); [rewrite decide_True by (by right)|rewrite decide_False by set_solver]; done.
  - destruct (decide (q = p)) as [->|Hne].
    + rewrite decide_False, decide_True by (done || left). by rewrite HP.
    + destruct (decide (q ∈ l)); [rewrite decide_True by (by right)|rewrite decide_False by set_solver]; done.
Qed.

Lemma cleanup_rep idx t id l m a :
  NoDup l → pols_pre a → router_rep m a →
  (∀ p, p ∈ l → ∃ P, a_Policies a !! p = Some P ∧ id ∈ related t P) →
  (t = RelatedIdentity → id ∈ dom (a_Identities a)) →
  ∃ m', cleanup idx l t id m = Some m' ∧ router_rep m' (abs_cleanup t id l a).
Proof.
  intros Hnd. revert m a. induction Hnd as [|p l Hp Hnd IH]; intros m a Ha Hm Hl Ht; [simpl; eauto|].
  unfold cleanup in *. cbn [foldM]. set (c := mkPolicyChange p [id] t false).
  destruct (Hl p) as (P & HP & Hin); [left|].
  assert (wf_change c a) as Hwf.
  { unfold wf_change. simpl. rewrite HP. destruct t; simpl in *.
    - split; [apply NoDup_singleton|by constructor].
    - constructor; [by apply Ht|constructor].
    - split; [apply NoDup_singleton|by constructor]. }
  destruct (HandleServicePolicyChange_rep idx c m a Ha Hwf Hm) as (m1 & -> & Hm1). simpl.
  apply IH; [by apply abs_change_pre|done| |].
  - intros q Hq. destruct (Hl q) as (Q & HQ & HinQ); [by right|]. exists Q. split; [|done].
    unfold abs_change. simpl. rewrite HP. simpl. rewrite lookup_insert_ne; [done|].
    intros ->. done.
  - intros E. specialize (Ht E). unfold abs_change. simpl. by rewrite HP.
Qed.

(** When all policies that have it are named, the entity has left the policies. *)
Lemma abs_cleanup_all t id l a :
  NoDup l → (∀ p P, a_Policies a !! p = Some P → id ∈ related t P → p ∈ l) →
  abs_cleanup t id l a = drop_related t id a.
Proof.
  intros Hnd Hall. destruct (abs_cleanup_spec t id l a Hnd) as (pols & -> & Hpols).
  unfold drop_related. f_equal. apply map_eq. intros q. rewrite Hpols, lookup_fmap.
  destruct (decide (q ∈ l)) as [|Hni]; [done|].
  destruct (a_Policies a !! q) as [Q|] eqn:HQ; [|done]. simpl. f_equal.
  assert (id ∉ related t Q) as Hn by (intros Hin; apply Hni; eauto).
  destruct Q, t; simpl in *; f_equal; set_solver.
Qed.

Lemma policiesWith_spec f id m l p :
  p ∈ policiesWith f id m l ↔ p ∈ l ∧ ∃ v, r_ServicePolicies m !! p = Some v ∧ id ∈ f v.
Proof.
  unfold policiesWith. rewrite list_elem_of_filter. split.
  - intros [Hid Hp]. split; [done|]. destruct (r_ServicePolicies m !! p) as [v|]; simpl in Hid; [eauto|set_solver].
  - intros [Hp (v & -> & Hid)]. done.
Qed.
Lemma policiesWith_NoDup f id m (X : gset string) : NoDup (policiesWith f id m (elements X)).
Proof. apply NoDup_filter, NoDup_elements. Qed.

(** *** Events *)

(** Config references change nothing that is represented. *)
Lemma config_fold {l} {g : Config → Config} (M : gmap string Config) :
  (∀ v, c_Model (g v) = c_Model v) →
  c_Model <$> foldl (λ cs c, match cs !! c with Some v => <[c := g v]> cs | None => cs end) M l =
  c_Model <$> M.
Proof.
  intros Hg. revert M. induction l as [|c l IH]; intros M; simpl; [done|]. rewrite IH.
  destruct (M !! c) as [v|] eqn:E; [|done]. rewrite fmap_insert, Hg. apply insert_id.
  by rewrite lookup_fmap, E.
Qed.
Lemma referenceConfigs_rep add i m a : router_rep m a → router_rep (referenceConfigs add i m) a.
Proof. intros []. split; simpl; try done. by rewrite config_fold. Qed.
Lemma referenceService_rep add s l m a : router_rep m a → router_rep (referenceService add s l m) a.
Proof. intros []. split; simpl; try done. by rewrite config_fold. Qed.

(** Entities that come or are replaced keep their data. *)
Lemma ident_ok_new pols i idx x :
  map_Forall (λ _ P, i ∉ ap_Identities P) pols → ident_ok pols i (mkIdentity x ∅ ∅ ∅ idx false).
Proof.
  intros Hno.
  assert (∀ f : AbsPolicy → bool, (∀ P, i ∉ ap_Identities P → f P = false) → count_if f pols = 0%nat) as H0.
  { intros f Hf. unfold count_if. rewrite map_empty_filter_2; [apply map_size_empty|].
    intros k P HP. simpl. rewrite (Hf P); [done|]. by apply (Hno k P). }
  split; simpl; [|done|].
  - split; [set_solver|]. intros p P HP. specialize (Hno p P HP). simpl in Hno. set_solver.
  - intros c. rewrite lookup_empty. simpl. apply H0. intros P HP. unfold asks.
    by rewrite bool_decide_false.
Qed.

Lemma ident_none i a : abs_ok a → a_Identities a !! i = None →
  map_Forall (λ _ P, i ∉ ap_Identities P) (a_Policies a).
Proof.
  intros Ha Hi p P HP Hin. destruct (ok_pol _ Ha _ _ HP) as (_ & _ & _ & Hr).
  specialize (Hr RelatedIdentity i Hin). simpl in Hr. apply elem_of_dom in Hr as [? ?]. congruence.
Qed.

Lemma identity_put_rep idx act x m a :
  act ≠ Delete → abs_ok a → router_rep m a →
  ∃ m', HandleIdentityEvent idx act x m = Some m' ∧ router_rep m' (abs_handle (EvIdentity act x) a).
Proof.
  intros Hact Ha Hm.
  assert (∀ v m0, ident_ok (a_Policies a) (im_Id x) v → id_Model v = x → router_rep m0 a →
    router_rep (upd_Identities (<[im_Id x := v]> (r_Identities m0)) m0)
      (abs_handle (EvIdentity act x) a)) as Hput.
  { intros v m0 Hv Hx []. simpl. rewrite bool_decide_false by done.
    assert (putOrDelete act (im_Id x) x (a_Identities a) = <[im_Id x := x]> (a_Identities a))
      as -> by by destruct act.
    split; simpl; try done. intros i. destruct (decide (i = im_Id x)) as [->|Hne].
    - rewrite !lookup_insert_eq. constructor. split; [rewrite Hx; apply id_sim_refl|done].
    - rewrite !lookup_insert_ne by done. apply rr_id0. }
  assert (∃ m1, HandleIdentityEvent idx act x m = Some m1 ∧
    router_rep m1 (abs_handle (EvIdentity act x) a)); [|done].
  pose proof (rr_id _ _ Hm (im_Id x)) as Hr. unfold HandleIdentityEvent.
  destruct (r_Identities m !! im_Id x) as [v|] eqn:Hv; inversion Hr as [? y [Hsim Hok] E|E]; subst.
  - destruct act; [| |done]; eexists; (split; [done|]); apply queueCheck_rep, Hput; try done;
      try (by repeat apply referenceConfigs_rep); by destruct Hok; split.
  - destruct act; [| |done]; eexists; (split; [done|]); apply queueCheck_rep, Hput; try done;
      try (by repeat apply referenceConfigs_rep); by apply ident_ok_new, ident_none.
Qed.

Lemma identity_delete_rep idx x m a :
  abs_ok a → router_rep m a →
  ∃ m', HandleIdentityEvent idx Delete x m = Some m' ∧ router_rep m' (abs_handle (EvIdentity Delete x) a).
Proof.
  intros Ha Hm.
  assert (∀ m1, router_rep m1 (drop_related RelatedIdentity (im_Id x) a) →
    router_rep (upd_Identities (delete (im_Id x) (r_Identities m1)) m1)
      (abs_handle (EvIdentity Delete x) a)) as Hdel.
  { intros m1 []. split; simpl in *; try done. intros i. destruct (decide (i = im_Id x)) as [->|Hi].
    - rewrite !lookup_delete_eq. constructor.
    - rewrite !lookup_delete_ne by done. apply rr_id0. }
  unfold HandleIdentityEvent. pose proof (rr_id _ _ Hm (im_Id x)) as Hr.
  destruct (r_Identities m !! im_Id x) as [v|] eqn:Hv; inversion Hr as [? y [Hsim Hok] E Hy|E Hy].
  - set (l := policiesWith _ _ _ _).
    assert (∀ p, p ∈ l ↔ ∃ P, a_Policies a !! p = Some P ∧ im_Id x ∈ ap_Identities P) as Hl.
    { intros p. unfold l. rewrite policiesWith_spec, elem_of_elements.
      pose proof (rr_pol _ _ Hm p) as Hp. destruct (io_member _ _ _ Hok) as [Hsub Hmem]. split.
      - intros [_ (w & Hw & Hin)]. rewrite Hw in Hp. inversion Hp as [? P [_ Hids]|]. subst.
        exists P. split; [done|congruence].
      - intros (P & HP & Hin). split; [by apply (Hmem p P HP)|]. rewrite HP in Hp.
        inversion Hp as [w ? [_ Hids]|]. subst. exists w. split; [done|congruence]. }
    destruct (cleanup_rep idx RelatedIdentity (im_Id x) l (referenceConfigs false (id_Model v) m) a)
      as (m1 & -> & Hm1).
    + apply policiesWith_NoDup.
    + by apply abs_ok_pre.
    + by apply referenceConfigs_rep.
    + intros p Hp. by apply Hl.
    + intros _. apply elem_of_dom. by rewrite <- Hy.
    + simpl. eexists. split; [done|]. apply queueCheck_rep, Hdel.
      rewrite abs_cleanup_all in Hm1; [done|apply policiesWith_NoDup|].
      intros p P HP Hin. apply Hl. eauto.
  - simpl. eexists. split; [done|]. apply queueCheck_rep, Hdel.
    rewrite <- (abs_cleanup_all _ _ []); [done|apply NoDup_nil_2|].
    intros p P HP Hin. by destruct (ident_none _ _ Ha (eq_sym Hy) p P HP).
Qed.

Lemma related_none t id a : abs_ok a → id ∉ entity_ids t a →
  ∀ p P, a_Policies a !! p = Some P → id ∉ related t P.
Proof. intros Ha Hid p P HP Hin. destruct (ok_pol _ Ha _ _ HP) as (_ & _ & _ & Hr). by apply Hid, (Hr t). Qed.

Lemma service_put_rep idx act x m a :
  act ≠ Delete → abs_ok a → router_rep m a →
  ∃ m', HandleServiceEvent idx act x m = Some m' ∧ router_rep m' (abs_handle (EvService act x) a).
Proof.
  intros Hact Ha Hm.
  assert (∀ v m0, svc_rel (a_Policies a) (sm_Id x) v x → router_rep m0 a →
    router_rep (upd_Services (<[sm_Id x := v]> (r_Services m0)) m0)
      (abs_handle (EvService act x) a)) as Hput.
  { intros v m0 Hv []. simpl. rewrite bool_decide_false by done.
    assert (putOrDelete act (sm_Id x) x (a_Services a) = <[sm_Id x := x]> (a_Services a))
      as -> by by destruct act.
    split; simpl; try done. intros s. destruct (decide (s = sm_Id x)) as [->|Hne].
    - rewrite !lookup_insert_eq. by constructor.
    - rewrite !lookup_insert_ne by done. apply rr_svc0. }
  assert (∀ m0 l, router_rep m0 (abs_handle (EvService act x) a) →
    router_rep (foldl (λ m p, NotifyServicePolicyServiceChange p idx m) m0 l)
      (abs_handle (EvService act x) a)) as Hnotify.
  { intros m0 l H0. apply (foldl_pres _ (λ m, router_rep m _)); [|done]. auto with zt. }
  pose proof (rr_svc _ _ Hm (sm_Id x)) as Hr. unfold HandleServiceEvent.
  destruct (r_Services m !! sm_Id x) as [v|] eqn:Hv; inversion Hr as [? y [Hsim Hrev] E Hy|E Hy].
  - destruct (diffStringSlices _ _) as [only1 only2].
    destruct act; [| |done]; eexists; (split; [done|]); apply Hnotify, Hput;
      try (by repeat apply referenceService_rep); (split; [|done]);
      split_and!; try done; apply sortStrings_perm.
  - assert (svc_rel (a_Policies a) (sm_Id x) (mkService x ∅ idx) x) as Hnew.
    { split; [apply svc_sim_refl|]. intros p P HP Hin.
      destruct (related_none RelatedService (sm_Id x) a Ha) with (p := p) (P := P); try done.
      simpl. by apply not_elem_of_dom. }
    destruct act; [| |done]; eexists; (split; [done|]); apply Hnotify, Hput;
      by try repeat apply referenceService_rep.
Qed.

Lemma service_delete_rep idx x m a :
  abs_ok a → router_rep m a →
  ∃ m', HandleServiceEvent idx Delete x m = Some m' ∧ router_rep m' (abs_handle (EvService Delete x) a).
Proof.
  intros Ha Hm. pose proof (rr_svc _ _ Hm (sm_Id x)) as Hr. unfold HandleServiceEvent.
  set (a0 := mkAbs (a_ConfigTypes a) (a_Configs a) (a_Identities a) (delete (sm_Id x) (a_Services a))
    (a_Policies a) (a_Checks a) (a_Keys a) (a_Revocations a) (a_Used a)).
  assert (∀ m0, router_rep m0 a →
    router_rep (upd_Services (delete (sm_Id x) (r_Services m0)) m0) a0) as Hdel.
  { intros m0 []. split; simpl; try done. intros s. destruct (decide (s = sm_Id x)) as [->|Hne].
    - rewrite !lookup_delete_eq. constructor.
    - rewrite !lookup_delete_ne by done. apply rr_svc0. }
  assert (abs_handle (EvService Delete x) a = drop_related RelatedService (sm_Id x) a0) as -> by done.
  destruct (r_Services m !! sm_Id x) as [v|] eqn:Hv; inversion Hr as [? y [Hsim Hrev] E Hy|E Hy].
  - set (l := policiesWith _ _ _ _).
    assert (∀ p, p ∈ l ↔ ∃ P, a_Policies a !! p = Some P ∧ sm_Id x ∈ ap_Services P) as Hl.
    { intros p. unfold l. rewrite policiesWith_spec, elem_of_elements.
      pose proof (rr_pol _ _ Hm p) as Hp. split.
      - intros [_ (w & Hw & Hin)]. rewrite Hw in Hp. inversion Hp as [? P [Hlike _]|]. subst.
        exists P. split; [done|]. by rewrite <- (pl_services _ _ Hlike).
      - intros (P & HP & Hin). split; [by apply (Hrev p P)|]. rewrite HP in Hp.
        inversion Hp as [w ? [Hlike _]|]. subst. exists w. split; [done|].
        by rewrite (pl_services _ _ Hlike). }
    set (m0 := referenceService false (sm_Id x) (sm_Configs (s_Model v)) m).
    destruct (cleanup_rep idx RelatedService (sm_Id x) l
      (upd_Services (delete (sm_Id x) (r_Services m0)) m0) a0) as (m1 & H1 & Hm1).
    + apply policiesWith_NoDup.
    + by apply abs_ok_pre in Ha.
    + by apply Hdel, referenceService_rep.
    + intros p Hp. by apply Hl.
    + done.
    + exists m1. split; [done|]. rewrite abs_cleanup_all in Hm1; [done|apply policiesWith_NoDup|].
      intros p P HP Hin. apply Hl. eauto.
  - exists m. split; [done|]. rewrite <- (abs_cleanup_all _ _ []); [|apply NoDup_nil_2|].
    + assert (delete (sm_Id x) (a_Services a) = a_Services a) as Hid
        by (by apply delete_id). unfold a0, abs_cleanup. simpl. rewrite Hid. by destruct a.
    + intros p P HP Hin. destruct (related_none RelatedService (sm_Id x) a Ha) with (p := p) (P := P);
        try done. simpl. by apply not_elem_of_dom.
Qed.

Lemma check_rep idx act x m a :
  abs_ok a → wf_event (EvPostureCheck act x) a → router_rep m a →
  ∃ m', HandlePostureCheckEvent idx act x m = Some m' ∧
        router_rep m' (abs_handle (EvPostureCheck act x) a).
Proof.
  intros Ha Hwf Hm. unfold HandlePostureCheckEvent. destruct (decide (act = Delete)) as [->|Hact].
  - simpl in Hwf. set (l := match r_PostureChecks m !! pcm_Id x with Some _ => _ | None => _ end).
    assert (l = []) as ->.
    { unfold l. destruct (r_PostureChecks m !! pcm_Id x) as [v|]; [|done].
      apply elem_of_nil_inv. intros p Hp. apply policiesWith_spec in Hp as [_ (w & Hw & Hin)].
      pose proof (rr_pol _ _ Hm p) as Hr. rewrite Hw in Hr. inversion Hr as [? P [Hlike _] E HP|].
      apply (Hwf p P); [done|]. by rewrite <- (pl_checks _ _ Hlike). }
    assert (drop_related RelatedPostureCheck (pcm_Id x) a = a) as Hdrop.
    { rewrite <- (abs_cleanup_all _ _ []); [done|apply NoDup_nil_2|].
      intros p P HP Hin. by apply (Hwf p P HP) in Hin. }
    unfold abs_handle. rewrite bool_decide_true by done. rewrite Hdrop.
    simpl. eexists. split; [done|]. destruct Hm. split; simpl; try done. intros s.
    destruct (decide (s = pcm_Id x)) as [->|Hne].
    + rewrite !lookup_delete_eq. constructor.
    + rewrite !lookup_delete_ne by done. apply rr_chk0.
  - assert (abs_handle (EvPostureCheck act x) a = abs_handle (EvPostureCheck Create x) a) as ->
      by by destruct act.
    set (v' := mkPostureCheck x (from_option pc_servicePolicies ∅ (r_PostureChecks m !! pcm_Id x)) idx).
    eexists. split; [by destruct act|].
    apply (foldl_pres _ (λ m, router_rep m _)); [auto with zt|].
    pose proof (rr_chk _ _ Hm (pcm_Id x)) as Hr.
    assert (chk_rel (a_Policies a) (pcm_Id x) v' x) as Hv'.
    { unfold v'. destruct (r_PostureChecks m !! pcm_Id x) as [v|]; inversion Hr as [? ? [_ Hrev]|E Hy]; subst.
      - split; [done|]. apply Hrev.
      - split; [done|]. intros p P HP Hin.
        destruct (related_none RelatedPostureCheck (pcm_Id x) a Ha) with (p := p) (P := P); try done.
        simpl. by apply not_elem_of_dom. }
    destruct Hm. split; simpl; try done. intros s. destruct (decide (s = pcm_Id x)) as [->|Hne].
    + rewrite !lookup_insert_eq. by constructor.
    + rewrite !lookup_insert_ne by done. apply rr_chk0.
Qed.

(** *** Policies that come, change and go *)

Lemma ident_ok_fresh pols p P i v :
  pols !! p = None → ap_Identities P = ∅ → ident_ok pols i v → ident_ok (<[p := P]> pols) i v.
Proof.
  intros Hp HP [[Hsub Hmem] Hacc Hchk].
  assert (i ∉ ap_Identities P) as Hni by (rewrite HP; set_solver).
  assert (∀ f : AbsPolicy → bool, f P = false → count_if f (<[p := P]> pols) = count_if f pols) as Hc.
  { intros f Hf. by rewrite count_if_insert_new, Hf. }
  assert (∀ t s, grants t i s P = false) as Hg.
  { intros t s. unfold grants. rewrite (bool_decide_false (i ∈ _)) by done. by rewrite andb_false_r. }
  split; [split| |].
  - rewrite dom_insert_L. set_solver.
  - intros q Q HQ. apply lookup_insert_Some in HQ as [[<- <-]|[? HQ]]; [|by apply Hmem].
    split; [|done]. intros Hin. apply Hsub, elem_of_dom in Hin as [? ?]. congruence.
  - intros Htr s. rewrite !Hc by apply Hg. by apply Hacc.
  - intros c. rewrite Hc; [done|]. unfold asks. by rewrite (bool_decide_false (i ∈ _)).
Qed.

Lemma ident_ok_gone pols p P i v :
  pols !! p = Some P → i ∉ ap_Identities P → ident_ok pols i v → ident_ok (delete p pols) i v.
Proof.
  intros HP Hni [[Hsub Hmem] Hacc Hchk].
  assert (p ∉ id_ServicePolicies v) as Hnp by (by rewrite (Hmem p P HP)).
  assert (∀ f : AbsPolicy → bool, f P = false → count_if f (delete p pols) = count_if f pols) as Hc.
  { intros f Hf. rewrite <- (insert_delete_id pols p P HP) at 2.
    by rewrite count_if_insert_new, Hf by apply lookup_delete_eq. }
  assert (∀ t s, grants t i s P = false) as Hg.
  { intros t s. unfold grants. rewrite (bool_decide_false (i ∈ _)) by done. by rewrite andb_false_r. }
  split; [split| |].
  - rewrite dom_delete_L. set_solver.
  - intros q Q HQ. apply lookup_delete_Some in HQ as [? HQ]. by apply Hmem.
  - intros Htr s. rewrite !Hc by apply Hg. by apply Hacc.
  - intros c. rewrite Hc; [done|]. unfold asks. by rewrite (bool_decide_false (i ∈ _)).
Qed.

(** An identity of a policy whose type changes moves from the old to the new
    policy. *)
Lemma ident_retyped pols p P P' i v pol pol' idx :
  pols !! p = Some P → Z.of_nat (size pols) < 2 ^ 31 →
  pm_Id (po_Model pol) = p → pm_Id (po_Model pol') = p → pol_like pol P → pol_like pol' P' →
  i ∈ ap_Identities P' → ident_ok pols i v →
  ident_ok (<[p := P']> pols) i (addedToPolicy pol' idx (removedFromPolicy pol idx v)).
Proof.
  intros HP Hs Hid Hid' Hl Hl' Hi Hv.
  set (P0 := mkAbsPolicy (ap_Model P) (ap_Services P) (ap_Checks P) ∅).
  assert (ident_ok (<[p := P0]> pols) i (removedFromPolicy pol idx v)) as H0.
  { apply (ident_removed pols p i P P0); done. }
  rewrite <- (insert_insert_eq pols p P' P0).
  apply (ident_added (<[p := P0]> pols) p i P0 P'); try done.
  - by rewrite lookup_insert_eq.
  - by rewrite map_size_insert, HP.
Qed.

(** A loop that changes identities and queues checks. *)
Lemma loop_spec l (f : Identity → Identity) (g : string → RouterDataModel → RouterDataModel) m :
  NoDup l → (∀ i m, ∃ u e b, g i m = upd_queue u e b m) →
  ∃ ids u e b,
    foldM (λ i m, m ← withLockedIdentity i (λ v, Some (f v)) m; Some (g i m)) l m =
      Some (upd_queue u e b (upd_Identities ids m)) ∧
    ∀ i, ids !! i = if decide (i ∈ l) then f <$> r_Identities m !! i else r_Identities m !! i.
Proof.
  intros Hnd Hg.
  destruct (foldM_inv (λ i m, m ← withLockedIdentity i (λ v, Some (f v)) m; Some (g i m))
    (λ l1 m', ∃ ids u e b, m' = upd_queue u e b (upd_Identities ids m) ∧
       ∀ i, ids !! i = if decide (i ∈ l1) then f <$> r_Identities m !! i else r_Identities m !! i) l m)
    as (m' & Hm' & ids & u & e & b & -> & Hids).
  - intros l1 x l2 m1 -> (ids & u & e & b & -> & Hids). unfold withLockedIdentity. simpl.
    apply NoDup_app in Hnd as (_ & Hx & _).
    assert (x ∉ l1) as Hx1 by (intros Hin; apply (Hx x Hin); left).
    pose proof (Hids x) as Hx'. rewrite decide_False in Hx' by done.
    set (ids' := match r_Identities m !! x with Some v => <[x := f v]> ids | None => ids end).
    assert (∀ i, ids' !! i = if decide (i ∈ l1 ++ [x]) then f <$> r_Identities m !! i
                             else r_Identities m !! i) as Hids'.
    { intros i. unfold ids'. destruct (decide (i = x)) as [->|Hne].
      - rewrite decide_True by set_solver.
        destruct (r_Identities m !! x) eqn:E; [by rewrite lookup_insert_eq|done].
      - assert ((match r_Identities m !! x with Some v => <[x := f v]> ids | None => ids end) !! i
          = ids !! i) as -> by (destruct (r_Identities m !! x); by rewrite ?lookup_insert_ne).
        rewrite Hids. destruct (decide (i ∈ l1));
          [rewrite decide_True by set_solver|rewrite decide_False by set_solver]; done. }
    rewrite Hx'. unfold ids' in *. destruct (r_Identities m !! x) as [v|]; simpl.
    + destruct (Hg x (upd_Identities (<[x := f v]> ids) (upd_queue u e b (upd_Identities ids m))))
        as (u' & e' & b' & ->). eexists. split; [done|]. by exists (<[x := f v]> ids), u', e', b'.
    + destruct (Hg x (upd_queue u e b (upd_Identities ids m))) as (u' & e' & b' & ->).
      eexists. split; [done|]. by exists ids, u', e', b'.
  - exists (r_Identities m), (r_updatedIdentities m), (r_events m), (r_scanSubsNotify m). by destruct m.
  - eauto 10.
Qed.
Lemma queueCheck_queue flag ev i m : ∃ u e b, queueCheck flag ev i m = upd_queue u e b m.
Proof.
  unfold queueCheck. case_bool_decide; [destruct (_ <? _)%nat; eauto|].
  exists (r_updatedIdentities m), (r_events m), (r_scanSubsNotify m). by destruct m.
Qed.
Lemma NotifyIdentityChange_queue i m : ∃ u e b, NotifyIdentityChange i m = upd_queue u e b m.
Proof.
  unfold NotifyIdentityChange. destruct (_ !! _); [apply queueCheck_queue|].
  exists (r_updatedIdentities m), (r_events m), (r_scanSubsNotify m). by destruct m.
Qed.

Lemma policy_delete_rep idx x m a :
  abs_ok a → router_rep m a →
  ∃ m', applyDeleteServicePolicyEvent idx x m = Some m' ∧ router_rep m' (abs_policy Delete x a).
Proof.
  intros Ha Hm. unfold applyDeleteServicePolicyEvent. pose proof (rr_pol _ _ Hm (pm_Id x)) as Hr.
  destruct (r_ServicePolicies m !! pm_Id x) as [pol|] eqn:Hpol,
    (a_Policies a !! pm_Id x) as [P|] eqn:HP; try by inversion Hr.
  2:{ exists m. split; [done|]. unfold abs_policy. rewrite delete_id by done. by destruct a. }
  destruct (pol_facts m a (abs_ok_pre a Ha) Hm (pm_Id x) P pol HP Hpol) as (Hlike & Hpi & Hid & Ht).
  destruct (loop_spec (elements (po_Identities pol)) (removedFromPolicy pol idx) queueSyncCheck m)
    as (ids & u & e & b & -> & Hids); [apply NoDup_elements|intros; apply queueCheck_queue|].
  simpl. eexists. split; [done|]. pose proof Hm as []. split; simpl; try done.
  - intros s. eapply option_Forall2_impl; [|apply rr_svc0]. intros v y [Hsim Hrev].
    split; [done|]. intros p Q HQ. apply lookup_delete_Some in HQ as [? HQ]. by apply Hrev.
  - intros s. eapply option_Forall2_impl; [|apply rr_chk0]. intros v y [Hsim Hrev].
    split; [done|]. intros p Q HQ. apply lookup_delete_Some in HQ as [? HQ]. by apply Hrev.
  - intros p. destruct (decide (p = pm_Id x)) as [->|Hne].
    + rewrite !lookup_delete_eq. constructor.
    + by rewrite !lookup_delete_ne.
  - intros i. rewrite Hids. pose proof (rr_id0 i) as Hi.
    destruct (r_Identities m !! i) as [v|]; inversion Hi as [? y [Hsim Hok]|];
      [|by destruct (decide _); constructor].
    destruct (decide (i ∈ elements (po_Identities pol))) as [Hin|Hni]; simpl; constructor.
    + destruct (removedFromPolicy_base pol idx v) as [Hb _]. split; [by rewrite Hb|].
      set (P0 := mkAbsPolicy (ap_Model P) (ap_Services P) (ap_Checks P) ∅). simpl.
      rewrite <- (delete_insert_eq (a_Policies a) (pm_Id x) P0).
      apply (ident_ok_gone _ _ P0); [by rewrite lookup_insert_eq|done|].
      apply (ident_removed (a_Policies a) (pm_Id x) i P P0); try done. apply Ha.
    + split; [done|]. apply (ident_ok_gone _ _ P); [done| |done].
      by rewrite elem_of_elements, Hpi in Hni.
Qed.

Lemma policy_create_rep idx x m a :
  abs_ok a → a_Policies a !! pm_Id x = None → router_rep m a →
  ∃ m', applyUpdateServicePolicyEvent idx x m = Some m' ∧ router_rep m' (abs_policy Create x a).
Proof.
  intros Ha HP Hm. unfold applyUpdateServicePolicyEvent, abs_policy.
  pose proof (rr_pol _ _ Hm (pm_Id x)) as Hr. rewrite HP in Hr. rewrite HP.
  destruct (r_ServicePolicies m !! pm_Id x) as [pol|] eqn:Hpol; [inversion Hr|].
  eexists. split; [done|]. pose proof Hm as []. split; simpl; try done.
  - intros s. eapply option_Forall2_impl; [|apply rr_svc0]. intros v y [Hsim Hrev].
    split; [done|]. intros p Q HQ Hin. apply lookup_insert_Some in HQ as [[<- <-]|[? HQ]];
      [set_solver|by apply (Hrev p Q)].
  - intros s. eapply option_Forall2_impl; [|apply rr_chk0]. intros v y [Hsim Hrev].
    split; [done|]. intros p Q HQ Hin. apply lookup_insert_Some in HQ as [[<- <-]|[? HQ]];
      [set_solver|by apply (Hrev p Q)].
  - intros p. destruct (decide (p = pm_Id x)) as [->|Hne].
    + rewrite !lookup_insert_eq. by constructor.
    + by rewrite !lookup_insert_ne.
  - intros i. eapply option_Forall2_impl; [|apply rr_id0]. intros v y [Hsim Hok].
    split; [done|]. by apply ident_ok_fresh.
Qed.

Lemma policy_update_rep idx x m a P :
  abs_ok a → a_Policies a !! pm_Id x = Some P → router_rep m a →
  ∃ m', applyUpdateServicePolicyEvent idx x m = Some m' ∧ router_rep m' (abs_policy Create x a).
Proof.
  intros Ha HP Hm. unfold applyUpdateServicePolicyEvent, abs_policy.
  pose proof (rr_pol _ _ Hm (pm_Id x)) as Hr. rewrite HP in Hr. rewrite HP.
  destruct (r_ServicePolicies m !! pm_Id x) as [pol|] eqn:Hpol; [|by inversion Hr].
  pose proof (abs_ok_pre a Ha) as Hpre.
  destruct (pol_facts m a Hpre Hm (pm_Id x) P pol HP Hpol) as (Hlike & Hpi & Hid & Ht).
  set (P' := mkAbsPolicy x (ap_Services P) (ap_Checks P) (ap_Identities P)).
  set (pol' := mkServicePolicy x (po_Services pol) (po_PostureChecks pol) (po_Identities pol) idx 0).
  assert (pol_rel pol' P') as Hrel by (destruct Hlike; split; [split|]; done).
  set (f := λ v, if bool_decide (pm_PolicyType (po_Model pol) = pm_PolicyType x) then Some v
                 else Some (addedToPolicy pol' idx (removedFromPolicy pol idx v))).
  assert (∃ ids, (if bool_decide (pm_PolicyType (po_Model pol) = pm_PolicyType x) then Some m
    else withLockedIdentities (elements (po_Identities pol))
      (λ i, Some (addedToPolicy pol' idx (removedFromPolicy pol idx i))) m) = Some (upd_Identities ids m) ∧
    ∀ i, ids !! i = if decide (i ∈ elements (po_Identities pol)) then r_Identities m !! i ≫= f
                    else r_Identities m !! i) as (ids & Hw & Hids).
  { unfold f. destruct (bool_decide _).
    - exists (r_Identities m). rewrite upd_Identities_id. split; [done|]. intros i.
      destruct (decide _); [|done]. by destruct (r_Identities m !! i).
    - apply withLocked_spec; [apply NoDup_elements|eauto]. }
  rewrite Hw. simpl. eexists. split; [done|].
  assert (router_rep (upd_ServicePolicies (<[pm_Id x := pol']> (r_ServicePolicies m))
    (upd_PostureChecks (r_PostureChecks m) (upd_Services (r_Services m) (upd_Identities ids m))))
    (with_Policies (<[pm_Id x := P']> (a_Policies a)) a)) as Hrep; [|by destruct Hrep; split].
  apply rep_change; try done.
  - apply (rep_idents m a Hpre Hm (pm_Id x) P pol HP Hpol P' f ids); try done.
    intros i v Hi Hv. unfold f. case_bool_decide as E; eexists; (split; [done|]).
    + split; [|done]. apply (ident_ok_same (a_Policies a) (pm_Id x) i P P'); try done; [apply Ha|].
      intros t s. unfold grants. simpl. by rewrite <- E, (pl_model _ _ Hlike).
    + split.
      * apply (ident_retyped _ _ P); try done; [apply Ha|apply Hrel].
      * etrans; [apply removedFromPolicy_base|apply addedToPolicy_base].
  - intros s. eapply option_Forall2_impl; [|apply Hm]. intros v y. by apply (svc_other _ P).
  - intros s. eapply option_Forall2_impl; [|apply Hm]. intros v y. by apply (chk_other _ P).
Qed.

Lemma policy_rep idx act x m a :
  abs_ok a → router_rep m a →
  ∃ m', HandleServicePolicyEvent idx act x m = Some m' ∧ router_rep m' (abs_policy act x a).
Proof.
  intros Ha Hm. destruct (decide (act = Delete)) as [->|Hact]; [by apply policy_delete_rep|].
  assert (abs_policy act x a = abs_policy Create x a) as -> by by destruct act.
  assert (HandleServicePolicyEvent idx act x m = applyUpdateServicePolicyEvent idx x m) as ->
    by by destruct act.
  destruct (a_Policies a !! pm_Id x) as [P|] eqn:HP; [by eapply policy_update_rep|].
  by apply policy_create_rep.
Qed.

(** *** Configs *)

Lemma override_refs x s t c : override x s t = Some c → c ∈ config_refs x.
Proof.
  unfold override, config_refs. intros Ho. apply bind_Some in Ho as (cs & Hcs & Ht).
  apply list_elem_of_bind. exists cs. split.
  - apply list_elem_of_fmap. exists (t, c). split; [done|]. by apply elem_of_map_to_list.
  - apply list_elem_of_fmap. exists (s, cs). split; [done|]. by apply elem_of_map_to_list.
Qed.

Lemma override_prune c i s t c' :
  override (pruneConfig c i) s t = Some c' ↔ override i s t = Some c' ∧ c' ≠ c.
Proof.
  unfold override, pruneConfig. simpl. split.
  - intros Ho. apply bind_Some in Ho as (cs & Hcs & Ht).
    apply map_lookup_filter_Some in Hcs as [Hcs _]. rewrite lookup_fmap in Hcs.
    destruct (im_ServiceConfigs i !! s) as [cs0|]; simplify_eq/=.
    apply map_lookup_filter_Some in Ht as [? ?]. done.
  - intros [Ho Hne]. apply bind_Some in Ho as (cs & Hcs & Ht). apply bind_Some.
    exists (filter (λ kv, kv.2 ≠ c) cs).
    assert (filter (λ kv : string * string, kv.2 ≠ c) cs !! t = Some c') as Ht'
      by (by apply map_lookup_filter_Some). split; [|done].
    apply map_lookup_filter_Some. split; [by rewrite lookup_fmap, Hcs|].
    simpl. intros He. by rewrite He, lookup_empty in Ht'.
Qed.

Lemma id_sim_mono C C' v x : C' ⊆ C → id_sim C v x → id_sim C' v x.
Proof. intros HC (? & ? & ? & ? & ? & ? & ? & ? & ? & Hr). split_and!; try done. auto. Qed.

Lemma config_put_rep idx act x m a :
  act ≠ Delete → wf_event (EvConfig act x) a → abs_ok a → router_rep m a →
  ∃ m', HandleConfigEvent idx act x m = Some m' ∧ router_rep m' (abs_handle (EvConfig act x) a).
Proof.
  intros Hact Hwf Ha Hm.
  assert (cm_Id x ∈ dom (a_Configs a) ∨
    map_Forall (λ _ i, cm_Id x ∉ config_refs i) (a_Identities a)) as Hfresh by by destruct act.
  assert (abs_handle (EvConfig act x) a = abs_handle (EvConfig Create x) a) as -> by by destruct act.
  assert (∀ v m0, c_Model v = x → router_rep m0 a →
    router_rep (upd_Configs (<[cm_Id x := v]> (r_Configs m0)) m0)
      (abs_handle (EvConfig Create x) a)) as Hput.
  { intros v m0 Hv []. split; simpl; try done.
    - by rewrite fmap_insert, Hv, rr_cfg0.
    - intros i. specialize (rr_id0 i). destruct (r_Identities m0 !! i) as [w|],
        (a_Identities a !! i) as [y|] eqn:Hy; inversion_clear rr_id0 as [? ? [Hsim Hok]|]; [|constructor].
      constructor. split; [|done]. simpl.
      destruct Hsim as (? & ? & ? & ? & ? & ? & ? & ? & Hsub & Hr). split_and!; try done.
      intros s t c Hc Ho. rewrite dom_insert_L in Hc.
      destruct (decide (c ∈ dom (a_Configs a))) as [Hin|Hni]; [by apply Hr|].
      assert (c = cm_Id x) as -> by set_solver. destruct Hfresh as [?|Hno]; [done|].
      by destruct (Hno i y Hy (override_refs y s t _ Ho)). }
  unfold HandleConfigEvent. destruct act; [| |done]; eexists; (split; [done|]); apply Hput; try done;
    (destruct (match r_Configs m !! cm_Id x with Some v => _ | None => true end); [|done]);
    by apply notifyConfig_rep.
Qed.

Lemma config_delete_rep idx x m a :
  abs_ok a → router_rep m a →
  ∃ m', HandleConfigEvent idx Delete x m = Some m' ∧ router_rep m' (abs_handle (EvConfig Delete x) a).
Proof.
  intros Ha Hm. unfold HandleConfigEvent. pose proof (rr_cfg _ _ Hm) as Hcfg.
  assert (a_Configs a !! cm_Id x = c_Model <$> r_Configs m !! cm_Id x) as Hl
    by by rewrite <- Hcfg, lookup_fmap.
  destruct (r_Configs m !! cm_Id x) as [v|] eqn:Hv; simpl in Hl.
  2:{ exists m. split; [done|]. simpl. rewrite delete_id by done. by destruct a. }
  pose proof (ok_cfg _ Ha _ _ Hl) as Hvid. simpl in Hvid. rewrite Hvid.
  set (m0 := foldl _ m _).
  assert (router_rep m0 a) as Hm0 by (apply (foldl_pres _ (λ m, router_rep m a)); auto with zt).
  destruct (loop_spec (elements (c_identities v)) (pruneIdentity (cm_Id x)) NotifyIdentityChange m0)
    as (ids & u & e & b & -> & Hids); [apply NoDup_elements|intros; apply NotifyIdentityChange_queue|].
  simpl. eexists. split; [done|]. destruct Hm0. split; simpl; try done.
  - by rewrite fmap_delete, rr_cfg0.
  - intros i. rewrite Hids. specialize (rr_id0 i). destruct (r_Identities m0 !! i) as [w|],
      (a_Identities a !! i) as [y|]; inversion_clear rr_id0 as [? ? [Hsim Hok]|];
      [|by destruct (decide _); constructor].
    destruct (decide _); simpl; constructor; (split; [|by destruct Hok; split]); simpl.
    + destruct Hsim as (? & ? & ? & ? & ? & ? & ? & ? & Hsub & Hr). split_and!; try done.
      * intros s t c Ho. apply override_prune in Ho as [? _]. by apply Hsub.
      * intros s t c Hc Ho. rewrite dom_delete_L in Hc. apply override_prune.
        split; [apply Hr; [set_solver|done]|set_solver].
    + eapply id_sim_mono; [|done]. rewrite dom_delete_L. set_solver.
Qed.

Lemma configType_rep idx act x m a :
  router_rep m a → ∃ m', HandleConfigTypeEvent idx act x m = Some m' ∧
  router_rep m' (abs_handle (EvConfigType act x) a).
Proof.
  intros Hm. unfold HandleConfigTypeEvent. eexists. split; [done|]. pose proof (rr_ct _ _ Hm) as Hct.
  assert (∀ v, ct_Model v = x → act ≠ Delete →
    router_rep (upd_ConfigTypes (<[ctm_Id x := v]> (r_ConfigTypes m)) m)
      (abs_handle (EvConfigType act x) a)) as Hput.
  { intros v Hv Hact. destruct Hm. split; simpl; try done. rewrite fmap_insert, Hv, Hct.
    by destruct act. }
  assert (∀ m0 l, router_rep m0 (abs_handle (EvConfigType act x) a) →
    router_rep (foldl (λ m config, if bool_decide (cm_TypeId (c_Model config) = ctm_Id x)
      then notifyConfig idx config m else m) m0 l) (abs_handle (EvConfigType act x) a)) as Hnot.
  { intros m0 l H0. apply (foldl_pres _ (λ m, router_rep m _)); [|done].
    intros m1 c H1. destruct (bool_decide _); auto with zt. }
  destruct act; [by apply Hnot, Hput|by apply Hnot, Hput|].
  destruct Hm. split; simpl; try done. by rewrite fmap_delete, Hct.
Qed.

(** ** The router's copy is a copy *)

Lemma router_handle_rep idx ev m a :
  abs_ok a → wf_event ev a → router_rep m a →
  ∃ m', Handle idx ev m = Some m' ∧ router_rep m' (abs_handle ev a).
Proof.
  intros Ha Hwf Hm. destruct ev as [act x|act x|act x|act x|act x|act x|act x|act x|c]; simpl Handle.
  - by apply configType_rep.
  - destruct (decide (act = Delete)) as [->|]; [by apply config_delete_rep|by apply config_put_rep].
  - destruct (decide (act = Delete)) as [->|]; [by apply identity_delete_rep|by apply identity_put_rep].
  - destruct (decide (act = Delete)) as [->|]; [by apply service_delete_rep|by apply service_put_rep].
  - by apply policy_rep.
  - by apply check_rep.
  - eexists. split; [done|]. destruct Hm. split; simpl; try done. by rewrite rr_key0.
  - eexists. split; [done|]. destruct Hm. split; simpl; try done. by rewrite rr_rev0.
  - apply HandleServicePolicyChange_rep; [by apply abs_ok_pre|done|done].
Qed.

#[global] Instance RouterCopy : DataModelCopy RouterDataModel := {|
  dm_rep := router_rep;
  dm_new := NewReceiverRouterDataModel;
  dm_Handle := Handle;
  dm_new_rep := router_new_rep;
  dm_Handle_rep := router_handle_rep;
|}.
