(* ===== verification/RdmSync.v ===== *)
(** * The router keeps up with the controller, and what it then decides

    Theorems on the two copies of the data model together: a router that is
    built from a full state and then applies the change sets represents what the
    controller represents, the service list kept with counters equals the one
    computed from the policies, and the access decision. *)

From stdpp Require Import base gmap list strings fin_maps fin_sets sorting.
From Stdlib Require Import ZArith Lia.
From S2P Require Import Prelude EventCache DataModel DataModelSpec SenderCopy RouterDataModel RouterCopy.

Import Sender(addOrRemove, putOrDelete).
Import Receiver.

Open Scope Z_scope.

(** ** Turning the counting of service access on and off *)

(** The policies of a list. *)
Definition among (l : list string) (pols : policies) : policies := filter (λ kv, kv.1 ∈ l) pols.

Lemma among_snoc l p P pols : pols !! p = Some P → among (l ++ [p]) pols = <[p := P]> (among l pols).
Proof.
  intros HP. apply map_eq. intros q. unfold among. destruct (decide (q = p)) as [->|Hne].
  - rewrite lookup_insert_eq. apply map_lookup_filter_Some. split; [done|]. simpl. set_solver.
  - rewrite lookup_insert_ne by done. rewrite !map_lookup_filter.
    destruct (pols !! q); simpl; [|done]. apply option_guard_iff. set_solver.
Qed.
Lemma among_none l p pols : p ∉ l → among l pols !! p = None.
Proof. intros Hp. apply map_lookup_filter_None. right. by intros x _. Qed.
Lemma among_size l pols : (size (among l pols) ≤ size pols)%nat.
Proof. apply map_subseteq_size, map_filter_subseteq. Qed.

(** Counting one policy more. *)
Lemma countPolicy_ok pols l p P i pol acc :
  pols !! p = Some P → p ∉ l → Z.of_nat (size pols) < 2 ^ 31 →
  pol_like pol P → pm_PolicyType (ap_Model P) ≠ InvalidPolicy → i ∈ ap_Identities P →
  access_counts (among l pols) i acc → access_counts (among (l ++ [p]) pols) i (countPolicy pol acc).
Proof.
  intros HP Hp Hsize [Hm Hs Hc] Ht Hi Hacc s. rewrite (among_snoc l p P) by done.
  rewrite !count_if_insert_new by (by apply among_none).
  pose proof (count_if_le_size (grants DialPolicy i s) (among (l ++ [p]) pols)) as HD.
  pose proof (count_if_le_size (grants BindPolicy i s) (among (l ++ [p]) pols)) as HB.
  pose proof (among_size (l ++ [p]) pols) as Hle. rewrite (among_snoc l p P) in HD, HB, Hle by done.
  rewrite !count_if_insert_new in HD, HB by (by apply among_none).
  set (idx := Z.max (po_postureChecksIndex pol) (po_servicesIndex pol)).
  set (h := λ o, Some (updateServicePolicies pol idx true (default noAccess o))).
  assert (countPolicy pol acc = foldl (λ m k, partial_alter h k m) acc (elements (po_Services pol))) as ->.
  { unfold countPolicy. apply foldl_ext'. intros m k. apply map_eq. intros k'.
    destruct (decide (k' = k)) as [->|Hne].
    - by rewrite lookup_insert_eq, lookup_partial_alter_eq.
    - by rewrite lookup_insert_ne, lookup_partial_alter_ne by done. }
  rewrite foldl_alter_lookup by apply NoDup_elements. specialize (Hacc s).
  assert (∀ t, grants t i s P = bool_decide (pm_PolicyType (ap_Model P) = t) &&
    bool_decide (s ∈ elements (po_Services pol))) as Hg.
  { intros t. unfold grants. by rewrite (bool_decide_true (i ∈ _)), andb_true_r, bool_elem_elements, Hs. }
  rewrite !Hg in *. destruct (decide (s ∈ elements (po_Services pol))) as [Hin|Hni].
  - rewrite (bool_decide_true (s ∈ _)) in * by done. rewrite !andb_true_r in *.
    set (d' := (_ + count_if (grants DialPolicy i s) _)%nat) in *.
    set (b' := (_ + count_if (grants BindPolicy i s) _)%nat) in *.
    assert (acc_ok d' b' (bumpAccess pol idx true (acc !! s))) as Hb.
    { eapply bumpAccess_ok; [done|..]; unfold delta, IsDial, IsBind; rewrite ?Hm; lia. }
    revert Hb. unfold bumpAccess, h. destruct (HasAccess _); [done|]. intros [Hd0 Hb0].
    destruct (pm_PolicyType (ap_Model P)); [done|..]; subst d' b'; simpl in *; lia.
  - rewrite (bool_decide_false (s ∈ _)) by done. rewrite !andb_false_r. done.
Qed.

Lemma buildServiceAccessList_ok m a i v :
  abs_ok a → router_rep m a → ident_ok (a_Policies a) i v →
  access_counts (a_Policies a) i (buildServiceAccessList v m).
Proof.
  intros Ha Hm Hv. destruct (io_member _ _ _ Hv) as [Hsub Hmem].
  assert (∀ l, NoDup l → (∀ p, p ∈ l → p ∈ id_ServicePolicies v) →
    access_counts (among l (a_Policies a)) i
      (foldl (λ services p, match r_ServicePolicies m !! p with
        | Some policy => countPolicy policy services | None => services end) ∅ l)) as Hl.
  { induction l as [|p l IH] using rev_ind; intros Hnd Hin.
    - intros s. cbn [foldl]. rewrite lookup_empty. unfold among.
      rewrite map_empty_filter_2; [by rewrite !count_if_empty|]. intros k P HP. simpl. set_solver.
    - apply NoDup_app in Hnd as (Hnd & Hx & _). rewrite foldl_app. simpl.
      assert (p ∈ id_ServicePolicies v) as Hp by (apply Hin; set_solver).
      apply Hsub in Hp as Hd. apply elem_of_dom in Hd as [P HP].
      pose proof (rr_pol _ _ Hm p) as Hr. rewrite HP in Hr.
      destruct (r_ServicePolicies m !! p) as [pol|]; inversion_clear Hr as [? ? [Hlike _]|].
      apply (countPolicy_ok _ _ _ P).
      + done.
      + intros Hpl. apply (Hx p Hpl). left.
      + apply Ha.
      + done.
      + by destruct (ok_pol _ Ha _ _ HP) as (_ & ? & _).
      + by apply (Hmem p P HP).
      + apply IH; [done|]. intros q Hq. apply Hin. set_solver. }
  specialize (Hl (elements (id_ServicePolicies v)) ltac:(apply NoDup_elements)
    ltac:(intros p; by rewrite elem_of_elements)).
  intros s. specialize (Hl s).
  assert (∀ t, count_if (grants t i s) (among (elements (id_ServicePolicies v)) (a_Policies a)) =
               count_if (grants t i s) (a_Policies a)) as Heq.
  { intros t. unfold count_if, among. f_equal. rewrite map_filter_filter. apply map_filter_ext.
    intros p P HP. simpl. split; [tauto|]. intros Hg. split; [done|]. apply elem_of_elements.
    apply (Hmem p P HP). unfold grants in Hg. bool_prop. done. }
  by rewrite !Heq in Hl.
Qed.

Lemma tracking_rep (b : bool) i m a :
  abs_ok a → router_rep m a →
  ∃ m', (if b then EnableServiceAccessTracking i m else DisableServiceAccessTracking i m) = Some m' ∧
        router_rep m' a.
Proof.
  intros Ha Hm. pose proof (rr_id _ _ Hm i) as Hr.
  assert (∀ v, r_Identities m !! i = Some v → ∀ x, a_Identities a !! i = Some x → ∀ v', id_rel a i v' x →
    router_rep (upd_Identities (<[i := v']> (r_Identities m)) m) a) as Hput.
  { intros v Hv x Hx v' Hv'. destruct Hm. split; simpl; try done. intros j.
    destruct (decide (j = i)) as [->|Hne]; [rewrite lookup_insert_eq, Hx; by constructor|].
    by rewrite lookup_insert_ne. }
  unfold EnableServiceAccessTracking, DisableServiceAccessTracking, withLockedIdentity.
  destruct (r_Identities m !! i) as [v|] eqn:Hv, (a_Identities a !! i) as [x|] eqn:Hx;
    inversion_clear Hr as [? ? [Hsim Hok]|]; [|destruct b; eauto].
  destruct b; simpl; eexists; (split; [done|]); apply (Hput v eq_refl x eq_refl);
    destruct (id_serviceAccessTrackingEnabled v) eqn:Htr; (split; [done|]); try done;
    destruct Hok as [Hmem Hacc Hchk]; split; simpl; try done.
  intros _. by apply buildServiceAccessList_ok.
Qed.

(** ** Runs of a router's model: events, and counting turned on and off *)

Inductive model_op :=
| op_event (index : Z) (ev : Event)
| op_tracking (enable : bool) (identityId : string).

Definition model_step (o : model_op) (m : RouterDataModel) : option RouterDataModel :=
  match o with
  | op_event idx ev => Handle idx ev m
  | op_tracking b i =>
    if b then EnableServiceAccessTracking i m else DisableServiceAccessTracking i m
  end.
Definition op_events (o : model_op) : list Event :=
  match o with op_event _ ev => [ev] | op_tracking _ _ => [] end.
Definition ops_events (ops : list model_op) : list Event := ops ≫= op_events.

Lemma model_run_rep ops m a :
  abs_ok a → wf_events (ops_events ops) a → router_rep m a →
  ∃ m', foldM model_step ops m = Some m' ∧ router_rep m' (abs_run (ops_events ops) a) ∧
        abs_ok (abs_run (ops_events ops) a).
Proof.
  revert m a. induction ops as [|o ops IH]; intros m a Ha Hwf Hm; [by exists m|]. cbn [foldM].
  destruct o as [idx ev|b i]; simpl in *.
  - destruct Hwf as [Hev Hevs].
    destruct (router_handle_rep idx ev m a Ha Hev Hm) as (m1 & -> & Hm1). simpl.
    apply IH; [by apply abs_handle_ok|done|done].
  - destruct (tracking_rep b i m a Ha Hm) as (m1 & -> & Hm1). simpl. by apply IH.
Qed.

(** ** The two service lists *)

(** A service of a list without the indexes, which only serve to detect changes
    and are computed differently by the two lists. *)
Definition svc_view (x : IdentityService) : Service * gmap string IdentityConfig * bool * bool :=
  (is_Service x, is_Configs x, is_DialAllowed x, is_BindAllowed x).

Definition polTest (m : RouterDataModel) (f : ServicePolicy → bool) (p : string) : bool :=
  from_option f false (r_ServicePolicies m !! p).
(** Some policy of the list satisfies [f]. *)
Definition somePolicy (m : RouterDataModel) (f : ServicePolicy → bool) (l : list string) : bool :=
  existsb (polTest m f) l.
Definition hasService (s : string) (pol : ServicePolicy) : bool := bool_decide (s ∈ po_Services pol).
Definition hasCheck (c : string) (pol : ServicePolicy) : bool :=
  negb (bool_decide (po_Services pol = ∅)) && bool_decide (c ∈ po_PostureChecks pol).

Definition stepView (v : Identity) (m : RouterDataModel) (pol : ServicePolicy) (svc : Service)
    (o : option (Service * gmap string IdentityConfig * bool * bool)) :=
  match o with
  | Some (x, c, d, b) => (x, c, d || IsDial pol, b || IsBind pol)
  | None => (svc, loadServiceConfigs v svc m, IsDial pol, IsBind pol)
  end.

Lemma addPolicyService_view v m pol l M s :
  NoDup l →
  svc_view <$> foldl (addPolicyService v m pol) M l !! s =
  if decide (s ∈ l)
  then match r_Services m !! s with
       | Some svc => Some (stepView v m pol svc (svc_view <$> M !! s))
       | None => svc_view <$> M !! s
       end
  else svc_view <$> M !! s.
Proof.
  intros Hnd. revert M. induction Hnd as [|x l Hx Hnd IH]; intros M; simpl; [done|].
  rewrite IH. destruct (decide (s = x)) as [->|Hne].
  - rewrite decide_False by done. rewrite decide_True by left. unfold addPolicyService.
    destruct (r_Services m !! x) as [svc|]; [|done]. rewrite lookup_insert_eq. simpl. f_equal.
    assert (IsDial pol && IsBind pol = false) as He.
    { unfold IsDial, IsBind. do 2 case_bool_decide; try done; congruence. }
    destruct (M !! x) as [isv|]; simpl; destruct (IsDial pol), (IsBind pol); try done;
      unfold svc_view; simpl; by rewrite ?orb_true_r, ?orb_false_r.
  - assert (addPolicyService v m pol M x !! s = M !! s) as ->.
    { unfold addPolicyService. destruct (r_Services m !! x); [|done]. by rewrite lookup_insert_ne. }
    destruct (decide (s ∈ l)); [rewrite (decide_True (P := s ∈ x :: l)) by (by right)
      |rewrite (decide_False (P := s ∈ x :: l)) by set_solver]; done.
Qed.

Lemma loadServicePostureChecks_spec m pol M c :
  loadServicePostureChecks m pol M !! c =
  match M !! c with
  | Some x => Some x
  | None => if hasCheck c pol then r_PostureChecks m !! c else None
  end.
Proof.
  unfold loadServicePostureChecks, hasCheck. case_bool_decide; simpl; [by destruct (M !! c)|].
  set (h := λ c (o : option PostureCheck), match o, r_PostureChecks m !! c with
            | None, Some check => Some check | _, _ => o end).
  rewrite (foldl_ext' _ (λ M c, partial_alter (h c) c M)).
  - rewrite foldl_alter_keyed by apply NoDup_elements. rewrite <- bool_elem_elements.
    destruct (decide _); [rewrite bool_decide_true by done|rewrite bool_decide_false by done];
      unfold h; destruct (M !! c), (r_PostureChecks m !! c); done.
  - intros M' x. apply map_eq. intros y. unfold h. destruct (decide (y = x)) as [->|Hne].
    + rewrite lookup_partial_alter_eq. destruct (M' !! x) eqn:E1, (r_PostureChecks m !! x) eqn:E2;
        rewrite ?lookup_insert_eq; done.
    + rewrite lookup_partial_alter_ne by done.
      destruct (M' !! x), (r_PostureChecks m !! x); by rewrite ?lookup_insert_ne.
Qed.

Lemma somePolicy_snoc m f l p : somePolicy m f (l ++ [p]) = somePolicy m f l || polTest m f p.
Proof. unfold somePolicy. rewrite existsb_app. simpl. by rewrite orb_false_r. Qed.

Lemma somePolicy_false m f g l :
  (∀ pol, f pol = true → g pol = true) → somePolicy m g l = false → somePolicy m f l = false.
Proof.
  intros Hfg. induction l as [|p l IH]; simpl; [done|]. intros [Hp Hl]%orb_false_iff.
  rewrite IH by done. rewrite orb_false_r. unfold polTest in *.
  destruct (r_ServicePolicies m !! p) as [pol|]; simpl in *; [|done].
  destruct (f pol) eqn:E; [|done]. apply Hfg in E. congruence.
Qed.

Lemma buildServiceList_spec v m l :
  let F := foldl (λ acc policyId,
      match r_ServicePolicies m !! policyId with
      | None => acc
      | Some policy =>
        (foldl (addPolicyService v m policy) acc.1 (elements (po_Services policy)),
         loadServicePostureChecks m policy acc.2)
      end) (∅, ∅) l in
  (∀ s, svc_view <$> F.1 !! s =
     svc ← r_Services m !! s;
     if somePolicy m (hasService s) l
     then Some (svc, loadServiceConfigs v svc m, somePolicy m (λ p, IsDial p && hasService s p) l,
                somePolicy m (λ p, IsBind p && hasService s p) l)
     else None) ∧
  (∀ c, F.2 !! c = if somePolicy m (hasCheck c) l then r_PostureChecks m !! c else None).
Proof.
  induction l as [|p l IH] using rev_ind.
  { simpl. split; intros k; rewrite ?lookup_empty; [by destruct (r_Services m !! k)|done]. }
  destruct IH as [IHs IHc]. simpl.
  rewrite foldl_app. simpl. set (F := foldl _ _ l) in *.
  destruct (r_ServicePolicies m !! p) as [pol|] eqn:Hp; simpl.
  - split.
    + intros s. rewrite addPolicyService_view by apply NoDup_elements. rewrite IHs, !somePolicy_snoc.
      unfold polTest. rewrite Hp. simpl.
      assert (hasService s pol = bool_decide (s ∈ elements (po_Services pol))) as ->
        by (symmetry; apply bool_elem_elements).
      destruct (decide (s ∈ elements (po_Services pol))) as [Hin|Hni];
        [rewrite (bool_decide_true (s ∈ _)) by done|rewrite (bool_decide_false (s ∈ _)) by done];
        rewrite ?orb_true_r, ?orb_false_r, ?andb_true_r, ?andb_false_r, ?orb_false_r.
      * destruct (r_Services m !! s) as [svc|]; simpl; [|done].
        destruct (somePolicy m (hasService s) l) eqn:E; simpl; [done|].
        rewrite !(somePolicy_false _ _ (hasService s)) by (done || by intros ? [_ ?]%andb_prop). done.
      * done.
    + intros c. rewrite loadServicePostureChecks_spec, IHc, somePolicy_snoc. unfold polTest.
      rewrite Hp. simpl. destruct (somePolicy m (hasCheck c) l); simpl; [|done].
      destruct (r_PostureChecks m !! c); [done|]. by destruct (hasCheck c pol).
  - split; intros k; rewrite !somePolicy_snoc; unfold polTest; rewrite Hp; simpl;
      rewrite !orb_false_r; auto.
Qed.

(** *** Policies of an identity and counts *)

Lemma count_if_ex {V} (f : V → bool) (M : gmap string V) :
  (0 < count_if f M)%nat ↔ ∃ k y, M !! k = Some y ∧ f y = true.
Proof.
  split; [|intros (k & y & Hk & Hy); by eapply count_if_pos].
  unfold count_if. intros Hpos.
  destruct (map_choose (filter (λ kv, f kv.2 = true) M)) as (k & y & Hk).
  - intros He. rewrite He, map_size_empty in Hpos. lia.
  - apply map_lookup_filter_Some in Hk as [? ?]. eauto.
Qed.

Lemma of_nat_pos n : (Z.of_nat n >? 0) = bool_decide (0 < n)%nat.
Proof. destruct n; done. Qed.

Section Lists.
Context (m : RouterDataModel) (a : Abs) (Ha : abs_ok a) (Hm : router_rep m a).
Context (i : string) (v : Identity) (Hv : ident_ok (a_Policies a) i v).
Let l := elements (id_ServicePolicies v).

Lemma somePolicy_count (f : ServicePolicy → bool) (g : AbsPolicy → bool) :
  (∀ pol P, pol_rel pol P → g P = bool_decide (i ∈ ap_Identities P) && f pol) →
  somePolicy m f l = bool_decide (0 < count_if g (a_Policies a))%nat.
Proof.
  intros Hfg. destruct (io_member _ _ _ Hv) as [Hsub Hmem]. symmetry.
  destruct (somePolicy m f l) eqn:E.
  - apply bool_decide_eq_true, count_if_ex. unfold somePolicy in E.
    apply existsb_exists in E as (p & Hin & Hp). unfold polTest in Hp.
    pose proof (rr_pol _ _ Hm p) as Hr.
    destruct (r_ServicePolicies m !! p) as [pol|] eqn:Hpol; [|done]. simpl in Hp.
    inversion Hr as [? P Hrel E HP|]. exists p, P. split; [done|]. rewrite (Hfg pol P) by done.
    rewrite Hp, andb_true_r. apply bool_decide_eq_true. apply (Hmem p P); [done|].
    apply elem_of_elements. by apply list_elem_of_In.
  - apply bool_decide_eq_false. rewrite count_if_ex. intros (p & P & HP & Hg).
    pose proof (rr_pol _ _ Hm p) as Hr. rewrite HP in Hr. inversion Hr as [pol ? Hrel E'|]. subst.
    rewrite (Hfg pol P) in Hg by done. bool_prop.
    enough (somePolicy m f l = true) by congruence. apply existsb_exists. exists p. split.
    + apply list_elem_of_In, elem_of_elements. by apply (Hmem p P).
    + unfold polTest. by rewrite <- E'.
Qed.

Lemma some_dial s :
  somePolicy m (λ p, IsDial p && hasService s p) l =
  bool_decide (0 < count_if (grants DialPolicy i s) (a_Policies a))%nat.
Proof.
  apply somePolicy_count. intros pol P [[Hmod Hsvc _] _]. unfold grants, IsDial, hasService.
  rewrite Hmod, Hsvc. destruct (bool_decide (i ∈ _)); by rewrite ?andb_true_r, ?andb_false_r.
Qed.
Lemma some_bind s :
  somePolicy m (λ p, IsBind p && hasService s p) l =
  bool_decide (0 < count_if (grants BindPolicy i s) (a_Policies a))%nat.
Proof.
  apply somePolicy_count. intros pol P [[Hmod Hsvc _] _]. unfold grants, IsBind, hasService.
  rewrite Hmod, Hsvc. destruct (bool_decide (i ∈ _)); by rewrite ?andb_true_r, ?andb_false_r.
Qed.
Lemma some_check c :
  somePolicy m (hasCheck c) l = bool_decide (0 < count_if (asks i c) (a_Policies a))%nat.
Proof.
  apply somePolicy_count. intros pol P [[Hmod Hsvc Hchk] _]. unfold asks, hasCheck.
  rewrite Hsvc, Hchk, bool_empty, negb_involutive. by rewrite andb_assoc.
Qed.
(** Policies are dial or bind policies. *)
Lemma some_service s :
  somePolicy m (hasService s) l =
  somePolicy m (λ p, IsDial p && hasService s p) l || somePolicy m (λ p, IsBind p && hasService s p) l.
Proof.
  assert (∀ p, polTest m (hasService s) p =
    polTest m (λ p, IsDial p && hasService s p) p || polTest m (λ p, IsBind p && hasService s p) p) as Hp.
  { intros p. unfold polTest. pose proof (rr_pol _ _ Hm p) as Hr.
    destruct (r_ServicePolicies m !! p) as [pol|]; simpl; [|done].
    inversion Hr as [? P [[Hmod _ _] _] E HP|]. destruct (ok_pol _ Ha _ _ (eq_sym HP)) as (_ & Ht & _).
    unfold IsDial, IsBind. rewrite Hmod. by destruct (pm_PolicyType (ap_Model P)), (hasService s pol). }
  unfold somePolicy. induction l as [|p l' IH]; simpl; [done|]. rewrite Hp, IH.
  destruct (polTest m _ p), (polTest m _ p), (existsb _ l'), (existsb _ l'); done.
Qed.

(** The list kept with counters is the one computed from the policies. *)
Lemma lists_agree :
  id_serviceAccessTrackingEnabled v = true → r_Identities m !! i = Some v →
  let N := buildServiceList v m in
  let D := buildServiceListUsingDenormalizedData i v m in
  svc_view <$> N.1 = svc_view <$> D.1 ∧ N.2 = D.2.
Proof.
  intros Htr Hi. simpl. unfold buildServiceList. fold l.
  destruct (buildServiceList_spec v m l) as [Hs Hc].
  unfold buildServiceListUsingDenormalizedData. rewrite Hi. simpl. split; apply map_eq.
  - intros s. rewrite !lookup_fmap, Hs, map_lookup_imap, some_service, some_dial, some_bind.
    pose proof (io_access _ _ _ Hv Htr s) as Hacc. unfold acc_ok in Hacc.
    destruct (r_Services m !! s) as [svc|], (id_ServiceAccess v !! s) as [acc|]; simpl; try done.
    + destruct Hacc as (HD & HB & Hpos). unfold svc_view, IsDialAllowed, IsBindAllowed. simpl.
      rewrite HD, HB, !of_nat_pos. do 2 case_bool_decide; simpl; (done || lia).
    + destruct Hacc as [-> ->]. done.
  - intros c. rewrite Hc, map_lookup_imap, some_check.
    pose proof (io_checks _ _ _ Hv c) as Hcc. unfold use_ok in Hcc.
    destruct (id_PostureChecks v !! c) as [z|]; simpl.
    + rewrite bool_decide_true by lia. by destruct (r_PostureChecks m !! c).
    + rewrite bool_decide_false by lia. done.
Qed.
End Lists.

(** ** What events leave alone *)

Definition frame (m : RouterDataModel) := (r_index m, r_timelineId m, r_subscriptions m, r_terminatorIdCache m).

Lemma foldM_pres {A B} (f : B → A → option A) (P : A → Prop) l a a' :
  (∀ x a a', f x a = Some a' → P a → P a') → foldM f l a = Some a' → P a → P a'.
Proof.
  intros Hf. revert a. induction l as [|x l IH]; intros a; simpl; [by intros [= <-]|].
  destruct (f x a) as [a1|] eqn:E; simpl; [|done]. intros H Ha. eapply IH; eauto.
Qed.

Lemma queueCheck_frame flag ev i m : frame (queueCheck flag ev i m) = frame m.
Proof. unfold queueCheck. case_bool_decide; [by destruct (_ <? _)%nat|done]. Qed.
Lemma NotifyIdentityChange_frame i m : frame (NotifyIdentityChange i m) = frame m.
Proof. unfold NotifyIdentityChange. destruct (_ !! _); [apply queueCheck_frame|done]. Qed.
Lemma foldl_frame {B} (f : RouterDataModel → B → RouterDataModel) l m :
  (∀ m x, frame (f m x) = frame m) → frame (foldl f m l) = frame m.
Proof. intros Hf. revert m. induction l as [|x l IH]; intros m; simpl; [done|]. by rewrite IH, Hf. Qed.
Lemma notifyAll_frame l m : frame (notifyAll l m) = frame m.
Proof. apply foldl_frame. intros. apply NotifyIdentityChange_frame. Qed.
Lemma NotifyServicePolicyServiceChange_frame p idx m :
  frame (NotifyServicePolicyServiceChange p idx m) = frame m.
Proof.
  unfold NotifyServicePolicyServiceChange. destruct (_ !! _); [|done].
  rewrite notifyAll_frame. by destruct (_ <? _).
Qed.
Lemma NotifyServicePolicyPostureChecksChange_frame p idx m :
  frame (NotifyServicePolicyPostureChecksChange p idx m) = frame m.
Proof.
  unfold NotifyServicePolicyPostureChecksChange. destruct (_ !! _); [|done].
  rewrite notifyAll_frame. by destruct (_ <? _).
Qed.
Lemma NotifyServiceOfConfigChange_frame s idx m : frame (NotifyServiceOfConfigChange s idx m) = frame m.
Proof.
  unfold NotifyServiceOfConfigChange. destruct (_ !! _); [|done].
  rewrite foldl_frame by (intros; apply NotifyServicePolicyServiceChange_frame). by destruct (_ <? _).
Qed.
Lemma notifyConfig_frame idx v m : frame (notifyConfig idx v m) = frame m.
Proof.
  unfold notifyConfig. rewrite notifyAll_frame. apply foldl_frame. intros.
  apply NotifyServiceOfConfigChange_frame.
Qed.

Lemma withLockedIdentity_frame i f m m' : withLockedIdentity i f m = Some m' → frame m' = frame m.
Proof.
  unfold withLockedIdentity. destruct (_ !! _) as [v|]; [|by intros [= <-]].
  destruct (f v); simpl; [|done]. by intros [= <-].
Qed.
Lemma withLockedIdentities_frame l f m m' : withLockedIdentities l f m = Some m' → frame m' = frame m.
Proof.
  intros H. refine (foldM_pres _ (λ m1, frame m1 = frame m) l m m' _ H eq_refl).
  intros x a a' Hx <-. by apply withLockedIdentity_frame in Hx.
Qed.

Ltac frame_bind :=
  match goal with
  | |- (?x ≫= _) = Some _ → _ => destruct x eqn:?; simpl; [|done]
  end.

Lemma HandleServicePolicyChange_frame idx c m m' :
  HandleServicePolicyChange idx c m = Some m' → frame m' = frame m.
Proof.
  unfold HandleServicePolicyChange. destruct (_ !! _) as [pol|]; [|by intros [= <-]].
  frame_bind. destruct p as [pol1 m1]. intros [= <-].
  rewrite !notifyAll_frame. change (frame m1 = frame m).
  destruct (pch_RelatedEntityType c).
  - revert Heqo. unfold changeServices. frame_bind. frame_bind. intros [= <- <-].
    apply withLockedIdentities_frame in Heqo as E1. rewrite <- E1. clear E1 Heqo.
    destruct (pch_Add c), (_ && _); simplify_eq; try done;
      by apply withLockedIdentities_frame in Heqo0.
  - refine (foldM_pres _ (λ pm, frame pm.2 = frame m) _ _ _ _ Heqo eq_refl).
    intros x [q m2] [q' m3]. unfold changeIdentity. destruct (_ !! _); intros [= <- <-]; done.
  - revert Heqo. unfold changePostureChecks. frame_bind. intros [= <- <-].
    change (frame r = frame m). destruct (bool_decide _); [by simplify_eq|].
    by apply withLockedIdentities_frame in Heqo.
Qed.
Lemma cleanup_frame idx l t id m m' : cleanup idx l t id m = Some m' → frame m' = frame m.
Proof.
  intros H. refine (foldM_pres _ (λ m1, frame m1 = frame m) l m m' _ H eq_refl).
  intros x a a' Hx <-. by apply HandleServicePolicyChange_frame in Hx.
Qed.
Lemma loop_frame l f g m m' :
  (∀ i m, frame (g i m) = frame m) →
  foldM (λ i m, m ← withLockedIdentity i f m; Some (g i m)) l m = Some m' → frame m' = frame m.
Proof.
  intros Hg H. refine (foldM_pres _ (λ m1, frame m1 = frame m) l m m' _ H eq_refl).
  intros x a a'. frame_bind. intros [= <-] <-. rewrite Hg. by eapply withLockedIdentity_frame.
Qed.

Lemma Handle_frame idx ev m m' : Handle idx ev m = Some m' → frame m' = frame m.
Proof.
  destruct ev as [act x|act x|act x|act x|act x|act x|act x|act x|c]; simpl Handle.
  - unfold HandleConfigTypeEvent. intros [= <-]. destruct act; try done;
      (rewrite foldl_frame; [done|]); intros m1 v; (destruct (bool_decide _); [apply notifyConfig_frame|done]).
  - unfold HandleConfigEvent. destruct act.
    + intros [= <-]. destruct (match _ !! _ with Some _ => _ | None => _ end); [apply notifyConfig_frame|done].
    + intros [= <-]. destruct (match _ !! _ with Some _ => _ | None => _ end); [apply notifyConfig_frame|done].
    + destruct (_ !! _); [|by intros [= <-]]. frame_bind. intros [= <-].
      apply loop_frame in Heqo; [|intros; apply NotifyIdentityChange_frame].
      change (frame r = frame m). rewrite Heqo. apply foldl_frame. intros.
      apply NotifyServiceOfConfigChange_frame.
  - unfold HandleIdentityEvent. destruct act.
    + destruct (r_Identities m !! _); intros [= <-]; (etrans; [apply queueCheck_frame|done]).
    + destruct (r_Identities m !! _); intros [= <-]; (etrans; [apply queueCheck_frame|done]).
    + destruct (r_Identities m !! _); frame_bind; intros [= <-];
        (etrans; [apply queueCheck_frame|]); by apply cleanup_frame in Heqo.
  - unfold HandleServiceEvent. destruct act.
    + destruct (r_Services m !! _); [destruct (diffStringSlices _ _)|]; intros [= <-];
        (rewrite foldl_frame; [done|]); intros; apply NotifyServicePolicyServiceChange_frame.
    + destruct (r_Services m !! _); [destruct (diffStringSlices _ _)|]; intros [= <-];
        (rewrite foldl_frame; [done|]); intros; apply NotifyServicePolicyServiceChange_frame.
    + destruct (r_Services m !! _); [|by intros [= <-]]. intros H. by apply cleanup_frame in H.
  - unfold HandleServicePolicyEvent. assert (applyUpdateServicePolicyEvent idx x m = Some m' →
      frame m' = frame m) as Hup.
    { unfold applyUpdateServicePolicyEvent. destruct (_ !! _); [|by intros [= <-]].
      frame_bind. intros [= <-]. change (frame r = frame m).
      destruct (bool_decide _); [by simplify_eq|]. by apply withLockedIdentities_frame in Heqo. }
    destruct act; [done|done|]. unfold applyDeleteServicePolicyEvent.
    destruct (_ !! _); [|by intros [= <-]]. frame_bind. intros [= <-]. change (frame r = frame m).
    apply loop_frame in Heqo; [done|]. intros. apply queueCheck_frame.
  - unfold HandlePostureCheckEvent. destruct act.
    + intros [= <-]. rewrite foldl_frame; [done|]. intros. apply NotifyServicePolicyPostureChecksChange_frame.
    + intros [= <-]. rewrite foldl_frame; [done|]. intros. apply NotifyServicePolicyPostureChecksChange_frame.
    + frame_bind. intros [= <-]. by apply cleanup_frame in Heqo.
  - by intros [= <-].
  - by intros [= <-].
  - apply HandleServicePolicyChange_frame.
Qed.

(** ** Router and controller *)

(** The controller's copy after some events. *)
Definition controller (evs : list Event) : RouterDataModelSender :=
  foldl (λ m ev, Sender.Handle ev m) NewRouterDataModelSender evs.

Lemma controller_rep evs : wf_events evs abs_empty → sender_rep (controller evs) (abs_run evs abs_empty).
Proof.
  intros Hwf. destruct (dm_run_rep 0 evs NewRouterDataModelSender abs_empty) as (m & Hm & Hrep);
    [apply abs_empty_ok|done|apply sender_new_rep|].
  unfold dm_Handle in Hm. simpl in Hm. rewrite foldM_pure in Hm. by injection Hm as <-.
Qed.

(** A model that knows all but some revocations of another. *)
Definition lacks_revocations (b a : Abs) : Prop :=
  ∃ rev used, used ⊆ a_Used a ∧
    b = mkAbs (a_ConfigTypes a) (a_Configs a) (a_Identities a) (a_Services a) (a_Policies a)
          (a_Checks a) (a_Keys a) rev used.

Lemma lacks_handle ev b a : lacks_revocations b a → lacks_revocations (abs_handle ev b) (abs_handle ev a).
Proof.
  intros (rev & used & Hu & ->). destruct ev as [act x|act x|act x|act x|act x|act x|act x|act x|c];
    try (by exists rev, used); simpl.
  - case_bool_decide; by exists rev, used.
  - case_bool_decide; by exists rev, used.
  - unfold abs_policy. destruct act; [exists rev, ({[pm_Id x]} ∪ used).. |by exists rev, used];
      (split; [simpl; set_solver|done]).
  - case_bool_decide; by exists rev, used.
  - by exists (putOrDelete act (rev_Id x) x rev), used.
  - unfold abs_change. simpl. destruct (a_Policies a !! _); by exists rev, used.
Qed.
Lemma lacks_wf ev b a : lacks_revocations b a → wf_event ev a → wf_event ev b.
Proof.
  intros (rev & used & Hu & ->) Hwf.
  destruct ev as [act x|[] x|act x|act x|[] x|[] x|act x|act x|c]; simpl in *; try done.
  - destruct Hwf as [? [?|[? ?]]]; (split; [done|]); [by left|right]. split; [set_solver|done].
  - destruct Hwf as [? [?|[? ?]]]; (split; [done|]); [by left|right]. split; [set_solver|done].
Qed.
Lemma lacks_run evs b a :
  lacks_revocations b a → wf_events evs a →
  wf_events evs b ∧ lacks_revocations (abs_run evs b) (abs_run evs a).
Proof.
  revert b a. induction evs as [|ev evs IH]; intros b a Hl Hwf; [done|]. destruct Hwf as [Hev Hevs].
  destruct (IH (abs_handle ev b) (abs_handle ev a)) as [? ?]; [by apply lacks_handle|done|].
  split; [split; [by eapply lacks_wf|done]|done].
Qed.

(** The router knows what the controller knows, some revocations apart. *)
Definition in_step (r : RouterDataModel) (s : RouterDataModelSender) : Prop :=
  ∃ a b, sender_rep s a ∧ router_rep r b ∧ abs_ok b ∧ lacks_revocations b a.

(** Change sets as a controller sends them after index [idx]. *)
Fixpoint following (idx : Z) (changes : list (ChangeSet Event)) : Prop :=
  match changes with
  | [] => True
  | c :: changes => cs_IsSynthetic c = false ∧ idx < cs_Index c ∧ following (cs_Index c) changes
  end.
Definition changed (changes : list (ChangeSet Event)) : list Event := changes ≫= cs_Changes.

Lemma router_rep_index idx m a : router_rep m a → router_rep (upd_index idx m) a.
Proof. intros []. by split. Qed.

Lemma ApplyChangeSet_rep c r b :
  cs_IsSynthetic c = false → r_index r < cs_Index c → wf_events (cs_Changes c) b → abs_ok b →
  router_rep r b →
  ∃ r', ApplyChangeSet c r = Some r' ∧ r_index r' = cs_Index c ∧
        router_rep r' (abs_run (cs_Changes c) b).
Proof.
  intros Hsyn Hidx Hwf Hb Hr. unfold ApplyChangeSet. rewrite Hsyn.
  assert ((r_index r >? 0) && (r_index r >=? cs_Index c) = false) as ->.
  { apply andb_false_iff. right. rewrite Z.geb_leb. apply Z.leb_gt. lia. }
  destruct (dm_run_rep (M := RouterDataModel) (cs_Index c) (cs_Changes c) (upd_index (cs_Index c) r) b)
    as (r' & Hrun & Hr'); [done|done|by apply router_rep_index|].
  exists r'. split; [done|]. split; [|done].
  assert (frame r' = frame (upd_index (cs_Index c) r)) as Hf; [|by injection Hf].
  refine (foldM_pres _ (λ m, frame m = _) _ _ _ _ Hrun eq_refl).
  intros x m m' Hx <-. by apply Handle_frame in Hx.
Qed.

Lemma ApplyChangeSets_rep changes idx r b :
  following idx changes → r_index r = idx → wf_events (changed changes) b → abs_ok b → router_rep r b →
  ∃ r', foldM ApplyChangeSet changes r = Some r' ∧
        r_index r' = from_option cs_Index idx (last changes) ∧
        router_rep r' (abs_run (changed changes) b) ∧ abs_ok (abs_run (changed changes) b).
Proof.
  revert idx r b. induction changes as [|c changes IH]; intros idx r b Hf Hidx Hwf Hb Hr;
    [by exists r|]. destruct Hf as (Hsyn & Hlt & Hf). unfold changed in *. simpl in Hwf.
  apply wf_events_app in Hwf as [Hw1 Hw2].
  destruct (ApplyChangeSet_rep c r b) as (r1 & H1 & Hi1 & Hr1); [done|lia|done..|].
  cbn [foldM]. rewrite H1. simpl.
  destruct (IH (cs_Index c) r1 (abs_run (cs_Changes c) b)) as (r' & ? & Hl & ? & ?); try done.
  { by apply abs_run_ok. }
  exists r'. rewrite abs_run_app. split_and!; try done. rewrite Hl. rewrite last_cons.
  by destruct (last changes).
Qed.

Lemma full_state_rep evs idx tl :
  wf_events evs abs_empty →
  ∃ ds r, Sender.getDataState idx tl (controller evs) = Some ds ∧
    NewReceiverRouterDataModelFromDataState ds = Some r ∧
    r_index r = idx ∧ r_timelineId r = tl ∧
    router_rep r (without_revocations (abs_run evs abs_empty)) ∧
    abs_ok (without_revocations (abs_run evs abs_empty)).
Proof.
  intros Hwf. pose proof (abs_run_ok evs _ abs_empty_ok Hwf) as Ha.
  destruct (sender_full_state (controller evs) _ Ha (controller_rep evs Hwf) idx tl)
    as (fs & Hds & Hfs & Hrun). rewrite <- Hrun.
  set (m0 := mkRdm ∅ ∅ ∅ ∅ ∅ ∅ ∅ ∅ ∅ ∅ ∅ [] false tl 0).
  assert (router_rep m0 abs_empty) as Hm0 by by destruct router_new_rep; split.
  destruct (dm_run_rep (M := RouterDataModel) idx fs m0 abs_empty) as (r & Hr & Hrep);
    [apply abs_empty_ok|done|done|].
  exists (mkDataState fs idx tl ∅), (upd_index idx r). split; [done|].
  unfold NewReceiverRouterDataModelFromDataState. simpl. unfold dm_Handle in Hr. simpl in Hr.
  fold m0. rewrite Hr. split_and!; [done..| | |by apply abs_run_ok; [apply abs_empty_ok|]].
  - assert (frame r = frame m0) as Hf; [|by injection Hf].
    refine (foldM_pres _ (λ m, frame m = _) _ _ _ _ Hr eq_refl).
    intros x m m' Hx <-. by apply Handle_frame in Hx.
  - by apply router_rep_index.
Qed.

(** C5. Full state round trip: whatever well-formed events a controller has
    applied, its full state can be taken, a router builds its model from it
    without a panic, takes over index and timeline, and then represents exactly
    the controller's model without its revocations. *)
Theorem full_state_roundtrip evs idx tl :
  wf_events evs abs_empty →
  ∃ a ds r, sender_rep (controller evs) a ∧
    Sender.getDataState idx tl (controller evs) = Some ds ∧
    NewReceiverRouterDataModelFromDataState ds = Some r ∧
    r_index r = idx ∧ r_timelineId r = tl ∧ router_rep r (without_revocations a).
Proof.
  intros Hwf. destruct (full_state_rep evs idx tl Hwf) as (ds & r & Hds & Hr & Hi & Ht & Hrep & _).
  exists (abs_run evs abs_empty), ds, r. split_and!; try done. by apply controller_rep.
Qed.

Lemma router_catches_up evs idx tl changes :
  wf_events (evs ++ changed changes) abs_empty → following idx changes →
  ∃ ds r r', Sender.getDataState idx tl (controller evs) = Some ds ∧
    NewReceiverRouterDataModelFromDataState ds = Some r ∧
    foldM ApplyChangeSet changes r = Some r' ∧
    r_index r' = from_option cs_Index idx (last changes) ∧
    in_step r' (controller (evs ++ changed changes)).
Proof.
  intros Hwf Hf. apply controller_rep in Hwf as Hc. apply wf_events_app in Hwf as [Hw1 Hw2].
  destruct (full_state_rep evs idx tl Hw1) as (ds & r & Hds & Hr & Hi & _ & Hrep & Hok).
  destruct (lacks_run (changed changes) (without_revocations (abs_run evs abs_empty))
    (abs_run evs abs_empty)) as [Hw2' Hl]; [|done|].
  { exists ∅, (dom (a_Policies (abs_run evs abs_empty))). split; [|done]. intros p Hp.
    apply elem_of_dom in Hp as [P HP]. pose proof (abs_run_ok _ _ abs_empty_ok Hw1) as Ha.
    by destruct (ok_pol _ Ha _ _ HP) as (_ & _ & ? & _). }
  destruct (ApplyChangeSets_rep changes idx r _ Hf Hi Hw2' Hok Hrep) as (r' & Hr' & Hi' & Hrep' & Hok').
  exists ds, r, r'. split_and!; try done.
  exists (abs_run (evs ++ changed changes) abs_empty), (abs_run (changed changes)
    (without_revocations (abs_run evs abs_empty))). split_and!; try done. by rewrite abs_run_app.
Qed.


(** C3. Counters are exact: after any well-formed events, with the counting of
    service access turned on and off at any time, the model has not panicked, and
    for an identity with counting on the service list taken from the counters is
    the one computed from its policies, in services, configs, dial and bind
    rights and posture checks. *)
Theorem service_list_exact ops i v :
  wf_events (ops_events ops) abs_empty →
  ∃ m, foldM model_step ops NewReceiverRouterDataModel = Some m ∧
    (r_Identities m !! i = Some v → id_serviceAccessTrackingEnabled v = true →
     let N := buildServiceList v m in
     let D := buildServiceListUsingDenormalizedData i v m in
     svc_view <$> N.1 = svc_view <$> D.1 ∧ N.2 = D.2).
Proof.
  intros Hwf. destruct (model_run_rep ops _ _ abs_empty_ok Hwf router_new_rep) as (m & Hm & Hrep & Hok).
  exists m. split; [done|]. intros Hi Htr. pose proof (rr_id _ _ Hrep i) as Hr. rewrite Hi in Hr.
  inversion_clear Hr as [? x [_ Hv]|]. by apply (lists_agree m _ Hok Hrep i v Hv).
Qed.

(** A policy change that names an identity the controller's copy does not
    have leaves a nil entry behind, and the next full state dereferences it. *)
Theorem unknown_identity_breaks_full_state m p ids add i idx tl :
  i ∈ ids → sn_Identities m !! i = None →
  Sender.getDataState idx tl
    (Sender.Handle (EvServicePolicyChange (mkPolicyChange p ids RelatedIdentity add)) m) = None.
Proof.
  intros Hi Hn. unfold Sender.getDataState. simpl.
  set (M := foldl _ (sn_Identities m) ids).
  assert (M !! i = Some None) as HM.
  { unfold M. clear M. revert Hi. generalize (sn_Identities m) Hn. induction ids as [|x ids IH];
      intros M HM Hin; [set_solver|]. simpl.
    assert (∀ (N : gmap string (option SenderIdentity)) l, N !! i = Some None →
      foldl (λ ids x, <[x := match ids !! x with
        | Some (Some v) => Some (mkSIdentity (si_Model v) (addOrRemove add [p] (si_ServicePolicies v)))
        | _ => None end]> ids) N l !! i = Some None) as Hkeep.
    { intros N l. revert N. induction l as [|y l IHl]; intros N HN; simpl; [done|]. apply IHl.
      destruct (decide (y = i)) as [->|]; [by rewrite HN, lookup_insert_eq|by rewrite lookup_insert_ne]. }
    destruct (decide (x = i)) as [->|Hne].
    - apply Hkeep. by rewrite HM, lookup_insert_eq.
    - apply IH; [by rewrite lookup_insert_ne|]. set_solver. }
  rewrite (mapM_None_2 id); [done|]. apply Exists_exists. exists None. split; [|done].
  apply list_elem_of_fmap. exists (i, None). split; [done|]. by apply elem_of_map_to_list.
Qed.

(** ** Witnesses *)

Definition demoIdentity (i : string) : DataState_Identity :=
  mkIdentityM i i 0 0 ∅ ∅ "" ∅ false.
Definition demoCheck : DataState_PostureCheck := mkPostureCheckM "c1" "c1" "MAC" (Some (Posture_Mac [])).

(** Two services, a dial and a bind policy with overlapping services, one of
    them with a posture check. *)
Definition demoSetup : list Event :=
  [EvConfigType Create (mkConfigTypeM "t1" "intercept"); EvConfig Create (mkConfigM "k1" "t1" "k1" "{}");
   EvIdentity Create (demoIdentity "i1"); EvIdentity Create (demoIdentity "i2");
   EvService Create (mkServiceM "s1" "web" true ["k1"]); EvService Create (mkServiceM "s2" "ssh" true []);
   EvPostureCheck Create demoCheck;
   EvServicePolicy Create (mkPolicyM "p1" "dial" DialPolicy);
   EvServicePolicyChange (mkPolicyChange "p1" ["s1"; "s2"] RelatedService true);
   EvServicePolicyChange (mkPolicyChange "p1" ["c1"] RelatedPostureCheck true);
   EvServicePolicyChange (mkPolicyChange "p1" ["i1"] RelatedIdentity true);
   EvRevocation Create (mkRevocationM "x" 5)].
Definition demoLater : list Event :=
  [EvServicePolicy Create (mkPolicyM "p2" "bind" BindPolicy);
   EvServicePolicyChange (mkPolicyChange "p2" ["i1"; "i2"] RelatedIdentity true);
   EvServicePolicyChange (mkPolicyChange "p2" ["s1"] RelatedService true);
   EvServicePolicyChange (mkPolicyChange "p1" ["s2"] RelatedService false);
   EvServicePolicy Update (mkPolicyM "p2" "bind" DialPolicy);
   EvService Delete (mkServiceM "s2" "ssh" true []); EvIdentity Delete (demoIdentity "i2")].
Definition demoChanges : list (ChangeSet Event) :=
  [mkChangeSet 8 false (take 3 demoLater); mkChangeSet 9 false (drop 3 demoLater)].
Definition demoOps : list model_op :=
  (op_event 7 <$> demoSetup) ++ [op_tracking true "i1"] ++ (op_event 8 <$> demoLater).

Lemma full_state_roundtrip_witness :
  ∃ a ds r, sender_rep (controller demoSetup) a ∧
    Sender.getDataState 7 "tl" (controller demoSetup) = Some ds ∧
    NewReceiverRouterDataModelFromDataState ds = Some r ∧
    r_index r = 7 ∧ r_timelineId r = "tl" ∧ router_rep r (without_revocations a).
Proof. apply full_state_roundtrip. apply (bool_decide_unpack _). by vm_compute. Defined.


Definition demoModel : RouterDataModel :=
  default NewReceiverRouterDataModel (foldM model_step demoOps NewReceiverRouterDataModel).
Definition demoV : Identity :=
  default (mkIdentity (demoIdentity "") ∅ ∅ ∅ 0 false) (r_Identities demoModel !! "i1"%string).

Lemma service_list_exact_witness :
  wf_events (ops_events demoOps) abs_empty ∧
  foldM model_step demoOps NewReceiverRouterDataModel = Some demoModel ∧
  dom (buildServiceListUsingDenormalizedData "i1" demoV demoModel).1 = {["s1"%string]} ∧
  svc_view <$> (buildServiceList demoV demoModel).1 =
  svc_view <$> (buildServiceListUsingDenormalizedData "i1" demoV demoModel).1.
Proof.
  assert (wf_events (ops_events demoOps) abs_empty) as Hwf by (apply (bool_decide_unpack _); by vm_compute).
  assert (foldM model_step demoOps NewReceiverRouterDataModel = Some demoModel) as Hm by (by vm_compute).
  split_and!; [done|done|by vm_compute|].
  destruct (service_list_exact demoOps "i1" demoV Hwf) as (m & Hm' & H).
  assert (m = demoModel) as -> by exact (Some_inj _ _ (eq_trans (eq_sym Hm') Hm)).
  apply H; by vm_compute.
Defined.

Lemma unknown_identity_breaks_full_state_witness :
  Sender.getDataState 7 "tl" (controller (demoSetup ++
    [EvServicePolicyChange (mkPolicyChange "p1" ["i9"%string] RelatedIdentity true)])) = None.
Proof.
  unfold controller. rewrite foldl_app. fold (controller demoSetup). cbn [foldl].
  apply (unknown_identity_breaks_full_state (controller demoSetup) "p1" ["i9"%string] true "i9");
    [left|by vm_compute].
Defined.
