(* ===== verification/Posture.v ===== *)
(** * Posture checks and access decisions (router/posture)

    What a router knows of a client's device ([InstanceData], filled from the
    client's posture responses), the evaluation of posture checks against it,
    and [HasAccess], which decides whether an identity may dial or bind a
    service: one policy of the right type whose posture checks all pass.

    Evaluation may panic on a nil pointer ([None]) and may change the instance
    data (an evaluation that needs one process stores an empty process list
    where there is none), so it passes the data on. Version parsing and ranges
    come from github.com/blang/semver and the parser of TOTP tokens is an
    interface: both are parameters. Clock readings are arguments. Strings are
    compared without case on ASCII, which the operating system names are. *)

From stdpp Require Import base gmap list strings fin_maps fin_sets.
From Stdlib Require Import ZArith Lia Ascii.
From S2P Require Import Prelude EventCache DataModel DataModelSpec RouterDataModel RouterCopy SenderCopy RdmSync.

Import Receiver.

Open Scope Z_scope.

(** ** Instance data *)

Record OperatingSystem := mkOperatingSystem { os_Type : string; os_Version : string; os_Build : string }.
#[global] Instance OperatingSystem_eq_dec : EqDecision OperatingSystem.
Proof. solve_decision. Defined.
Record ClientProcess := mkClientProcess {
  cp_Path : string; cp_IsRunning : bool; cp_Hash : string; cp_SignerFingerprints : list string;
}.
#[global] Instance ClientProcess_eq_dec : EqDecision ClientProcess.
Proof. solve_decision. Defined.

Record InstanceData := mkInstanceData {
  in_IdentityId : string;
  in_ApiSessionId : string;
  in_Time : Z;
  in_Os : option (option OperatingSystem);      (* the wrapper and the message in it *)
  in_Domain : option string;
  in_Macs : option (list string);
  in_Unlocked : option Z;
  in_Woken : option Z;
  in_ProcessList : option (list ClientProcess);
  in_PassedMfaAt : option Z;
}.

Inductive PostureResponse :=
| RespOs (os : OperatingSystem)
| RespDomain (name : string)
| RespMacs (addresses : list string)
| RespUnlocked (time : Z)
| RespWoken (time : Z)
| RespProcessList (processes : list ClientProcess)
| RespTotpToken (token : string)
| RespUnknown.

Record TotpClaims := mkTotpClaims { totp_ApiSessionId : string; totp_IssuedAt : option Z }.

Definition newInstance (now : Z) (identityId apiSessionId : string) : InstanceData :=
  mkInstanceData identityId apiSessionId now None None None None None None None.

Definition set_Os x (d : InstanceData) : InstanceData :=
  mkInstanceData (in_IdentityId d) (in_ApiSessionId d) (in_Time d) x (in_Domain d) (in_Macs d)
    (in_Unlocked d) (in_Woken d) (in_ProcessList d) (in_PassedMfaAt d).
Definition set_Domain x (d : InstanceData) : InstanceData :=
  mkInstanceData (in_IdentityId d) (in_ApiSessionId d) (in_Time d) (in_Os d) x (in_Macs d)
    (in_Unlocked d) (in_Woken d) (in_ProcessList d) (in_PassedMfaAt d).
Definition set_Macs x (d : InstanceData) : InstanceData :=
  mkInstanceData (in_IdentityId d) (in_ApiSessionId d) (in_Time d) (in_Os d) (in_Domain d) x
    (in_Unlocked d) (in_Woken d) (in_ProcessList d) (in_PassedMfaAt d).
Definition set_Unlocked x (d : InstanceData) : InstanceData :=
  mkInstanceData (in_IdentityId d) (in_ApiSessionId d) (in_Time d) (in_Os d) (in_Domain d) (in_Macs d)
    x (in_Woken d) (in_ProcessList d) (in_PassedMfaAt d).
Definition set_Woken x (d : InstanceData) : InstanceData :=
  mkInstanceData (in_IdentityId d) (in_ApiSessionId d) (in_Time d) (in_Os d) (in_Domain d) (in_Macs d)
    (in_Unlocked d) x (in_ProcessList d) (in_PassedMfaAt d).
Definition set_ProcessList x (d : InstanceData) : InstanceData :=
  mkInstanceData (in_IdentityId d) (in_ApiSessionId d) (in_Time d) (in_Os d) (in_Domain d) (in_Macs d)
    (in_Unlocked d) (in_Woken d) x (in_PassedMfaAt d).
Definition set_PassedMfaAt x (d : InstanceData) : InstanceData :=
  mkInstanceData (in_IdentityId d) (in_ApiSessionId d) (in_Time d) (in_Os d) (in_Domain d) (in_Macs d)
    (in_Unlocked d) (in_Woken d) (in_ProcessList d) x.
Definition set_Time x (d : InstanceData) : InstanceData :=
  mkInstanceData (in_IdentityId d) (in_ApiSessionId d) x (in_Os d) (in_Domain d) (in_Macs d)
    (in_Unlocked d) (in_Woken d) (in_ProcessList d) (in_PassedMfaAt d).

(** ** Taking in posture responses *)

Definition isOsDifferent (old : option (option OperatingSystem)) (new : OperatingSystem) : bool :=
  match old with
  | Some (Some o) =>
    negb (bool_decide (os_Type o = os_Type new)) || negb (bool_decide (os_Version o = os_Version new)) ||
    negb (bool_decide (os_Build o = os_Build new))
  | _ => true
  end.

(** Processes by path; of two with the same path the last one counts. *)
Definition processMap (l : list ClientProcess) : gmap string ClientProcess :=
  foldl (λ m p, <[cp_Path p := p]> m) ∅ l.

(** A process of one list that is missing in the other or differs there
    ([compareProc] compares the encodings). *)
Definition processMismatch (other : gmap string ClientProcess) (kv : string * ClientProcess) : bool :=
  match other !! kv.1 with
  | None => true
  | Some p => negb (bool_decide (kv.2 = p))
  end.

Definition isProcessListDifferent (listA listB : option (list ClientProcess)) : bool :=
  let a := default [] listA in
  let b := default [] listB in
  let listAEmpty := bool_decide (a = []) in
  let listBEmpty := bool_decide (b = []) in
  if listAEmpty && listBEmpty then false
  else if negb (Bool.eqb listAEmpty listBEmpty) then true
  else
    let procAs := processMap a in
    let procBs := processMap b in
    if negb (size procAs =? size procBs)%nat then true
    else if existsb (processMismatch procBs) (map_to_list procAs) then true
    else existsb (λ kv, negb (bool_decide (kv.1 ∈ (map_to_list procAs).*1)) &&
                        processMismatch procAs kv) (map_to_list procBs).

Section Cache.
Context (ParseTotpToken : string → result TotpClaims string).

(** [Instance.Apply]: the data and whether they were updated. A response other
    than the first five kinds has its process list looked at first, which for a
    TOTP token is nil. *)
Definition Apply (response : PostureResponse) (d : InstanceData) : InstanceData * bool :=
  match response with
  | RespOs os => if isOsDifferent (in_Os d) os then (set_Os (Some (Some os)) d, true) else (d, false)
  | RespDomain name =>
    if bool_decide (in_Domain d = Some name) then (d, false) else (set_Domain (Some name) d, true)
  | RespMacs addresses =>
    if bool_decide (in_Macs d = Some addresses) then (d, false) else (set_Macs (Some addresses) d, true)
  | RespUnlocked t =>
    if (match in_Unlocked d with None => true | Some t0 => t0 <? t end)
    then (set_Unlocked (Some t) d, true) else (d, false)
  | RespWoken t =>
    if (match in_Woken d with None => true | Some t0 => t0 <? t end)
    then (set_Woken (Some t) d, true) else (d, false)
  | _ =>
    let processList := match response with RespProcessList l => Some l | _ => None end in
    if isProcessListDifferent (in_ProcessList d) processList then (set_ProcessList processList d, true)
    else
      match response with
      | RespTotpToken token =>
        match ParseTotpToken token with
        | Ok claims =>
          match totp_IssuedAt claims with
          | None => (d, false)
          | Some passedAt =>
            if bool_decide (totp_ApiSessionId claims = in_ApiSessionId d) then
              if (match in_PassedMfaAt d with None => true | Some t0 => t0 <? passedAt end)
              then (set_PassedMfaAt (Some passedAt) d, true) else (d, false)
            else (d, false)
          end
        | Err _ => (d, false)
        end
      | _ => (d, false)
      end
  end.

Record Cache := mkCache {
  apiSessionInstances : gmap string InstanceData;
  apiSessionInstanceHistory : gmap string (list InstanceData);
}.

(** More than 50 entries of history lose their first one. *)
Definition saveHistory (data : InstanceData) (c : Cache) : Cache :=
  let h := default [] (apiSessionInstanceHistory c !! in_ApiSessionId data) in
  let h := if (50 <? length h)%nat then tail h else h in
  mkCache (apiSessionInstances c)
    (<[in_ApiSessionId data := h ++ [data]]> (apiSessionInstanceHistory c)).

(** [AddResponses] with [emitUpdated]; the last component is the data the update
    listeners get. *)
Definition AddResponses (now : Z) (identityId apiSessionId : string) (responses : list PostureResponse)
    (c : Cache) : Cache * option InstanceData :=
  let instance := default (newInstance now identityId apiSessionId)
                    (apiSessionInstances c !! apiSessionId) in
  let '(instance, updated) :=
    foldl (λ du r, let '(d, next) := Apply r du.1 in (d, du.2 || next)) (instance, false) responses in
  let instance := if updated then set_Time now instance else instance in
  let c := mkCache (<[apiSessionId := instance]> (apiSessionInstances c)) (apiSessionInstanceHistory c) in
  if updated then (saveHistory instance c, Some instance) else (c, None).
End Cache.

(** ** Check results *)

Inductive ProcessFailure :=
| ProcessNotFound | ProcessNotRunning | ProcessPathMismatch | ProcessOsMismatch
| ProcessHashInvalid | ProcessSignerInvalid.

Inductive Cause :=
| NilStateError
| AnyInListError (failed given : list string)
| OneInListError (valid given : list string)
| ProcessesFailed (failed : list (Posture_Process * ProcessFailure))
| MessageError (message : string).
Record CheckError := mkCheckError { ce_Id : string; ce_Name : string; ce_Cause : Cause }.

(** Nil data ([None]), and the outcome of an evaluation: [None] a panic, else the
    error, if any, and the data. *)
Definition Data := option InstanceData.
Definition Outcome := option (option CheckError * Data).

(** ** Evaluating checks *)

Section Evaluate.
Context {Version : Type} (semverMake : string → result Version string).
Context (ParseRange : string → result (Version → bool) string).

Section Check.
Context (Id Name : string).
Definition failed (cause : Cause) (data : Data) : Outcome := Some (Some (mkCheckError Id Name cause), data).
Definition passed (data : Data) : Outcome := Some (None, data).

Definition DomainCheck_Evaluate (domains : list string) (data : Data) : Outcome :=
  match data with
  | None => failed NilStateError data
  | Some state =>
    name ← in_Domain state;
    if bool_decide (name ∈ domains) then passed data
    else failed (AnyInListError domains [name]) data
  end.

Definition MacCheck_Evaluate (macAddresses : list string) (data : Data) : Outcome :=
  match data with
  | None => failed NilStateError data
  | Some state =>
    given ← in_Macs state;
    if existsb (λ mac, bool_decide (mac ∈ given)) macAddresses then passed data
    else failed (OneInListError macAddresses given) data
  end.

Definition NoTimeout : Z := -1.
Definition Second : Z := 1000000000.
Definition PromptGracePeriod : Z := 5 * 60 * Second.

(** A moment the client must have answered by; a missing one is a nil pointer. *)
Definition graceOver (prompt : bool) (at_ : option Z) (now : Z) : option bool :=
  if prompt then t ← at_; Some (t + PromptGracePeriod <? now) else Some false.

(** [now] is read at the start, [later] when the timeout is computed. *)
Definition MfaCheck_Evaluate (TimeoutSeconds : Z) (PromptOnWake PromptOnUnlock : bool) (now later : Z)
    (data : Data) : Outcome :=
  match data with
  | None => failed NilStateError data
  | Some state =>
    match in_PassedMfaAt state with
    | None => failed (MessageError "MFA has never been passed") data
    | Some passedAt =>
      if negb (TimeoutSeconds =? NoTimeout) && (passedAt + int64 (TimeoutSeconds * Second) <? later)
      then failed (MessageError "last MFA check exceeded timeout") data
      else
        wokenOver ← graceOver PromptOnWake (in_Woken state) now;
        if (wokenOver : bool) then failed (MessageError "MFA not resupplied during grace period, woken") data
        else
          unlockedOver ← graceOver PromptOnUnlock (in_Unlocked state) now;
          if (unlockedOver : bool)
          then failed (MessageError "MFA not resupplied during grace period, unlocked") data
          else passed data
    end
  end.

(** The versions of the operating system that was found, in order. *)
Fixpoint checkVersions (dataVer : Version) (given : string) (valid versions : list string) (data : Data)
    : Outcome :=
  match versions with
  | [] => failed (OneInListError valid [given]) data
  | version :: versions =>
    match ParseRange version with
    | Err e => failed (MessageError e) data
    | Ok versionRange =>
      if versionRange dataVer then passed data
      else checkVersions dataVer given (valid ++ [version]) versions data
    end
  end.

Definition OsCheck_Evaluate (osList : list Posture_Os) (data : Data) : Outcome :=
  match data with
  | Some state =>
    match in_Os state with
    | None => failed NilStateError data
    | Some os =>
      os ← os;
      match list_find (λ o, EqualFold (os_OsType o) (os_Type os) = true) osList with
      | None => failed (OneInListError (os_OsType <$> osList) [os_Type os]) data
      | Some (_, foundOs) =>
        match semverMake (os_Version os) with
        | Err e => failed (MessageError e) data
        | Ok dataVer => checkVersions dataVer (os_Version os) [] (os_OsVersions foundOs) data
        end
      end
    end
  | None => failed NilStateError data
  end.

Definition compareProcesses (osType : string) (given : option ClientProcess) (valid : Posture_Process)
    : option ProcessFailure :=
  match given with
  | None => Some ProcessNotFound
  | Some given =>
    if negb (cp_IsRunning given) then Some ProcessNotRunning
    else if negb (bool_decide (pr_Path valid = cp_Path given)) then Some ProcessPathMismatch
    else if negb (EqualFold (pr_OsType valid) osType) then Some ProcessOsMismatch
    else if (0 <? length (pr_Hashes valid))%nat && negb (bool_decide (cp_Hash given ∈ pr_Hashes valid))
    then Some ProcessHashInvalid
    else if (0 <? length (pr_Fingerprints valid))%nat &&
            negb (existsb (λ f, bool_decide (f ∈ pr_Fingerprints valid)) (cp_SignerFingerprints given))
    then Some ProcessSignerInvalid
    else None
  end.

(** The loop of [requireAll]: an empty path or a missing process ends it; the
    operating system is read for each process that is there. *)
Fixpoint requireAllLoop (state : InstanceData) (cache : gmap string ClientProcess)
    (processes : list Posture_Process) (failedValues : list (Posture_Process * ProcessFailure)) : Outcome :=
  match processes with
  | [] =>
    match failedValues with
    | [] => passed (Some state)
    | _ => failed (ProcessesFailed failedValues) (Some state)
    end
  | process :: processes =>
    if bool_decide (pr_Path process = "") then
      failed (MessageError "invalid path in process check") (Some state)
    else
      match cache !! pr_Path process with
      | None => failed (MessageError "the process path was not found") (Some state)
      | Some given =>
        os ← in_Os state;
        os ← os;
        requireAllLoop state cache processes
          match compareProcesses (os_Type os) (Some given) process with
          | Some f => failedValues ++ [(process, f)]
          | None => failedValues
          end
      end
  end.
Definition requireAll (processes : list Posture_Process) (data : Data) : Outcome :=
  match data with
  | None => failed NilStateError data
  | Some state => l ← in_ProcessList state; requireAllLoop state (processMap l) processes []
  end.

Fixpoint requireOneLoop (osType : string) (cache : gmap string ClientProcess)
    (processes : list Posture_Process) (failedValues : list (Posture_Process * ProcessFailure))
    : option (list (Posture_Process * ProcessFailure)) :=
  match processes with
  | [] => Some failedValues
  | process :: processes =>
    match compareProcesses osType (cache !! pr_Path process) process with
    | Some f => requireOneLoop osType cache processes (failedValues ++ [(process, f)])
    | None => None
    end
  end.
(** The inner [None] of the loop is a process that matches. Describing the given
    processes reads the operating system. *)
Definition requireOne (processes : list Posture_Process) (data : Data) : Outcome :=
  match data with
  | None => failed NilStateError data
  | Some state =>
    let l := default [] (in_ProcessList state) in
    let state := set_ProcessList (Some l) state in
    let osType := match in_Os state with Some (Some os) => os_Type os | _ => "" end in
    match requireOneLoop osType (processMap l) processes [] with
    | None => passed (Some state)
    | Some failedValues =>
      match l, in_Os state with
      | [], _ | _, Some (Some _) => failed (ProcessesFailed failedValues) (Some state)
      | _, _ => None
      end
    end
  end.

Definition ProcessCheck_Evaluate (semantic : string) (processes : list Posture_Process) (data : Data)
    : Outcome :=
  if bool_decide (semantic = "AllOf") then requireAll processes data
  else if bool_decide (semantic = "AnyOf") then requireOne processes data
  else None.
End Check.

(** [EvaluatePostureCheck] with [CtrlCheckToLogic]. *)
Definition EvaluatePostureCheck (now later : Z) (check : DataState_PostureCheck) (data : Data) : Outcome :=
  let Id := pcm_Id check in
  let Name := pcm_Name check in
  match pcm_Subtype check with
  | Some (Posture_Mac macs) => MacCheck_Evaluate Id Name macs data
  | Some (Posture_OsList l) => OsCheck_Evaluate Id Name l data
  | Some (Posture_ProcessOne p) => ProcessCheck_Evaluate Id Name "AllOf" [p] data
  | Some (Posture_ProcessMulti semantic l) => ProcessCheck_Evaluate Id Name semantic l data
  | Some (Posture_Domains l) => DomainCheck_Evaluate Id Name l data
  | Some (Posture_Mfa timeout wake unlock _) => MfaCheck_Evaluate Id Name timeout wake unlock now later data
  | None => None
  end.

(** ** Access decisions *)

Inductive PolicyCheckError := CheckNotFound (id : string) | CheckFailed (e : CheckError).
Record PolicyAccessError := mkPolicyAccessError {
  pe_Id : string; pe_Name : string; pe_Errors : list PolicyCheckError;
}.
Inductive AccessError :=
| LookupError (message : string)
| NoPoliciesError
| PolicyAccessErrors (errs : list PolicyAccessError).

(** The checks of one policy. *)
Fixpoint policyErrors (now later : Z) (checks : gmap string DataState_PostureCheck) (ids : list string)
    (errs : list PolicyCheckError) (data : Data) : option (list PolicyCheckError * Data) :=
  match ids with
  | [] => Some (errs, data)
  | id :: ids =>
    match checks !! id with
    | None => policyErrors now later checks ids (errs ++ [CheckNotFound id]) data
    | Some check =>
      r ← EvaluatePostureCheck now later check data;
      match r with
      | (Some e, data) => policyErrors now later checks ids (errs ++ [CheckFailed e]) data
      | (None, data) => policyErrors now later checks ids errs data
      end
    end
  end.

(** [IsPassing]: the first policy without errors, or the errors of all. *)
Fixpoint IsPassing (now later : Z) (checks : gmap string DataState_PostureCheck)
    (policies : list ServicePolicy) (errs : list PolicyAccessError) (data : Data)
    : option (result ServicePolicy (list PolicyAccessError) * Data) :=
  match policies with
  | [] => Some (Err errs, data)
  | policy :: policies =>
    r ← policyErrors now later checks (elements (po_PostureChecks policy)) [] data;
    match r with
    | ([], data) => Some (Ok policy, data)
    | (es, data) =>
      IsPassing now later checks policies
        (errs ++ [mkPolicyAccessError (pm_Id (po_Model policy)) (pm_Name (po_Model policy)) es]) data
    end
  end.

Definition HasAccess (now later : Z) (m : RouterDataModel) (identityId serviceId : string) (data : Data)
    (policyType : PolicyType) : option (result ServicePolicy AccessError * Data) :=
  r ← GetServiceAccessPolicies identityId serviceId policyType m;
  match r with
  | Err e => Some (Err (LookupError e), data)
  | Ok ap =>
    match ap_Policies ap with
    | [] => Some (Err NoPoliciesError, data)
    | policies =>
      r ← IsPassing now later (ap_PostureChecks ap) policies [] data;
      let '(granted, data) := r in
      Some (match granted with Ok p => Ok p | Err errs => Err (PolicyAccessErrors errs) end, data)
    end
  end.
End Evaluate.

(** ** Theorems *)

(** Data that evaluation may have touched: an empty process list in place of
    none. *)
Definition same_data (d d' : Data) : Prop :=
  d' = d ∨ ∃ s, d = Some s ∧ in_ProcessList s = None ∧ d' = Some (set_ProcessList (Some []) s).
#[global] Instance same_data_preorder : PreOrder same_data.
Proof.
  split; [by left|]. intros d1 d2 d3 [->|(s & -> & Hs & ->)] H; [done|].
  destruct H as [->|(s' & [= <-] & Hs' & ->)]; [right; eauto|done].
Qed.

Section Theorems.
Context {Version : Type} (semverMake : string → result Version string).
Context (ParseRange : string → result (Version → bool) string).
Abbreviation Evaluate := (EvaluatePostureCheck semverMake ParseRange).

Lemma requireAllLoop_data Id Name s cache l fs r :
  requireAllLoop Id Name s cache l fs = Some r → r.2 = Some s.
Proof.
  revert fs. induction l as [|p l IH]; intros fs; simpl.
  - destruct fs; by intros [= <-].
  - case_bool_decide; [by intros [= <-]|]. destruct (cache !! _); [|by intros [= <-]].
    destruct (in_Os s) as [[os|]|]; simpl; [apply IH|done..].
Qed.
Lemma checkVersions_data Id Name v g valid l d r :
  checkVersions ParseRange Id Name v g valid l d = Some r → r.2 = d.
Proof.
  revert valid. induction l as [|x l IH]; intros valid; simpl; [by intros [= <-]|].
  destruct (ParseRange x) as [f|]; [|by intros [= <-]]. destruct (f v); [by intros [= <-]|apply IH].
Qed.

Lemma Evaluate_data now later check d r : Evaluate now later check d = Some r → same_data d r.2.
Proof.
  unfold EvaluatePostureCheck.
  destruct (pcm_Subtype check) as [[macs|timeout wake unlock leg|l|p|sem l|l]|]; [..|done].
  - unfold MacCheck_Evaluate. destruct d as [s|]; [|by intros [= <-]; left].
    destruct (in_Macs s); simpl; [|done]. destruct (existsb _ _); intros [= <-]; by left.
  - unfold MfaCheck_Evaluate. destruct d as [s|]; [|by intros [= <-]; left].
    destruct (in_PassedMfaAt s); [|by intros [= <-]; left].
    destruct (_ && _); [by intros [= <-]; left|].
    destruct (graceOver wake _ _) as [[]|]; simpl; [by intros [= <-]; left| |done].
    destruct (graceOver unlock _ _) as [[]|]; simpl; [by intros [= <-]; left..|done].
  - unfold OsCheck_Evaluate. destruct d as [s|]; [|by intros [= <-]; left].
    destruct (in_Os s) as [[os|]|]; simpl; [|done|by intros [= <-]; left].
    destruct (list_find _ _) as [[? o]|]; [|by intros [= <-]; left].
    destruct (semverMake _); [|by intros [= <-]; left]. intros H%checkVersions_data. by left.
  - unfold ProcessCheck_Evaluate, requireAll. simpl. destruct d as [s|]; [|by intros [= <-]; left].
    destruct (in_ProcessList s); simpl; [|done]. intros H. left. by apply (requireAllLoop_data _ _ _ _ [p] _ _ H).
  - unfold ProcessCheck_Evaluate. case_bool_decide.
    + unfold requireAll. destruct d as [s|]; [|by intros [= <-]; left].
      destruct (in_ProcessList s); simpl; [|done]. intros Hd%requireAllLoop_data. by left.
    + case_bool_decide; [|done]. unfold requireOne. destruct d as [s|]; [|by intros [= <-]; left].
      assert (same_data (Some s) (Some (set_ProcessList (Some (default [] (in_ProcessList s))) s))) as Hs.
      { destruct (in_ProcessList s) eqn:E; simpl; [left|right; by exists s].
        rewrite <- E. by destruct s. }
      destruct (requireOneLoop _ _ _ _); [|by intros [= <-]].
      destruct (default [] (in_ProcessList s)) eqn:E1; simpl; [by intros [= <-]|].
      destruct (in_Os s) as [[|]|]; intros Hd; try done; by injection Hd as <-.
  - unfold DomainCheck_Evaluate. destruct d as [s|]; [|by intros [= <-]; left].
    destruct (in_Domain s); simpl; [|done]. case_bool_decide; intros [= <-]; by left.
Qed.

(** No errors: every check is there and passed. *)
Lemma policyErrors_nil now later checks ids errs d d' :
  policyErrors semverMake ParseRange now later checks ids errs d = Some ([], d') →
  errs = [] ∧ same_data d d' ∧ ∀ c, c ∈ ids → ∃ chk d1 d2, checks !! c = Some chk ∧ same_data d d1 ∧
    Evaluate now later chk d1 = Some (None, d2).
Proof.
  revert errs d. induction ids as [|id ids IH]; intros errs d; simpl.
  { intros [= -> ->]. split_and!; [done|done|set_solver]. }
  destruct (checks !! id) as [chk|] eqn:Hc.
  - destruct (Evaluate now later chk d) as [[[e|] d1]|] eqn:He; simpl; [| |done].
    + intros (H & _)%IH. by destruct errs.
    + intros (-> & Hd & Hall)%IH. apply Evaluate_data in He as Hd1. simpl in Hd1.
      split_and!; [done|by trans d1|]. intros c [->|Hin]%elem_of_cons.
      * exists chk, d, d1. by split_and!.
      * destruct (Hall c Hin) as (chk' & d2 & d3 & ? & ? & ?). exists chk', d2, d3.
        split_and!; [done|by trans d1|done].
  - intros (H & _)%IH. by destruct errs.
Qed.

Lemma policyErrors_data now later checks ids errs d es d' :
  policyErrors semverMake ParseRange now later checks ids errs d = Some (es, d') → same_data d d'.
Proof.
  revert errs d. induction ids as [|id ids IH]; intros errs d; simpl; [by intros [= _ <-]|].
  destruct (checks !! id) as [chk|]; [|apply IH].
  destruct (Evaluate now later chk d) as [[[e|] d1]|] eqn:He; simpl; [..|done];
    apply Evaluate_data in He; intros Hr%IH; by trans d1.
Qed.

Lemma IsPassing_ok now later checks pols errs d pol d' :
  IsPassing semverMake ParseRange now later checks pols errs d = Some (Ok pol, d') →
  pol ∈ pols ∧ ∀ c, c ∈ po_PostureChecks pol → ∃ chk d1 d2, checks !! c = Some chk ∧ same_data d d1 ∧
    Evaluate now later chk d1 = Some (None, d2).
Proof.
  revert errs d. induction pols as [|p pols IH]; intros errs d; simpl; [done|].
  destruct (policyErrors semverMake ParseRange now later checks _ _ d) as [[es d1]|] eqn:He; simpl; [|done].
  destruct es as [|e es].
  - intros [= -> _]. split; [left|]. intros c Hc. apply policyErrors_nil in He as (_ & _ & Hall).
    apply Hall. by apply elem_of_elements.
  - apply policyErrors_data in He. intros [Hin Hall]%IH. split; [by right|].
    intros c Hc. destruct (Hall c Hc) as (chk & d2 & d3 & ? & ? & ?). exists chk, d2, d3.
    split_and!; [done|by trans d1|done].
Qed.

(** An error for one check of the policy at least. *)
Lemma policyErrors_cons now later checks ids d e es d' :
  policyErrors semverMake ParseRange now later checks ids [] d = Some (e :: es, d') →
  ∃ c, c ∈ ids ∧ match checks !! c with
    | None => True
    | Some chk => ∃ d1 ce d2, same_data d d1 ∧ Evaluate now later chk d1 = Some (Some ce, d2)
    end.
Proof.
  revert d. induction ids as [|id ids IH]; intros d; simpl; [done|].
  destruct (checks !! id) as [chk|] eqn:Hc; [|intros _; exists id; rewrite Hc; by split; [left|]].
  destruct (Evaluate now later chk d) as [[[ce|] d1]|] eqn:He; simpl; [| |done]; intros Hr.
  - exists id. rewrite Hc. split; [left|]. by exists d, ce, d1.
  - apply Evaluate_data in He. apply IH in Hr as (c & Hin & Hm). exists c. split; [by right|].
    destruct (checks !! c); [|done]. destruct Hm as (d2 & e2 & d3 & ? & ?). exists d2, e2, d3.
    split; [by trans d1|done].
Qed.

Lemma IsPassing_err now later checks pols errs d es d' :
  IsPassing semverMake ParseRange now later checks pols errs d = Some (Err es, d') →
  ∀ pol, pol ∈ pols → ∃ c, c ∈ po_PostureChecks pol ∧ match checks !! c with
    | None => True
    | Some chk => ∃ d1 ce d2, same_data d d1 ∧ Evaluate now later chk d1 = Some (Some ce, d2)
    end.
Proof.
  revert errs d. induction pols as [|p pols IH]; intros errs d; simpl; [set_solver|].
  destruct (policyErrors semverMake ParseRange now later checks _ _ d) as [[[|e1 es1] d1]|] eqn:He;
    simpl; [done| |done]. intros Hr pol [->|Hin]%elem_of_cons.
  - apply policyErrors_cons in He as (c & Hc & Hm). exists c. by rewrite elem_of_elements in Hc.
  - apply policyErrors_data in He. destruct (IH _ _ Hr _ Hin) as (c & Hc & Hm). exists c. split; [done|].
    destruct (checks !! c); [|done]. destruct Hm as (d2 & e2 & d3 & ? & ?). exists d2, e2, d3.
    split; [by trans d1|done].
Qed.

(** The checks collected are those of the model. *)
Lemma collected_checks m (pols : list ServicePolicy) checks0 checks :
  (∀ c x, checks0 !! c = Some x → ∃ v, r_PostureChecks m !! c = Some v ∧ pc_Model v = x) →
  foldM (λ policy, foldM (addPolicyCheck m) (elements (po_PostureChecks policy))) pols checks0 = Some checks →
  ∀ c x, checks !! c = Some x → ∃ v, r_PostureChecks m !! c = Some v ∧ pc_Model v = x.
Proof.
  intros H0 Hf. refine (foldM_pres _ (λ checks, ∀ c x, checks !! c = Some x →
    ∃ v, r_PostureChecks m !! c = Some v ∧ pc_Model v = x) _ _ _ _ Hf H0).
  intros pol c1 c2 Hp H1. refine (foldM_pres _ (λ checks, ∀ c x, checks !! c = Some x →
    ∃ v, r_PostureChecks m !! c = Some v ∧ pc_Model v = x) _ _ _ _ Hp H1).
  intros id c3 c4. unfold addPolicyCheck. destruct (c3 !! id) eqn:E; [by intros [= <-]|].
  destruct (r_PostureChecks m !! id) as [v|] eqn:Hv; simpl; [|done]. intros [= <-] H3 c x Hc.
  apply lookup_insert_Some in Hc as [[<- <-]|[_ Hc]]; eauto.
Qed.

(** All of them are collected, or the panic came first. *)
Lemma collected_all m (pols : list ServicePolicy) checks0 checks :
  foldM (λ policy, foldM (addPolicyCheck m) (elements (po_PostureChecks policy))) pols checks0 = Some checks →
  ∀ pol, pol ∈ pols → ∀ c, c ∈ po_PostureChecks pol → is_Some (checks !! c).
Proof.
  assert (∀ id (c1 c2 : gmap string DataState_PostureCheck), addPolicyCheck m id c1 = Some c2 →
    is_Some (c2 !! id) ∧ ∀ c, is_Some (c1 !! c) → is_Some (c2 !! c)) as Hadd.
  { intros id c1 c2. unfold addPolicyCheck. destruct (c1 !! id) eqn:E; [intros [= <-]; rewrite E; eauto|].
    destruct (r_PostureChecks m !! id) as [v|]; simpl; [|done]. intros [= <-].
    rewrite lookup_insert_eq. split; [eauto|]. intros c Hc. destruct (decide (id = c)) as [->|];
      [by rewrite lookup_insert_eq|by rewrite lookup_insert_ne]. }
  assert (∀ ids c1 c2, foldM (addPolicyCheck m) ids c1 = Some c2 →
    (∀ c, c ∈ ids → is_Some (c2 !! c)) ∧ ∀ c, is_Some (c1 !! c) → is_Some (c2 !! c)) as Hids.
  { induction ids as [|id ids IH]; intros c1 c2; simpl; [intros [= <-]; set_solver|].
    destruct (addPolicyCheck m id c1) as [c3|] eqn:E; simpl; [|done].
    apply Hadd in E as [E1 E2]. intros [H1 H2]%IH. split; [|eauto].
    intros c [->|Hc]%elem_of_cons; eauto. }
  revert checks0. induction pols as [|p pols IH]; intros checks0; simpl; [set_solver|].
  destruct (foldM (addPolicyCheck m) _ checks0) as [c3|] eqn:E; simpl; [|done].
  apply Hids in E as [E1 E2]. intros Hf pol [->|Hin]%elem_of_cons c Hc; [|by eapply IH].
  assert (is_Some (c3 !! c)) as Hc3 by (apply E1; by apply elem_of_elements).
  refine (foldM_pres _ (λ x, is_Some (x !! c)) _ _ _ _ Hf Hc3). intros p' x y Hx. apply Hids in Hx as [_ Hx]. apply Hx.
Qed.

(** C8. Access is granted only through a policy of the identity, of the type
    asked for, all of whose posture checks are known to the router and passed on
    the client's data; identity and service exist. *)
Theorem granted_policy_passes now later m i s data t pol data' :
  HasAccess semverMake ParseRange now later m i s data t = Some (Ok pol, data') →
  ∃ v p, r_Identities m !! i = Some v ∧ is_Some (r_Services m !! s) ∧ p ∈ id_ServicePolicies v ∧
    r_ServicePolicies m !! p = Some pol ∧ pm_PolicyType (po_Model pol) = t ∧
    ∀ c, c ∈ po_PostureChecks pol → ∃ chk d d', r_PostureChecks m !! c = Some chk ∧ same_data data d ∧
      EvaluatePostureCheck semverMake ParseRange now later (pc_Model chk) d = Some (None, d').
Proof.
  unfold HasAccess, GetServiceAccessPolicies.
  destruct (r_Identities m !! i) as [v|] eqn:Hi; simpl; [|done].
  destruct (r_Services m !! s) as [svc|] eqn:Hs; simpl; [|done].
  remember (omap _ _) as pols eqn:Hpols.
  destruct (foldM _ pols ∅) as [checks|] eqn:Hc; cbn [mbind option_bind ap_Policies ap_PostureChecks];
    [|done]. intros Hr.
  assert (∃ d1, IsPassing semverMake ParseRange now later checks pols [] data = Some (Ok pol, d1))
    as (d1 & Hpass).
  { clear -Hr. destruct pols as [|p0 pols]; [done|].
    apply bind_Some in Hr as ([[pol'|e'] d1] & Hp & Hr); simplify_eq. by exists data'. }
  apply IsPassing_ok in Hpass as [Hin Hall]. rewrite Hpols in Hin.
  apply list_elem_of_omap in Hin as (p & Hpin & Hpol). apply bind_Some in Hpol as (q & Hq & Hqt).
  case_bool_decide as Ht; [|done]. injection Hqt as ->.
  exists v, p. split_and!; [done|eauto|by apply elem_of_elements|done|done|].
  intros c Hcin. destruct (Hall c Hcin) as (chk & d2 & d3 & Hchk & ? & ?).
  destruct (collected_checks m pols ∅ checks) with (c := c) (x := chk) as (w & Hw & <-); eauto 10.
  intros c' x. by rewrite lookup_empty.
Qed.

(** C20. Access is denied only if every policy of the identity of the type asked
    for has a posture check that the router does not know or that failed on the
    client's data (an identity without such a policy is denied). *)
Theorem denied_policies_fail now later m i s data t v p pol e data' :
  HasAccess semverMake ParseRange now later m i s data t = Some (Err e, data') →
  r_Identities m !! i = Some v → is_Some (r_Services m !! s) → p ∈ id_ServicePolicies v →
  r_ServicePolicies m !! p = Some pol → pm_PolicyType (po_Model pol) = t →
  ∃ c, c ∈ po_PostureChecks pol ∧ ∀ chk, r_PostureChecks m !! c = Some chk →
    ∃ d ce d', same_data data d ∧
      EvaluatePostureCheck semverMake ParseRange now later (pc_Model chk) d = Some (Some ce, d').
Proof.
  unfold HasAccess, GetServiceAccessPolicies. intros Hr Hi [svc Hs] Hp Hpol Ht.
  rewrite Hi, Hs in Hr. revert Hr. set (pols := omap _ _).
  destruct (foldM _ pols ∅) as [checks|] eqn:Hc; cbn [mbind option_bind ap_Policies ap_PostureChecks];
    [|done]. intros Hr.
  assert (pol ∈ pols) as Hin.
  { apply list_elem_of_omap. exists p. split; [by apply elem_of_elements|]. rewrite Hpol. simpl.
    by rewrite bool_decide_true. }
  assert (∃ es d1, IsPassing semverMake ParseRange now later checks pols [] data = Some (Err es, d1))
    as (es & d1 & Hpass).
  { clear -Hr Hin. destruct pols as [|p0 pols]; [by apply elem_of_nil in Hin|].
    apply bind_Some in Hr as ([[pol'|e'] d1] & Hp & Hr); simplify_eq. by exists e', data'. }
  destruct (IsPassing_err _ _ _ _ _ _ _ _ Hpass _ Hin) as (c & Hcin & Hm). exists c. split; [done|].
  intros chk Hchk. destruct (checks !! c) as [x|] eqn:Hx.
  - destruct (collected_checks m pols ∅ checks) with (c := c) (x := x) as (w & Hw & <-); eauto.
    { intros c' x'. by rewrite lookup_empty. }
    by rewrite Hchk in Hw; simplify_eq.
  - destruct (collected_all m pols ∅ checks Hc pol Hin c Hcin) as [y Hy]. congruence.
Qed.

(** Which service is asked for does not matter to the decision, as long as
    it exists: a policy of the right type grants access to services it does not
    contain. *)
Theorem access_ignores_service now later m i s1 s2 data t :
  is_Some (r_Services m !! s1) → is_Some (r_Services m !! s2) →
  HasAccess semverMake ParseRange now later m i s1 data t =
  HasAccess semverMake ParseRange now later m i s2 data t.
Proof.
  intros [v1 H1] [v2 H2]. unfold HasAccess, GetServiceAccessPolicies. rewrite H1, H2.
  destruct (r_Identities m !! i); [|done]. simpl. by destruct (foldM _ _ ∅).
Qed.
End Theorems.

(** ** Posture responses *)

Lemma Apply_os parse os d : Apply parse (RespOs os) d =
  if bool_decide (in_Os d = Some (Some os)) then (d, false) else (set_Os (Some (Some os)) d, true).
Proof.
  simpl. destruct (in_Os d) as [[[t v b]|]|]; simpl; [|done..].
  destruct os as [t' v' b']; simpl. repeat case_bool_decide; simpl; simplify_eq; done.
Qed.

Lemma existsb_false_elem {A} (f : A → bool) l : existsb f l = false ↔ ∀ x, x ∈ l → f x = false.
Proof.
  induction l as [|y l IH]; simpl; [set_solver|]. rewrite orb_false_iff, IH.
  setoid_rewrite elem_of_cons. clear. naive_solver.
Qed.

Lemma processMap_empty l : processMap l = ∅ ↔ l = [].
Proof.
  destruct l as [|p l _] using rev_ind; [done|]. split; [|by destruct l].
  unfold processMap. rewrite foldl_snoc. intros H%(f_equal (.!! cp_Path p)).
  by rewrite lookup_insert_eq, lookup_empty in H.
Qed.

(** Two process lists that are not told apart are both empty, or are the same
    processes by path. *)
Lemma isProcessListDifferent_spec la lb :
  isProcessListDifferent la lb = false ↔ processMap (default [] la) = processMap (default [] lb).
Proof.
  unfold isProcessListDifferent. set (a := default [] la). set (b := default [] lb).
  assert (∀ l, processMap l = ∅ ↔ l = []) as Hempty by apply processMap_empty.
  destruct (decide (a = [])) as [->|Ha]; [|rewrite (bool_decide_false (a = [])) by done];
    (destruct (decide (b = [])) as [->|Hb]; [|rewrite (bool_decide_false (b = [])) by done]); simpl.
  - done.
  - split; [done|]. intros H. by rewrite <- Hempty, <- H in Hb.
  - split; [done|]. intros H. by rewrite <- Hempty, H in Ha.
  - generalize (processMap a) (processMap b). clear. intros ma mb. split.
    + destruct (size ma =? size mb)%nat eqn:Hs; [|done]. apply Nat.eqb_eq in Hs. simpl.
      destruct (existsb _ (map_to_list ma)) eqn:He; [done|]. intros _.
      apply map_subseteq_size_eq; [|lia]. apply map_subseteq_spec. intros k p Hk.
      apply elem_of_map_to_list in Hk. rewrite existsb_false_elem in He. specialize (He _ Hk).
      revert He. unfold processMismatch; simpl. destruct (mb !! k); [|done].
      case_bool_decide; [by subst|done].
    + intros <-. rewrite Nat.eqb_refl. simpl.
      assert (∀ kv, kv ∈ map_to_list ma → processMismatch ma kv = false) as Hm.
      { intros [k p] Hk%elem_of_map_to_list. unfold processMismatch; simpl. rewrite Hk.
        by rewrite bool_decide_true. }
      replace (existsb (processMismatch ma) (map_to_list ma)) with false.
      2: { symmetry. by apply existsb_false_elem. }
      apply existsb_false_elem. intros kv Hk. rewrite Hm by done. apply andb_false_r.
Qed.

Ltac own_part :=
  repeat match goal with
  | |- context [bool_decide ?P] => rewrite (bool_decide_true P) by done
  | |- context [?a <? ?b] => rewrite (proj2 (Z.ltb_ge a b)) by lia
  end;
  unfold set_Os, set_Domain, set_Macs, set_Unlocked, set_Woken; simpl;
  split_and!; try done; simplify_eq/=;
  try (split; [intros _ Heq; injection Heq; intros; subst; first [done|lia]|done]);
  repeat f_equal; lia.

(** A posture response other than a TOTP token is recorded in its own part of
    the instance data (moments of unlocking and waking never go back), is
    reported as an update exactly if the data changed, and is no update when it
    is sent again. *)
Theorem response_recorded parse r d :
  (∀ token, r ≠ RespTotpToken token) → r ≠ RespUnknown →
  let '(d', updated) := Apply parse r d in
  (updated = true ↔ d' ≠ d) ∧ Apply parse r d' = (d', false) ∧
  match r with
  | RespOs os => d' = set_Os (Some (Some os)) d
  | RespDomain name => d' = set_Domain (Some name) d
  | RespMacs macs => d' = set_Macs (Some macs) d
  | RespUnlocked t => d' = set_Unlocked (Some (Z.max (default t (in_Unlocked d)) t)) d
  | RespWoken t => d' = set_Woken (Some (Z.max (default t (in_Woken d)) t)) d
  | RespProcessList l =>
    d' = set_ProcessList (in_ProcessList d') d ∧
    processMap (default [] (in_ProcessList d')) = processMap l
  | _ => True
  end.
Proof.
  intros Htotp Hun. destruct r as [os|name|macs|t|t|l|token|]; [..|by destruct (Htotp token)|done].
  - rewrite Apply_os. case_bool_decide; rewrite Apply_os; destruct d; cbn [in_Os set_Os] in *; own_part.
  - destruct d; simpl. case_bool_decide; simpl; own_part.
  - destruct d; simpl. case_bool_decide; simpl; own_part.
  - destruct d as [? ? ? ? ? ? [t0|] ? ? ?]; simpl; [destruct (Z.ltb_spec t0 t)|]; simpl; own_part.
  - destruct d as [? ? ? ? ? ? ? [t0|] ? ?]; simpl; [destruct (Z.ltb_spec t0 t)|]; simpl; own_part.
  - simpl. destruct (isProcessListDifferent _ _) eqn:H; simpl.
    + apply not_false_iff_true in H. rewrite isProcessListDifferent_spec in H.
      replace (isProcessListDifferent _ _) with false by (symmetry; by apply isProcessListDifferent_spec).
      split_and!; try done. split; [|done]. intros _ Hd. by rewrite <- Hd in H.
    + rewrite H. apply isProcessListDifferent_spec in H. split_and!; try done. by destruct d.
Qed.

(** While a process list is on record a TOTP token is not looked at: the list
    is dropped and MFA stays as it was, whatever the token says. *)
Theorem totp_token_drops_processes parse token d l :
  in_ProcessList d = Some l → l ≠ [] →
  Apply parse (RespTotpToken token) d = (set_ProcessList None d, true).
Proof.
  intros Hl Hne. simpl. rewrite Hl.
  replace (isProcessListDifferent _ _) with true; [done|]. symmetry. apply not_false_iff_true.
  rewrite isProcessListDifferent_spec. simpl. change (processMap []) with (∅ : gmap string ClientProcess).
  by rewrite processMap_empty.
Qed.

(** Evaluating a check on data the client has not sent yet dereferences a nil
    pointer: domains, MAC addresses, one required process, and the moment of
    waking or unlocking an MFA check asks for. *)
Theorem missing_posture_data_panics {Version} (mk : string → result Version string) rng now later check d
    passedAt :
  in_Domain d = None → in_Macs d = None → in_ProcessList d = None → in_Woken d = None →
  in_PassedMfaAt d = Some passedAt →
  match pcm_Subtype check with
  | Some (Posture_Domains _) | Some (Posture_Mac _) | Some (Posture_ProcessOne _) => True
  | Some (Posture_Mfa timeout wake _ _) => timeout = NoTimeout ∧ wake = true
  | _ => False
  end →
  EvaluatePostureCheck mk rng now later check (Some d) = None.
Proof.
  intros Hd Hm Hp Hw Hmfa. unfold EvaluatePostureCheck.
  destruct (pcm_Subtype check) as [[]|]; try done; unfold ProcessCheck_Evaluate; simpl;
    rewrite ?Hm, ?Hp, ?Hd; try done.
  intros [-> ->]. rewrite Hmfa. simpl. by rewrite Hw.
Qed.

(** ** A worked instance *)

Definition demoVersion (s : string) : result unit string := Err "no version".
Definition demoRange (s : string) : result (unit → bool) string := Err "no range".
Definition demoTotp (s : string) : result TotpClaims string := Ok (mkTotpClaims "a1" (Some 77)).
Definition demoMac : DataState_PostureCheck := mkPostureCheckM "c1" "c1" "MAC" (Some (Posture_Mac ["aa"%string])).
Definition demoAccess : RouterDataModel :=
  default NewReceiverRouterDataModel (foldM model_step (op_event 7 <$> demoSetup ++ [EvPostureCheck Update demoMac])
    NewReceiverRouterDataModel).
Definition demoClient (mac : string) : InstanceData :=
  default (newInstance 0 "" "") (AddResponses demoTotp 5 "i1" "a1" [RespMacs [mac]; RespTotpToken "t";
     RespProcessList [mkClientProcess "/bin/p" true "h" []]] (mkCache ∅ ∅)).2.
Definition demoDecision (s mac : string) :=
  HasAccess demoVersion demoRange 8 9 demoAccess "i1" s (Some (demoClient mac)) DialPolicy.
Definition demoPolicy : ServicePolicy :=
  default (mkServicePolicy (mkPolicyM "" "" DialPolicy) ∅ ∅ ∅ 0 0) (r_ServicePolicies demoAccess !! "p1"%string).

Lemma granted_policy_passes_witness :
  demoDecision "s1" "aa" = Some (Ok demoPolicy, Some (demoClient "aa")) ∧
  ∃ v p, r_Identities demoAccess !! "i1"%string = Some v ∧ p ∈ id_ServicePolicies v ∧
    r_ServicePolicies demoAccess !! p = Some demoPolicy.
Proof.
  assert (demoDecision "s1" "aa" = Some (Ok demoPolicy, Some (demoClient "aa"))) as H by (by vm_compute).
  split; [done|].
  destruct (granted_policy_passes _ _ _ _ _ _ _ _ _ _ _ H) as (v & p & H1 & _ & H2 & H3 & _). eauto.
Defined.

Definition demoI1 : Identity :=
  default (mkIdentity (demoIdentity "") ∅ ∅ ∅ 0 false) (r_Identities demoAccess !! "i1"%string).

Lemma denied_policies_fail_witness :
  ∃ e d, demoDecision "s1" "bb" = Some (Err e, d) ∧ ∃ c, c ∈ po_PostureChecks demoPolicy.
Proof.
  destruct (demoDecision "s1" "bb") as [[[pol|e] d]|] eqn:H; [by vm_compute in H| |by vm_compute in H].
  exists e, d. split; [done|].
  destruct (denied_policies_fail _ _ _ _ _ _ _ _ _ demoI1 "p1" demoPolicy e d H) as (c & Hc & _); eauto;
    try by vm_compute.
Defined.

Lemma access_ignores_service_witness :
  demoDecision "s1" "aa" = demoDecision "s2" "aa".
Proof. apply access_ignores_service; vm_compute; eauto. Defined.

Lemma response_recorded_witness :
  ((Apply demoTotp (RespDomain "corp") (demoClient "aa")).2 = true ↔
   (Apply demoTotp (RespDomain "corp") (demoClient "aa")).1 ≠ demoClient "aa").
Proof.
  pose proof (response_recorded demoTotp (RespDomain "corp") (demoClient "aa")) as H.
  destruct (Apply demoTotp _ (demoClient "aa")) as [d u]. by apply H.
Defined.

Lemma totp_token_drops_processes_witness :
  Apply demoTotp (RespTotpToken "t") (demoClient "aa") = (set_ProcessList None (demoClient "aa"), true).
Proof.
  by apply (totp_token_drops_processes demoTotp "t" (demoClient "aa") [mkClientProcess "/bin/p" true "h" []]).
Defined.

Lemma missing_posture_data_panics_witness :
  EvaluatePostureCheck demoVersion demoRange 8 9 demoMac
    (Some (set_PassedMfaAt (Some 3) (newInstance 0 "i1" "a1"))) = None.
Proof. by apply (missing_posture_data_panics demoVersion demoRange 8 9 demoMac _ 3). Defined.
