(* ===== verification/Publication.v ===== *)
(** * Publishing changes of the stores to the data model (controller/sync_strats/sync_instant.go)

    After a transaction has committed, the stores report each entity that was
    created, updated or deleted and each change of a policy's members. The strategy
    turns the reports into events of the data model, collects the events of one
    transaction in a change set under the index of the transaction, and applies the
    change set to the controller's copy when the transaction completes. When the
    controller starts, the copy is built from the stores ([Initialize], [BuildAll]).

    JSON encoding, the parsing of certificates and the hash that names a key are
    parameters; the index of a transaction comes from the raft log or from a counter
    in the database, behind one interface ([IndexProvider]). Left out: the workers
    that send hellos and sessions to routers, and the comparison of a copy with the
    stores. *)

From stdpp Require Import base gmap list strings fin_maps fin_sets.
From Stdlib Require Import ZArith Lia.
From S2P Require Import Prelude EventCache DataModel DataModelSpec SenderCopy RouterDataModel RouterCopy RdmSync Posture.

Import Sender.
Open Scope Z_scope.

(** ** Entities of the stores

    The records have the fields that are published. *)

Inductive Precedence := PrecedenceDefault | PrecedenceRequired | PrecedenceFailed.
Definition GetPrecedence (p : Precedence) : Z :=
  match p with PrecedenceRequired => 1 | PrecedenceFailed => 2 | PrecedenceDefault => 0 end.

Section Entities.
Context {Json : Type} (jsonEmpty : Json → bool) (jsonMarshal : Json → option string).

(** Nil maps and empty maps are the same here: both have no entries. *)
Record DbIdentity := mkDbIdentity {
  di_Id : string;
  di_Name : string;
  di_DefaultHostingPrecedence : Precedence;
  di_DefaultHostingCost : Z;                             (* uint16 *)
  di_ServiceHostingPrecedences : gmap string Precedence;
  di_ServiceHostingCosts : gmap string Z;
  di_AppData : Json;
  di_Disabled : bool;
  di_ServiceConfigs : gmap string (gmap string string);
}.
Record DbConfig := mkDbConfig { dc_Id : string; dc_Name : string; dc_TypeId : string; dc_Data : Json }.

Definition newIdentity (i : DbIdentity) : DataState_Identity :=
  mkIdentityM (di_Id i) (di_Name i) (GetPrecedence (di_DefaultHostingPrecedence i)) (di_DefaultHostingCost i)
    (GetPrecedence <$> di_ServiceHostingPrecedences i) (di_ServiceHostingCosts i)
    (if jsonEmpty (di_AppData i) then "" else default ""%string (jsonMarshal (di_AppData i)))
    (di_ServiceConfigs i) (di_Disabled i).
Definition newConfig (c : DbConfig) : option DataState_Config :=
  jsonData ← jsonMarshal (dc_Data c);
  Some (mkConfigM (dc_Id c) (dc_TypeId c) (dc_Name c) jsonData).
End Entities.
Arguments DbIdentity : clear implicits.
Arguments DbConfig : clear implicits.

Record DbConfigType := mkDbConfigType { dct_Id : string; dct_Name : string }.
Record DbService := mkDbService {
  dsv_Id : string; dsv_Name : string; dsv_EncryptionRequired : bool; dsv_Configs : list string;
}.
Record DbServicePolicy := mkDbServicePolicy { dsp_Id : string; dsp_Name : string; dsp_PolicyType : PolicyType }.
Record DbProcessMulti := mkDbProcess {
  dpm_OsType : string; dpm_Path : string; dpm_Hashes : list string; dpm_SignerFingerprints : list string;
}.
Inductive DbPostureSubType :=
| PostureCheckProcess (OperatingSystem Path : string) (Hashes : list string) (Fingerprint : string)
| PostureCheckProcessMulti (Semantic : string) (Processes : list DbProcessMulti)
| PostureCheckMfa (TimeoutSeconds : Z) (PromptOnWake PromptOnUnlock IgnoreLegacyEndpoints : bool)
| PostureCheckWindowsDomains (Domains : list string)
| PostureCheckMacAddresses (MacAddresses : list string)
| PostureCheckOperatingSystem (OperatingSystems : list (string * list string)).
Record DbPostureCheck := mkDbPostureCheck {
  dpc_Id : string; dpc_Name : string; dpc_TypeId : string; dpc_SubType : DbPostureSubType;
}.
Record DbCa := mkDbCa { dca_CertPem : string }.
Record DbController := mkDbController { dco_CertPem : string }.
Record DbRevocation := mkDbRevocation { dr_Id : string; dr_ExpiresAt : Z }.

Definition newConfigType (c : DbConfigType) : DataState_ConfigType := mkConfigTypeM (dct_Id c) (dct_Name c).
Definition newService (s : DbService) : DataState_Service :=
  mkServiceM (dsv_Id s) (dsv_Name s) (dsv_EncryptionRequired s) (dsv_Configs s).
Definition newServicePolicy (p : DbServicePolicy) : DataState_ServicePolicy :=
  mkPolicyM (dsp_Id p) (dsp_Name p) (dsp_PolicyType p).
Definition newPostureCheck (c : DbPostureCheck) : DataState_PostureCheck :=
  mkPostureCheckM (dpc_Id c) (dpc_Name c) (dpc_TypeId c) (Some
    match dpc_SubType c with
    | PostureCheckProcess os path hashes fingerprint =>
      Posture_ProcessOne (mkProcess os path hashes [fingerprint])
    | PostureCheckProcessMulti semantic processes =>
      Posture_ProcessMulti semantic
        ((λ p, mkProcess (dpm_OsType p) (dpm_Path p) (dpm_Hashes p) (dpm_SignerFingerprints p)) <$> processes)
    | PostureCheckMfa timeout wake unlock legacy => Posture_Mfa timeout wake unlock legacy
    | PostureCheckWindowsDomains domains => Posture_Domains domains
    | PostureCheckMacAddresses macs => Posture_Mac macs
    | PostureCheckOperatingSystem l => Posture_OsList ((λ '(t, vs), mkOs t vs) <$> l)
    end).

(** ** Indexes of transactions *)

(** What the context of a transaction carries: the index of the counter once it was
    taken, the index of the raft log, and whether writing the counter fails. *)
Record MutateContext := mkContext {
  mc_nonHaIndex : option Z;
  mc_raftIndex : option Z;
  mc_writeFails : bool;
}.

(** The interface with what its users rely on: a transaction keeps its index. *)
Class IndexProvider (P : Type) := {
  NextIndex : MutateContext → P → option (Z * P * MutateContext);   (* [None] is an error *)
  CurrentIndex : P → Z;
  ContextIndex : MutateContext → option Z;
  NextIndex_context ctx p i p' ctx' : NextIndex ctx p = Some (i, p', ctx') → ContextIndex ctx' = Some i;
  NextIndex_again ctx p i p' ctx' : NextIndex ctx p = Some (i, p', ctx') → NextIndex ctx' p' = Some (i, p', ctx');
}.

(** The counter in the database. *)
Record NonHaIndexProvider := mkNonHa { nh_index : Z }.
Definition NonHa_NextIndex (ctx : MutateContext) (p : NonHaIndexProvider) : option (Z * NonHaIndexProvider * MutateContext) :=
  match mc_nonHaIndex ctx with
  | Some val => Some (val, p, ctx)
  | None =>
    if mc_writeFails ctx then None
    else
      let newIndex := wrap_u 64 (nh_index p + 1) in
      Some (newIndex, mkNonHa newIndex, mkContext (Some newIndex) (mc_raftIndex ctx) (mc_writeFails ctx))
  end.
Lemma NonHa_NextIndex_context ctx p i p' ctx' : NonHa_NextIndex ctx p = Some (i, p', ctx') → mc_nonHaIndex ctx' = Some i.
Proof. unfold NonHa_NextIndex. intros H. repeat case_match; naive_solver. Qed.
Lemma NonHa_NextIndex_again ctx p i p' ctx' : NonHa_NextIndex ctx p = Some (i, p', ctx') → NonHa_NextIndex ctx' p' = Some (i, p', ctx').
Proof. unfold NonHa_NextIndex. intros H. repeat case_match; simpl in *; naive_solver. Qed.
#[export] Instance NonHa_provider : IndexProvider NonHaIndexProvider := {
  NextIndex := NonHa_NextIndex;
  CurrentIndex := nh_index;
  ContextIndex := mc_nonHaIndex;
  NextIndex_context := NonHa_NextIndex_context;
  NextIndex_again := NonHa_NextIndex_again;
}.

(** The index of the raft log entry. *)
Record RaftIndexProvider := mkRaft { rf_index : Z }.
Definition Raft_NextIndex (ctx : MutateContext) (p : RaftIndexProvider) : option (Z * RaftIndexProvider * MutateContext) :=
  match mc_raftIndex ctx with
  | Some i => Some (i, mkRaft i, ctx)
  | None => None
  end.
Lemma Raft_NextIndex_context ctx p i p' ctx' : Raft_NextIndex ctx p = Some (i, p', ctx') → mc_raftIndex ctx' = Some i.
Proof. unfold Raft_NextIndex. intros H. repeat case_match; naive_solver. Qed.
Lemma Raft_NextIndex_again ctx p i p' ctx' : Raft_NextIndex ctx p = Some (i, p', ctx') → Raft_NextIndex ctx' p' = Some (i, p', ctx').
Proof. unfold Raft_NextIndex. intros H. repeat case_match; simpl in *; naive_solver. Qed.
#[export] Instance Raft_provider : IndexProvider RaftIndexProvider := {
  NextIndex := Raft_NextIndex;
  CurrentIndex := rf_index;
  ContextIndex := mc_raftIndex;
  NextIndex_context := Raft_NextIndex_context;
  NextIndex_again := Raft_NextIndex_again;
}.

(** ** The strategy *)

Section Strategy.
Context {Json : Type} (jsonEmpty : Json → bool) (jsonMarshal : Json → option string).
Context (certificates : string → list string) (keyId : string → string).
Context (serverCert caPems : string) (isRootCa : string → bool).
Context {P : Type} {IP : IndexProvider P}.

Definition newPublicKey (data : string) (usages : list Z) : DataState_PublicKey :=
  mkPublicKeyM (keyId data) data usages X509CertDer.
Definition JWTValidation : Z := 0.
Definition ClientX509CertValidation : Z := 1.

Inductive Entity :=
| EnServicePolicy (x : DbServicePolicy) | EnIdentity (x : DbIdentity Json) | EnPostureCheck (x : DbPostureCheck)
| EnConfigType (x : DbConfigType) | EnConfig (x : DbConfig Json) | EnService (x : DbService)
| EnCa (x : DbCa) | EnRevocation (x : DbRevocation) | EnController (x : DbController).

Definition handleCa (a : Action) (x : DbCa) : list Event :=
  match certificates (dca_CertPem x) with
  | raw :: _ => [EvPublicKey a (newPublicKey raw [ClientX509CertValidation])]
  | [] => []
  end.
(** A controller without a certificate is an index out of range. *)
Definition handleController (x : DbController) : option (list Event) :=
  match certificates (dco_CertPem x) with
  | raw :: _ => Some [EvPublicKey Create (newPublicKey raw [ClientX509CertValidation; JWTValidation])]
  | [] => None
  end.
Definition handleRevocation (a : Action) (x : DbRevocation) : list Event :=
  [EvRevocation a (mkRevocationM (dr_Id x) (dr_ExpiresAt x))].
(** A config whose data cannot be encoded is skipped. *)
Definition handleConfig (a : Action) (x : DbConfig Json) : list Event :=
  match newConfig jsonMarshal x with Some c => [EvConfig a c] | None => [] end.

(** The handlers [Initialize] registers with the stores: the outer [None] is no
    handler, the inner one a panic. *)
Definition handlerOf (a : Action) (e : Entity) : option (option (list Event)) :=
  match e with
  | EnServicePolicy x => Some (Some [EvServicePolicy a (newServicePolicy x)])
  | EnIdentity x => Some (Some [EvIdentity a (newIdentity jsonEmpty jsonMarshal x)])
  | EnPostureCheck x => Some (Some [EvPostureCheck a (newPostureCheck x)])
  | EnConfigType x => Some (Some [EvConfigType a (newConfigType x)])
  | EnConfig x => Some (Some (handleConfig a x))
  | EnService x => Some (Some [EvService a (newService x)])
  | EnCa x => Some (Some (handleCa a x))
  | EnRevocation x =>
    match a with
    | Create => Some (Some (handleRevocation Create x))
    | Update => Some (Some (handleRevocation Create x))
    | Delete => Some (Some (handleRevocation Create x))
    end
  | EnController x =>
    match a with
    | Create => Some (handleController x)
    | Update => Some (handleController x)
    | Delete => None
    end
  end.

Record InstantStrategy := mkStrategy {
  is_indexProvider : P;
  is_changeSets : gmap Z (ChangeSet Event);
  is_cache : LoggingEventCache (Change := Event);
  is_model : RouterDataModelSender;
  is_published : list (ChangeSet Event);       (* passed on to the listeners *)
}.
Definition with_provider (p : P) (s : InstantStrategy) : InstantStrategy :=
  mkStrategy p (is_changeSets s) (is_cache s) (is_model s) (is_published s).

Definition addToChangeSet (index : Z) (event : Event) (s : InstantStrategy) : InstantStrategy :=
  let changeSet := default (mkChangeSet index false []) (is_changeSets s !! index) in
  mkStrategy (is_indexProvider s)
    (<[index := mkChangeSet (cs_Index changeSet) (cs_IsSynthetic changeSet) (cs_Changes changeSet ++ [event])]>
       (is_changeSets s))
    (is_cache s) (is_model s) (is_published s).

Definition completeChangeSet (ctx : MutateContext) (s : InstantStrategy) : InstantStrategy :=
  match ContextIndex (P := P) ctx with
  | None => s
  | Some index =>
    let changeSets := filter (λ kv, ¬ kv.1 ≤ index) (is_changeSets s) in
    match is_changeSets s !! index with
    | None => mkStrategy (is_indexProvider s) changeSets (is_cache s) (is_model s) (is_published s)
    | Some changeSet =>
      let '(cache, m, accepted) := ApplyChangeSet changeSet (is_cache s, is_model s) in
      mkStrategy (is_indexProvider s) changeSets cache m
        (is_published s ++ (if accepted then [changeSet] else []))
    end
  end.

(** ** Building the copy when the controller starts *)

Record AssociatedIds := mkAssociatedIds {
  as_ServiceIds : list string; as_IdentityIds : list string; as_PostureCheckIds : list string;
}.
(** The entities in the order of the cursors over the stores. *)
Record Stores := mkStores {
  st_ConfigTypes : list DbConfigType;
  st_Configs : list (DbConfig Json);
  st_Identities : list (DbIdentity Json);
  st_Services : list DbService;
  st_PostureChecks : list DbPostureCheck;
  st_ServicePolicies : list (DbServicePolicy * AssociatedIds);
  st_Controllers : list DbController;
  st_Cas : list DbCa;
  st_Revocations : list DbRevocation;
}.
Inductive BuildFailure := MarshalError | IndexOutOfRange.

Definition create {A} (event : A → Event) (l : list A) (m : RouterDataModelSender) : RouterDataModelSender :=
  foldl (λ m x, Handle (event x) m) m l.
Definition BuildConfigTypes : list DbConfigType → RouterDataModelSender → RouterDataModelSender :=
  create (λ c, EvConfigType Create (newConfigType c)).
Definition BuildConfigs : list (DbConfig Json) → RouterDataModelSender → option RouterDataModelSender :=
  foldM (λ c m, config ← newConfig jsonMarshal c; Some (Handle (EvConfig Create config) m)).
Definition BuildIdentities : list (DbIdentity Json) → RouterDataModelSender → RouterDataModelSender :=
  create (λ i, EvIdentity Create (newIdentity jsonEmpty jsonMarshal i)).
Definition BuildServices : list DbService → RouterDataModelSender → RouterDataModelSender :=
  create (λ x, EvService Create (newService x)).
Definition BuildPostureChecks : list DbPostureCheck → RouterDataModelSender → RouterDataModelSender :=
  create (λ c, EvPostureCheck Create (newPostureCheck c)).
Definition BuildServicePolicies (l : list (DbServicePolicy * AssociatedIds)) (m : RouterDataModelSender)
    : RouterDataModelSender :=
  foldl (λ m '(p, ids),
    let add l t m := Handle (EvServicePolicyChange (mkPolicyChange (dsp_Id p) l t true)) m in
    add (as_PostureCheckIds ids) RelatedPostureCheck
      (add (as_IdentityIds ids) RelatedIdentity
        (add (as_ServiceIds ids) RelatedService (Handle (EvServicePolicy Create (newServicePolicy p)) m)))) m l.
Definition controllerKey (raw : string) : Event :=
  EvPublicKey Create (newPublicKey raw [JWTValidation; ClientX509CertValidation]).
Definition caKey (raw : string) : Event := EvPublicKey Create (newPublicKey raw [ClientX509CertValidation]).
(** The server's certificate, the controllers, the configured roots and the authorities. *)
Definition BuildPublicKeys (st : Stores) (m : RouterDataModelSender) : option RouterDataModelSender :=
  let m := Handle (controllerKey serverCert) m in
  m ← foldM (λ c m, raw ← head (certificates (dco_CertPem c)); Some (Handle (controllerKey raw) m))
        (st_Controllers st) m;
  let m := foldl (λ m caCert, if isRootCa caCert then Handle (caKey caCert) m else m) m (certificates caPems) in
  Some (foldl (λ m ca, match certificates (dca_CertPem ca) with raw :: _ => Handle (caKey raw) m | [] => m end)
          m (st_Cas st)).
Definition BuildAll (index : Z) (st : Stores) (cm : LoggingEventCache (Change := Event) * RouterDataModelSender)
    : result (LoggingEventCache (Change := Event) * RouterDataModelSender) BuildFailure :=
  let '(cache, m) := cm in
  match BuildConfigs (st_Configs st) (BuildConfigTypes (st_ConfigTypes st) m) with
  | None => Err MarshalError
  | Some m =>
    let m := BuildServices (st_Services st) (BuildIdentities (st_Identities st) m) in
    let m := BuildServicePolicies (st_ServicePolicies st) (BuildPostureChecks (st_PostureChecks st) m) in
    match BuildPublicKeys st m with
    | None => Err IndexOutOfRange
    | Some m => Ok (SetCurrentIndex index cache, m)
    end
  end.
(** The provider has read its index already. *)
Definition Initialize (logSize : nat) (st : Stores) (p : P) : result InstantStrategy BuildFailure :=
  match BuildAll (CurrentIndex p) st (NewLoggingEventCache logSize, NewRouterDataModelSender) with
  | Ok (cache, m) => Ok (mkStrategy p ∅ cache m [])
  | Err e => Err e
  end.

(** ** Collecting and completing the changes of a transaction *)

(** What a committed transaction reports. *)
Inductive Report :=
| EntityReport (a : Action) (e : Entity)                          (* ProcessPostCommit *)
| PolicyReport (change : DataState_ServicePolicyChange).          (* HandleServicePolicyChange *)

(** [None] is a panic; a report whose transaction gets no index is dropped. *)
Definition postCommit (r : Report) (cs : MutateContext * InstantStrategy) : option (MutateContext * InstantStrategy) :=
  let '(ctx, s) := cs in
  match r with
  | PolicyReport change =>
    match NextIndex ctx (is_indexProvider s) with
    | None => Some (ctx, s)
    | Some (index, p, ctx) => Some (ctx, addToChangeSet index (EvServicePolicyChange change) (with_provider p s))
    end
  | EntityReport a e =>
    match handlerOf a e with
    | None => Some (ctx, s)
    | Some h =>
      match NextIndex ctx (is_indexProvider s) with
      | None => Some (ctx, s)
      | Some (index, p, ctx) =>
        events ← h;
        Some (ctx, foldl (λ s ev, addToChangeSet index ev s) (with_provider p s) events)
      end
    end
  end.

Record Transaction := mkTransaction { tx_ctx : MutateContext; tx_reports : list Report }.
(** The reports of a transaction and its completion, without another one between. *)
Definition publish (tx : Transaction) (s : InstantStrategy) : option InstantStrategy :=
  '(ctx, s) ← foldM postCommit (tx_reports tx) (tx_ctx tx, s);
  Some (completeChangeSet ctx s).
Definition publishAll (txs : list Transaction) (s : InstantStrategy) : option InstantStrategy := foldM publish txs s.

(** The events a report stands for. *)
Definition reportEvents (r : Report) : list Event :=
  match r with
  | PolicyReport change => [EvServicePolicyChange change]
  | EntityReport a e => match handlerOf a e with Some (Some evs) => evs | _ => [] end
  end.
Definition txEvents (tx : Transaction) : list Event := tx_reports tx ≫= reportEvents.
Definition eventsOf (txs : list Transaction) : list Event := txs ≫= txEvents.

(** ** One transaction after the other *)

(** A transaction that gets an index above all earlier ones. *)
Definition freshContext (ctx : MutateContext) (p : P) : Prop :=
  match NextIndex ctx p with
  | Some (i, p', _) => CurrentIndex p < i ∧ CurrentIndex p' = i
  | None => False
  end.
Definition panics (r : Report) : bool :=
  match r with
  | EntityReport a e => match handlerOf a e with Some None => true | _ => false end
  | PolicyReport _ => false
  end.

(** Within a transaction, before and after its first report that takes the index. *)
Definition collected (index : Z) (evs : list Event) (s0 s : InstantStrategy) : Prop :=
  is_changeSets s = (if decide (evs = []) then ∅ else {[index := mkChangeSet index false evs]}) ∧
  is_cache s = is_cache s0 ∧ is_model s = is_model s0 ∧ is_published s = is_published s0.

Lemma add_collected index evs new s0 s :
  collected index evs s0 s → collected index (evs ++ new) s0 (foldl (λ s ev, addToChangeSet index ev s) s new).
Proof.
  revert evs s. induction new as [|ev new IH]; intros evs s Hc; [by rewrite app_nil_r|]. simpl.
  replace (evs ++ ev :: new) with ((evs ++ [ev]) ++ new) by by rewrite <- app_assoc. apply IH.
  destruct Hc as (H1 & H2 & H3 & H4). split_and!; [|done..]. simpl. rewrite H1.
  rewrite (decide_False (P := evs ++ [ev] = [])) by (by destruct evs). case_decide as E.
  - subst. rewrite lookup_empty. simpl. by rewrite insert_empty.
  - rewrite lookup_singleton_eq. simpl. by rewrite insert_singleton_eq.
Qed.

(** Whether a report takes the index of its transaction. *)
Definition asksIndex (r : Report) : bool :=
  match r with
  | PolicyReport _ => true
  | EntityReport a e => match handlerOf a e with Some _ => true | None => false end
  end.
Definition providerAfter (tx : Transaction) (p : P) : P :=
  if existsb asksIndex (tx_reports tx)
  then match NextIndex (tx_ctx tx) p with Some (_, p', _) => p' | None => p end
  else p.
(** Transactions that complete one after the other, each with an index of its own. *)
Fixpoint serial (p : P) (txs : list Transaction) : Prop :=
  match txs with
  | [] => True
  | tx :: txs =>
    freshContext (tx_ctx tx) p ∧ existsb panics (tx_reports tx) = false ∧ serial (providerAfter tx p) txs
  end.

(** The reports of one transaction. *)
Section OneTransaction.
Context (s0 : InstantStrategy) (ctx0 ctx1 : MutateContext) (p1 : P) (index : Z).
Context (Hnext : NextIndex ctx0 (is_indexProvider s0) = Some (index, p1, ctx1)).

Definition inTransaction (asked : bool) (evs : list Event) (cs : MutateContext * InstantStrategy) : Prop :=
  collected index evs s0 cs.2 ∧
  (if asked then cs.1 = ctx1 ∧ is_indexProvider cs.2 = p1
   else cs.1 = ctx0 ∧ is_indexProvider cs.2 = is_indexProvider s0 ∧ evs = []).

Lemma transaction_index asked evs ctx s :
  inTransaction asked evs (ctx, s) → NextIndex ctx (is_indexProvider s) = Some (index, p1, ctx1).
Proof.
  intros [_ H]. destruct asked; simpl in H.
  - destruct H as [-> ->]. by eapply NextIndex_again.
  - by destruct H as (-> & -> & _).
Qed.
Lemma add_provider index' evs s : is_indexProvider (foldl (λ s ev, addToChangeSet index' ev s) s evs) = is_indexProvider s.
Proof. revert s. induction evs as [|ev evs IH]; intros s; [done|]. simpl. by rewrite IH. Qed.

Lemma report_collected r asked evs cs :
  inTransaction asked evs cs → panics r = false →
  ∃ cs', postCommit r cs = Some cs' ∧ inTransaction (asked || asksIndex r) (evs ++ reportEvents r) cs'.
Proof.
  destruct cs as [ctx s]. intros Hin Hp. pose proof (transaction_index _ _ _ _ Hin) as Hi.
  assert (∀ new, inTransaction true (evs ++ new)
    (ctx1, foldl (λ s ev, addToChangeSet index ev s) (with_provider p1 s) new)) as Hadd.
  { intros new. split; [|split; [done|simpl; by rewrite add_provider]]. apply add_collected. by destruct Hin. }
  unfold postCommit, reportEvents, panics, asksIndex in *. destruct r as [a e|change].
  - destruct (handlerOf a e) as [[h|]|] eqn:E; [| done |].
    + rewrite Hi, orb_true_r. simpl. eauto.
    + rewrite orb_false_r, app_nil_r. eauto.
  - rewrite Hi, orb_true_r. eexists. split; [done|]. apply (Hadd [_]).
Qed.
Lemma reports_collected reports asked evs cs :
  inTransaction asked evs cs → existsb panics reports = false →
  ∃ cs', foldM postCommit reports cs = Some cs' ∧
    inTransaction (asked || existsb asksIndex reports) (evs ++ (reports ≫= reportEvents)) cs'.
Proof.
  revert asked evs cs. induction reports as [|r reports IH]; intros asked evs cs Hin Hp.
  - exists cs. rewrite orb_false_r. split; [done|]. simpl. by rewrite app_nil_r.
  - simpl in Hp. apply orb_false_iff in Hp as [Hp1 Hp2].
    destruct (report_collected r asked evs cs Hin Hp1) as (cs1 & H1 & Hin1).
    destruct (IH _ _ _ Hin1 Hp2) as (cs' & H2 & Hin'). exists cs'. cbn [foldM]. rewrite H1. simpl.
    split; [done|]. by rewrite app_assoc, orb_assoc.
Qed.
End OneTransaction.

(** ** What a run of transactions keeps *)

Lemma following_snoc idx changes c :
  following idx changes → cs_IsSynthetic c = false → from_option cs_Index idx (last changes) < cs_Index c →
  following idx (changes ++ [c]).
Proof.
  revert idx. induction changes as [|d changes IH]; intros idx; [by simpl|]. intros (H1 & H2 & H3) Hs Hl.
  split_and!; [done..|]. apply IH; [done..|]. rewrite last_cons in Hl. by destruct (last changes).
Qed.

(** Nothing is pending, the log ends with what was published last, and the copy has
    seen the events [evs] and then those of the published change sets. *)
Record steady (idx : Z) (evs : list Event) (s : InstantStrategy) : Prop := mkSteady {
  sy_pending : is_changeSets s = ∅;
  sy_cache : ∃ kept, cache_inv idx (is_published s) kept (is_cache s);
  sy_index : currentIndex (is_cache s) = from_option cs_Index idx (last (is_published s));
  sy_below : currentIndex (is_cache s) ≤ CurrentIndex (is_indexProvider s);
  sy_following : following idx (is_published s);
  sy_model : is_model s = controller (evs ++ changed (is_published s));
}.

Lemma stored_index base hist e kept (c : LoggingEventCache (Change := Event)) :
  cache_inv base (hist ++ [e]) kept c → currentIndex c = cs_Index e.
Proof.
  intros I. destruct (last_index _ _ _ _ I) as [-> Hk]. destruct (ci_suffix _ _ _ _ I) as [old Ho].
  destruct (decide (kept = [])) as [->|Hne]; [specialize (Hk eq_refl); by destruct hist|].
  destruct (exists_last Hne) as (l & x & ->). rewrite app_assoc in Ho. apply app_inj_tail in Ho as [_ ->].
  by rewrite last_snoc.
Qed.

(** A change set with a new index is accepted, applied and passed on. *)
Lemma complete_steady idx evs s0 s ctx index new :
  steady idx evs s0 → collected index new s0 s → new ≠ [] → ContextIndex (P := P) ctx = Some index →
  CurrentIndex (is_indexProvider s0) < index → CurrentIndex (is_indexProvider s) = index →
  let s' := completeChangeSet ctx s in
  steady idx evs s' ∧ is_published s' = is_published s0 ++ [mkChangeSet index false new] ∧
  is_indexProvider s' = is_indexProvider s.
Proof.
  intros [_ [kept I] Hi Hb Hf Hm] (H1 & H2 & H3 & H4) Hne Hctx Hlt Hp s'. subst s'.
  unfold completeChangeSet. rewrite Hctx, H1, decide_False, lookup_singleton_eq by done.
  rewrite H2, H3, H4. unfold ApplyChangeSet.
  destruct (store_inv _ _ _ _ (mkChangeSet index false new) I eq_refl) as (kept' & I' & Hr); [simpl; lia|].
  destruct (storeLocked _ _) as [c r]. simpl in I', Hr. subst r. simpl. split_and!; [|done..].
  pose proof (stored_index _ _ _ _ _ I') as Hx. simpl in Hx. split; simpl.
  - rewrite map_filter_singleton_False; [done|]. simpl. lia.
  - eauto.
  - by rewrite last_snoc.
  - rewrite Hx, Hp. done.
  - apply following_snoc; [done..|]. rewrite <- Hi. simpl. lia.
  - rewrite Hm. unfold changed, controller. rewrite bind_app. simpl.
    by rewrite app_nil_r, app_assoc, (foldl_app _ (evs ++ _)).
Qed.
Lemma complete_empty index s0 s ctx :
  collected index [] s0 s →
  completeChangeSet ctx s = mkStrategy (is_indexProvider s) ∅ (is_cache s0) (is_model s0) (is_published s0).
Proof.
  intros (H1 & H2 & H3 & H4). rewrite decide_True in H1 by done. unfold completeChangeSet.
  destruct (ContextIndex ctx); [|destruct s; simpl in *; by subst].
  by rewrite H1, lookup_empty, map_filter_empty, H2, H3, H4.
Qed.

Lemma publish_steady idx evs tx s :
  steady idx evs s → freshContext (tx_ctx tx) (is_indexProvider s) → existsb panics (tx_reports tx) = false →
  ∃ s', publish tx s = Some s' ∧ steady idx evs s' ∧
    is_indexProvider s' = providerAfter tx (is_indexProvider s) ∧
    changed (is_published s') = changed (is_published s) ++ txEvents tx.
Proof.
  intros Hs Hfr Hnp. unfold freshContext in Hfr. unfold providerAfter.
  destruct (NextIndex (tx_ctx tx) _) as [[[index p1] ctx1]|] eqn:Hn; [|done]. destruct Hfr as [Hlt Hp1].
  destruct (reports_collected s (tx_ctx tx) ctx1 p1 index Hn (tx_reports tx) false [] (tx_ctx tx, s))
    as ([ctx s1] & Hrun & Hc & Hq); [|done|].
  { split; [|done]. split; [simpl; by rewrite (sy_pending _ _ _ Hs)|done]. }
  unfold publish. rewrite Hrun. simpl in *. eexists. split; [done|].
  fold (txEvents tx) in *. destruct (decide (txEvents tx = [])) as [E|E].
  - rewrite E in *. rewrite (complete_empty _ _ _ _ Hc). simpl. rewrite app_nil_r.
    destruct (existsb asksIndex _); [destruct Hq as [_ ->]|destruct Hq as (_ & -> & _)];
      (split_and!; [|done..]); destruct Hs as [_ ? ? ? ? ?]; split; simpl; try done. lia.
  - destruct (existsb asksIndex _); [destruct Hq as [-> Hq]|by destruct Hq as (_ & _ & ?)].
    destruct (complete_steady idx evs s s1 ctx1 index (txEvents tx)) as (Hs' & -> & ->); try done.
    { by eapply NextIndex_context. } { by rewrite Hq. }
    split_and!; [done|done|]. unfold changed. rewrite bind_app. simpl. by rewrite app_nil_r.
Qed.

Lemma publishAll_steady idx evs txs s :
  steady idx evs s → serial (is_indexProvider s) txs →
  ∃ s', publishAll txs s = Some s' ∧ steady idx evs s' ∧
    changed (is_published s') = changed (is_published s) ++ eventsOf txs.
Proof.
  revert s. induction txs as [|tx txs IH]; intros s Hs Hser.
  - exists s. split_and!; [done..|]. unfold eventsOf. simpl. by rewrite app_nil_r.
  - destruct Hser as (H1 & H2 & H3). destruct (publish_steady idx evs tx s) as (s1 & Hr & Hs1 & Hp & Hc); [done..|].
    rewrite <- Hp in H3. destruct (IH s1 Hs1 H3) as (s' & Hr' & Hs' & Hc'). exists s'.
    unfold publishAll in *. cbn [foldM]. rewrite Hr. split_and!; [done..|].
    rewrite Hc', Hc. unfold eventsOf. simpl. by rewrite <- app_assoc.
Qed.

(** A controller with nothing pending, whose copy has applied [evs]. *)
Definition started (n : nat) (idx : Z) (evs : list Event) (p : P) : InstantStrategy :=
  mkStrategy p ∅ (SetCurrentIndex idx (NewLoggingEventCache n)) (controller evs) [].
Lemma started_steady n idx evs p :
  (0 < n)%nat → 0 ≤ idx ≤ CurrentIndex p → steady idx evs (started n idx evs p).
Proof.
  intros Hn Hi. pose proof (set_index_inv (Change := Event) n idx Hn ltac:(lia)) as I.
  destruct (last_index _ _ _ _ I) as [Hx _]. simpl in Hx.
  split; simpl; [done|eauto|done| |done|by rewrite app_nil_r]. rewrite Hx. lia.
Qed.

(** ** From the stores to the routers *)

(** The events that stand for the contents of the stores. *)
Definition policyEvents (x : DbServicePolicy * AssociatedIds) : list Event :=
  let '(p, ids) := x in
  [EvServicePolicy Create (newServicePolicy p);
   EvServicePolicyChange (mkPolicyChange (dsp_Id p) (as_ServiceIds ids) RelatedService true);
   EvServicePolicyChange (mkPolicyChange (dsp_Id p) (as_IdentityIds ids) RelatedIdentity true);
   EvServicePolicyChange (mkPolicyChange (dsp_Id p) (as_PostureCheckIds ids) RelatedPostureCheck true)].
Definition keyEvents (st : Stores) : list Event :=
  controllerKey serverCert :: (controllerKey <$> omap (λ c, head (certificates (dco_CertPem c))) (st_Controllers st)) ++
  (caKey <$> filter (λ c, isRootCa c = true) (certificates caPems)) ++
  (caKey <$> omap (λ c, head (certificates (dca_CertPem c))) (st_Cas st)).
Definition storeEvents (st : Stores) : list Event :=
  ((λ c, EvConfigType Create (newConfigType c)) <$> st_ConfigTypes st) ++
  (EvConfig Create <$> omap (newConfig jsonMarshal) (st_Configs st)) ++
  ((λ i, EvIdentity Create (newIdentity jsonEmpty jsonMarshal i)) <$> st_Identities st) ++
  ((λ x, EvService Create (newService x)) <$> st_Services st) ++
  ((λ c, EvPostureCheck Create (newPostureCheck c)) <$> st_PostureChecks st) ++
  (st_ServicePolicies st ≫= policyEvents) ++ keyEvents st.
(** Every config can be encoded and every controller has a certificate. *)
Definition encodable (st : Stores) : bool :=
  forallb (λ c, bool_decide (is_Some (newConfig jsonMarshal c))) (st_Configs st) &&
  forallb (λ c, bool_decide (is_Some (head (certificates (dco_CertPem c))))) (st_Controllers st).

Abbreviation handle := (λ m ev, Handle ev m).
Lemma create_events {A} (event : A → Event) l m : create event l m = foldl handle m (event <$> l).
Proof. unfold create. revert m. induction l as [|x l IH]; intros m; [done|]. simpl. by rewrite IH. Qed.
Lemma foldM_events {A B} (f : A → option B) (event : B → Event) l m :
  foldM (λ x m, y ← f x; Some (Handle (event y) m)) l m =
  (if forallb (λ x, bool_decide (is_Some (f x))) l then Some (foldl handle m (event <$> omap f l)) else None).
Proof.
  revert m. induction l as [|x l IH]; intros m; [done|]. cbn [foldM forallb].
  destruct (f x) as [y|] eqn:E.
  - rewrite bool_decide_true by eauto. simpl. rewrite IH. simpl. by rewrite E.
  - rewrite bool_decide_false by (intros [? ?]; done). done.
Qed.
Lemma policies_events l m : BuildServicePolicies l m = foldl handle m (l ≫= policyEvents).
Proof.
  unfold BuildServicePolicies. revert m. induction l as [|[p ids] l IH]; intros m; [done|]. simpl. by rewrite IH.
Qed.
Lemma roots_events l m :
  foldl (λ m caCert, if isRootCa caCert then Handle (caKey caCert) m else m) m l =
  foldl handle m (caKey <$> filter (λ c, isRootCa c = true) l).
Proof.
  revert m. induction l as [|c l IH]; intros m; [done|]. cbn [foldl]. rewrite IH, filter_cons.
  case_decide as E; [by rewrite E|]. by destruct (isRootCa c).
Qed.
Lemma cas_events l m :
  foldl (λ m ca, match certificates (dca_CertPem ca) with raw :: _ => Handle (caKey raw) m | [] => m end) m l =
  foldl handle m (caKey <$> omap (λ c, head (certificates (dca_CertPem c))) l).
Proof.
  revert m. induction l as [|c l IH]; intros m; [done|]. cbn [foldl]. rewrite IH. simpl. by destruct (certificates _).
Qed.
Lemma keys_events st m :
  BuildPublicKeys st m =
  (if forallb (λ c, bool_decide (is_Some (head (certificates (dco_CertPem c))))) (st_Controllers st)
   then Some (foldl handle m (keyEvents st)) else None).
Proof.
  unfold BuildPublicKeys, keyEvents. rewrite foldM_events. case_match; [|done].
  cbn [mbind option_bind foldl]. by rewrite roots_events, cas_events, !foldl_app.
Qed.
Lemma Initialize_events n st p :
  match Initialize n st p with
  | Ok s => encodable st = true ∧ s = started n (CurrentIndex p) (storeEvents st) p
  | Err _ => encodable st = false
  end.
Proof.
  unfold Initialize, BuildAll, BuildConfigs, encodable. rewrite foldM_events. destruct (forallb _ (st_Configs st)); [|done].
  unfold BuildConfigTypes, BuildServices, BuildIdentities, BuildPostureChecks.
  rewrite keys_events, policies_events, !create_events. destruct (forallb _ (st_Controllers st)); [|done].
  split; [done|]. unfold started, controller, storeEvents. by rewrite !foldl_app.
Qed.


(** Only events of revocations touch the revocations of a copy. *)
Definition isRevocation (ev : Event) : bool := match ev with EvRevocation _ _ => true | _ => false end.
Lemma handle_revocations ev m : isRevocation ev = false → sn_Revocations (Handle ev m) = sn_Revocations m.
Proof.
  destruct ev as [a x|a x|a x|a x|a x|a x|a x|a x|c]; intros H; try done; simpl.
  - by destruct a.
  - by destruct a.
  - unfold HandleServicePolicyChange. by destruct (pch_RelatedEntityType c), (sn_ServicePolicies m !! pch_PolicyId c).
Qed.
Lemma run_revocations evs m :
  Forall (λ ev, isRevocation ev = false) evs → sn_Revocations (foldl handle m evs) = sn_Revocations m.
Proof.
  revert m. induction evs as [|ev evs IH]; intros m H; [done|]. inversion_clear H. simpl.
  by rewrite IH, handle_revocations.
Qed.
Lemma storeEvents_revocations st : Forall (λ ev, isRevocation ev = false) (storeEvents st).
Proof.
  unfold storeEvents, keyEvents. rewrite !Forall_app, Forall_cons, !Forall_app, !Forall_fmap.
  split_and!; try (done || by apply Forall_forall).
  apply Forall_bind, Forall_forall. intros [p ids] _. simpl. by repeat constructor.
Qed.

(** A restart forgets revocations: the copy built from the stores when a
    controller starts holds no revocation, whatever the store of revocations holds,
    although the revocations made while it runs are published. *)
Theorem restart_forgets_revocations n st p s :
  Initialize n st p = Ok s → sn_Revocations (is_model s) = ∅.
Proof.
  intros H. pose proof (Initialize_events n st p) as Hs. rewrite H in Hs. destruct Hs as [_ ->]. simpl.
  exact (run_revocations _ NewRouterDataModelSender (storeEvents_revocations st)).
Qed.

(** A deleted revocation stays: the handler for deleted revocations publishes the
    revocation as created, so after a transaction that deletes one the strategy's
    copy still holds it, and so does what is passed on to the routers. *)
Theorem deleted_revocation_stays n idx evs txs ctx x p :
  (0 < n)%nat → 0 ≤ idx ≤ CurrentIndex p →
  serial p (txs ++ [mkTransaction ctx [EntityReport Delete (EnRevocation x)]]) →
  ∃ s', publishAll (txs ++ [mkTransaction ctx [EntityReport Delete (EnRevocation x)]]) (started n idx evs p) = Some s' ∧
    let r := mkRevocationM (dr_Id x) (dr_ExpiresAt x) in
    sn_Revocations (is_model s') !! dr_Id x = Some r ∧ EvRevocation Create r ∈ changed (is_published s').
Proof using Type.
  clear serverCert caPems isRootCa.
  intros Hn Hi Hser.
  destruct (publishAll_steady idx evs _ (started n idx evs p) (started_steady n idx evs p Hn Hi) Hser)
    as (s' & Hr & Hs & Hc). exists s'. split; [done|]. simpl in Hc. rewrite (sy_model _ _ _ Hs), Hc.
  unfold eventsOf. rewrite bind_app. simpl. split; [|set_solver].
  unfold controller. rewrite app_assoc, foldl_app. simpl. by rewrite lookup_insert_eq.
Qed.

(** Completion out of order loses changes: completing a transaction drops the
    pending change sets of all lower indexes, so a transaction that completes after
    one with a higher index changes neither the copy nor the log and passes nothing
    on, whatever its reports had collected. *)
Theorem late_completion_loses_changes ctx1 ctx2 i j s :
  ContextIndex (P := P) ctx1 = Some i → ContextIndex (P := P) ctx2 = Some j → i ≤ j →
  completeChangeSet ctx1 (completeChangeSet ctx2 s) =
  mkStrategy (is_indexProvider s) (filter (λ kv, ¬ kv.1 ≤ j) (is_changeSets s))
    (is_cache (completeChangeSet ctx2 s)) (is_model (completeChangeSet ctx2 s)) (is_published (completeChangeSet ctx2 s)).
Proof.
  intros H1 H2 Hij. set (M := filter (λ kv : Z * ChangeSet Event, ¬ kv.1 ≤ j) (is_changeSets s)).
  assert (is_changeSets (completeChangeSet ctx2 s) = M ∧ is_indexProvider (completeChangeSet ctx2 s) = is_indexProvider s)
    as [HM Hp].
  { unfold completeChangeSet. rewrite H2. destruct (is_changeSets s !! j); [|done].
    by destruct (ApplyChangeSet _ _) as [[? ?] ?]. }
  generalize dependent (completeChangeSet ctx2 s). intros s2 HM Hp. unfold completeChangeSet.
  rewrite H1, HM, Hp. replace (M !! i) with (@None (ChangeSet Event)).
  - f_equal. apply map_filter_id. subst M. intros k x [_ Hk]%map_lookup_filter_Some. simpl in *. lia.
  - symmetry. apply map_lookup_filter_None. right. simpl. auto.
Qed.
End Strategy.

(** ** A process check without a signer *)

Record ProcessResponse := mkProcessResponse {
  pp_PostureCheckId : string; pp_TimedOut : bool; pp_IsRunning : bool; pp_BinaryHash : string;
  pp_SignerFingerprints : list string;
}.
(** [PostureCheckProcess.Evaluate], the controller's own check. A process with the
    wrong hash does not end the loop. *)
Fixpoint PostureCheckProcess_Evaluate (PostureCheckId : string) (Hashes : list string) (Fingerprint : string)
    (Processes : list ProcessResponse) : bool :=
  match Processes with
  | [] => false
  | process :: Processes =>
    let continue := PostureCheckProcess_Evaluate PostureCheckId Hashes Fingerprint Processes in
    if bool_decide (pp_PostureCheckId process = PostureCheckId) then
      if pp_TimedOut process then false
      else if negb (pp_IsRunning process) then false
      else if negb (bool_decide (Fingerprint = "")) &&
              negb (existsb (λ f, EqualFold Fingerprint f) (pp_SignerFingerprints process)) then false
      else if (0 <? length Hashes)%nat then
        if existsb (λ h, EqualFold h (pp_BinaryHash process)) Hashes then true else continue
      else true
    else continue
  end.

Lemma processMap_elem l k q : processMap l !! k = Some q → q ∈ l.
Proof.
  induction l as [|x l IH] using rev_ind; [done|]. unfold processMap in *. rewrite foldl_snoc.
  intros [[_ <-]|[_ H]]%lookup_insert_Some; set_solver.
Qed.
Lemma empty_signer_fails os q path osType hashes :
  "" ∉ cp_SignerFingerprints q → compareProcesses os (Some q) (mkProcess osType path hashes [""]) ≠ None.
Proof.
  intros Hq. assert (existsb (λ f, bool_decide (f ∈ [""])) (cp_SignerFingerprints q) = false) as E.
  2: { unfold compareProcesses. simpl. rewrite E. by repeat case_match. }
  apply not_true_is_false. intros (f & Hf%list_elem_of_In & Hd%bool_decide_eq_true)%existsb_exists.
  apply list_elem_of_singleton in Hd. by subst.
Qed.

(** C33. A process check that asks for no signer: the controller passes it for every
    running process with a permitted hash, but it is published with one empty signer
    in the list of signers, and routers then fail it (or panic) for every client
    that reports no empty signer. *)
Theorem unsigned_process_check_fails {Version} (mk : string → result Version string) rng now later
    id name ty os path hashes q l d e d' :
  pp_PostureCheckId q = id → pp_TimedOut q = false → pp_IsRunning q = true →
  (hashes = [] ∨ pp_BinaryHash q ∈ hashes) →
  (∀ ps c, in_ProcessList d = Some ps → c ∈ ps → "" ∉ cp_SignerFingerprints c) →
  PostureCheckProcess_Evaluate id hashes "" (q :: l) = true ∧
  (EvaluatePostureCheck mk rng now later
     (newPostureCheck (mkDbPostureCheck id name ty (PostureCheckProcess os path hashes ""))) (Some d) = Some (e, d') →
   is_Some e).
Proof.
  intros Hid Ht Hrun Hh Hq. split.
  - simpl. rewrite bool_decide_true, Ht, Hrun by done. simpl. destruct Hh as [->|Hh]; [done|].
    replace (existsb _ hashes) with true; [by case_match|]. symmetry. apply existsb_exists.
    exists (pp_BinaryHash q). split; [by apply list_elem_of_In|]. by apply bool_decide_eq_true.
  - change (EvaluatePostureCheck _ _ _ _ _ _) with (requireAll id name [mkProcess os path hashes [""]] (Some d)).
    unfold requireAll. destruct (in_ProcessList d) as [ps|] eqn:Hps; [|done].
    cbn [mbind option_bind requireAllLoop pr_Path]. unfold failed.
    destruct (bool_decide (path = "")); [intros [= <- _]; eauto|].
    destruct (processMap ps !! path) as [c|] eqn:Hc; [|intros [= <- _]; eauto].
    destruct (in_Os d) as [[o|]|]; [|done..].
    pose proof (empty_signer_fails (os_Type o) c path os hashes (Hq ps c eq_refl (processMap_elem _ _ _ Hc))) as Hf.
    cbn [mbind option_bind]. destruct (compareProcesses _ _ _); [|done]. intros [= <- _]. eauto.
Qed.

(** ** Witnesses *)

Definition demoEmpty (s : string) : bool := bool_decide (s = "").
Definition demoMarshal (s : string) : option string := if bool_decide (s = "bad") then None else Some s.
Definition demoCerts (pem : string) : list string := if bool_decide (pem = "") then [] else [pem].
Definition demoKey (raw : string) : string := String.append "kid-" raw.

Definition demoUser (data : string) : DbIdentity string :=
  mkDbIdentity "i1" "i1" PrecedenceRequired 10 {["s1" := PrecedenceFailed]} {["s1" := 7]} data false
    {["s1" := {["t1" := "k1"]}]}.
Definition demoReports : list (list (Report (Json := string))) :=
  [[EntityReport Create (EnConfigType (mkDbConfigType "t1" "intercept"));
    EntityReport Create (EnConfig (mkDbConfig "k1" "k1" "t1" "{}"));
    EntityReport Create (EnConfig (mkDbConfig "k2" "k2" "t1" "bad"));
    EntityReport Create (EnService (mkDbService "s1" "web" true ["k1"]))];
   [EntityReport Create (EnIdentity (demoUser "{}"));
    EntityReport Create (EnPostureCheck (mkDbPostureCheck "c1" "c1" "MAC" (PostureCheckMacAddresses ["aa"])));
    EntityReport Create (EnServicePolicy (mkDbServicePolicy "p1" "dial" DialPolicy));
    PolicyReport (mkPolicyChange "p1" ["s1"] RelatedService true);
    PolicyReport (mkPolicyChange "p1" ["i1"] RelatedIdentity true)];
   [EntityReport Delete (EnController (mkDbController "old"))];
   [EntityReport Create (EnController (mkDbController "pem")); EntityReport Create (EnCa (mkDbCa ""));
    EntityReport Create (EnRevocation (mkDbRevocation "x" 5))];
   [EntityReport Update (EnIdentity (demoUser ""));
    PolicyReport (mkPolicyChange "p1" ["s1"] RelatedService false);
    EntityReport Delete (EnService (mkDbService "s1" "web" true ["k1"]))]].
Definition demoTxs : list (Transaction (Json := string)) :=
  mkTransaction (mkContext None None false) <$> demoReports.
Definition demoRaftTxs : list (Transaction (Json := string)) :=
  zip_with (λ i, mkTransaction (mkContext None (Some i) false)) [11; 12; 20; 21; 30] demoReports.
Abbreviation demoEventsOf := (eventsOf demoEmpty demoMarshal demoCerts demoKey).
Abbreviation demoPublish := (publishAll demoEmpty demoMarshal demoCerts demoKey).

(** The change sets of the counter and of the raft log: the transaction that deletes
    a controller asks for no index, and the config that cannot be encoded is left out. *)
Example demo_published :
  (λ s, (λ c, (cs_Index c, length (cs_Changes c))) <$> is_published s) <$>
    demoPublish demoTxs (started 3 7 [] (mkNonHa 7)) = Some [(8, 3%nat); (9, 5%nat); (10, 2%nat); (11, 3%nat)].
Proof. vm_compute. reflexivity. Qed.
Example demo_raft_published :
  (λ s, (λ c, (cs_Index c, length (cs_Changes c))) <$> is_published s) <$>
    demoPublish demoRaftTxs (started 3 7 [] (mkRaft 7)) = Some [(11, 3%nat); (12, 5%nat); (21, 2%nat); (30, 3%nat)].
Proof. vm_compute. reflexivity. Qed.
(** Without an index in its context the changes of a transaction are dropped. *)
Example demo_no_raft_index :
  is_published <$> demoPublish (take 1 demoTxs) (started 3 7 [] (mkRaft 7)) = Some [].
Proof. vm_compute. reflexivity. Qed.
(** A controller without a certificate panics, a certificate authority does not. *)
Example demo_no_certificate :
  demoPublish [mkTransaction (mkContext None (Some 8) false) [EntityReport Create (EnController (mkDbController ""))]]
    (started 3 7 [] (mkRaft 7)) = None.
Proof. vm_compute. reflexivity. Qed.

(** The stores at the start: a config, a service and an identity of it, a policy
    between them, a controller, an authority and a revocation. *)
Definition demoStores : Stores (Json := string) :=
  mkStores [mkDbConfigType "t0" "host"] [mkDbConfig "k0" "k0" "t0" "{}"]
    [mkDbIdentity "i0" "i0" PrecedenceDefault 0 ∅ ∅ "" false ∅] [mkDbService "s0" "db" true ["k0"]]
    [mkDbPostureCheck "c0" "c0" "DOMAIN" (PostureCheckWindowsDomains ["corp"])]
    [(mkDbServicePolicy "p0" "bind" BindPolicy, mkAssociatedIds ["s0"] ["i0"] ["c0"])]
    [mkDbController "pem"] [mkDbCa "ca"; mkDbCa ""] [mkDbRevocation "x0" 9].
Abbreviation demoInitialize := (Initialize demoEmpty demoMarshal demoCerts demoKey "server" "root" (λ _, true)).
Abbreviation demoStoreEvents := (storeEvents demoEmpty demoMarshal demoCerts demoKey "server" "root" (λ _, true)).


Lemma restart_forgets_revocations_witness :
  ∃ s, demoInitialize 3 demoStores (mkRaft 7) = Ok s ∧ sn_Revocations (is_model s) = ∅.
Proof.
  destruct (demoInitialize 3 demoStores (mkRaft 7)) as [s|] eqn:E.
  - exists s. split; [reflexivity|]. exact (restart_forgets_revocations _ _ _ _ _ _ _ _ _ _ _ E).
  - exfalso. revert E. vm_compute. discriminate.
Defined.

Lemma deleted_revocation_stays_witness :
  ∃ s', demoPublish ([] ++ [mkTransaction (mkContext None (Some 8) false)
            [EntityReport Delete (EnRevocation (mkDbRevocation "x" 5))]])
          (started 3 7 [EvRevocation Create (mkRevocationM "x" 5)] (mkRaft 7)) = Some s' ∧
    sn_Revocations (is_model s') !! "x" = Some (mkRevocationM "x" 5) ∧
    EvRevocation Create (mkRevocationM "x" 5) ∈ changed (is_published s').
Proof.
  apply (deleted_revocation_stays demoEmpty demoMarshal demoCerts demoKey 3 7 _ [] _ (mkDbRevocation "x" 5));
    [lia|simpl; lia|]. vm_compute. auto.
Defined.

(** Two transactions collect, the later one completes first. *)
Definition demoPending : InstantStrategy (P := NonHaIndexProvider) :=
  addToChangeSet 9 (EvServicePolicy Create (mkPolicyM "p2" "p2" DialPolicy))
    (addToChangeSet 8 (EvServicePolicy Create (mkPolicyM "p1" "p1" DialPolicy)) (started 3 7 [] (mkNonHa 9))).
Lemma late_completion_loses_changes_witness :
  let s2 := completeChangeSet (mkContext (Some 9) None false) demoPending in
  let s' := completeChangeSet (mkContext (Some 8) None false) s2 in
  is_published s2 = [mkChangeSet 9 false [EvServicePolicy Create (mkPolicyM "p2" "p2" DialPolicy)]] ∧
  is_model s' = is_model s2 ∧ is_published s' = is_published s2.
Proof.
  pose proof (late_completion_loses_changes (mkContext (Some 8) None false) (mkContext (Some 9) None false) 8 9
    demoPending eq_refl eq_refl ltac:(lia)) as H.
  split; [vm_compute; reflexivity|]. cbv zeta. rewrite H. split; reflexivity.
Defined.

Definition demoRunning : InstanceData :=
  set_ProcessList (Some [mkClientProcess "/bin/a" true "h" ["sig"]])
    (set_Os (Some (Some (mkOperatingSystem "Linux" "1" ""))) (newInstance 0 "i1" "a1")).
Lemma unsigned_process_check_fails_witness :
  PostureCheckProcess_Evaluate "c1" ["h"] "" [mkProcessResponse "c1" false true "h" ["sig"]] = true ∧
  is_Some (Some (mkCheckError "c1" "c1" (ProcessesFailed
    [(mkProcess "Linux" "/bin/a" ["h"] [""], ProcessSignerInvalid)]))).
Proof.
  destruct (unsigned_process_check_fails demoVersion demoRange 8 9 "c1" "c1" "PROCESS" "Linux" "/bin/a" ["h"]
    (mkProcessResponse "c1" false true "h" ["sig"]) [] demoRunning
    (Some (mkCheckError "c1" "c1" (ProcessesFailed [(mkProcess "Linux" "/bin/a" ["h"] [""], ProcessSignerInvalid)])))
    (Some demoRunning)) as [H1 H2]; try reflexivity.
  - right. apply list_elem_of_singleton. reflexivity.
  - intros ps c Hps Hc. injection Hps as <-. apply list_elem_of_singleton in Hc as ->. simpl.
    rewrite list_elem_of_singleton. discriminate.
  - split; [exact H1|]. apply H2. vm_compute. reflexivity.
Defined.
