(* ===== verification/Subscriptions.v ===== *)
(** * Subscriptions: what a router tells about an identity (common/subscriber.go, common/router_data_model.go)

    A client connection or tunneler of a router subscribes to an identity. The
    subscription keeps a snapshot of the identity, its services and its posture
    checks; handlers of change events queue a check, and the check compares the
    snapshot with the model and notifies the listeners of the difference.

    One goroutine serves the queue ([processSubscriberEvents]); here it runs
    between change sets, while in the program it may also run between two events
    of a change set. The subscription's pointer to an identity is the object in
    the model's map until an identity event replaces or deletes it; from then on
    nothing changes the old object ([IdentityRef]). The snapshot's services are
    kept by value: a service is never changed in place but for the sorting of its
    configs, which come in order from the store already. *)

From stdpp Require Import base gmap list strings fin_maps fin_sets.
From Stdlib Require Import ZArith Lia.
From S2P Require Import Prelude EventCache DataModel RouterDataModel.

Import Receiver.
Open Scope Z_scope.

(** ** Data *)

Inductive IdentityRef :=
| NilIdentity
| InModel                      (* the entry of the model's map *)
| Replaced (v : Identity).     (* an object that has left the map *)

Record IdentitySubscription := mkSub {
  sub_Identity : IdentityRef;
  sub_IsRouterIdentity : bool;
  sub_Services : option (gmap string IdentityService);   (* [None] is the nil map *)
  sub_Checks : gmap string PostureCheck;
  sub_listeners : list nat;
}.

Inductive IdentityEventType :=
| IdentityFullStateState | IdentityUpdatedEvent | IdentityPostureChecksUpdatedEvent | IdentityDeletedEvent.
Inductive ServiceEventType :=
| ServiceAccessGainedEvent | ServiceUpdatedEvent | ServiceAccessLostEvent
| ServiceDialPoliciesChanged | ServiceBindPoliciesChanged.

Record IdentityState := mkState {
  st_Identity : option Identity;
  st_PostureChecks : gmap string PostureCheck;
  st_Services : gmap string IdentityService;
}.

(** The calls of [IdentityEventSubscriber]. *)
Inductive Notification :=
| NotifyIdentityEvent (state : IdentityState) (eventType : IdentityEventType)
| NotifyServiceChange (state : IdentityState) (previousService : option IdentityService)
    (service : IdentityService) (eventType : ServiceEventType).

(** ** Comparisons *)

(** The loop over one map after the sizes are found equal. *)
Definition sameEntries {V} (eq : V → V → bool) (a b : gmap string V) : bool :=
  (size a =? size b)%nat &&
  forallb (λ kv : string * V, match b !! kv.1 with Some v2 => eq kv.2 v2 | None => false end) (map_to_list a).

Definition IdentityConfig_Equals (a b : IdentityConfig) : bool :=
  bool_decide (ic_TypeId a = ic_TypeId b) && bool_decide (ic_TypeName a = ic_TypeName b) &&
  bool_decide (ic_DataJson a = ic_DataJson b).

Definition IdentityService_Equals (self other : IdentityService) : bool :=
  (if s_index (is_Service self) =? s_index (is_Service other) then true
   else
     bool_decide (sm_Name (s_Model (is_Service self)) = sm_Name (s_Model (is_Service other))) &&
     bool_decide (sm_EncryptionRequired (s_Model (is_Service self)) =
                  sm_EncryptionRequired (s_Model (is_Service other))) &&
     bool_decide (sm_Configs (s_Model (is_Service self)) = sm_Configs (s_Model (is_Service other)))) &&
  eqb (is_DialAllowed self) (is_DialAllowed other) &&
  eqb (is_BindAllowed self) (is_BindAllowed other) &&
  sameEntries IdentityConfig_Equals (is_Configs self) (is_Configs other).

Definition Identity_Equals (self other : Identity) : bool :=
  let a := id_Model self in
  let b := id_Model other in
  eqb (im_Disabled a) (im_Disabled b) &&
  bool_decide (im_Name a = im_Name b) &&
  bool_decide (im_AppDataJson a = im_AppDataJson b) &&
  (im_DefaultHostingPrecedence a =? im_DefaultHostingPrecedence b) &&
  (im_DefaultHostingCost a =? im_DefaultHostingCost b) &&
  sameEntries Z.eqb (im_ServiceHostingPrecedences a) (im_ServiceHostingPrecedences b) &&
  sameEntries Z.eqb (im_ServiceHostingCosts a) (im_ServiceHostingCosts b) &&
  sameEntries (λ v v2, bool_decide (v = v2)) (im_ServiceConfigs a) (im_ServiceConfigs b).

(** ** Operations of a subscription *)

Definition deref (identityId : string) (m : RouterDataModel) (r : IdentityRef) : option Identity :=
  match r with
  | NilIdentity => None
  | InModel => r_Identities m !! identityId
  | Replaced v => Some v
  end.

Definition getState (identityId : string) (m : RouterDataModel) (self : IdentitySubscription)
    : IdentityState :=
  mkState (deref identityId m (sub_Identity self)) (sub_Checks self) (default ∅ (sub_Services self)).

(** Notifications go to every listener, one after the other. *)
Definition broadcast (self : IdentitySubscription) (notes : list Notification) : list (nat * Notification) :=
  notes ≫= λ n, (λ l, (l, n)) <$> sub_listeners self.

Definition identityRemoved (identityId : string) (m : RouterDataModel) (self : IdentitySubscription)
    : IdentitySubscription * list (nat * Notification) :=
  match deref identityId m (sub_Identity self) with
  | None => (self, [])
  | Some v =>
    let self := mkSub NilIdentity (sub_IsRouterIdentity self) None ∅ (sub_listeners self) in
    (self, broadcast self [NotifyIdentityEvent (mkState (Some v) ∅ ∅) IdentityDeletedEvent])
  end.

(** [identity] is the model's; the flag tells whether the subscription had been
    initialised before. *)
Definition initialize (identityId : string) (identity : Identity) (self : IdentitySubscription)
    (m : RouterDataModel) : option (RouterDataModel * IdentitySubscription * IdentityState * bool) :=
  m ← (if id_serviceAccessTrackingEnabled identity then Some m
       else EnableServiceAccessTracking identityId m);
  let '(self, wasInitialized) :=
    match deref identityId m (sub_Identity self) with
    | Some _ => (self, true)
    | None =>
      let '(services, checks) :=
        match sub_Services self with
        | Some services => (Some services, sub_Checks self)
        | None => let l := buildServiceList identity m in (Some l.1, l.2)
        end in
      (mkSub InModel (sub_IsRouterIdentity self) services checks (sub_listeners self), false)
    end in
  Some (m, self, getState identityId m self, wasInitialized).

Definition serviceChanges (state : IdentityState) (oldServices newServices : gmap string IdentityService)
    : list Notification :=
  (map_to_list oldServices ≫= λ '(svcId, service),
     match newServices !! svcId with
     | None => [NotifyServiceChange state (Some service) service ServiceAccessLostEvent]
     | Some newService =>
       if IdentityService_Equals service newService then []
       else [NotifyServiceChange state (Some service) newService ServiceUpdatedEvent]
     end) ++
  (map_to_list newServices ≫= λ '(svcId, service),
     match oldServices !! svcId with
     | Some _ => []
     | None => [NotifyServiceChange state None service ServiceAccessGainedEvent]
     end).

Definition policyChanges (state : IdentityState) (oldServices newServices : gmap string IdentityService)
    : list Notification :=
  map_to_list newServices ≫= λ '(svcId, newService),
    match oldServices !! svcId with
    | None => []
    | Some oldService =>
      (if is_DialAllowed newService &&
          negb (is_dialPoliciesIndex oldService =? is_dialPoliciesIndex newService)
       then [NotifyServiceChange state (Some oldService) newService ServiceDialPoliciesChanged] else []) ++
      (if is_BindAllowed newService &&
          negb (is_bindPoliciesIndex oldService =? is_bindPoliciesIndex newService)
       then [NotifyServiceChange state (Some oldService) newService ServiceBindPoliciesChanged] else [])
    end.

Definition checksChanged (oldChecks newChecks : gmap string PostureCheck) : bool :=
  negb (sameEntries (λ check newCheck, pc_index check =? pc_index newCheck) oldChecks newChecks).

(** What the listeners are told when the identity was there and still is. *)
Definition changesFor (state : IdentityState) (oldIdentity newIdentity : Identity)
    (oldServices newServices : gmap string IdentityService)
    (oldChecks newChecks : gmap string PostureCheck) : list Notification :=
  (if (id_identityIndex oldIdentity <? id_identityIndex newIdentity) && negb (Identity_Equals oldIdentity newIdentity)
   then [NotifyIdentityEvent state IdentityUpdatedEvent] else []) ++
  serviceChanges state oldServices newServices ++
  policyChanges state oldServices newServices ++
  (if checksChanged oldChecks newChecks
   then [NotifyIdentityEvent state IdentityPostureChecksUpdatedEvent] else []).

Definition checkForChanges (identityId : string) (self : IdentitySubscription) (m : RouterDataModel)
    : option (RouterDataModel * IdentitySubscription * list (nat * Notification)) :=
  let oldIdentity := deref identityId m (sub_Identity self) in
  let oldServices := default ∅ (sub_Services self) in
  match r_Identities m !! identityId with
  | None =>
    match oldIdentity with
    | None => Some (m, mkSub NilIdentity (sub_IsRouterIdentity self) (sub_Services self) (sub_Checks self)
                         (sub_listeners self), [])
    | Some _ =>
      let self := mkSub NilIdentity (sub_IsRouterIdentity self) None ∅ (sub_listeners self) in
      Some (m, self, broadcast self [NotifyIdentityEvent (mkState oldIdentity ∅ ∅) IdentityDeletedEvent])
    end
  | Some newIdentity =>
    m ← (match oldIdentity with
         | None => EnableServiceAccessTracking identityId m
         | Some _ => Some m
         end);
    let '(newServices, newChecks) :=
      buildServiceListUsingDenormalizedData identityId newIdentity m in
    let state := mkState (Some newIdentity) newChecks newServices in
    let notes :=
      match oldIdentity with
      | None => [NotifyIdentityEvent state IdentityFullStateState]
      | Some oldIdentity =>
        changesFor state oldIdentity newIdentity oldServices newServices (sub_Checks self) newChecks
      end in
    Some (m, mkSub InModel (sub_IsRouterIdentity self) (Some newServices) newChecks (sub_listeners self),
          broadcast self notes)
  end.

(** ** The router: a model with its subscriptions *)

(** What a listener of an identity has been called with, in order; [Joined] marks
    its subscription. *)
Inductive Delivery := Joined | Told (n : Notification).

Record Router := mkRouter {
  y_model : RouterDataModel;
  y_subs : gmap string IdentitySubscription;
  y_sent : list (string * nat * Delivery);
}.

Definition upd_subscriptions (x : gset string) (m : RouterDataModel) : RouterDataModel :=
  mkRdm (r_ConfigTypes m) (r_Configs m) (r_Identities m) (r_Services m) (r_ServicePolicies m) (r_PostureChecks m)
    (r_PublicKeys m) (r_Revocations m) (r_terminatorIdCache m) x
    (r_updatedIdentities m) (r_events m) (r_scanSubsNotify m) (r_timelineId m) (r_index m).

Definition putSub (identityId : string) (sub : IdentitySubscription) (m : RouterDataModel)
    (notes : list (nat * Notification)) (y : Router) : Router :=
  let subs := <[identityId := sub]> (y_subs y) in
  mkRouter (upd_subscriptions (dom subs) m) subs (y_sent y ++ ((λ n, (identityId, n.1, Told n.2)) <$> notes)).
Definition dropSub (identityId : string) (y : Router) : Router :=
  let subs := delete identityId (y_subs y) in
  mkRouter (upd_subscriptions (dom subs) (y_model y)) subs (y_sent y).

(** Whether the flag was set, and the model without it. *)
Definition markIdentityCheckComplete (identityId : string) (checkType : Z) (m : RouterDataModel)
    : bool * RouterDataModel :=
  let v := default 0 (r_updatedIdentities m !! identityId) in
  let v' := Z.ldiff v checkType in
  (negb (Z.land v checkType =? 0),
   upd_queue (if v' =? 0 then delete identityId (r_updatedIdentities m)
              else <[identityId := v']> (r_updatedIdentities m)) (r_events m) (r_scanSubsNotify m) m).

Definition onModel (f : RouterDataModel → RouterDataModel) (y : Router) : Router :=
  mkRouter (f (y_model y)) (y_subs y) (y_sent y).

Definition runCheck (identityId : string) (subscription : IdentitySubscription) (y : Router) : option Router :=
  '(m, sub, notes) ← checkForChanges identityId subscription (y_model y);
  Some (putSub identityId sub m notes y).

Definition syncSubscriptionIfRequired (identityId : string) (clearUpdateEntry : bool) (y : Router)
    : option Router :=
  match y_subs y !! identityId with
  | None => Some y
  | Some subscription =>
    let '(requiresSync, m) :=
      if clearUpdateEntry then markIdentityCheckComplete identityId IdentityUpdated (y_model y)
      else (true, y_model y) in
    let y := onModel (λ _, m) y in
    if requiresSync then runCheck identityId subscription y else Some y
  end.

Definition checkSubsForNewIdentity (identityId : string) (clearUpdateEntry : bool) (y : Router)
    : option Router :=
  let '(requiresSync, m) :=
    if clearUpdateEntry then markIdentityCheckComplete identityId IdentityAdded (y_model y)
    else (true, y_model y) in
  let y := onModel (λ _, m) y in
  match y_subs y !! identityId, r_Identities (y_model y) !! identityId with
  | Some sub, Some v =>
    if requiresSync then
      match initialize identityId v sub (y_model y) with
      | None => None
      | Some (m, sub, _, true) => runCheck identityId sub (putSub identityId sub m [] y)
      | Some (m, sub, state, false) =>
        Some (putSub identityId sub m (broadcast sub [NotifyIdentityEvent state IdentityFullStateState]) y)
      end
    else Some y
  | _, _ => Some y
  end.

Definition checkSubsForDeletedIdentity (identityId : string) (clearUpdateEntry : bool) (y : Router) : Router :=
  let y := if clearUpdateEntry
           then onModel (λ m, (markIdentityCheckComplete identityId IdentityDeleted m).2) y else y in
  match y_subs y !! identityId with
  | None => y
  | Some sub =>
    let '(sub, notes) := identityRemoved identityId (y_model y) sub in
    let y := putSub identityId sub (y_model y) notes y in
    if sub_IsRouterIdentity sub then y else dropSub identityId y
  end.

(** [process] of the queued events; the subscriptions of [syncAllSubscribersEvent]
    in the order of the map. *)
Definition syncAll (y : Router) : option Router :=
  foldM (λ kv y,
      runCheck kv.1 kv.2 (onModel (λ m, (markIdentityCheckComplete kv.1 IdentityUpdated m).2) y))
    (map_to_list (y_subs y)) y.
Definition process (ev : subscriberEvent) (y : Router) : option Router :=
  match ev with
  | identityDeletedEvent i => Some (checkSubsForDeletedIdentity i true y)
  | identityCreatedEvent i => checkSubsForNewIdentity i true y
  | checkForIdentityChangesEvent i => syncSubscriptionIfRequired i true y
  | syncAllSubscribersEvent => syncAll y
  end.

(** One marked identity of the scan. *)
Definition scanEntry (kv : string * Z) (y : Router) : option Router :=
  let '(identityId, flags) := kv in
  let y := onModel (λ m, upd_queue (delete identityId (r_updatedIdentities m)) (r_events m)
                           (r_scanSubsNotify m) m) y in
  if Z.land flags IdentityDeleted =? IdentityDeleted
  then Some (checkSubsForDeletedIdentity identityId false y)
  else
    y ← (if Z.land flags IdentityAdded =? IdentityAdded
         then checkSubsForNewIdentity identityId false y else Some y);
    if Z.land flags IdentityUpdated =? IdentityUpdated
    then syncSubscriptionIfRequired identityId false y else Some y.

Definition SubscribeToIdentityChanges (identityId : string) (subscriber : nat) (isRouterIdentity : bool)
    (y : Router) : option (result Router string) :=
  let found := r_Identities (y_model y) !! identityId in
  if bool_decide (found = None) && negb isRouterIdentity then Some (Err "identity not found")
  else
    m ← EnableServiceAccessTracking identityId (y_model y);
    let subscription :=
      match y_subs y !! identityId with
      | Some v => mkSub (sub_Identity v) (sub_IsRouterIdentity v) (sub_Services v) (sub_Checks v)
                    (sub_listeners v ++ [subscriber])
      | None => mkSub NilIdentity isRouterIdentity None ∅ [subscriber]
      end in
    let y := mkRouter m (y_subs y) (y_sent y ++ [(identityId, subscriber, Joined)]) in
    match r_Identities m !! identityId with
    | None => Some (Ok (putSub identityId subscription m [] y))
    | Some v =>
      '(m, sub, state, _) ← initialize identityId v subscription m;
      Some (Ok (putSub identityId sub m [(subscriber, NotifyIdentityEvent state IdentityFullStateState)] y))
    end.

Definition UnsubscribeFromIdentityChanges (identityId : string) (subscriber : nat) (y : Router)
    : option Router :=
  match y_subs y !! identityId with
  | None => Some y
  | Some v =>
    let v := mkSub (sub_Identity v) (sub_IsRouterIdentity v) (sub_Services v) (sub_Checks v)
               (filter (λ l, l ≠ subscriber) (sub_listeners v)) in
    match sub_listeners v with
    | [] =>
      let y := dropSub identityId y in
      m ← DisableServiceAccessTracking identityId (y_model y);
      Some (onModel (λ _, m) y)
    | _ => Some (putSub identityId v (y_model y) [] y)
    end
  end.

(** An identity event takes the object that subscriptions may hold out of the
    map. *)
Definition detach (ev : Event) (m : RouterDataModel) (subs : gmap string IdentitySubscription)
    : gmap string IdentitySubscription :=
  match ev with
  | EvIdentity _ model =>
    alter (λ sub,
        match sub_Identity sub, r_Identities m !! im_Id model with
        | InModel, Some v => mkSub (Replaced v) (sub_IsRouterIdentity sub) (sub_Services sub) (sub_Checks sub)
                               (sub_listeners sub)
        | _, _ => sub
        end) (im_Id model) subs
  | _ => subs
  end.
Definition handleEvent (index : Z) (ev : Event) (y : Router) : option Router :=
  m ← Handle index ev (y_model y);
  Some (mkRouter m (detach ev (y_model y) (y_subs y)) (y_sent y)).
Definition applyChangeSet (change : ChangeSet Event) (y : Router) : option Router :=
  let index := cs_Index change in
  if cs_IsSynthetic change then foldM (handleEvent index) (cs_Changes change) y
  else if (r_index (y_model y) >? 0) && (r_index (y_model y) >=? index) then Some y
  else foldM (handleEvent index) (cs_Changes change) (onModel (upd_index index) y).

(** ** Steps of the router *)

Inductive RouterOp :=
| OpChangeSet (change : ChangeSet Event)
| OpSubscribe (identityId : string) (subscriber : nat) (isRouterIdentity : bool)
| OpUnsubscribe (identityId : string) (subscriber : nat)
| OpNextEvent          (* the goroutine takes the next queued event *)
| OpScan               (* ... or the request to scan *)
| OpSyncAll.           (* SyncAllSubscribers *)

Definition step (op : RouterOp) (y : Router) : option Router :=
  match op with
  | OpChangeSet change => applyChangeSet change y
  | OpSubscribe i l isRouter =>
    r ← SubscribeToIdentityChanges i l isRouter y;
    Some (match r with Ok y => y | Err _ => y end)
  | OpUnsubscribe i l => UnsubscribeFromIdentityChanges i l y
  | OpNextEvent =>
    match r_events (y_model y) with
    | [] => Some y
    | ev :: evs =>
      process ev (onModel (λ m, upd_queue (r_updatedIdentities m) evs (r_scanSubsNotify m) m) y)
    end
  | OpScan =>
    if r_scanSubsNotify (y_model y) then
      let y := onModel (λ m, upd_queue (r_updatedIdentities m) (r_events m) false m) y in
      foldM scanEntry (map_to_list (r_updatedIdentities (y_model y))) y
    else Some y
  | OpSyncAll =>
    Some (onModel (λ m, upd_queue (r_updatedIdentities m) (r_events m ++ [syncAllSubscribersEvent])
                          (r_scanSubsNotify m) m) y)
  end.
