(* ===== verification/SubscriberViews.v ===== *)
(** * What listeners are told is what their identity may use

    Theorems on the subscriptions of Subscriptions.v: replaying the notifications
    of a listener gives the services of the subscription's snapshot, and after a
    check these are the services that the policies grant. *)

From stdpp Require Import base gmap list strings fin_maps fin_sets.
From Stdlib Require Import ZArith Lia.
From S2P Require Import Prelude EventCache DataModel DataModelSpec RouterDataModel RouterCopy RdmSync Subscriptions.

Import Receiver.
Open Scope Z_scope.
#[local] Arguments broadcast _ _ : simpl never.

(** ** What a listener knows from its notifications *)

Definition Visible : Type := string * bool * list string * gmap string IdentityConfig * bool * bool.
Definition visible (x : IdentityService) : Visible :=
  (sm_Name (s_Model (is_Service x)), sm_EncryptionRequired (s_Model (is_Service x)),
   sm_Configs (s_Model (is_Service x)), is_Configs x, is_DialAllowed x, is_BindAllowed x).
Definition GetId (x : IdentityService) : string := sm_Id (s_Model (is_Service x)).

(** [None] while the listener knows of no identity. *)
Definition View : Type := option (gmap string Visible).
Definition viewStep (v : View) (d : Delivery) : View :=
  match d with
  | Joined => None
  | Told (NotifyIdentityEvent state t) =>
    match t with
    | IdentityFullStateState => Some (visible <$> st_Services state)
    | IdentityDeletedEvent => None
    | _ => v
    end
  | Told (NotifyServiceChange _ _ service t) =>
    match t with
    | ServiceAccessGainedEvent | ServiceUpdatedEvent => <[GetId service := visible service]> <$> v
    | ServiceAccessLostEvent => delete (GetId service) <$> v
    | _ => v
    end
  end.
Definition deliveries (i : string) (l : nat) (sent : list (string * nat * Delivery)) : list Delivery :=
  (filter (λ x, x.1 = (i, l)) sent).*2.
Definition view (i : string) (l : nat) (sent : list (string * nat * Delivery)) : View :=
  foldl viewStep None (deliveries i l sent).
(** What it should know. *)
Definition expected (sub : IdentitySubscription) : View :=
  match sub_Services sub with Some services => Some (visible <$> services) | None => None end.

Definition tell (v : View) (notes : list Notification) : View := foldl (λ v n, viewStep v (Told n)) v notes.

Lemma tell_app v n1 n2 : tell v (n1 ++ n2) = tell (tell v n1) n2.
Proof. apply foldl_app. Qed.

Lemma viewStep_idemp v d : viewStep (viewStep v d) d = viewStep v d.
Proof.
  destruct d as [|[st t|st p s t]]; simpl; [done| |]; destruct t; try done; destruct v; simpl; try done; f_equal.
  - apply insert_insert_eq.
  - apply insert_insert_eq.
  - apply delete_delete_eq.
Qed.

Lemma view_app i l s1 s2 : view i l (s1 ++ s2) = foldl viewStep (view i l s1) (deliveries i l s2).
Proof. unfold view, deliveries. by rewrite filter_app, fmap_app, foldl_app. Qed.

(** A listener of the subscription gets each notification, maybe more than once
    in a row. *)
Lemma broadcast_tell i l sub notes v :
  l ∈ sub_listeners sub →
  foldl viewStep v (deliveries i l ((λ n, (i, n.1, Told n.2)) <$> broadcast sub notes)) = tell v notes.
Proof.
  intros Hl. revert v. induction notes as [|n notes IH]; intros v; [done|].
  unfold broadcast in *. cbn [mbind list_bind]. unfold deliveries in *.
  rewrite fmap_app, filter_app, fmap_app, foldl_app. unfold tell. cbn [foldl].
  replace (foldl viewStep v _) with (viewStep v (Told n)); [apply IH|]. clear IH.
  assert (∀ ls, foldl viewStep v (filter (λ x : string * nat * Delivery, x.1 = (i, l))
      ((λ x : nat * Notification, (i, x.1, Told x.2)) <$> ((λ l, (l, n)) <$> ls))).*2 =
      if decide (l ∈ ls) then viewStep v (Told n) else v) as Hg; [|by rewrite Hg, decide_True].
  clear Hl. induction ls as [|k ls IH] using rev_ind; [done|].
  rewrite !fmap_app, filter_app, fmap_app, foldl_app, IH. cbn [fmap list_fmap]. rewrite filter_cons. simpl.
  destruct (decide ((i, k) = (i, l))) as [[= ->]|Hne]; simpl.
  - rewrite (decide_True (P := l ∈ ls ++ [l])) by set_solver. case_decide; [exact (viewStep_idemp v (Told n))|done].
  - destruct (decide (l ∈ ls)) as [H|H]; [rewrite decide_True by set_solver; done|].
    rewrite decide_False; [done|]. set_solver.
Qed.
Lemma other_tell i j l notes v :
  i ≠ j → foldl viewStep v (deliveries i l ((λ n, (j, n.1, Told n.2)) <$> notes)) = v.
Proof.
  intros Hne. induction notes as [|n notes IH]; [done|]. unfold deliveries. cbn [fmap list_fmap].
  rewrite filter_cons, decide_False by (simpl; congruence). exact IH.
Qed.

(** ** The difference of two service lists is told exactly *)

(** Notifications made per key of a list, each of which changes the view at its
    key only. *)
Lemma tell_keys {A} (l : list (string * A)) (g : string * A → list Notification)
    (h : string * A → option Visible → option Visible) M :
  NoDup l.*1 →
  (∀ kx, kx ∈ l → ∀ M, tell (Some M) (g kx) = Some (partial_alter (h kx) kx.1 M)) →
  ∃ M', tell (Some M) (l ≫= g) = Some M' ∧
    (∀ k x, (k, x) ∈ l → M' !! k = h (k, x) (M !! k)) ∧ (∀ k, k ∉ l.*1 → M' !! k = M !! k).
Proof.
  revert M. induction l as [|[k0 x0] l IH]; intros M Hnd Hg.
  { exists M. split_and!; [done| |done]. by intros k x ?%elem_of_nil. }
  apply NoDup_cons in Hnd as [Hni Hnd]. simpl in Hni. cbn [mbind list_bind]. rewrite tell_app, Hg by left. simpl.
  destruct (IH (partial_alter (h (k0, x0)) k0 M) Hnd) as (M' & Ht & Hin & Hout); [intros; apply Hg; by right|].
  exists M'. split_and!; [done| |].
  - intros k x [[= -> ->]|Hl]%elem_of_cons.
    + rewrite Hout by done. by rewrite lookup_partial_alter_eq.
    + rewrite (Hin _ _ Hl), lookup_partial_alter_ne; [done|]. intros ->. apply Hni.
      apply list_elem_of_fmap. by exists (k, x).
  - intros k Hk. apply not_elem_of_cons in Hk as [Hne Hk]. rewrite Hout by done.
    by rewrite lookup_partial_alter_ne.
Qed.

Lemma sameEntries_spec {V} (eq : V → V → bool) (a b : gmap string V) :
  (∀ x y, eq x y = true → x = y) → sameEntries eq a b = true → a = b.
Proof.
  intros Heq [Hsz Hall]%andb_prop. apply Nat.eqb_eq in Hsz.
  assert (a ⊆ b) as Hsub.
  { apply map_subseteq_spec. intros k x Hk. rewrite forallb_forall in Hall.
    specialize (Hall (k, x)). simpl in Hall. destruct (b !! k) as [y|].
    - f_equal. symmetry. apply Heq, Hall. by apply list_elem_of_In, elem_of_map_to_list.
    - exfalso. apply diff_false_true, Hall. by apply list_elem_of_In, elem_of_map_to_list. }
  apply map_subseteq_size_eq; [done|]. by rewrite Hsz.
Qed.

Lemma IdentityConfig_Equals_spec a b : IdentityConfig_Equals a b = true → a = b.
Proof.
  unfold IdentityConfig_Equals. intros H. bool_prop. destruct a, b. simpl in *. naive_solver.
Qed.

(** Equal services look the same, provided that the index of a service tells its
    version. *)
Lemma Equals_visible x y :
  (s_index (is_Service x) = s_index (is_Service y) → s_Model (is_Service x) = s_Model (is_Service y)) →
  IdentityService_Equals x y = true → visible x = visible y.
Proof.
  unfold IdentityService_Equals. intros Hidx H.
  apply andb_prop in H as [H Hc]. apply andb_prop in H as [H Hb]. apply andb_prop in H as [H Hd].
  apply eqb_prop in Hb. apply eqb_prop in Hd.
  apply sameEntries_spec in Hc; [|apply IdentityConfig_Equals_spec]. unfold visible. rewrite Hb, Hd, Hc.
  destruct (Z.eqb_spec (s_index (is_Service x)) (s_index (is_Service y))) as [E|_].
  - by rewrite (Hidx E).
  - apply andb_prop in H as [H H3]. apply andb_prop in H as [H1 H2].
    apply bool_decide_eq_true in H1, H2, H3. by rewrite H1, H2, H3.
Qed.

Lemma serviceChanges_tell state (old new : gmap string IdentityService) :
  (∀ k x, old !! k = Some x → GetId x = k) → (∀ k x, new !! k = Some x → GetId x = k) →
  (∀ k x y, old !! k = Some x → new !! k = Some y → s_index (is_Service x) = s_index (is_Service y) →
     s_Model (is_Service x) = s_Model (is_Service y)) →
  tell (Some (visible <$> old)) (serviceChanges state old new) = Some (visible <$> new).
Proof.
  intros Hold Hnew Hidx. unfold serviceChanges. rewrite tell_app.
  destruct (tell_keys (map_to_list old)
    (λ '(svcId, service), match new !! svcId with
     | None => [NotifyServiceChange state (Some service) service ServiceAccessLostEvent]
     | Some newService =>
       if IdentityService_Equals service newService then []
       else [NotifyServiceChange state (Some service) newService ServiceUpdatedEvent] end)
    (λ kx cur, match new !! kx.1 with
     | None => None
     | Some y => if IdentityService_Equals kx.2 y then cur else Some (visible y) end)
    (visible <$> old)) as (M1 & -> & Hin & Hout); [apply NoDup_fst_map_to_list| |].
  { intros [k x] Hk%elem_of_map_to_list M. simpl. destruct (new !! k) as [y|] eqn:Hy.
    - destruct (IdentityService_Equals x y); simpl.
      + unfold tell. simpl. by rewrite (partial_alter_id _ _ _) by done.
      + unfold tell. simpl. rewrite (Hnew _ _ Hy). done.
    - unfold tell. simpl. by rewrite (Hold _ _ Hk). }
  destruct (tell_keys (map_to_list new)
    (λ '(svcId, service), match old !! svcId with
     | Some _ => []
     | None => [NotifyServiceChange state None service ServiceAccessGainedEvent] end)
    (λ kx cur, match old !! kx.1 with Some _ => cur | None => Some (visible kx.2) end)
    M1) as (M2 & -> & Hin2 & Hout2); [apply NoDup_fst_map_to_list| |].
  { intros [k x] Hk%elem_of_map_to_list M. simpl. destruct (old !! k).
    - unfold tell. simpl. by rewrite (partial_alter_id _ _ _) by done.
    - unfold tell. simpl. by rewrite (Hnew _ _ Hk). }
  f_equal. apply map_eq. intros k. rewrite lookup_fmap.
  destruct (new !! k) as [y|] eqn:Hy; simpl.
  - rewrite (Hin2 k y) by (by apply elem_of_map_to_list). simpl. destruct (old !! k) as [x|] eqn:Hx; [|done].
    rewrite (Hin k x) by (by apply elem_of_map_to_list). simpl. rewrite Hy, lookup_fmap, Hx. simpl.
    destruct (IdentityService_Equals x y) eqn:E; [|done]. f_equal. apply Equals_visible; [|done]. eauto.
  - rewrite Hout2 by (rewrite elem_of_keys, Hy; by intros [? ?]). destruct (old !! k) as [x|] eqn:Hx.
    + rewrite (Hin k x) by (by apply elem_of_map_to_list). simpl. by rewrite Hy.
    + rewrite Hout by (rewrite elem_of_keys, Hx; by intros [? ?]). by rewrite lookup_fmap, Hx.
Qed.

(** ** Services keep their version under an index *)

(** A service is as before or has the index of the event. *)
Definition versions (idx : Z) (S S' : gmap string Service) : Prop :=
  ∀ sid x', S' !! sid = Some x' →
    s_index x' = idx ∨ ∃ x, S !! sid = Some x ∧ s_Model x = s_Model x' ∧ s_index x = s_index x'.
Definition keyed (S : gmap string Service) : Prop := ∀ sid x, S !! sid = Some x → sm_Id (s_Model x) = sid.
Definition svcs_step (idx : Z) (m m' : RouterDataModel) : Prop :=
  keyed (r_Services m) → keyed (r_Services m') ∧ versions idx (r_Services m) (r_Services m').

Lemma svcs_eq idx m m' : r_Services m' = r_Services m → svcs_step idx m m'.
Proof. intros He Hk. rewrite He. split; [done|]. intros sid x Hx. right. eauto. Qed.
#[local] Instance svcs_preorder idx : PreOrder (svcs_step idx).
Proof.
  split; [intros m; by apply svcs_eq|]. intros m1 m2 m3 H12 H23 Hk1. destruct (H12 Hk1) as [Hk2 Hv12].
  destruct (H23 Hk2) as [Hk3 Hv23]. split; [done|]. intros sid x3 Hx3.
  destruct (Hv23 _ _ Hx3) as [?|(x2 & Hx2 & Hm & Hi)]; [by left|].
  destruct (Hv12 _ _ Hx2) as [?|(x1 & Hx1 & Hm' & Hi')]; [left; congruence|].
  right. exists x1. split_and!; [done|congruence..].
Qed.

Lemma svcs_then idx m1 m m' : r_Services m' = r_Services m1 → svcs_step idx m m1 → svcs_step idx m m'.
Proof. intros He H. etrans; [exact H|by apply svcs_eq]. Qed.
Lemma svcs_from idx m1 m m' : svcs_step idx m1 m' → r_Services m1 = r_Services m → svcs_step idx m m'.
Proof. intros H He. etrans; [by apply svcs_eq|exact H]. Qed.

Lemma svcs_foldl {B} idx (f : RouterDataModel → B → RouterDataModel) l m :
  (∀ m x, svcs_step idx m (f m x)) → svcs_step idx m (foldl f m l).
Proof.
  intros Hf. revert m. induction l as [|x l IH]; intros m; simpl; [reflexivity|]. etrans; [apply Hf|apply IH].
Qed.
Lemma svcs_foldM {B} idx (f : B → RouterDataModel → option RouterDataModel) l m m' :
  (∀ x m m', f x m = Some m' → svcs_step idx m m') → foldM f l m = Some m' → svcs_step idx m m'.
Proof.
  intros Hf. revert m. induction l as [|x l IH]; intros m; simpl; [by intros [= <-]|].
  destruct (f x m) as [m1|] eqn:E; simpl; [|done]. intros Hl. etrans; [by eapply Hf|by apply IH].
Qed.

Lemma queueCheck_svcs flag ev i m : r_Services (queueCheck flag ev i m) = r_Services m.
Proof. unfold queueCheck. case_bool_decide; [by destruct (_ <? _)%nat|done]. Qed.
Lemma NotifyIdentityChange_svcs i m : r_Services (NotifyIdentityChange i m) = r_Services m.
Proof. unfold NotifyIdentityChange. destruct (_ !! _); [apply queueCheck_svcs|done]. Qed.
Lemma notifyAll_svcs l m : r_Services (notifyAll l m) = r_Services m.
Proof.
  unfold notifyAll. revert m. induction l as [|x l IH]; intros m; simpl; [done|].
  by rewrite IH, NotifyIdentityChange_svcs.
Qed.
Lemma NotifyServicePolicyServiceChange_svcs p idx m :
  r_Services (NotifyServicePolicyServiceChange p idx m) = r_Services m.
Proof.
  unfold NotifyServicePolicyServiceChange. destruct (_ !! _); [|done].
  rewrite notifyAll_svcs. by destruct (_ <? _).
Qed.
Lemma NotifyServicePolicyPostureChecksChange_svcs p idx m :
  r_Services (NotifyServicePolicyPostureChecksChange p idx m) = r_Services m.
Proof.
  unfold NotifyServicePolicyPostureChecksChange. destruct (_ !! _); [|done].
  rewrite notifyAll_svcs. by destruct (_ <? _).
Qed.
Lemma withLockedIdentity_svcs i f m m' : withLockedIdentity i f m = Some m' → r_Services m' = r_Services m.
Proof.
  unfold withLockedIdentity. destruct (_ !! _) as [v|]; [|by intros [= <-]].
  destruct (f v); simpl; [|done]. by intros [= <-].
Qed.
Lemma withLockedIdentities_svcs l f m m' :
  withLockedIdentities l f m = Some m' → r_Services m' = r_Services m.
Proof.
  intros H. refine (foldM_pres _ (λ m1, r_Services m1 = r_Services m) l m m' _ H eq_refl).
  intros x a a' Hx <-. by apply withLockedIdentity_svcs in Hx.
Qed.

Lemma put_service_step idx m sid svc :
  s_index svc = idx → sm_Id (s_Model svc) = sid → svcs_step idx m (upd_Services (<[sid := svc]> (r_Services m)) m).
Proof.
  intros Hi Hid Hk. split; intros s x; simpl; rewrite lookup_insert_Some; intros [[<- <-]|[_ Hx]]; auto.
  right. eauto.
Qed.
Lemma NotifyServiceOfConfigChange_step s idx m : svcs_step idx m (NotifyServiceOfConfigChange s idx m).
Proof.
  unfold NotifyServiceOfConfigChange. destruct (r_Services m !! s) as [v|] eqn:Hv; [|reflexivity].
  etrans; [|apply svcs_foldl; intros; apply svcs_eq, NotifyServicePolicyServiceChange_svcs].
  destruct (_ <? _); [|reflexivity]. intros Hk. apply put_service_step; [done|exact (Hk _ _ Hv)|done].
Qed.
Lemma notifyConfig_step idx v m : svcs_step idx m (notifyConfig idx v m).
Proof.
  unfold notifyConfig. eapply svcs_then; [apply notifyAll_svcs|]. apply svcs_foldl. intros.
  apply NotifyServiceOfConfigChange_step.
Qed.
Lemma withServices_step idx ids add p m : svcs_step idx m (withServices ids (svc_setPolicy add p) m).
Proof.
  unfold withServices. intros Hk. simpl. generalize dependent (r_Services m). clear m.
  induction ids as [|s ids IH]; intros S Hk; simpl; [by apply (svcs_eq idx (mkRdm ∅ ∅ ∅ S ∅ ∅ ∅ ∅ ∅ ∅ ∅ [] false "" 0) _ eq_refl)|].
  destruct (S !! s) as [v|] eqn:Hv; [|by apply IH].
  assert (keyed (<[s := svc_setPolicy add p v]> S)) as Hk'.
  { intros sid x. destruct (decide (sid = s)) as [->|Hne];
      [rewrite lookup_insert_eq; intros [= <-]; exact (Hk _ _ Hv)|rewrite lookup_insert_ne by done; apply Hk]. }
  destruct (IH _ Hk') as [Hk'' Hv'']. split; [done|]. intros sid x' Hx'.
  destruct (Hv'' _ _ Hx') as [?|(x & Hx & Hm & Hi)]; [by left|right].
  destruct (decide (sid = s)) as [->|Hne]; [|rewrite lookup_insert_ne in Hx by done; eauto].
  rewrite lookup_insert_eq in Hx. injection Hx as <-. eauto.
Qed.

Lemma HandleServicePolicyChange_step idx c m m' :
  HandleServicePolicyChange idx c m = Some m' → svcs_step idx m m'.
Proof.
  unfold HandleServicePolicyChange. destruct (_ !! _) as [pol|]; [|by intros [= <-]].
  frame_bind. destruct p as [pol1 m1]. intros [= <-].
  apply (svcs_then _ m1); [by rewrite !notifyAll_svcs|].
  destruct (pch_RelatedEntityType c).
  - revert Heqo. unfold changeServices. frame_bind. frame_bind. intros [= <- <-].
    apply withLockedIdentities_svcs in Heqo. etrans; [by apply svcs_eq|].
    etrans; [apply (withServices_step idx (pch_RelatedEntityIds c) (pch_Add c) (pm_Id (po_Model pol)))|].
    apply svcs_eq. destruct (pch_Add c), (_ && _); simplify_eq; try done;
      by apply withLockedIdentities_svcs in Heqo0.
  - apply svcs_eq. refine (foldM_pres _ (λ pm, r_Services pm.2 = r_Services m) _ _ _ _ Heqo eq_refl).
    intros x [q m2] [q' m3]. unfold changeIdentity. destruct (_ !! _); intros [= <- <-]; done.
  - revert Heqo. unfold changePostureChecks. frame_bind. intros [= <- <-]. apply svcs_eq. simpl.
    destruct (bool_decide _); [by simplify_eq|]. by apply withLockedIdentities_svcs in Heqo.
Qed.
Lemma cleanup_step idx l t id m m' : cleanup idx l t id m = Some m' → svcs_step idx m m'.
Proof. apply svcs_foldM. intros. by eapply HandleServicePolicyChange_step. Qed.
Lemma locked_loop_svcs idx l f g m m' :
  (∀ i m, r_Services (g i m) = r_Services m) →
  foldM (λ i m, m ← withLockedIdentity i f m; Some (g i m)) l m = Some m' → svcs_step idx m m'.
Proof.
  intros Hg. apply svcs_foldM. intros x a a'. frame_bind. intros [= <-]. apply svcs_eq.
  rewrite Hg. by eapply withLockedIdentity_svcs.
Qed.

Lemma Handle_step idx ev m m' : Handle idx ev m = Some m' → svcs_step idx m m'.
Proof.
  destruct ev as [act x|act x|act x|act x|act x|act x|act x|act x|c]; simpl Handle.
  - unfold HandleConfigTypeEvent. intros [= <-]. destruct act; try by apply svcs_eq.
    all: eapply svcs_from; [apply svcs_foldl; intros m1 v|done];
      (destruct (bool_decide _); [apply notifyConfig_step|reflexivity]).
  - unfold HandleConfigEvent. destruct act.
    1,2: intros [= <-]; (match goal with |- svcs_step _ _ (upd_Configs _ ?m1) => apply (svcs_then _ m1); [done|] end);
      destruct (match _ !! _ with Some _ => _ | None => _ end); [apply notifyConfig_step|reflexivity].
    destruct (_ !! _); [|by intros [= <-]]. frame_bind. intros [= <-].
    apply (svcs_then _ r); [done|].
    etrans; [|eapply locked_loop_svcs; [|exact Heqo]; intros; apply NotifyIdentityChange_svcs].
    apply svcs_foldl. intros. apply NotifyServiceOfConfigChange_step.
  - unfold HandleIdentityEvent. destruct act.
    1,2: destruct (r_Identities m !! _); intros [= <-]; apply svcs_eq; (etrans; [apply queueCheck_svcs|done]).
    destruct (r_Identities m !! _); frame_bind; intros [= <-]; (apply (svcs_then _ r);
      [by etrans; [apply queueCheck_svcs|]|]); (eapply svcs_from; [eapply cleanup_step, Heqo|done]).
  - unfold HandleServiceEvent. destruct act.
    3: destruct (r_Services m !! _) eqn:Hs; [|by intros [= <-]]; intros H; apply cleanup_step in H;
      (etrans; [|exact H]); intros Hk; split; intros sid y; simpl; intros Hy;
      apply lookup_delete_Some in Hy as [_ Hy]; [by apply Hk|right; eauto].
    1,2: destruct (r_Services m !! _); [destruct (diffStringSlices _ _)|]; intros [= <-];
      (etrans; [|apply svcs_foldl; intros; apply svcs_eq, NotifyServicePolicyServiceChange_svcs]);
      (match goal with |- svcs_step _ _ (upd_Services _ ?m1) =>
         apply (svcs_from _ m1); [by apply (put_service_step _ m1)|done] end).
  - unfold HandleServicePolicyEvent. assert (applyUpdateServicePolicyEvent idx x m = Some m' →
      svcs_step idx m m') as Hup.
    { unfold applyUpdateServicePolicyEvent. destruct (_ !! _); [|intros [= <-]; by apply svcs_eq].
      frame_bind. intros [= <-]. apply svcs_eq. simpl.
      destruct (bool_decide _); [by simplify_eq|]. by apply withLockedIdentities_svcs in Heqo. }
    destruct act; [done|done|]. unfold applyDeleteServicePolicyEvent.
    destruct (_ !! _); [|by intros [= <-]]. frame_bind. intros [= <-]. apply (svcs_then _ r); [done|].
    eapply locked_loop_svcs; [|exact Heqo]. intros. apply queueCheck_svcs.
  - unfold HandlePostureCheckEvent. destruct act.
    1,2: intros [= <-]; (eapply svcs_from; [apply svcs_foldl|done]);
      intros; apply svcs_eq, NotifyServicePolicyPostureChecksChange_svcs.
    frame_bind. intros [= <-]. apply (svcs_then _ r); [done|]. by apply cleanup_step in Heqo.
  - intros [= <-]. by apply svcs_eq.
  - intros [= <-]. by apply svcs_eq.
  - apply HandleServicePolicyChange_step.
Qed.

(** ** Invariant of the router with its subscriptions *)

(** A service of a snapshot: while the model's service has its index it is the
    same. *)
Definition snap_ok (m : RouterDataModel) (sid : string) (x : IdentityService) : Prop :=
  GetId x = sid ∧ s_index (is_Service x) ≤ r_index m ∧
  ∀ cur, r_Services m !! sid = Some cur → s_index cur = s_index (is_Service x) →
    s_Model cur = s_Model (is_Service x).

Record model_ok (m : RouterDataModel) : Prop := {
  mo_keyed : keyed (r_Services m);
  mo_index sid x : r_Services m !! sid = Some x → s_index x ≤ r_index m;
}.
Record sub_ok (m : RouterDataModel) (i : string) (sub : IdentitySubscription) : Prop := {
  sb_in : sub_Identity sub = InModel → is_Some (r_Identities m !! i);
  sb_nil : sub_Identity sub = NilIdentity ↔ sub_Services sub = None;
  sb_snap services sid x : sub_Services sub = Some services → services !! sid = Some x → snap_ok m sid x;
}.
Definition views_ok (i : string) (sub : IdentitySubscription) (sent : list (string * nat * Delivery)) : Prop :=
  ∀ l, l ∈ sub_listeners sub → view i l sent = expected sub.
Record y_ok (y : Router) : Prop := {
  yo_model : model_ok (y_model y);
  yo_sub i sub : y_subs y !! i = Some sub → sub_ok (y_model y) i sub ∧ views_ok i sub (y_sent y);
}.

(** Steps of the model that leave services, index and the presence of identities
    alone, and what the model represents. *)
Record quiet (m m' : RouterDataModel) : Prop := {
  qu_svcs : r_Services m' = r_Services m;
  qu_index : r_index m' = r_index m;
  qu_ids i : is_Some (r_Identities m !! i) → is_Some (r_Identities m' !! i);
  qu_rep a : abs_ok a → router_rep m a → router_rep m' a;
}.
#[local] Instance quiet_preorder : PreOrder quiet.
Proof.
  split; [by split|]. intros m1 m2 m3 [] []. split; [congruence|congruence|auto|auto].
Qed.
Lemma quiet_model m m' : quiet m m' → model_ok m → model_ok m'.
Proof. intros [Hs Hi _ _] []. split; rewrite Hs; [done|]. by rewrite Hi. Qed.
Lemma quiet_snap m m' sid x : quiet m m' → snap_ok m sid x → snap_ok m' sid x.
Proof. intros [Hs Hi _ _] (? & ? & ?). unfold snap_ok. by rewrite Hs, Hi. Qed.
Lemma quiet_sub m m' i sub : quiet m m' → sub_ok m i sub → sub_ok m' i sub.
Proof.
  intros Hq []. split; [|done|]; intros.
  - by apply (qu_ids _ _ Hq), sb_in0.
  - eapply quiet_snap; [done|eauto].
Qed.

Lemma quiet_queue u evs scan m : quiet m (upd_queue u evs scan m).
Proof. split; try done. intros a _ []. by split. Qed.
Lemma quiet_subscriptions x m : quiet m (upd_subscriptions x m).
Proof. split; try done. intros a _ []. by split. Qed.
Lemma quiet_complete i t m : quiet m (markIdentityCheckComplete i t m).2.
Proof. apply quiet_queue. Qed.

Lemma quiet_tracking (b : bool) i m :
  ∃ m', (if b then EnableServiceAccessTracking i m else DisableServiceAccessTracking i m) = Some m' ∧ quiet m m' ∧
    (∀ v, r_Identities m !! i = Some v → ∃ v', r_Identities m' !! i = Some v' ∧ id_Model v' = id_Model v).
Proof.
  assert (∃ m', (if b then EnableServiceAccessTracking i m else DisableServiceAccessTracking i m) = Some m') as [m' Hm'].
  { unfold EnableServiceAccessTracking, DisableServiceAccessTracking, withLockedIdentity.
    destruct b, (r_Identities m !! i); eauto. }
  exists m'. split; [done|]. split; [split|].
  - destruct b; by apply withLockedIdentity_svcs in Hm'.
  - assert (frame m' = frame m) as Hf by (destruct b; by apply withLockedIdentity_frame in Hm'). by injection Hf.
  - intros j Hj. destruct b; revert Hm'; unfold EnableServiceAccessTracking, DisableServiceAccessTracking,
      withLockedIdentity; (destruct (r_Identities m !! i); [|by intros [= <-]]); simpl; intros [= <-]; simpl;
      (destruct (decide (i = j)) as [->|]; [by rewrite lookup_insert_eq|by rewrite lookup_insert_ne]).
  - intros a Ha Hr. destruct (tracking_rep b i m a Ha Hr) as (m'' & Hm'' & ?). congruence.
  - intros v Hv. destruct b; revert Hm'; unfold EnableServiceAccessTracking, DisableServiceAccessTracking,
      withLockedIdentity; rewrite Hv; simpl; intros [= <-]; simpl; rewrite lookup_insert_eq; eexists;
      (split; [done|]); by destruct (id_serviceAccessTrackingEnabled v).
Qed.

(** ** One check *)

(** The services of a list are those of the model. *)
Lemma fresh_snap m (services : gmap string IdentityService) :
  model_ok m → (∀ sid x, services !! sid = Some x → r_Services m !! sid = Some (is_Service x)) →
  ∀ sid x, services !! sid = Some x → snap_ok m sid x.
Proof.
  intros [Hk Hi] Hs sid x Hx. apply Hs in Hx as Hm. split; [by apply Hk|]. split; [by eapply Hi|].
  intros cur Hc _. congruence.
Qed.
Lemma denormalized_services i v m sid x :
  (buildServiceListUsingDenormalizedData i v m).1 !! sid = Some x → r_Services m !! sid = Some (is_Service x).
Proof.
  unfold buildServiceListUsingDenormalizedData. destruct (r_Identities m !! i); [|done]. simpl.
  rewrite map_lookup_imap. destruct (id_ServiceAccess _ !! sid); simpl; [|done].
  destruct (r_Services m !! sid); simpl; [|done]. by intros [= <-].
Qed.
Lemma denormalized_model i v v' m :
  id_Model v' = id_Model v →
  buildServiceListUsingDenormalizedData i v m = buildServiceListUsingDenormalizedData i v' m.
Proof.
  intros Hm. unfold buildServiceListUsingDenormalizedData, loadServiceConfigs. by rewrite Hm.
Qed.
Lemma listed_services v m sid x :
  (buildServiceList v m).1 !! sid = Some x → r_Services m !! sid = Some (is_Service x).
Proof.
  intros Hx. destruct (buildServiceList_spec v m (elements (id_ServicePolicies v))) as [Hs _].
  specialize (Hs sid). unfold buildServiceList in Hx. rewrite Hx in Hs. simpl in Hs.
  destruct (r_Services m !! sid) as [svc|]; simpl in Hs; [|done].
  destruct (somePolicy _ _ _); [|done]. by injection Hs as ->.
Qed.

Lemma policyChanges_tell state old new v : tell v (policyChanges state old new) = v.
Proof.
  unfold policyChanges. induction (map_to_list new) as [|[sid x] l IH]; [done|]. cbn [mbind list_bind].
  rewrite tell_app. rewrite <- IH at 2. f_equal. destruct (old !! sid); [|done]. rewrite tell_app.
  by destruct (is_DialAllowed x && _), (is_BindAllowed x && _).
Qed.

Lemma changesFor_tell m state v v' old new oc nc :
  model_ok m → (∀ sid x, old !! sid = Some x → snap_ok m sid x) →
  (∀ sid x, new !! sid = Some x → r_Services m !! sid = Some (is_Service x)) →
  tell (Some (visible <$> old)) (changesFor state v v' old new oc nc) = Some (visible <$> new).
Proof.
  intros Hm Hold Hnew. unfold changesFor. rewrite !tell_app.
  replace (tell (Some (visible <$> old)) _) with (Some (visible <$> old)) by (by destruct (_ && _)).
  rewrite serviceChanges_tell, policyChanges_tell; [by destruct (checksChanged oc nc)| | |].
  - intros k x Hx. by apply Hold in Hx as [? _].
  - intros k x Hx. by apply (mo_keyed _ Hm), Hnew.
  - intros k x y Hx Hy He. apply Hold in Hx as (_ & _ & Hc). symmetry. apply Hc; [by apply Hnew|done].
Qed.

Lemma checkForChanges_spec i sub m :
  model_ok m → sub_ok m i sub →
  ∃ m' sub' notes, checkForChanges i sub m = Some (m', sub', broadcast sub notes) ∧ quiet m m' ∧
    sub_ok m' i sub' ∧ sub_listeners sub' = sub_listeners sub ∧ tell (expected sub) notes = expected sub' ∧
    match r_Identities m !! i with
    | None => sub_Services sub' = None
    | Some _ => ∃ v', r_Identities m' !! i = Some v' ∧
                sub_Services sub' = Some (buildServiceListUsingDenormalizedData i v' m').1
    end.
Proof.
  intros Hm [Hin Hnil Hsnap]. unfold checkForChanges. destruct (r_Identities m !! i) as [v|] eqn:Hv.
  - assert (deref i m (sub_Identity sub) = None ↔ sub_Services sub = None) as Hd.
    { rewrite <- Hnil. destruct (sub_Identity sub); simpl; rewrite ?Hv; naive_solver. }
    destruct (deref i m (sub_Identity sub)) as [old|] eqn:Hold.
    + simpl. destruct (buildServiceListUsingDenormalizedData i v m) as [new nc] eqn:Hl. simpl.
      assert (∀ sid x, new !! sid = Some x → r_Services m !! sid = Some (is_Service x)) as Hnew.
      { intros sid x Hx. apply (denormalized_services i v). by rewrite Hl. }
      destruct (sub_Services sub) as [services|] eqn:Hs; [|exfalso; by destruct Hd as [_ Hd]; specialize (Hd eq_refl)].
      eexists m, _, _. split; [done|]. split; [reflexivity|]. split.
      { split; simpl; [by rewrite Hv|split; congruence|]. intros ? sid x [= <-] Hx. by apply (fresh_snap m new). }
      split; [done|]. split; [|exists v; by rewrite Hl]. unfold expected. rewrite Hs. simpl.
      apply (changesFor_tell m); [done| |done]. intros. by eapply Hsnap.
    + destruct (quiet_tracking true i m) as (m' & -> & Hq & Hid). simpl.
      destruct (buildServiceListUsingDenormalizedData i v m') as [new nc] eqn:Hl. simpl.
      assert (∀ sid x, new !! sid = Some x → r_Services m' !! sid = Some (is_Service x)) as Hnew.
      { intros sid x Hx. apply (denormalized_services i v). by rewrite Hl. }
      eexists m', _, _. split; [done|]. split; [done|]. split.
      { split; simpl; [intros _; apply (qu_ids _ _ Hq); by rewrite Hv|split; congruence|]. intros ? sid x [= <-] Hx.
        apply (fresh_snap m' new); [by eapply quiet_model|done|done]. }
      split; [done|]. split; [done|]. destruct (Hid v Hv) as (v' & Hv' & Hmod). exists v'. split; [done|].
      by rewrite <- (denormalized_model i v v'), Hl.
  - destruct (deref i m (sub_Identity sub)) as [old|] eqn:Hold.
    + eexists m, _, [_]. split; [done|]. split; [reflexivity|]. split; [by split|]. done.
    + eexists m, _, []. split; [done|]. split; [reflexivity|].
      assert (sub_Services sub = None) as Hs.
      { apply Hnil. destruct (sub_Identity sub) eqn:E; simpl in Hold; [done| |done]. by destruct (Hin eq_refl). }
      split; [split; simpl; [done|by rewrite Hs|by rewrite Hs]|]. split; [done|]. split; [|done].
      unfold expected, tell. simpl. done.
Qed.

(** ** Steps of the goroutine *)

Definition y_ok_but (i : string) (y : Router) : Prop :=
  model_ok (y_model y) ∧
  ∀ j sub, j ≠ i → y_subs y !! j = Some sub → sub_ok (y_model y) j sub ∧ views_ok j sub (y_sent y).
Lemma y_ok_any i y : y_ok y → y_ok_but i y.
Proof. intros []. split; eauto. Qed.

Lemma putSub_but i sub m notes y :
  y_ok_but i y → quiet (y_model y) m → sub_ok m i sub →
  (∀ l, l ∈ sub_listeners sub →
     foldl viewStep (view i l (y_sent y)) (deliveries i l ((λ n, (i, n.1, Told n.2)) <$> notes)) = expected sub) →
  y_ok (putSub i sub m notes y).
Proof.
  intros [Hm Hs] Hq Hsub Hv. assert (quiet (y_model y) (upd_subscriptions (dom (<[i := sub]> (y_subs y))) m)) as Hq'
    by (etrans; [exact Hq|apply quiet_subscriptions]).
  split; [by eapply quiet_model|]. intros j sub' Hj. simpl in *. destruct (decide (j = i)) as [->|Hne].
  - rewrite lookup_insert_eq in Hj. injection Hj as <-.
    split; [eapply quiet_sub; [apply quiet_subscriptions|done]|]. intros l Hl. rewrite view_app. by apply Hv.
  - rewrite lookup_insert_ne in Hj by done. destruct (Hs _ _ Hne Hj) as [Ho Hw].
    split; [by eapply quiet_sub|]. intros l Hl. rewrite view_app, other_tell by done. by apply Hw.
Qed.
Lemma putSub_ok i sub m notes y :
  y_ok y → quiet (y_model y) m → sub_ok m i sub →
  (∀ l, l ∈ sub_listeners sub →
     foldl viewStep (view i l (y_sent y)) (deliveries i l ((λ n, (i, n.1, Told n.2)) <$> notes)) = expected sub) →
  y_ok (putSub i sub m notes y).
Proof. intros Hy. by apply putSub_but, y_ok_any. Qed.
Lemma onModel_ok f y : y_ok y → quiet (y_model y) (f (y_model y)) → y_ok (onModel f y).
Proof.
  intros [Hm Hs] Hq. split; [by eapply quiet_model|]. intros i sub Hi. destruct (Hs _ _ Hi).
  split; [by eapply quiet_sub|done].
Qed.
Lemma dropSub_ok i y : y_ok y → y_ok (dropSub i y).
Proof.
  intros [Hm Hs]. split; simpl; [eapply quiet_model; [apply quiet_subscriptions|done]|].
  intros j sub Hj. apply lookup_delete_Some in Hj as [_ Hj]. destruct (Hs _ _ Hj).
  split; [eapply quiet_sub; [apply quiet_subscriptions|done]|done].
Qed.

(** What every operation of the goroutine does. *)
Definition served (y y' : Router) : Prop := y_ok y' ∧ quiet (y_model y) (y_model y').
Lemma served_trans y1 y2 y3 : served y1 y2 → served y2 y3 → served y1 y3.
Proof. intros [_ H1] [H2 H3]. split; [done|by etrans]. Qed.
Lemma served_onModel f y : y_ok y → quiet (y_model y) (f (y_model y)) → served y (onModel f y).
Proof. intros Hy Hq. split; [by apply onModel_ok|done]. Qed.

Lemma quiet_put m i sub n y : quiet (y_model y) m → quiet (y_model y) (y_model (putSub i sub m n y)).
Proof. intros Hq. etrans; [exact Hq|]. simpl. apply quiet_subscriptions. Qed.

Lemma runCheck_ok i sub y :
  y_ok y → y_subs y !! i = Some sub →
  ∃ y' sub', runCheck i sub y = Some y' ∧ served y y' ∧ y_subs y' = <[i := sub']> (y_subs y) ∧
    match r_Identities (y_model y) !! i with
    | None => sub_Services sub' = None
    | Some _ => ∃ v', r_Identities (y_model y') !! i = Some v' ∧
                sub_Services sub' = Some (buildServiceListUsingDenormalizedData i v' (y_model y')).1
    end.
Proof.
  intros Hy Hs. destruct (yo_sub _ Hy _ _ Hs) as [Hsub Hv].
  destruct (checkForChanges_spec i sub (y_model y) (yo_model _ Hy) Hsub)
    as (m' & sub' & notes & Hc & Hq & Hsub' & Hl & Ht & Hlast).
  unfold runCheck. rewrite Hc. simpl. eexists _, sub'. split; [done|]. split; [split|split; [done|]].
  - apply putSub_ok; [done..|]. intros l Hin. rewrite Hl in Hin. rewrite broadcast_tell by done. by rewrite Hv.
  - by apply quiet_put.
  - exact Hlast.
Qed.

Lemma syncSubscription_ok i b y :
  y_ok y → ∃ y', syncSubscriptionIfRequired i b y = Some y' ∧ served y y'.
Proof.
  intros Hy. unfold syncSubscriptionIfRequired. destruct (y_subs y !! i) as [sub|] eqn:Hs;
    [|exists y; split; [done|by split]].
  assert (quiet (y_model y) (if b then markIdentityCheckComplete i IdentityUpdated (y_model y)
    else (true, y_model y)).2) as Hq by (destruct b; [apply quiet_complete|reflexivity]).
  destruct (if b then _ else _) as [req m]. simpl in Hq.
  assert (served y (onModel (λ _, m) y)) as H1 by (by apply served_onModel).
  destruct req; [|by eexists].
  destruct (runCheck_ok i sub (onModel (λ _, m) y) (proj1 H1) Hs) as (y' & sub' & -> & H2 & _).
  eexists. split; [done|by eapply served_trans].
Qed.

Lemma initialize_spec i v sub m :
  model_ok m → sub_ok m i sub → r_Identities m !! i = Some v →
  ∃ m' sub' state was, initialize i v sub m = Some (m', sub', state, was) ∧ quiet m m' ∧ sub_ok m' i sub' ∧
    sub_listeners sub' = sub_listeners sub ∧ sub_Services sub' ≠ None ∧
    st_Services state = default ∅ (sub_Services sub') ∧ (was = true → sub' = sub) ∧
    (was = false → sub_Services sub = None).
Proof.
  intros Hm Hsub Hv. pose proof Hsub as [Hin Hnil Hsnap]. unfold initialize.
  assert (∃ m', (if id_serviceAccessTrackingEnabled v then Some m else EnableServiceAccessTracking i m) = Some m' ∧
    quiet m m') as (m' & -> & Hq).
  { destruct (id_serviceAccessTrackingEnabled v); [exists m; by split|].
    destruct (quiet_tracking true i m) as (m' & ? & ? & _). eauto. }
  simpl. assert (is_Some (r_Identities m' !! i)) as [v' Hv'] by (apply (qu_ids _ _ Hq); by rewrite Hv).
  destruct (sub_Identity sub) eqn:Href; simpl; rewrite ?Hv'; simpl.
  - assert (sub_Services sub = None) as -> by (by apply Hnil). eexists m', _, _, false. split; [done|].
    split; [done|]. split; [|done]. split; simpl; [by rewrite Hv'|split; congruence|]. intros ? sid x [= <-] Hx.
    eapply (fresh_snap m' (buildServiceList v m').1); [by eapply quiet_model| |done]. apply listed_services.
  - eexists m', sub, _, true. split; [done|]. split; [done|]. split; [by eapply quiet_sub|].
    split_and!; try done. by intros Hx%Hnil.
  - eexists m', sub, _, true. split; [done|]. split; [done|]. split; [by eapply quiet_sub|].
    split_and!; try done. by intros Hx%Hnil.
Qed.

Lemma newIdentity_ok i b y : y_ok y → ∃ y', checkSubsForNewIdentity i b y = Some y' ∧ served y y'.
Proof.
  intros Hy. unfold checkSubsForNewIdentity.
  assert (quiet (y_model y) (if b then markIdentityCheckComplete i IdentityAdded (y_model y)
    else (true, y_model y)).2) as Hq by (destruct b; [apply quiet_complete|reflexivity]).
  destruct (if b then _ else _) as [req m]. simpl in Hq. simpl.
  assert (served y (onModel (λ _, m) y)) as H1 by (by apply served_onModel).
  destruct (y_subs y !! i) as [sub|] eqn:Hs; [|by eexists].
  destruct (r_Identities m !! i) as [v|] eqn:Hv; [|by eexists]. destruct req; [|by eexists].
  destruct H1 as [Hy1 Hq1]. destruct (yo_sub _ Hy1 i sub Hs) as [Hsub Hw]. simpl in Hsub, Hw.
  destruct (initialize_spec i v sub m (yo_model _ Hy1) Hsub Hv)
    as (m' & sub' & st & was & -> & Hq' & Hsub' & Hl & Hne & Hst & Htrue & Hfalse).
  destruct was.
  - specialize (Htrue eq_refl) as ->.
    assert (served y (putSub i sub m' [] (onModel (λ _, m) y))) as H2.
    { split; [by apply putSub_ok|]. etrans; [exact Hq1|]. by apply quiet_put. }
    destruct (runCheck_ok i sub _ (proj1 H2)) as (y' & s2 & -> & H3 & _); [apply lookup_insert_eq|].
    eexists. split; [done|by eapply served_trans].
  - eexists. split; [done|]. split; [|etrans; [exact Hq1|by apply quiet_put]]. apply putSub_ok; [done..|].
    intros l Hin. rewrite broadcast_tell by done. unfold tell. simpl. rewrite Hst. unfold expected.
    by destruct (sub_Services sub').
Qed.

Lemma deletedIdentity_ok i b y : y_ok y → served y (checkSubsForDeletedIdentity i b y).
Proof.
  intros Hy. unfold checkSubsForDeletedIdentity. set (y1 := if b then _ else y).
  assert (served y y1) as H1.
  { unfold y1. destruct b; [apply served_onModel; [done|apply quiet_complete]|by split]. }
  apply served_trans with y1; [done|]. destruct H1 as [Hy1 _]. clearbody y1. clear y Hy.
  destruct (y_subs y1 !! i) as [sub|] eqn:Hs; [|by split]. destruct (yo_sub _ Hy1 _ _ Hs) as [Hsub Hw].
  assert (∃ sub' notes, identityRemoved i (y_model y1) sub = (sub', notes) ∧
    served y1 (putSub i sub' (y_model y1) notes y1)) as (sub' & notes & -> & H2).
  { unfold identityRemoved. destruct (deref i (y_model y1) (sub_Identity sub)).
    - eexists _, _. split; [done|]. split; [|by apply quiet_put]. apply putSub_ok; [done|done|by split|].
      intros l Hl. by rewrite broadcast_tell by done.
    - eexists _, _. split; [done|]. split; [|by apply quiet_put]. by apply putSub_ok. }
  destruct (sub_IsRouterIdentity sub'); [done|]. apply served_trans with (1 := H2).
  split; [apply dropSub_ok, H2|apply quiet_subscriptions].
Qed.

Lemma syncAll_ok y : y_ok y → ∃ y', syncAll y = Some y' ∧ served y y'.
Proof.
  intros Hy. unfold syncAll.
  cut (∀ l y1, NoDup l.*1 → (∀ kv, kv ∈ l → y_subs y1 !! kv.1 = Some kv.2) → served y y1 →
    ∃ y', foldM (λ kv y, runCheck kv.1 kv.2 (onModel (λ m, (markIdentityCheckComplete kv.1 IdentityUpdated m).2) y)) l y1
      = Some y' ∧ served y y').
  { intros Hc. apply Hc; [apply NoDup_fst_map_to_list|by intros [? ?] ?%elem_of_map_to_list|by split]. }
  induction l as [|[i sub] l IH]; intros y1 Hnd Hl H1; [by exists y1|].
  apply NoDup_cons in Hnd as [Hni Hnd]. cbn [foldM fst snd].
  set (y2 := onModel _ y1). assert (served y y2) as H2.
  { eapply served_trans; [exact H1|]. apply served_onModel; [apply H1|apply quiet_complete]. }
  destruct (runCheck_ok i sub y2 (proj1 H2)) as (y3 & sub' & -> & H3 & Hs & _); [apply (Hl (i, sub)); left|].
  simpl. apply IH; [done| |by eapply served_trans]. intros [j sub2] Hj. rewrite Hs. simpl.
  rewrite lookup_insert_ne; [apply (Hl (j, sub2)); by right|]. intros ->. apply Hni, list_elem_of_fmap.
  by exists (j, sub2).
Qed.

Lemma process_ok ev y : y_ok y → ∃ y', process ev y = Some y' ∧ served y y'.
Proof.
  intros Hy. destruct ev; simpl;
    [by apply syncSubscription_ok|by apply newIdentity_ok|eexists; split; [done|by apply deletedIdentity_ok]|
     by apply syncAll_ok].
Qed.

Lemma scanEntry_ok kv y : y_ok y → ∃ y', scanEntry kv y = Some y' ∧ served y y'.
Proof.
  intros Hy. destruct kv as [i flags]. unfold scanEntry. set (y1 := onModel _ y).
  assert (served y y1) as H1 by (apply served_onModel; [done|apply quiet_queue]). clearbody y1.
  destruct (Z.land flags IdentityDeleted =? IdentityDeleted).
  { eexists. split; [done|]. eapply served_trans; [exact H1|]. apply deletedIdentity_ok, H1. }
  assert (∃ y2, (if Z.land flags IdentityAdded =? IdentityAdded then checkSubsForNewIdentity i false y1 else Some y1)
    = Some y2 ∧ served y y2) as (y2 & -> & H2).
  { destruct (_ =? _); [|by eexists]. destruct (newIdentity_ok i false y1 (proj1 H1)) as (y2 & -> & ?).
    eexists. split; [done|by eapply served_trans]. }
  simpl. destruct (Z.land flags IdentityUpdated =? IdentityUpdated); [|by eexists].
  destruct (syncSubscription_ok i false y2 (proj1 H2)) as (y3 & -> & ?).
  eexists. split; [done|by eapply served_trans].
Qed.
Lemma scan_ok l y : y_ok y → ∃ y', foldM scanEntry l y = Some y' ∧ served y y'.
Proof.
  revert y. induction l as [|kv l IH]; intros y Hy; [by exists y|]. cbn [foldM].
  destruct (scanEntry_ok kv y Hy) as (y1 & -> & H1). simpl.
  destruct (IH y1 (proj1 H1)) as (y2 & -> & H2). eexists. split; [done|by eapply served_trans].
Qed.

(** ** Subscribing *)

(** The subscription there is, if any, knows whether the identity exists. *)
Definition joinable (i : string) (y : Router) : Prop :=
  match y_subs y !! i with
  | Some sub => sub_Services sub ≠ None ↔ is_Some (r_Identities (y_model y) !! i)
  | None => True
  end.
#[global] Instance joinable_dec i y : Decision (joinable i y).
Proof.
  unfold joinable. destruct (y_subs y !! i) as [[r b [s|] c l]|], (r_Identities (y_model y) !! i); simpl;
    first [left; naive_solver|right; naive_solver].
Defined.

Lemma view_one i l sent k d : view i l (sent ++ [(i, k, d)]) =
  if decide (l = k) then viewStep (view i l sent) d else view i l sent.
Proof.
  rewrite view_app. unfold deliveries. rewrite filter_cons. simpl. rewrite filter_nil.
  destruct (decide (l = k)) as [->|Hne]; [by rewrite decide_True|].
  rewrite decide_False; [done|]. congruence.
Qed.
Lemma view_other i j l sent k d : j ≠ i → view j l (sent ++ [(i, k, d)]) = view j l sent.
Proof.
  intros Hne. rewrite view_app. unfold deliveries. rewrite filter_cons, decide_False; [done|]. simpl. congruence.
Qed.

Lemma subscribe_ok i k router y :
  y_ok y → joinable i y →
  ∃ r, SubscribeToIdentityChanges i k router y = Some r ∧ served y (match r with Ok y' => y' | Err _ => y end).
Proof.
  intros Hy Hj. unfold SubscribeToIdentityChanges.
  destruct (bool_decide _ && negb router); [eexists; split; [done|by split]|].
  destruct (quiet_tracking true i (y_model y)) as (m & Hm & Hq & _). simpl in Hm. rewrite Hm. simpl.
  set (sub := match y_subs y !! i with Some v => _ | None => _ end).
  set (y1 := mkRouter m (y_subs y) (y_sent y ++ [(i, k, Joined)])).
  assert (quiet (y_model y) (y_model y1)) as Hq1 by done.
  assert (y_ok_but i y1) as Hb.
  { split; [by eapply quiet_model; [|apply Hy]|]. intros j sub' Hne Hsj. destruct (yo_sub _ Hy _ _ Hsj) as [H1 H2].
    split; [by eapply quiet_sub|]. intros l Hl. simpl. rewrite view_other by done. by apply H2. }
  assert (sub_ok m i sub) as Hsub.
  { unfold sub. destruct (y_subs y !! i) as [v|] eqn:Hv; [|by split].
    destruct (yo_sub _ Hy _ _ Hv) as [[] _]. apply (quiet_sub (y_model y)); [done|]. by split. }
  assert (∀ l, l ∈ sub_listeners sub → l ≠ k → view i l (y_sent y1) = expected sub) as Hold.
  { unfold sub, y1. simpl. intros l Hl Hne. rewrite view_one, decide_False by done. revert Hl.
    destruct (y_subs y !! i) as [v|] eqn:Hv; simpl; [|by intros ->%list_elem_of_singleton].
    intros [Hl| ->%list_elem_of_singleton]%elem_of_app; [|done]. exact (proj2 (yo_sub _ Hy _ _ Hv) l Hl). }
  assert (view i k (y_sent y1) = None) as Hnew by (simpl; by rewrite view_one, decide_True).
  destruct (r_Identities m !! i) as [v|] eqn:Hv.
  - destruct (initialize_spec i v sub m (proj1 Hb) Hsub Hv)
      as (m' & sub' & st & was & -> & Hq' & Hsub' & Hl & Hne & Hst & Htrue & Hfalse).
    simpl. eexists. split; [done|].
    split; [|etrans; [exact Hq1|by apply quiet_put]]. apply putSub_but; [done..|].
    intros l Hin. rewrite <- view_app. cbn [fmap list_fmap fst snd]. rewrite view_one.
    destruct (decide (l = k)) as [->|Hlk].
    + simpl. rewrite Hst. unfold expected. by destruct (sub_Services sub').
    + rewrite Hl in Hin. destruct was; [rewrite (Htrue eq_refl); by apply Hold|]. exfalso.
      specialize (Hfalse eq_refl). revert Hfalse Hin. unfold sub, joinable in *.
      destruct (y_subs y !! i) as [v0|] eqn:Hv0; simpl; [|by intros _ ->%list_elem_of_singleton].
      intros Hn _. destruct Hj as [_ Hj]. apply Hj; [|done]. revert Hm. unfold EnableServiceAccessTracking, withLockedIdentity.
      destruct (r_Identities (y_model y) !! i) eqn:E; [done|]. intros [= <-]. congruence.
  - eexists. split; [done|]. split; [|etrans; [exact Hq1|by apply quiet_put]]. apply putSub_but; [done..|].
    intros l Hin. change (view i l (y_sent y1) = expected sub). destruct (decide (l = k)) as [->|Hlk]; [|by apply Hold]. rewrite Hnew. unfold expected.
    assert (sub_Services sub = None) as ->; [|done]. unfold sub, joinable in *.
    destruct (y_subs y !! i) as [v0|] eqn:Hv0; simpl; [|done].
    destruct (sub_Services v0) eqn:E; [|done]. destruct Hj as [Hj _].
    assert (is_Some (r_Identities m !! i)) as Hi; [|rewrite Hv in Hi; by destruct Hi].
    apply (qu_ids _ _ Hq), Hj. done.
Qed.

Lemma unsubscribe_ok i k y : y_ok y → ∃ y', UnsubscribeFromIdentityChanges i k y = Some y' ∧ served y y'.
Proof.
  intros Hy. unfold UnsubscribeFromIdentityChanges. destruct (y_subs y !! i) as [v|] eqn:Hv; [|by exists y].
  simpl. destruct (yo_sub _ Hy _ _ Hv) as [Hsub Hw]. destruct (filter _ (sub_listeners v)) as [|a ls] eqn:Hf.
  - destruct (quiet_tracking false i (y_model (dropSub i y))) as (m & Hm & Hq & _). simpl in Hm. rewrite Hm. simpl.
    eexists. split; [done|]. assert (served y (dropSub i y)) as H1.
    { split; [by apply dropSub_ok|apply quiet_subscriptions]. }
    eapply served_trans; [exact H1|]. by apply served_onModel; [apply H1|].
  - eexists. split; [done|]. split; [|by apply quiet_put]. destruct Hsub. apply putSub_ok; [done|done|by split|].
    intros l Hl. rewrite <- Hf in Hl. simpl in Hl. apply list_elem_of_filter in Hl as [_ Hl]. by apply Hw.
Qed.

(** ** Change sets *)

(** What the events of a change set leave of the subscriptions. *)
Definition same_subs (y y' : Router) : Prop :=
  y_sent y' = y_sent y ∧
  ∀ i sub', y_subs y' !! i = Some sub' → ∃ sub, y_subs y !! i = Some sub ∧
    sub_Services sub' = sub_Services sub ∧ sub_listeners sub' = sub_listeners sub ∧
    (sub_Identity sub' = NilIdentity ↔ sub_Identity sub = NilIdentity).
Definition refs_ok (y : Router) : Prop :=
  ∀ i sub, y_subs y !! i = Some sub → sub_Identity sub = InModel → is_Some (r_Identities (y_model y) !! i).

#[local] Instance same_subs_preorder : PreOrder same_subs.
Proof.
  split; [intros y; split; [done|eauto 6]|]. intros y1 y2 y3 [E12 H12] [E23 H23]. split; [congruence|].
  intros i s3 H3. destruct (H23 _ _ H3) as (s2 & H2 & ? & ? & ?). destruct (H12 _ _ H2) as (s1 & ? & ? & ? & ?).
  exists s1. split_and!; [done|congruence|congruence|tauto].
Qed.

Lemma represented_identity m a i : router_rep m a → is_Some (r_Identities m !! i) ↔ is_Some (a_Identities a !! i).
Proof.
  intros Hr. pose proof (rr_id _ _ Hr i) as H. inversion H; split; intros [? [=]]; eauto.
Qed.
Lemma abs_identity ev a i :
  is_Some (a_Identities a !! i) → (∀ act x, ev = EvIdentity act x → im_Id x ≠ i) →
  is_Some (a_Identities (abs_handle ev a) !! i).
Proof.
  intros Hi Hne. destruct ev as [act x|act x|act x|act x|act x|act x|act x|act x|c]; simpl; try done.
  - specialize (Hne _ _ eq_refl). destruct act; simpl; [by rewrite lookup_insert_ne..|by rewrite lookup_delete_ne].
  - by destruct act.
  - unfold abs_policy. by repeat case_match.
  - by destruct act.
  - unfold abs_change. by repeat case_match.
Qed.

Lemma handleEvent_ok idx ev y a :
  abs_ok a → wf_event ev a → router_rep (y_model y) a → refs_ok y →
  ∃ y', handleEvent idx ev y = Some y' ∧ router_rep (y_model y') (abs_handle ev a) ∧
    svcs_step idx (y_model y) (y_model y') ∧ r_index (y_model y') = r_index (y_model y) ∧
    refs_ok y' ∧ same_subs y y'.
Proof.
  intros Ha Hwf Hr Href. destruct (router_handle_rep idx ev (y_model y) a Ha Hwf Hr) as (m' & Hm' & Hr').
  unfold handleEvent. rewrite Hm'. simpl. eexists. split; [done|]. split; [done|].
  split; [by eapply Handle_step|]. apply Handle_frame in Hm' as Hf. injection Hf as ? _ _ _. split; [done|].
  assert (∀ i sub', detach ev (y_model y) (y_subs y) !! i = Some sub' → ∃ sub, y_subs y !! i = Some sub ∧
    sub_Services sub' = sub_Services sub ∧ sub_listeners sub' = sub_listeners sub ∧
    (sub_Identity sub' = NilIdentity ↔ sub_Identity sub = NilIdentity) ∧
    (sub_Identity sub' = InModel → sub_Identity sub = InModel ∧ ∀ act x, ev = EvIdentity act x → im_Id x ≠ i)) as Hd.
  { intros i sub' Hi. unfold detach in Hi. destruct ev as [| |act x| | | | | |].
    all: try (exists sub'; split_and!; [done..|]; intros; by split).
    destruct (decide (im_Id x = i)) as [<-|Hne].
    - rewrite lookup_alter_eq in Hi. destruct (y_subs y !! im_Id x) as [sub|] eqn:Hs; [|done]. simpl in Hi.
      injection Hi as <-. exists sub. split; [done|]. destruct (sub_Identity sub) eqn:E.
      + by split_and!; rewrite ?E.
      + destruct (Href _ _ Hs E) as [v Hv]. rewrite Hv. simpl. split_and!; done.
      + by split_and!; rewrite ?E.
    - rewrite lookup_alter_ne in Hi by done. exists sub'. split_and!; [done..|]. intros ?. split; [done|].
      by intros ? ? [= <- <-]. }
  split; [|split; [done|]].
  - intros i sub' Hi Hin. destruct (Hd _ _ Hi) as (sub & Hs & _ & _ & _ & H5). destruct (H5 Hin) as [E Hne].
    apply (represented_identity _ _ i Hr'), abs_identity; [|done].
    apply (represented_identity _ _ i Hr). by eapply Href.
  - intros i sub' Hi. destruct (Hd _ _ Hi) as (sub & ? & ? & ? & ? & _). eauto 6.
Qed.

Lemma handleEvents_ok idx evs y a :
  abs_ok a → wf_events evs a → router_rep (y_model y) a → refs_ok y →
  ∃ y', foldM (handleEvent idx) evs y = Some y' ∧ router_rep (y_model y') (abs_run evs a) ∧
    svcs_step idx (y_model y) (y_model y') ∧ r_index (y_model y') = r_index (y_model y) ∧
    refs_ok y' ∧ same_subs y y'.
Proof.
  revert y a. induction evs as [|ev evs IH]; intros y a Ha Hwf Hr Href.
  { exists y. split_and!; (done || reflexivity). }
  destruct Hwf as [Hev Hevs]. cbn [foldM].
  destruct (handleEvent_ok idx ev y a Ha Hev Hr Href) as (y1 & -> & Hr1 & Hs1 & Hi1 & Hf1 & Hsub1). simpl.
  destruct (IH y1 (abs_handle ev a)) as (y2 & -> & Hr2 & Hs2 & Hi2 & Hf2 & Hsub2); [by apply abs_handle_ok|done..|].
  exists y2. split_and!; [done|done|by etrans|congruence|done|by etrans].
Qed.

Lemma applyChangeSet_ok c y a :
  cs_IsSynthetic c = false → r_index (y_model y) < cs_Index c → abs_ok a → wf_events (cs_Changes c) a →
  router_rep (y_model y) a → y_ok y →
  ∃ y', applyChangeSet c y = Some y' ∧ router_rep (y_model y') (abs_run (cs_Changes c) a) ∧
    r_index (y_model y') = cs_Index c ∧ y_ok y'.
Proof.
  intros Hsyn Hlt Ha Hwf Hr Hy. unfold applyChangeSet. rewrite Hsyn.
  assert ((r_index (y_model y) >? 0) && (r_index (y_model y) >=? cs_Index c) = false) as ->.
  { apply andb_false_iff. right. rewrite Z.geb_leb. apply Z.leb_gt. lia. }
  destruct (handleEvents_ok (cs_Index c) (cs_Changes c) (onModel (upd_index (cs_Index c)) y) a)
    as (y' & -> & Hr' & Hs & Hi & Hf & He & Hsub); [done|done|by apply router_rep_index| |].
  { intros i sub Hi. exact (sb_in _ _ _ (proj1 (yo_sub _ Hy _ _ Hi))). }
  exists y'. simpl in *. split; [done|]. split; [done|]. split; [done|].
  destruct Hy as [[Hk Hidx] Hall]. destruct (Hs Hk) as [Hk' Hv]. split.
  - split; [done|]. intros sid x Hx. rewrite Hi. destruct (Hv _ _ Hx) as [?|(x0 & Hx0 & _ & <-)]; [lia|].
    specialize (Hidx _ _ Hx0). lia.
  - intros i sub' Hi'. destruct (Hsub _ _ Hi') as (sub & Hsb & E1 & E2 & E3). destruct (Hall _ _ Hsb) as [Ho Hw].
    split; [split|].
    + by apply (Hf i sub').
    + rewrite E3, E1. apply Ho.
    + intros services sid x Hsv Hx. rewrite E1 in Hsv. destruct (sb_snap _ _ _ Ho _ _ _ Hsv Hx) as (G1 & G2 & G3).
      split; [done|]. split; [lia|]. intros cur Hc Hci.
      destruct (Hv _ _ Hc) as [?|(x0 & Hx0 & Hm0 & Hi0)]; [lia|]. rewrite <- Hm0. apply G3; [done|congruence].
    + intros l Hl. rewrite He. unfold expected. rewrite E1. apply Hw. by rewrite <- E2.
Qed.

(** ** Runs *)

(** Change sets come in the order of their indexes and are such as the
    controller's store emits; whoever subscribes finds a subscription that is up to
    date on whether the identity exists. *)
Definition op_ok (op : RouterOp) (y : Router) (a : Abs) : Prop :=
  match op with
  | OpChangeSet c => cs_IsSynthetic c = false ∧ r_index (y_model y) < cs_Index c ∧ wf_events (cs_Changes c) a
  | OpSubscribe i _ _ => joinable i y
  | _ => True
  end.
#[global] Instance op_ok_dec op y a : Decision (op_ok op y a).
Proof. destruct op; simpl; apply _. Defined.
Definition op_changes (op : RouterOp) : list Event := match op with OpChangeSet c => cs_Changes c | _ => [] end.
Fixpoint run_ok (ops : list RouterOp) (y : Router) (a : Abs) : Prop :=
  match ops with
  | [] => True
  | op :: ops =>
    op_ok op y a ∧ match step op y with
                   | Some y' => run_ok ops y' (abs_run (op_changes op) a)
                   | None => True
                   end
  end.
#[global] Instance run_ok_dec ops y a : Decision (run_ok ops y a).
Proof.
  revert y a. induction ops as [|op ops IH]; intros y a; simpl; [apply _|].
  destruct (step op y); apply _.
Defined.

Lemma step_ok op y a :
  y_ok y → abs_ok a → router_rep (y_model y) a → op_ok op y a →
  ∃ y', step op y = Some y' ∧ y_ok y' ∧ router_rep (y_model y') (abs_run (op_changes op) a).
Proof.
  intros Hy Ha Hr Hop.
  assert (∀ y', served y y' → y_ok y' ∧ router_rep (y_model y') a) as Hserved.
  { intros y' [? Hq]. split; [done|]. by apply (qu_rep _ _ Hq). }
  destruct op as [c|i k b|i k| | |]; simpl in *.
  - destruct Hop as (H1 & H2 & H3). destruct (applyChangeSet_ok c y a) as (y' & ? & ? & _ & ?); eauto.
  - destruct (subscribe_ok i k b y Hy Hop) as (r & -> & H). simpl. eauto.
  - destruct (unsubscribe_ok i k y Hy) as (y' & -> & H). eauto.
  - destruct (r_events (y_model y)) as [|ev evs]; [eauto|].
    set (y1 := onModel _ y). assert (served y y1) as H1 by (apply served_onModel; [done|apply quiet_queue]).
    destruct (process_ok ev y1 (proj1 H1)) as (y' & -> & H2). eexists. split; [done|].
    apply Hserved. by eapply served_trans.
  - destruct (r_scanSubsNotify (y_model y)); [|eauto].
    set (y1 := onModel _ y). assert (served y y1) as H1 by (apply served_onModel; [done|apply quiet_queue]).
    destruct (scan_ok (map_to_list (r_updatedIdentities (y_model y1))) y1 (proj1 H1)) as (y' & Hy' & H2).
    exists y'. split; [exact Hy'|]. apply Hserved. by eapply served_trans.
  - eexists. split; [done|]. apply Hserved, served_onModel; [done|apply quiet_queue].
Qed.

Lemma abs_op_ok op y a : abs_ok a → op_ok op y a → abs_ok (abs_run (op_changes op) a).
Proof. intros Ha Hop. destruct op; simpl; [|done..]. destruct Hop as (_ & _ & ?). by apply abs_run_ok. Qed.

Lemma run_good ops y a :
  y_ok y → abs_ok a → router_rep (y_model y) a → run_ok ops y a →
  ∃ y', foldM step ops y = Some y' ∧ y_ok y' ∧ ∃ a', abs_ok a' ∧ router_rep (y_model y') a'.
Proof.
  revert y a. induction ops as [|op ops IH]; intros y a Hy Ha Hr Hrun; [exists y; eauto|].
  destruct Hrun as [Hop Hrest]. destruct (step_ok op y a Hy Ha Hr Hop) as (y1 & E & Hy1 & Hr1).
  cbn [foldM]. rewrite E in Hrest |- *. simpl. apply (IH y1 (abs_run (op_changes op) a)); try done. by eapply abs_op_ok.
Qed.

(** The two lists look the same where the access is counted. *)
Lemma current_services i v m a :
  abs_ok a → router_rep m a → r_Identities m !! i = Some v → id_serviceAccessTrackingEnabled v = true →
  visible <$> (buildServiceListUsingDenormalizedData i v m).1 = visible <$> (buildServiceList v m).1.
Proof.
  intros Ha Hr Hv Ht. pose proof (rr_id _ _ Hr i) as Hid. rewrite Hv in Hid.
  inversion_clear Hid as [? x [_ Hok]|]. destruct (lists_agree m a Ha Hr i v Hok Ht Hv) as [Hl _].
  set (f := λ w : Service * gmap string IdentityConfig * bool * bool, let '(svc, configs, dial, bind) := w in
    (sm_Name (s_Model svc), sm_EncryptionRequired (s_Model svc), sm_Configs (s_Model svc), configs, dial, bind)).
  assert (∀ M : gmap string IdentityService, visible <$> M = f <$> (svc_view <$> M)) as Hf.
  { intros M. rewrite <- map_fmap_compose. by apply map_fmap_ext. }
  by rewrite !Hf, Hl.
Qed.

Lemma served_check i y a :
  y_ok y → abs_ok a → router_rep (y_model y) a →
  Z.land (default 0 (r_updatedIdentities (y_model y) !! i)) IdentityUpdated ≠ 0 →
  ∃ y', syncSubscriptionIfRequired i true y = Some y' ∧
    ∀ sub l, y_subs y' !! i = Some sub → l ∈ sub_listeners sub →
      match r_Identities (y_model y') !! i with
      | None => view i l (y_sent y') = None
      | Some v => id_serviceAccessTrackingEnabled v = true →
                  view i l (y_sent y') = Some (visible <$> (buildServiceList v (y_model y')).1)
      end.
Proof.
  intros Hy Ha Hr Hflag. unfold syncSubscriptionIfRequired.
  destruct (y_subs y !! i) as [sub|] eqn:Hs; [|exists y; split; [done|]; intros; congruence].
  unfold markIdentityCheckComplete. apply Z.eqb_neq in Hflag. rewrite Hflag. simpl.
  set (y1 := onModel _ y). assert (served y y1) as [Hy1 Hq1] by (apply served_onModel; [done|apply quiet_queue]).
  destruct (runCheck_ok i sub y1 Hy1 Hs) as (y' & sub' & -> & [Hy' Hq'] & Hsubs & Hlast).
  exists y'. split; [done|]. intros sub2 l H2 Hl. rewrite (proj2 (yo_sub _ Hy' _ _ H2) l Hl).
  rewrite Hsubs, lookup_insert_eq in H2. injection H2 as <-. unfold expected.
  assert (router_rep (y_model y') a) as Hr' by (apply (qu_rep _ _ Hq'), (qu_rep _ _ Hq1); done).
  destruct (r_Identities (y_model y1) !! i) as [v|] eqn:Hv.
  - destruct Hlast as (v' & Hv' & ->). rewrite Hv'. intros Ht. f_equal. by eapply current_services.
  - rewrite Hlast. destruct (r_Identities (y_model y') !! i) as [v|] eqn:Hv'; [|done]. exfalso.
    apply eq_None_not_Some in Hv. apply Hv, (represented_identity _ a); [by apply (qu_rep _ _ Hq1)|].
    apply (represented_identity _ _ i Hr'). by rewrite Hv'.
Qed.

Definition router0 : Router := mkRouter NewReceiverRouterDataModel ∅ [].
Lemma router0_ok : y_ok router0.
Proof. by split; [split|]. Qed.


(** Serving a queued check brings the listeners up to date: afterwards each
    listener of the identity knows exactly the services that the identity's
    policies grant it, computed afresh from the policies, or none if the identity
    is gone. *)
Theorem checked_view_current ops i evs :
  run_ok ops router0 abs_empty →
  ∃ y, foldM step ops router0 = Some y ∧
    (r_events (y_model y) = checkForIdentityChangesEvent i :: evs →
     Z.land (default 0 (r_updatedIdentities (y_model y) !! i)) IdentityUpdated ≠ 0 →
     ∃ y', step OpNextEvent y = Some y' ∧
       ∀ sub l, y_subs y' !! i = Some sub → l ∈ sub_listeners sub →
         match r_Identities (y_model y') !! i with
         | None => view i l (y_sent y') = None
         | Some v => id_serviceAccessTrackingEnabled v = true →
                     view i l (y_sent y') = Some (visible <$> (buildServiceList v (y_model y')).1)
         end).
Proof.
  intros Hrun. destruct (run_good ops router0 abs_empty router0_ok abs_empty_ok router_new_rep Hrun)
    as (y & Hy & Hok & a & Ha & Hr). exists y. split; [done|]. intros Hev Hflag. cbn [step]. rewrite Hev. cbn [process].
  set (y1 := onModel _ y). assert (served y y1) as [Hy1 Hq1] by (apply served_onModel; [done|apply quiet_queue]).
  apply (served_check i y1 a); [done|done|by apply (qu_rep _ _ Hq1)|exact Hflag].
Qed.

(** ** A run *)

(** Two listeners; then a service is renamed and another is taken out of the
    policy. *)
Definition demoRun : list RouterOp :=
  [OpChangeSet (mkChangeSet 7 false demoSetup); OpSubscribe "i1" 7 false; OpSubscribe "i1" 8 false;
   OpChangeSet (mkChangeSet 8 false
     [EvService Update (mkServiceM "s1" "renamed" true ["k1"%string]);
      EvServicePolicyChange (mkPolicyChange "p1" ["s2"%string] RelatedService false)])].

Definition runOf (ops : list RouterOp) : Router := default router0 (foldM step ops router0).

Lemma demoRun_ok : run_ok demoRun router0 abs_empty ∧ run_ok (demoRun ++ [OpNextEvent]) router0 abs_empty.
Proof. split; apply (bool_decide_unpack _); vm_compute; exact I. Qed.


Lemma checked_view_current_witness :
  ∃ y y', foldM step demoRun router0 = Some y ∧ step OpNextEvent y = Some y' ∧
    ∃ v, r_Identities (y_model y') !! "i1"%string = Some v ∧
      view "i1" 7 (y_sent y') = Some (visible <$> (buildServiceList v (y_model y')).1).
Proof.
  assert (from_option (λ y, r_events (y_model y)) [] (foldM step demoRun router0) =
    [checkForIdentityChangesEvent "i1"; checkForIdentityChangesEvent "i1"]) as He by (vm_compute; reflexivity).
  assert (from_option (λ y, Z.land (default 0 (r_updatedIdentities (y_model y) !! "i1"%string)) IdentityUpdated) 0
    (foldM step demoRun router0) = 2) as Hf by (vm_compute; reflexivity).
  assert (from_option (λ y, from_option (λ y',
      match y_subs y' !! "i1"%string, r_Identities (y_model y') !! "i1"%string with
      | Some s, Some v => bool_decide (7%nat ∈ sub_listeners s) && id_serviceAccessTrackingEnabled v
      | _, _ => false end) false (step OpNextEvent y)) false (foldM step demoRun router0) = true) as Hb
    by (vm_compute; reflexivity).
  destruct (checked_view_current demoRun "i1" [checkForIdentityChangesEvent "i1"] (proj1 demoRun_ok)) as (y & Hy & Hv).
  rewrite Hy in He, Hf, Hb. cbn [from_option] in He, Hf, Hb.
  destruct Hv as (y' & Hy' & Hv'); [exact He|rewrite Hf; discriminate|]. rewrite Hy' in Hb. cbn [from_option] in Hb.
  exists y, y'. split; [exact Hy|]. split; [exact Hy'|]. revert Hb Hv'.
  destruct (y_subs y' !! "i1"%string) as [sub|]; [|discriminate].
  destruct (r_Identities (y_model y') !! "i1"%string) as [v|]; [|discriminate].
  intros [Hl Ht]%andb_prop Hv'. exists v. split; [reflexivity|].
  exact (Hv' sub 7%nat eq_refl (bool_decide_eq_true_1 _ Hl) Ht).
Defined.

(** A listener that subscribes between the creation of the identity and the
    check takes the notification from those before it: listener 1 is never told
    of the identity, listener 2 is. *)
Example late_subscriber_hides_identity :
  let y := runOf [OpSubscribe "r" 1 true; OpChangeSet (mkChangeSet 7 false [EvIdentity Create (demoIdentity "r")]);
                  OpSubscribe "r" 2 true; OpNextEvent; OpSyncAll; OpNextEvent] in
  r_events (y_model y) = [] ∧ view "r" 1 (y_sent y) = None ∧ view "r" 2 (y_sent y) = Some ∅.
Proof. vm_compute. split_and!; reflexivity. Qed.
