(* ===== verification/Policies.v ===== *)
(** * Role-based policies of the controller's store (controller/db)

    Service policies, edge router policies and service edge router policies
    select entities by role attributes and ids. The store keeps, for each policy,
    the links to the entities it selects, and for each pair of entities the
    number of policies that link both (the denormalised access tables). This file
    models the evaluation of policies in policy_common.go and util.go, the three
    policy stores, and the role attribute listeners of the entity stores; the
    theorems are in PolicyLinks.v.

    The link tables are those of github.com/hanzozt/storage/boltz: they are
    given as the classes [LinkCollection] and [RefCountedLinkCollection] with the
    behaviour the stores rely on as their laws. The collections that two stores
    declare over the same pair of fields (identity.dialServices and
    edgeService.dialIdentities, and so on) are two views of one table here;
    errors that boltz records while the code goes on end the operation at once,
    since nothing of such a transaction is kept. A
    transaction that sets an error is rolled back as a whole, so that an
    operation is a function to a [result]; I/O errors of the database are left
    out. What runs on commit is collected as a list of effects in order. *)

From stdpp Require Import base gmap list strings fin_maps fin_sets functions.
From Stdlib Require Import ZArith Lia.
From S2P Require Import Prelude EventCache DataModel.

Open Scope Z_scope.

(** ** The link tables *)

Class LinkCollection (L : Type) := {
  IterateLinks : L → string → list string;
  AddLink : string → string → L → L * bool;
  RemoveLink : string → string → L → L * bool;
}.
Class LinkCollectionLaws (L : Type) `{LinkCollection L} := {
  IterateLinks_NoDup (l : L) p : NoDup (IterateLinks l p);
  AddLink_added p e (l : L) : (AddLink p e l).2 = bool_decide (e ∉ IterateLinks l p);
  AddLink_links p e (l : L) q x :
    x ∈ IterateLinks (AddLink p e l).1 q ↔ (q = p ∧ x = e) ∨ x ∈ IterateLinks l q;
  RemoveLink_removed p e (l : L) : (RemoveLink p e l).2 = bool_decide (e ∈ IterateLinks l p);
  RemoveLink_links p e (l : L) q x :
    x ∈ IterateLinks (RemoveLink p e l).1 q ↔ x ∈ IterateLinks l q ∧ ¬ (q = p ∧ x = e);
}.

(** Counts per pair; [IterateCounted c b] are the first components linked to
    [b]. A link must be there to be decremented. *)
Class RefCountedLinkCollection (C : Type) := {
  GetLinkCount : C → string → string → Z;
  IncrementLinkCount : string → string → C → C * Z;
  DecrementLinkCount : string → string → C → C * Z;
  IterateCounted : C → string → list string;
}.
Class RefCountedLaws (C : Type) `{RefCountedLinkCollection C} := {
  Increment_count a b (c : C) x y :
    GetLinkCount (IncrementLinkCount a b c).1 x y =
    GetLinkCount c x y + (if bool_decide (x = a ∧ y = b) then 1 else 0);
  Increment_result a b (c : C) : (IncrementLinkCount a b c).2 = GetLinkCount c a b + 1;
  Decrement_count a b (c : C) x y : 0 < GetLinkCount c a b →
    GetLinkCount (DecrementLinkCount a b c).1 x y =
    GetLinkCount c x y - (if bool_decide (x = a ∧ y = b) then 1 else 0);
  Decrement_result a b (c : C) : 0 < GetLinkCount c a b →
    (DecrementLinkCount a b c).2 = GetLinkCount c a b - 1;
}.

(** ** Data *)

Inductive EntityKind := Identities | Services | PostureChecks | EdgeRouters.
#[global] Instance EntityKind_eq_dec : EqDecision EntityKind.
Proof. solve_decision. Defined.

(** The link collections of the three policy stores. *)
Inductive LinkKind :=
| SpIdentities | SpServices | SpPostureChecks
| ErpIdentities | ErpEdgeRouters
| SerpServices | SerpEdgeRouters.
#[global] Instance LinkKind_eq_dec : EqDecision LinkKind.
Proof. solve_decision. Defined.

Definition linkedEntity (k : LinkKind) : EntityKind :=
  match k with
  | SpIdentities | ErpIdentities => Identities
  | SpServices | SerpServices => Services
  | SpPostureChecks => PostureChecks
  | ErpEdgeRouters | SerpEdgeRouters => EdgeRouters
  end.

(** The reference counted tables: identities and services by dial and by bind
    policies, posture checks and services, identities and routers, services and
    routers. *)
Inductive Denorm := DialAccess | BindAccess | CheckDial | CheckBind | IdentityRouters | ServiceRouters.
#[global] Instance Denorm_eq_dec : EqDecision Denorm.
Proof. solve_decision. Defined.

Record ServicePolicy := mkServicePolicy {
  sp_PolicyType : PolicyType;
  sp_Semantic : string;
  sp_IdentityRoles : list string;
  sp_ServiceRoles : list string;
  sp_PostureCheckRoles : list string;
}.
Record EdgeRouterPolicy := mkEdgeRouterPolicy {
  erp_Semantic : string;
  erp_IdentityRoles : list string;
  erp_EdgeRouterRoles : list string;
}.
Record ServiceEdgeRouterPolicy := mkServiceEdgeRouterPolicy {
  serp_Semantic : string;
  serp_ServiceRoles : list string;
  serp_EdgeRouterRoles : list string;
}.

Inductive ServiceEventType :=
| ServiceDialAccessGained | ServiceDialAccessLost
| ServiceBindAccessGained | ServiceBindAccessLost
| ServiceUpdated.
#[global] Instance ServiceEventType_eq_dec : EqDecision ServiceEventType.
Proof. solve_decision. Defined.

(** What a transaction does on commit. *)
Inductive Effect :=
| ServiceEvent (t : ServiceEventType) (identityId serviceId : string)
| PolicyChange (change : DataState_ServicePolicyChange).

Inductive PersistError :=
| InvalidPolicyType
| InvalidSemantic (value : string)
| AllRoleNotAlone
| InvalidRoleEntries (values : list string)
| NeitherRoleNorId (entry : string)
| UnknownIds (kind : EntityKind) (ids : list string)
| InvalidRoleAttribute (attr : string)
| NotFound (id : string).

(** ** Roles (util.go, base_entity.go) *)

Definition RolePrefix : string := "#".
Definition EntityPrefix : string := "@".
Definition AllRole : string := "#all".
Definition SemanticAllOf : string := "AllOf".
Definition SemanticAnyOf : string := "AnyOf".

Definition isSemanticValid (semantic : string) : bool :=
  existsb (λ v, EqualFold v semantic) [SemanticAllOf; SemanticAnyOf].

(** [strings.HasPrefix] and [TrimPrefix]. *)
Definition trimPrefix (pre s : string) : option string :=
  if String.prefix pre s then Some (String.substring (String.length pre) (String.length s) s) else None.

Definition validateRolesAndIds (values : list string) : result unit PersistError :=
  if (1 <? length values)%nat && bool_decide (AllRole ∈ values) then Err AllRoleNotAlone
  else
    let invalidKeys := filter (λ e, String.prefix RolePrefix e = false ∧ String.prefix EntityPrefix e = false)
                         values in
    match invalidKeys with
    | [] => Ok ()
    | _ => Err (InvalidRoleEntries invalidKeys)
    end.

Fixpoint splitRolesAndIds (values : list string) : result (list string * list string) PersistError :=
  match values with
  | [] => Ok ([], [])
  | entry :: values =>
    match trimPrefix RolePrefix entry, trimPrefix EntityPrefix entry with
    | Some role, _ => (let! r := splitRolesAndIds values in Ok (role :: r.1, r.2))%go
    | None, Some id => (let! r := splitRolesAndIds values in Ok (r.1, id :: r.2))%go
    | None, None => Err (NeitherRoleNorId entry)
    end
  end.

Definition validateRoleAttributes (attributes : list string) : result unit PersistError :=
  match list_find (λ a, String.prefix RolePrefix a = true ∨ String.prefix EntityPrefix a = true) attributes with
  | Some (_, a) => Err (InvalidRoleAttribute a)
  | None => Ok ()
  end.

(** The condition of [evaluatePolicyAgainstEntity]. *)
Definition policyMatches (semantic entityId : string) (ids roles roleAttributes : list string) : bool :=
  bool_decide (entityId ∈ ids) || bool_decide ("all"%string ∈ roles) ||
  (EqualFold semantic SemanticAllOf && (0 <? length roles)%nat &&
   forallb (λ r, bool_decide (r ∈ roleAttributes)) roles) ||
  (EqualFold semantic SemanticAnyOf && (0 <? length roles)%nat &&
   existsb (λ r, bool_decide (r ∈ roleAttributes)) roles).

(** ** The store and its transactions *)

Section Store.
Context {L C : Type} `{LinkCollection L} `{RefCountedLinkCollection C}.

(** Entities with their role attributes, policies, link tables and counts. *)
Record DB := mkDB {
  d_attributes : EntityKind → gmap string (list string);
  d_servicePolicies : gmap string ServicePolicy;
  d_edgeRouterPolicies : gmap string EdgeRouterPolicy;
  d_serviceEdgeRouterPolicies : gmap string ServiceEdgeRouterPolicy;
  d_links : LinkKind → L;
  d_counts : Denorm → C;
}.
Definition set_attributes x (d : DB) : DB :=
  mkDB x (d_servicePolicies d) (d_edgeRouterPolicies d) (d_serviceEdgeRouterPolicies d) (d_links d) (d_counts d).
Definition set_servicePolicies x (d : DB) : DB :=
  mkDB (d_attributes d) x (d_edgeRouterPolicies d) (d_serviceEdgeRouterPolicies d) (d_links d) (d_counts d).
Definition set_edgeRouterPolicies x (d : DB) : DB :=
  mkDB (d_attributes d) (d_servicePolicies d) x (d_serviceEdgeRouterPolicies d) (d_links d) (d_counts d).
Definition set_serviceEdgeRouterPolicies x (d : DB) : DB :=
  mkDB (d_attributes d) (d_servicePolicies d) (d_edgeRouterPolicies d) x (d_links d) (d_counts d).
Definition set_links x (d : DB) : DB :=
  mkDB (d_attributes d) (d_servicePolicies d) (d_edgeRouterPolicies d) (d_serviceEdgeRouterPolicies d)
    x (d_counts d).
Definition set_counts x (d : DB) : DB :=
  mkDB (d_attributes d) (d_servicePolicies d) (d_edgeRouterPolicies d) (d_serviceEdgeRouterPolicies d)
    (d_links d) x.

Record TX := mkTX { tx_db : DB; tx_effects : list Effect }.
Definition emit (e : Effect) (tx : TX) : TX := mkTX (tx_db tx) (tx_effects tx ++ [e]).
Definition onDb (f : DB → DB) (tx : TX) : TX := mkTX (f (tx_db tx)) (tx_effects tx).

(** What the entity under evaluation is in the pairs of its count table, and
    what a change of a pair's first or last link reports. *)
Inductive denormHandler := NoEvent | AccessEvent (t : PolicyType) | ServiceUpdatedEvent.
Record roleAttributeChangeContext := mkContext {
  cx_link : LinkKind;
  cx_related : LinkKind;
  cx_denorm : Denorm;
  cx_second : bool;                            (* the entity is the second of the pair *)
  cx_change : option RelatedEntityType;
  cx_handler : denormHandler;
}.

(** The entries of a service's bindIdentities or dialIdentities field: the tables
    of the posture checks are linked to the same two fields. *)
Definition serviceField (tx : TX) (D Dcheck : Denorm) (serviceId : string) : list string :=
  IterateCounted (d_counts (tx_db tx) D) serviceId ++ IterateCounted (d_counts (tx_db tx) Dcheck) serviceId.

Definition addServiceUpdatedEvent (serviceId : string) (tx : TX) : TX :=
  foldl (λ tx i, emit (ServiceEvent ServiceUpdated i serviceId) tx)
    (foldl (λ tx i, emit (ServiceEvent ServiceUpdated i serviceId) tx) tx
       (serviceField tx BindAccess CheckBind serviceId))
    (serviceField tx DialAccess CheckDial serviceId).

Definition accessEvent (policyType : PolicyType) (add : bool) : ServiceEventType :=
  match policyType, add with
  | DialPolicy, true => ServiceDialAccessGained
  | DialPolicy, false => ServiceDialAccessLost
  | _, true => ServiceBindAccessGained
  | _, false => ServiceBindAccessLost
  end.
Definition addServicePolicyEvent (identityId serviceId : string) (policyType : PolicyType) (add : bool)
    : TX → TX :=
  emit (ServiceEvent (accessEvent policyType add) identityId serviceId).

Definition denormChangeHandler (ctx : roleAttributeChangeContext) (fromId toId : string) (add : bool)
    : TX → TX :=
  match cx_handler ctx with
  | NoEvent => λ tx, tx
  | AccessEvent t =>
    if cx_second ctx then addServicePolicyEvent toId fromId t add else addServicePolicyEvent fromId toId t add
  | ServiceUpdatedEvent => addServiceUpdatedEvent toId
  end.

Definition changeHandler (ctx : roleAttributeChangeContext) (policyId relatedId : string) (add : bool)
    : TX → TX :=
  match cx_change ctx with
  | None => λ tx, tx
  | Some t => emit (PolicyChange (mkPolicyChange policyId [relatedId] t add))
  end.

(** One step of the loops below: count the pair up or down and report the first
    and the last link. *)
Definition countPair (ctx : roleAttributeChangeContext) (entityId : string) (add : bool) (tx : TX)
    (relatedEntityId : string) : TX :=
  let '(a, b) := if cx_second ctx then (relatedEntityId, entityId) else (entityId, relatedEntityId) in
  let c := d_counts (tx_db tx) (cx_denorm ctx) in
  let '(c', newCount) := if add then IncrementLinkCount a b c else DecrementLinkCount a b c in
  let tx := onDb (set_counts (<[cx_denorm ctx := c']> (d_counts (tx_db tx)))) tx in
  if newCount =? (if add then 1 else 0) then denormChangeHandler ctx entityId relatedEntityId add tx else tx.

Definition ProcessEntityPolicyMatched (ctx : roleAttributeChangeContext) (entityId policyId : string)
    (tx : TX) : TX :=
  let '(l, added) := AddLink policyId entityId (d_links (tx_db tx) (cx_link ctx)) in
  let tx := onDb (set_links (<[cx_link ctx := l]> (d_links (tx_db tx)))) tx in
  if added then
    let tx := changeHandler ctx policyId entityId true tx in
    foldl (countPair ctx entityId true) tx (IterateLinks (d_links (tx_db tx) (cx_related ctx)) policyId)
  else tx.

Definition ProcessEntityPolicyUnmatched (ctx : roleAttributeChangeContext) (entityId policyId : string)
    (tx : TX) : TX :=
  let '(l, removed) := RemoveLink policyId entityId (d_links (tx_db tx) (cx_link ctx)) in
  let tx := onDb (set_links (<[cx_link ctx := l]> (d_links (tx_db tx)))) tx in
  if removed then
    let tx := changeHandler ctx policyId entityId false tx in
    foldl (countPair ctx entityId false) tx (IterateLinks (d_links (tx_db tx) (cx_related ctx)) policyId)
  else tx.

Definition evaluatePolicyAgainstEntity (ctx : roleAttributeChangeContext) (semantic : string)
    (policyId : string) (ids roles : list string) (tx : TX) (entity : string * list string) : TX :=
  if policyMatches semantic entity.1 ids roles entity.2
  then ProcessEntityPolicyMatched ctx entity.1 policyId tx
  else ProcessEntityPolicyUnmatched ctx entity.1 policyId tx.

Definition validateEntityIds (db : DB) (kind : EntityKind) (ids : list string) : result unit PersistError :=
  match filter (λ id, d_attributes db kind !! id = None) ids with
  | [] => Ok ()
  | invalid => Err (UnknownIds kind invalid)
  end.

(** [semantic] and [roleSet] are read from the stored policy. *)
Definition EvaluatePolicy (ctx : roleAttributeChangeContext) (policyId semantic : string)
    (roleSet : list string) (tx : TX) : result TX PersistError :=
  if negb (isSemanticValid semantic) then Err (InvalidSemantic semantic)
  else
    (let! r := splitRolesAndIds roleSet in
     let! _ := validateEntityIds (tx_db tx) (linkedEntity (cx_link ctx)) r.2 in
     Ok (foldl (evaluatePolicyAgainstEntity ctx semantic policyId r.2 r.1) tx
           (map_to_list (d_attributes (tx_db tx) (linkedEntity (cx_link ctx))))))%go.

(** ** Service policies (service_policy_store.go) *)

(** Anything but dial counts as bind. *)
Definition accessTable (t : PolicyType) : Denorm := if bool_decide (t = DialPolicy) then DialAccess else BindAccess.
Definition checkTable (t : PolicyType) : Denorm := if bool_decide (t = DialPolicy) then CheckDial else CheckBind.
Definition accessType (t : PolicyType) : PolicyType := if bool_decide (t = DialPolicy) then DialPolicy else BindPolicy.

Definition serviceRolesContext (t : PolicyType) : roleAttributeChangeContext :=
  mkContext SpServices SpIdentities (accessTable t) true (Some RelatedService) (AccessEvent (accessType t)).
Definition identityRolesContext (t : PolicyType) : roleAttributeChangeContext :=
  mkContext SpIdentities SpServices (accessTable t) false (Some RelatedIdentity) (AccessEvent (accessType t)).
Definition postureCheckRolesContext (t : PolicyType) : roleAttributeChangeContext :=
  mkContext SpPostureChecks SpServices (checkTable t) false (Some RelatedPostureCheck) ServiceUpdatedEvent.

Definition stored (policyId : string) (tx : TX) : ServicePolicy :=
  default (mkServicePolicy DialPolicy "" [] [] []) (d_servicePolicies (tx_db tx) !! policyId).

Definition serviceRolesUpdated (t : PolicyType) (policyId : string) (tx : TX) : result TX PersistError :=
  EvaluatePolicy (serviceRolesContext t) policyId (sp_Semantic (stored policyId tx))
    (sp_ServiceRoles (stored policyId tx)) tx.
Definition identityRolesUpdated (t : PolicyType) (policyId : string) (tx : TX) : result TX PersistError :=
  EvaluatePolicy (identityRolesContext t) policyId (sp_Semantic (stored policyId tx))
    (sp_IdentityRoles (stored policyId tx)) tx.
Definition postureCheckRolesUpdated (t : PolicyType) (policyId : string) (tx : TX) : result TX PersistError :=
  EvaluatePolicy (postureCheckRolesContext t) policyId (sp_Semantic (stored policyId tx))
    (sp_PostureCheckRoles (stored policyId tx)) tx.

(** The fields an update sets; [None] is a nil field checker, which sets all. *)
Inductive Field := FieldType | FieldSemantic | FieldIdentityRoles | FieldServiceRoles | FieldPostureCheckRoles
  | FieldEdgeRouterRoles.
#[global] Instance Field_eq_dec : EqDecision Field.
Proof. solve_decision. Defined.
Definition FieldChecker := option (list Field).
Definition ProceedWithSet (checker : FieldChecker) (f : Field) : bool :=
  match checker with
  | None => true
  | Some fs => bool_decide (f ∈ fs)
  end.

Definition putServicePolicy (policyId : string) (p : ServicePolicy) : TX → TX :=
  onDb (λ d, set_servicePolicies (<[policyId := p]> (d_servicePolicies d)) d).

Definition allRolesUpdated (t : PolicyType) (policyId : string) (tx : TX) : result TX PersistError :=
  (let! tx := identityRolesUpdated t policyId tx in
   let! tx := serviceRolesUpdated t policyId tx in
   postureCheckRolesUpdated t policyId tx)%go.

(** A change of the policy type: unlink everything as the old type, then link as
    the new one. The posture check roles are cleared and not set again. *)
Definition changePolicyType (checker : FieldChecker) (policyId : string) (entity : ServicePolicy)
    (current : ServicePolicy) (tx : TX) : result TX PersistError :=
  let p := stored policyId tx in
  let newIdentityRoles :=
    if ProceedWithSet checker FieldIdentityRoles then sp_IdentityRoles entity else sp_IdentityRoles current in
  let newServiceRoles :=
    if ProceedWithSet checker FieldServiceRoles then sp_ServiceRoles entity else sp_ServiceRoles current in
  (let! tx := allRolesUpdated (sp_PolicyType current) policyId
      (putServicePolicy policyId (mkServicePolicy (sp_PolicyType p) (sp_Semantic p) [] [] []) tx) in
   allRolesUpdated (sp_PolicyType entity) policyId
      (putServicePolicy policyId
         (mkServicePolicy (sp_PolicyType p) (sp_Semantic p) newIdentityRoles newServiceRoles []) tx))%go.

(** [GetAndSetStringList] for the three fields, then the evaluation of those that
    were set to something else. *)
Definition updateRoles (checker : FieldChecker) (policyId : string) (entity current : ServicePolicy) (tx : TX)
    : result TX PersistError :=
  let p := stored policyId tx in
  let set f (new old : list string) := if ProceedWithSet checker f then new else old in
  let changed f (new old : list string) := ProceedWithSet checker f && negb (bool_decide (old = new)) in
  let tx := putServicePolicy policyId
    (mkServicePolicy (sp_PolicyType p) (sp_Semantic p)
       (set FieldIdentityRoles (sp_IdentityRoles entity) (sp_IdentityRoles current))
       (set FieldServiceRoles (sp_ServiceRoles entity) (sp_ServiceRoles current))
       (set FieldPostureCheckRoles (sp_PostureCheckRoles entity) (sp_PostureCheckRoles current))) tx in
  (let! tx := if changed FieldIdentityRoles (sp_IdentityRoles entity) (sp_IdentityRoles current)
              then identityRolesUpdated (sp_PolicyType entity) policyId tx else Ok tx in
   let! tx := if changed FieldServiceRoles (sp_ServiceRoles entity) (sp_ServiceRoles current)
              then serviceRolesUpdated (sp_PolicyType entity) policyId tx else Ok tx in
   if changed FieldPostureCheckRoles (sp_PostureCheckRoles entity) (sp_PostureCheckRoles current)
   then postureCheckRolesUpdated (sp_PolicyType entity) policyId tx else Ok tx)%go.

Definition servicePolicy_PersistEntity (isCreate : bool) (checker : FieldChecker) (policyId : string)
    (entity : ServicePolicy) (tx : TX) : result TX PersistError :=
  let current := stored policyId tx in
  let setType := ProceedWithSet checker FieldType in
  if setType && bool_decide (sp_PolicyType entity = InvalidPolicy) then Err InvalidPolicyType
  else
    let newType := if setType then sp_PolicyType entity else sp_PolicyType current in
    let policyTypeChanged := negb (bool_decide (newType = sp_PolicyType current)) in
    (let! _ := validateRolesAndIds (sp_IdentityRoles entity) in
     let! _ := validateRolesAndIds (sp_ServiceRoles entity) in
     let! _ := validateRolesAndIds (sp_PostureCheckRoles entity) in
     let setSemantic := ProceedWithSet checker FieldSemantic in
     if setSemantic && negb (isSemanticValid (sp_Semantic entity)) then Err (InvalidSemantic (sp_Semantic entity))
     else
       let entity := mkServicePolicy newType (sp_Semantic entity) (sortStrings (sp_IdentityRoles entity))
                       (sortStrings (sp_ServiceRoles entity)) (sortStrings (sp_PostureCheckRoles entity)) in
       let tx := putServicePolicy policyId
         (mkServicePolicy newType (if setSemantic then sp_Semantic entity else sp_Semantic current)
            (sp_IdentityRoles current) (sp_ServiceRoles current) (sp_PostureCheckRoles current)) tx in
       if policyTypeChanged && negb isCreate then changePolicyType checker policyId entity current tx
       else updateRoles checker policyId entity current tx)%go.

Definition servicePolicy_DeleteById (policyId : string) (tx : TX) : result TX PersistError :=
  match d_servicePolicies (tx_db tx) !! policyId with
  | None => Err (NotFound policyId)
  | Some policy =>
    (let! tx :=
       match sp_IdentityRoles policy, sp_ServiceRoles policy, sp_PostureCheckRoles policy with
       | [], [], [] => Ok tx
       | _, _, _ =>
         servicePolicy_PersistEntity false None policyId
           (mkServicePolicy (sp_PolicyType policy) (sp_Semantic policy) [] [] []) tx
       end in
     Ok (onDb (λ d, set_servicePolicies (delete policyId (d_servicePolicies d)) d) tx))%go
  end.

(** ** Edge router policies (edge_router_policy_store.go) *)

Definition erpIdentityContext : roleAttributeChangeContext :=
  mkContext ErpIdentities ErpEdgeRouters IdentityRouters false None NoEvent.
Definition erpEdgeRouterContext : roleAttributeChangeContext :=
  mkContext ErpEdgeRouters ErpIdentities IdentityRouters true None NoEvent.

Definition edgeRouterPolicy_PersistEntity (checker : FieldChecker) (policyId : string)
    (entity : EdgeRouterPolicy) (tx : TX) : result TX PersistError :=
  let current := default (mkEdgeRouterPolicy "" [] []) (d_edgeRouterPolicies (tx_db tx) !! policyId) in
  let put p := onDb (λ d, set_edgeRouterPolicies (<[policyId := p]> (d_edgeRouterPolicies d)) d) in
  (let! _ := validateRolesAndIds (erp_IdentityRoles entity) in
   let! _ := validateRolesAndIds (erp_EdgeRouterRoles entity) in
   let setSemantic := ProceedWithSet checker FieldSemantic in
   if setSemantic && negb (isSemanticValid (erp_Semantic entity)) then Err (InvalidSemantic (erp_Semantic entity))
   else
     let semantic := if setSemantic then erp_Semantic entity else erp_Semantic current in
     let setIdentities := ProceedWithSet checker FieldIdentityRoles in
     let setRouters := ProceedWithSet checker FieldEdgeRouterRoles in
     let identityRoles := if setIdentities then sortStrings (erp_IdentityRoles entity) else erp_IdentityRoles current in
     let routerRoles := if setRouters then sortStrings (erp_EdgeRouterRoles entity) else erp_EdgeRouterRoles current in
     let tx := put (mkEdgeRouterPolicy semantic identityRoles (erp_EdgeRouterRoles current)) tx in
     let! tx := if bool_decide (erp_IdentityRoles current = identityRoles) then Ok tx
                else EvaluatePolicy erpIdentityContext policyId semantic identityRoles tx in
     let tx := put (mkEdgeRouterPolicy semantic identityRoles routerRoles) tx in
     if bool_decide (erp_EdgeRouterRoles current = routerRoles) then Ok tx
     else EvaluatePolicy erpEdgeRouterContext policyId semantic routerRoles tx)%go.

(** A system policy is changed in the system context only (boltz's enforcement
    constraint); the guard on clearing the roles is that condition. *)
Definition edgeRouterPolicy_DeleteById (policyId : string) (tx : TX) : result TX PersistError :=
  match d_edgeRouterPolicies (tx_db tx) !! policyId with
  | None => Err (NotFound policyId)
  | Some policy =>
    (let! tx := edgeRouterPolicy_PersistEntity None policyId (mkEdgeRouterPolicy (erp_Semantic policy) [] []) tx in
     Ok (onDb (λ d, set_edgeRouterPolicies (delete policyId (d_edgeRouterPolicies d)) d) tx))%go
  end.

(** ** Service edge router policies (service_edge_router_policy_store.go) *)

Definition serpServiceContext : roleAttributeChangeContext :=
  mkContext SerpServices SerpEdgeRouters ServiceRouters false None NoEvent.
Definition serpEdgeRouterContext : roleAttributeChangeContext :=
  mkContext SerpEdgeRouters SerpServices ServiceRouters true None NoEvent.

Definition serviceEdgeRouterPolicy_PersistEntity (checker : FieldChecker) (policyId : string)
    (entity : ServiceEdgeRouterPolicy) (tx : TX) : result TX PersistError :=
  let current := default (mkServiceEdgeRouterPolicy "" [] []) (d_serviceEdgeRouterPolicies (tx_db tx) !! policyId) in
  let put p := onDb (λ d, set_serviceEdgeRouterPolicies (<[policyId := p]> (d_serviceEdgeRouterPolicies d)) d) in
  (let! _ := validateRolesAndIds (serp_ServiceRoles entity) in
   let! _ := validateRolesAndIds (serp_EdgeRouterRoles entity) in
   let setSemantic := ProceedWithSet checker FieldSemantic in
   if setSemantic && negb (isSemanticValid (serp_Semantic entity)) then Err (InvalidSemantic (serp_Semantic entity))
   else
     let semantic := if setSemantic then serp_Semantic entity else serp_Semantic current in
     let setServices := ProceedWithSet checker FieldServiceRoles in
     let setRouters := ProceedWithSet checker FieldEdgeRouterRoles in
     let serviceRoles := if setServices then sortStrings (serp_ServiceRoles entity) else serp_ServiceRoles current in
     let routerRoles := if setRouters then sortStrings (serp_EdgeRouterRoles entity) else serp_EdgeRouterRoles current in
     let tx := put (mkServiceEdgeRouterPolicy semantic serviceRoles (serp_EdgeRouterRoles current)) tx in
     let! tx := if bool_decide (serp_ServiceRoles current = serviceRoles) then Ok tx
                else EvaluatePolicy serpServiceContext policyId semantic serviceRoles tx in
     let tx := put (mkServiceEdgeRouterPolicy semantic serviceRoles routerRoles) tx in
     if bool_decide (serp_EdgeRouterRoles current = routerRoles) then Ok tx
     else EvaluatePolicy serpEdgeRouterContext policyId semantic routerRoles tx)%go.

Definition serviceEdgeRouterPolicy_DeleteById (policyId : string) (tx : TX) : result TX PersistError :=
  match d_serviceEdgeRouterPolicies (tx_db tx) !! policyId with
  | None => Err (NotFound policyId)
  | Some policy =>
    (let! tx := serviceEdgeRouterPolicy_PersistEntity None policyId
                  (mkServiceEdgeRouterPolicy (serp_Semantic policy) [] []) tx in
     Ok (onDb (λ d, set_serviceEdgeRouterPolicies (delete policyId (d_serviceEdgeRouterPolicies d)) d) tx))%go
  end.

(** ** Role attributes of entities *)

(** The loops of [UpdateRelatedRoles] and [updateServicePolicyRelatedRoles]: one
    entity against every policy; [policies] gives each policy's id with its
    context, semantic and roles. *)
Fixpoint UpdateRelatedRoles (entityId : string) (entityRoles : list string)
    (policies : list (string * (roleAttributeChangeContext * string * list string))) (tx : TX)
    : result TX PersistError :=
  match policies with
  | [] => Ok tx
  | (policyId, (ctx, semantic, roleSet)) :: policies =>
    (let! r := splitRolesAndIds roleSet in
     UpdateRelatedRoles entityId entityRoles policies
       (evaluatePolicyAgainstEntity ctx semantic policyId r.2 r.1 tx (entityId, entityRoles)))%go
  end.

Definition updateServicePolicyRelatedRoles (context : PolicyType → roleAttributeChangeContext)
    (roles : ServicePolicy → list string) (entityId : string) (entityRoles : list string) (tx : TX)
    : result TX PersistError :=
  UpdateRelatedRoles entityId entityRoles
    (map_to_list ((λ p, (context (sp_PolicyType p), sp_Semantic p, roles p)) <$> d_servicePolicies (tx_db tx))) tx.
Definition updateErpRelatedRoles (context : roleAttributeChangeContext) (roles : EdgeRouterPolicy → list string)
    (entityId : string) (entityRoles : list string) (tx : TX) : result TX PersistError :=
  UpdateRelatedRoles entityId entityRoles
    (map_to_list ((λ p, (context, erp_Semantic p, roles p)) <$> d_edgeRouterPolicies (tx_db tx))) tx.
Definition updateSerpRelatedRoles (context : roleAttributeChangeContext)
    (roles : ServiceEdgeRouterPolicy → list string) (entityId : string) (entityRoles : list string) (tx : TX)
    : result TX PersistError :=
  UpdateRelatedRoles entityId entityRoles
    (map_to_list ((λ p, (context, serp_Semantic p, roles p)) <$> d_serviceEdgeRouterPolicies (tx_db tx))) tx.

(** [rolesChanged] of the four entity stores. *)
Definition rolesChanged (kind : EntityKind) (rowId : string) (new : list string) (tx : TX)
    : result TX PersistError :=
  (match kind with
   | Identities =>
     let! tx := updateErpRelatedRoles erpIdentityContext erp_IdentityRoles rowId new tx in
     updateServicePolicyRelatedRoles identityRolesContext sp_IdentityRoles rowId new tx
   | Services =>
     let! tx := updateServicePolicyRelatedRoles serviceRolesContext sp_ServiceRoles rowId new tx in
     updateSerpRelatedRoles serpServiceContext serp_ServiceRoles rowId new tx
   | PostureChecks => updateServicePolicyRelatedRoles postureCheckRolesContext sp_PostureCheckRoles rowId new tx
   | EdgeRouters =>
     let! tx := updateErpRelatedRoles erpEdgeRouterContext erp_EdgeRouterRoles rowId new tx in
     updateSerpRelatedRoles serpEdgeRouterContext serp_EdgeRouterRoles rowId new tx
   end)%go.

(** Creating an entity or setting its role attributes (those of posture checks
    are not validated): the index on the
    attributes calls [rolesChanged] when they change; an entity created without
    any is evaluated too. *)
Definition persistRoleAttributes (kind : EntityKind) (id : string) (attributes : list string) (tx : TX)
    : result TX PersistError :=
  (let! _ := if bool_decide (kind = PostureChecks) then Ok () else validateRoleAttributes attributes in
   let old := d_attributes (tx_db tx) kind !! id in
   let tx := onDb (λ d, set_attributes (<[kind := <[id := attributes]> (d_attributes d kind)]> (d_attributes d)) d) tx in
   if bool_decide (old = Some attributes) then Ok tx else rolesChanged kind id attributes tx)%go.
End Store.
