(* ===== verification/PolicyLinks.v ===== *)
(** * Policy links and access counts are exact

    Theorems on the policy stores of Policies.v: the links of a policy are the
    entities its stored roles select, the counts of a pair of entities are the
    number of policies that link both, and the effects of a transaction are the
    changes of links and of access it made, each once. *)

From stdpp Require Import base gmap list strings fin_maps fin_sets functions.
From Stdlib Require Import ZArith Lia.
From S2P Require Import Prelude EventCache DataModel Policies.

Open Scope Z_scope.

Section Links.
Context {L C : Type} {LC : LinkCollection L} {LCL : LinkCollectionLaws L}.
Context {RC : RefCountedLinkCollection C} {RCL : RefCountedLaws C}.
Local Abbreviation DB := (DB (L:=L) (C:=C)).
Local Abbreviation TX := (TX (L:=L) (C:=C)).
Implicit Types (d : DB) (tx : TX) (own : Denorm → gset string).

Definition linked d (k : LinkKind) (p e : string) : Prop := e ∈ IterateLinks (d_links d k) p.
#[global] Instance linked_dec d k p e : Decision (linked d k p e).
Proof. unfold linked. apply _. Defined.

(** ** What the count tables count *)

Definition pairLeft (D : Denorm) : LinkKind :=
  match D with
  | DialAccess | BindAccess => SpIdentities
  | CheckDial | CheckBind => SpPostureChecks
  | IdentityRouters => ErpIdentities
  | ServiceRouters => SerpServices
  end.
Definition pairRight (D : Denorm) : LinkKind :=
  match D with
  | IdentityRouters => ErpEdgeRouters
  | ServiceRouters => SerpEdgeRouters
  | _ => SpServices
  end.
(** The tables of posture checks are not kept exact. *)
Definition counted (D : Denorm) : Prop := D ≠ CheckDial ∧ D ≠ CheckBind.

Definition shared d (P : gset string) (D : Denorm) (a b : string) : gset string :=
  filter (λ p, linked d (pairLeft D) p a ∧ linked d (pairRight D) p b) P.
Definition counts_exact own d : Prop :=
  ∀ D a b, counted D → GetLinkCount (d_counts d D) a b = Z.of_nat (size (shared d (own D) D a b)).

(** The policies whose links a table counts. *)
Definition owners d (D : Denorm) : gset string :=
  match D with
  | DialAccess => dom (filter (λ kv, sp_PolicyType kv.2 = DialPolicy) (d_servicePolicies d))
  | BindAccess => dom (filter (λ kv, sp_PolicyType kv.2 ≠ DialPolicy) (d_servicePolicies d))
  | CheckDial | CheckBind => ∅
  | IdentityRouters => dom (d_edgeRouterPolicies d)
  | ServiceRouters => dom (d_serviceEdgeRouterPolicies d)
  end.

(** ** Replaying effects *)

(** The access of an identity to a service as the service events tell it; a
    report that changes nothing is none ([None]). *)
Definition accessStep (t : PolicyType) (i s : string) (b : bool) (e : Effect) : option bool :=
  match e with
  | ServiceEvent ev i' s' =>
    if bool_decide (i' = i ∧ s' = s) then
      if bool_decide (ev = accessEvent t true) then if b then None else Some true
      else if bool_decide (ev = accessEvent t false) then if b then Some false else None
      else Some b
    else Some b
  | PolicyChange _ => Some b
  end.
(** Whether an entity is in a policy, as the policy changes tell it. *)
Definition memberStep (rt : RelatedEntityType) (p x : string) (b : bool) (e : Effect) : option bool :=
  match e with
  | ServiceEvent _ _ _ => Some b
  | PolicyChange c =>
    if bool_decide (pch_PolicyId c = p ∧ pch_RelatedEntityType c = rt ∧ x ∈ pch_RelatedEntityIds c) then
      if pch_Add c then if b then None else Some true else if b then Some false else None
    else Some b
  end.
Fixpoint replay (step : bool → Effect → option bool) (b : bool) (es : list Effect) : option bool :=
  match es with
  | [] => Some b
  | e :: es => b ← step b e; replay step b es
  end.

Lemma replay_app step b es1 es2 :
  replay step b (es1 ++ es2) = replay step b es1 ≫= λ b, replay step b es2.
Proof.
  revert b. induction es1 as [|e es1 IH]; intros b; simpl; [done|]. destruct (step b e); simpl; [apply IH|done].
Qed.

(** ** Well-formed contexts *)

Definition relatedLink (rt : RelatedEntityType) : LinkKind :=
  match rt with
  | RelatedService => SpServices
  | RelatedIdentity => SpIdentities
  | RelatedPostureCheck => SpPostureChecks
  end.
(** The table of an access type; only dial and bind have one. *)
Definition access_of (D : Denorm) : option PolicyType :=
  match D with
  | DialAccess => Some DialPolicy
  | BindAccess => Some BindPolicy
  | _ => None
  end.

Record ctx_ok (ctx : roleAttributeChangeContext) : Prop := {
  co_link : cx_link ctx = if cx_second ctx then pairRight (cx_denorm ctx) else pairLeft (cx_denorm ctx);
  co_related : cx_related ctx = if cx_second ctx then pairLeft (cx_denorm ctx) else pairRight (cx_denorm ctx);
  co_change rt : cx_change ctx = Some rt ↔ cx_link ctx = relatedLink rt;
  co_access t : cx_handler ctx = AccessEvent t ↔ access_of (cx_denorm ctx) = Some t;
}.

Lemma ctx_ok_all t :
  ctx_ok (serviceRolesContext t) ∧ ctx_ok (identityRolesContext t) ∧ ctx_ok (postureCheckRolesContext t) ∧
  ctx_ok erpIdentityContext ∧ ctx_ok erpEdgeRouterContext ∧ ctx_ok serpServiceContext ∧
  ctx_ok serpEdgeRouterContext.
Proof.
  unfold serviceRolesContext, identityRolesContext, postureCheckRolesContext, accessTable, checkTable,
    accessType; case_bool_decide; split_and!; split; simpl; try done; intros []; simpl; split; congruence.
Qed.

(** ** What a transaction tells *)

Definition count d (D : Denorm) (a b : string) : Z := GetLinkCount (d_counts d D) a b.
Definition access d (t : PolicyType) (i s : string) : bool := bool_decide (0 < count d (accessTable t) i s).
Definition member d (rt : RelatedEntityType) (p x : string) : bool := bool_decide (linked d (relatedLink rt) p x).

Lemma member_links d d' rt p x : d_links d' = d_links d → member d rt p x = member d' rt p x.
Proof. intros Hl. apply bool_decide_ext. unfold linked. by rewrite Hl. Qed.

(** The effects added are the changes of access and of membership. *)
Definition told tx tx' : Prop := ∃ new, tx_effects tx' = tx_effects tx ++ new ∧
  (∀ t i s, t ≠ InvalidPolicy →
     replay (accessStep t i s) (access (tx_db tx) t i s) new = Some (access (tx_db tx') t i s)) ∧
  (∀ rt p x, replay (memberStep rt p x) (member (tx_db tx) rt p x) new = Some (member (tx_db tx') rt p x)).

#[global] Instance told_preorder : PreOrder told.
Proof.
  split; [intros tx; exists []; by rewrite app_nil_r|].
  intros tx1 tx2 tx3 (n1 & E1 & A1 & M1) (n2 & E2 & A2 & M2). exists (n1 ++ n2). split_and!.
  - by rewrite E2, E1, app_assoc.
  - intros t i s Ht. rewrite replay_app, A1 by done. simpl. by apply A2.
  - intros rt p x. rewrite replay_app, M1. simpl. apply M2.
Qed.

(** Entities and policies stay as they are. *)
Definition same_data d d' : Prop :=
  d_attributes d' = d_attributes d ∧ d_servicePolicies d' = d_servicePolicies d ∧
  d_edgeRouterPolicies d' = d_edgeRouterPolicies d ∧
  d_serviceEdgeRouterPolicies d' = d_serviceEdgeRouterPolicies d.
#[global] Instance same_data_preorder : PreOrder same_data.
Proof. unfold same_data. split; [done|]. intros d1 d2 d3. naive_solver congruence. Qed.

(** An effect that is neither an access event nor a policy change. *)
Lemma emit_updated i s tx : told tx (emit (ServiceEvent ServiceUpdated i s) tx) ∧
  tx_db (emit (ServiceEvent ServiceUpdated i s) tx) = tx_db tx.
Proof.
  split; [|done]. eexists. split; [done|]. simpl. split; [|done]. intros t i' s' Ht.
  case_bool_decide; [|done]. by destruct t.
Qed.

Lemma updated_events l s tx :
  told tx (foldl (λ tx i, emit (ServiceEvent ServiceUpdated i s) tx) tx l) ∧
  tx_db (foldl (λ tx i, emit (ServiceEvent ServiceUpdated i s) tx) tx l) = tx_db tx.
Proof.
  revert tx. induction l as [|i l IH]; intros tx; simpl; [done|].
  destruct (IH (emit (ServiceEvent ServiceUpdated i s) tx)) as [Ht Hd].
  destruct (emit_updated i s tx) as [Ht' Hd']. split; [by etrans|by rewrite Hd].
Qed.

Definition pairOf (ctx : roleAttributeChangeContext) (e r : string) : string * string :=
  if cx_second ctx then (r, e) else (e, r).

(** ** Counting one pair *)

Lemma access_table_inj t t' : t ≠ InvalidPolicy → t' ≠ InvalidPolicy → accessTable t = accessTable t' → t = t'.
Proof. unfold accessTable. destruct t, t'; repeat case_bool_decide; naive_solver. Qed.
Lemma access_of_table D t : access_of D = Some t ↔ t ≠ InvalidPolicy ∧ D = accessTable t.
Proof. unfold accessTable. destruct D, t; simpl; repeat case_bool_decide; naive_solver. Qed.

(** The count of one pair of one table moves by one. *)
Definition counts_move d d' (D : Denorm) (a b : string) (add : bool) : Prop :=
  ∀ D' x y, count d' D' x y = count d D' x y +
    (if bool_decide (D' = D ∧ x = a ∧ y = b) then if add then 1 else -1 else 0).

Lemma access_event_told t add i s tx tx' :
  t ≠ InvalidPolicy → tx_effects tx' = tx_effects tx → d_links (tx_db tx') = d_links (tx_db tx) →
  counts_move (tx_db tx) (tx_db tx') (accessTable t) i s add →
  0 ≤ count (tx_db tx) (accessTable t) i s → (add = false → 0 < count (tx_db tx) (accessTable t) i s) →
  count (tx_db tx') (accessTable t) i s = (if add then 1 else 0) →
  told tx (addServicePolicyEvent i s t add tx').
Proof.
  intros Ht He Hl Hm H0 Hrem Hn. exists [ServiceEvent (accessEvent t add) i s].
  split; [simpl; by rewrite He|]. split.
  - intros t' i' s' Ht'. unfold access. simpl. rewrite (Hm (accessTable t') i' s').
    destruct (decide (accessTable t' = accessTable t ∧ i' = i ∧ s' = s)) as [Hp|Hp];
      [rewrite (bool_decide_true _ Hp)|rewrite (bool_decide_false _ Hp)].
    + destruct Hp as (HD & -> & ->). apply access_table_inj in HD; [|done..]. subst t'.
      rewrite (Hm (accessTable t) i s), bool_decide_true in Hn by done.
      rewrite (bool_decide_true (i = i ∧ s = s)) by done.
      destruct add; simpl.
      * rewrite (bool_decide_true (_ = accessEvent t true)) by done.
        rewrite (bool_decide_false (0 < _)) by lia. simpl. by rewrite bool_decide_true by lia.
      * rewrite (bool_decide_false (_ = accessEvent t true)) by (by destruct t).
        rewrite (bool_decide_true (_ = accessEvent t false)) by done.
        rewrite (bool_decide_true (0 < _)) by lia. simpl. by rewrite bool_decide_false by lia.
    + rewrite Z.add_0_r. case_bool_decide as Hi; [|done]. destruct Hi as [-> ->].
      assert (t ≠ t') by naive_solver. by destruct t, t', add.
  - intros rt p x. simpl. f_equal. by apply member_links.
Qed.

Lemma counts_move_inv d d' D a b add :
  counts_move d d' D a b add → count d' D a b = count d D a b + (if add then 1 else -1).
Proof. intros Hm. by rewrite (Hm D a b), bool_decide_true. Qed.

(** Changes of a table that is no access table are told by anything. *)
Lemma quiet_told tx tx' :
  told tx (mkTX (tx_db tx) (tx_effects tx')) → d_links (tx_db tx') = d_links (tx_db tx) →
  (∀ t i s, access (tx_db tx') t i s = access (tx_db tx) t i s) → told tx tx'.
Proof.
  intros (new & He & Ha & Hm) Hl Hacc. exists new. split_and!; [done|..].
  - intros t i s Ht. rewrite Hacc. by apply Ha.
  - intros rt p x. rewrite <- (member_links (tx_db tx) (tx_db tx')) by done. apply Hm.
Qed.

Lemma denorm_handler_db ctx e r add tx : tx_db (denormChangeHandler ctx e r add tx) = tx_db tx.
Proof.
  unfold denormChangeHandler. destruct (cx_handler ctx); [done|by destruct (cx_second ctx)|].
  unfold addServiceUpdatedEvent. by rewrite !(proj2 (updated_events _ _ _)).
Qed.

Lemma denorm_updated_db s tx : tx_db (addServiceUpdatedEvent s tx) = tx_db tx.
Proof. unfold addServiceUpdatedEvent. by rewrite !(proj2 (updated_events _ _ _)). Qed.
Lemma updated_effects s tx tx1 : tx_effects tx1 = tx_effects tx →
  told tx (mkTX (tx_db tx) (tx_effects (addServiceUpdatedEvent s tx1))).
Proof.
  intros He. unfold addServiceUpdatedEvent. generalize (serviceField tx1 DialAccess CheckDial s).
  intros l2. generalize (serviceField tx1 BindAccess CheckBind s). intros l1.
  rewrite <- foldl_app. generalize (l1 ++ l2). clear l1 l2. intros l.
  assert (∀ txa txb : TX, tx_effects txa = tx_effects txb →
    tx_effects (foldl (λ tx i, emit (ServiceEvent ServiceUpdated i s) tx) txa l) =
    tx_effects (foldl (λ tx i, emit (ServiceEvent ServiceUpdated i s) tx) txb l)) as Hext.
  { induction l as [|i l IH]; intros txa txb Hab; simpl; [done|]. apply IH. simpl. by rewrite Hab. }
  rewrite (Hext tx1 tx He). destruct (updated_events l s tx) as [Ht Hd].
  by rewrite <- Hd at 1; destruct (foldl _ _ _).
Qed.

Lemma countPair_spec ctx e r add tx :
  ctx_ok ctx →
  let '(a, b) := pairOf ctx e r in
  let tx' := countPair ctx e add tx r in
  0 ≤ count (tx_db tx) (cx_denorm ctx) a b → (add = false → 0 < count (tx_db tx) (cx_denorm ctx) a b) →
  same_data (tx_db tx) (tx_db tx') ∧ d_links (tx_db tx') = d_links (tx_db tx) ∧
  counts_move (tx_db tx) (tx_db tx') (cx_denorm ctx) a b add ∧ told tx tx'.
Proof.
  intros Hok. destruct (pairOf ctx e r) as [a b] eqn:Hp. simpl. intros H0 Hrem.
  unfold countPair. unfold pairOf in Hp. rewrite Hp.
  set (D := cx_denorm ctx) in *. set (c := d_counts (tx_db tx) D).
  destruct (if add then IncrementLinkCount a b c else DecrementLinkCount a b c) as [c' n] eqn:Hc.
  assert (∀ x y, GetLinkCount c' x y = GetLinkCount c x y +
    (if bool_decide (x = a ∧ y = b) then if add then 1 else -1 else 0)) as Hcount.
  { intros x y. destruct add.
    - pose proof (Increment_count a b c x y) as Hi. by rewrite Hc in Hi.
    - pose proof (Decrement_count a b c x y (Hrem eq_refl)) as Hi. rewrite Hc in Hi. simpl in Hi. rewrite Hi.
      case_bool_decide; lia. }
  assert (n = GetLinkCount c a b + (if add then 1 else -1)) as Hn.
  { destruct add.
    - pose proof (Increment_result a b c) as Hi. by rewrite Hc in Hi.
    - pose proof (Decrement_result a b c (Hrem eq_refl)) as Hi. rewrite Hc in Hi. simpl in Hi. lia. }
  set (tx1 := onDb (set_counts (<[D:=c']> (d_counts (tx_db tx)))) tx).
  assert (counts_move (tx_db tx) (tx_db tx1) D a b add) as Hm.
  { intros D' x y. unfold count. simpl. destruct (decide (D' = D)) as [->|Hne].
    - rewrite fn_lookup_insert, Hcount. f_equal.
      by rewrite (bool_decide_ext (D = D ∧ x = a ∧ y = b) (x = a ∧ y = b)) by naive_solver.
    - rewrite fn_lookup_insert_ne by done. rewrite bool_decide_false by naive_solver. lia. }
  assert (∀ tx', tx_db tx' = tx_db tx1 → told tx tx' →
    same_data (tx_db tx) (tx_db tx') ∧ d_links (tx_db tx') = d_links (tx_db tx) ∧
    counts_move (tx_db tx) (tx_db tx') D a b add ∧ told tx tx') as Hdone.
  { intros tx' -> Ht. by split_and!. }
  assert (access_of D = None ∨ (0 < count (tx_db tx) D a b ∧ 0 < count (tx_db tx1) D a b) →
    ∀ t i s, access (tx_db tx1) t i s = access (tx_db tx) t i s) as Hsame.
  { intros HD t i s. apply bool_decide_ext. rewrite (Hm (accessTable t) i s).
    case_bool_decide as Hx; [|by rewrite Z.add_0_r]. destruct Hx as (HDt & -> & ->).
    destruct HD as [HD|[Hb Ha]].
    - rewrite <- HDt in HD. by unfold accessTable in HD; case_bool_decide.
    - apply counts_move_inv in Hm. rewrite HDt. lia. }
  apply counts_move_inv in Hm as Hab. change (GetLinkCount c a b) with (count (tx_db tx) D a b) in Hn.
  destruct (Z.eqb_spec n (if add then 1 else 0)) as [Hn1|Hn1].
  - apply Hdone; [apply denorm_handler_db|]. unfold denormChangeHandler.
    destruct (cx_handler ctx) as [|t|] eqn:Hh.
    + apply quiet_told; [by exists []; rewrite app_nil_r|done|]. apply Hsame. left.
      destruct (access_of D) as [t|] eqn:Ht; [|done]. apply (co_access _ Hok) in Ht. congruence.
    + apply (co_access _ Hok), access_of_table in Hh as [Ht HD]. fold D in HD.
      assert (told tx (addServicePolicyEvent a b t add tx1)) as Hev.
      { apply access_event_told; rewrite <- ?HD; try done. lia. }
      destruct (cx_second ctx); by simplify_eq.
    + apply quiet_told.
      * by apply updated_effects.
      * by rewrite (denorm_updated_db _ tx1).
      * intros t i s. rewrite (denorm_updated_db _ tx1). apply Hsame. left.
        destruct (access_of D) as [t'|] eqn:Ht; [|done]. apply (co_access _ Hok) in Ht. congruence.
  - apply Hdone; [done|]. apply quiet_told; [by exists []; rewrite app_nil_r|done|]. apply Hsame.
    destruct (access_of D); [right|by left]. destruct add; [lia|]. specialize (Hrem eq_refl). lia.
Qed.

(** ** Counting all pairs of an entity *)

Definition entOf (ctx : roleAttributeChangeContext) (x y : string) : string := if cx_second ctx then y else x.
Definition relOf (ctx : roleAttributeChangeContext) (x y : string) : string := if cx_second ctx then x else y.
Lemma pairOf_eq ctx e r x y : (x, y) = pairOf ctx e r ↔ entOf ctx x y = e ∧ relOf ctx x y = r.
Proof. unfold pairOf, entOf, relOf. destruct (cx_second ctx); naive_solver. Qed.

Definition counts_moved d d' (ctx : roleAttributeChangeContext) (e : string) (rs : list string) (add : bool) : Prop :=
  ∀ D x y, count d' D x y = count d D x y +
    (if bool_decide (D = cx_denorm ctx ∧ entOf ctx x y = e ∧ relOf ctx x y ∈ rs)
     then if add then 1 else -1 else 0).

Lemma count_loop ctx e add rs tx :
  ctx_ok ctx → NoDup rs →
  (∀ x y, entOf ctx x y = e → relOf ctx x y ∈ rs →
     0 ≤ count (tx_db tx) (cx_denorm ctx) x y ∧ (add = false → 0 < count (tx_db tx) (cx_denorm ctx) x y)) →
  let tx' := foldl (countPair ctx e add) tx rs in
  same_data (tx_db tx) (tx_db tx') ∧ d_links (tx_db tx') = d_links (tx_db tx) ∧
  counts_moved (tx_db tx) (tx_db tx') ctx e rs add ∧ told tx tx'.
Proof.
  intros Hok Hnd. revert tx. induction Hnd as [|r rs Hr Hnd IH]; intros tx Hc; simpl.
  { split_and!; try done. intros D x y. rewrite bool_decide_false by set_solver. lia. }
  pose proof (countPair_spec ctx e r add tx Hok) as Hp. destruct (pairOf ctx e r) as [a b] eqn:Hab.
  assert (entOf ctx a b = e ∧ relOf ctx a b = r) as [He Hrr] by (by apply pairOf_eq).
  destruct (Hc a b He) as [H0 H1]; [rewrite Hrr; left|]. destruct (Hp H0 H1) as (S1 & L1 & M1 & T1).
  destruct (IH (countPair ctx e add tx r)) as (S2 & L2 & M2 & T2).
  { intros x y Hx Hy. rewrite (M1 (cx_denorm ctx) x y). rewrite bool_decide_false.
    - rewrite Z.add_0_r. apply Hc; [done|by right].
    - intros (_ & -> & ->). by rewrite Hrr in Hy. }
  split_and!; [by etrans|congruence| |by etrans].
  intros D x y. rewrite (M2 D x y), (M1 D x y).
  rewrite (bool_decide_ext (D = cx_denorm ctx ∧ entOf ctx x y = e ∧ relOf ctx x y ∈ r :: rs)
    (D = cx_denorm ctx ∧ entOf ctx x y = e ∧ (relOf ctx x y = r ∨ relOf ctx x y ∈ rs)))
    by (by rewrite elem_of_cons).
  assert (x = a ∧ y = b ↔ entOf ctx x y = e ∧ relOf ctx x y = r) as Hxy.
  { rewrite <- pairOf_eq, Hab. naive_solver. }
  destruct (decide (D = cx_denorm ctx)) as [->|HD]; [|rewrite !bool_decide_false by naive_solver; lia].
  destruct (decide (entOf ctx x y = e)) as [Hxe|Hxe].
  2: { rewrite !bool_decide_false by naive_solver. lia. }
  destruct (decide (relOf ctx x y = r)) as [Hxr|Hxr].
  - rewrite (bool_decide_true (_ ∧ x = a ∧ y = b)) by naive_solver.
    rewrite (bool_decide_false (_ ∧ _ ∧ _ ∈ rs)) by (rewrite Hxr; naive_solver).
    rewrite bool_decide_true by naive_solver. lia.
  - rewrite (bool_decide_false (_ ∧ x = a ∧ y = b)) by naive_solver.
    rewrite (bool_decide_ext (_ ∧ _ ∧ (_ ∨ _)) (cx_denorm ctx = cx_denorm ctx ∧ entOf ctx x y = e ∧ relOf ctx x y ∈ rs))
      by naive_solver. lia.
Qed.

(** The tables of posture checks: whatever happens to them changes no access. *)
Lemma countPair_quiet ctx e r add tx :
  ctx_ok ctx → access_of (cx_denorm ctx) = None →
  let tx' := countPair ctx e add tx r in
  same_data (tx_db tx) (tx_db tx') ∧ d_links (tx_db tx') = d_links (tx_db tx) ∧
  (∀ D, D ≠ cx_denorm ctx → d_counts (tx_db tx') D = d_counts (tx_db tx) D) ∧ told tx tx'.
Proof.
  intros Hok HD. unfold countPair. destruct (if cx_second ctx then _ else _) as [a b].
  destruct (if add then _ else _) as [c' n]. set (tx1 := onDb _ tx).
  assert (∀ t i s, access (tx_db tx1) t i s = access (tx_db tx) t i s) as Hacc.
  { intros t i s. unfold access, count. simpl. rewrite fn_lookup_insert_ne; [done|].
    intros Ht. rewrite Ht in HD. by unfold accessTable in HD; case_bool_decide. }
  assert (∀ tx', tx_db tx' = tx_db tx1 → told tx tx' → same_data (tx_db tx) (tx_db tx') ∧
    d_links (tx_db tx') = d_links (tx_db tx) ∧
    (∀ D, D ≠ cx_denorm ctx → d_counts (tx_db tx') D = d_counts (tx_db tx) D) ∧ told tx tx') as Hdone.
  { intros tx' -> Ht. split_and!; try done. intros D HDne. simpl. by rewrite fn_lookup_insert_ne. }
  assert (told tx tx1) as Ht1 by (apply quiet_told; [by exists []; rewrite app_nil_r|done|done]).
  destruct (n =? _); [|by apply Hdone]. apply Hdone; [apply denorm_handler_db|]. unfold denormChangeHandler.
  destruct (cx_handler ctx) as [|t|] eqn:Hh; [done| |].
  - apply (co_access _ Hok) in Hh. congruence.
  - apply quiet_told; [by apply updated_effects|by rewrite denorm_updated_db|].
    intros t i s. rewrite denorm_updated_db. apply Hacc.
Qed.

Lemma count_loop_quiet ctx e add rs tx :
  ctx_ok ctx → access_of (cx_denorm ctx) = None →
  let tx' := foldl (countPair ctx e add) tx rs in
  same_data (tx_db tx) (tx_db tx') ∧ d_links (tx_db tx') = d_links (tx_db tx) ∧
  (∀ D, D ≠ cx_denorm ctx → d_counts (tx_db tx') D = d_counts (tx_db tx) D) ∧ told tx tx'.
Proof.
  intros Hok HD. revert tx. induction rs as [|r rs IH]; intros tx; simpl; [done|].
  destruct (countPair_quiet ctx e r add tx Hok HD) as (S1 & L1 & M1 & T1).
  destruct (IH (countPair ctx e add tx r)) as (S2 & L2 & M2 & T2).
  split_and!; [by etrans|congruence| |by etrans]. intros D HDne. by rewrite M2, M1.
Qed.

(** ** Linking and unlinking one entity *)

(** The policy is counted in the table of the context, and in no other table that
    its links count for. *)
Definition owner_ok own (ctx : roleAttributeChangeContext) (p : string) : Prop :=
  ∀ D, counted D → cx_link ctx = pairLeft D ∨ cx_link ctx = pairRight D → (p ∈ own D ↔ D = cx_denorm ctx).

Definition links_set d d' (k : LinkKind) (p e : string) (add : bool) : Prop :=
  ∀ k' p' e', linked d' k' p' e' ↔
    if decide (k' = k ∧ p' = p ∧ e' = e) then add = true else linked d k' p' e'.

Lemma shared_ctx ctx d P x y q : ctx_ok ctx →
  q ∈ shared d P (cx_denorm ctx) x y ↔
  q ∈ P ∧ linked d (cx_link ctx) q (entOf ctx x y) ∧ linked d (cx_related ctx) q (relOf ctx x y).
Proof.
  intros Hok. unfold shared. rewrite elem_of_filter, (co_link _ Hok), (co_related _ Hok).
  unfold entOf, relOf. destruct (cx_second ctx); naive_solver.
Qed.

Lemma shared_links d d' P D x y : d_links d' = d_links d → shared d' P D x y = shared d P D x y.
Proof. intros Hl. apply set_eq. intros q. unfold shared. rewrite !elem_of_filter. unfold linked. by rewrite Hl. Qed.

Lemma link_related ctx : ctx_ok ctx → cx_related ctx ≠ cx_link ctx.
Proof.
  intros Hok. rewrite (co_link _ Hok), (co_related _ Hok). by destruct (cx_second ctx), (cx_denorm ctx).
Qed.

Lemma shared_relink ctx d d' P p e add x y :
  ctx_ok ctx → p ∈ P → links_set d d' (cx_link ctx) p e add →
  (linked d (cx_link ctx) p e ↔ add = false) →
  Z.of_nat (size (shared d' P (cx_denorm ctx) x y)) = Z.of_nat (size (shared d P (cx_denorm ctx) x y)) +
    (if bool_decide (entOf ctx x y = e ∧ linked d (cx_related ctx) p (relOf ctx x y))
     then if add then 1 else -1 else 0).
Proof.
  intros Hok Hp Hl Hold.
  assert (∀ q z, linked d' (cx_related ctx) q z ↔ linked d (cx_related ctx) q z) as Hrel.
  { intros q z. rewrite (Hl (cx_related ctx)). rewrite decide_False; [done|]. intros (Hk & _). by apply (link_related ctx). }
  assert (∀ q z, linked d' (cx_link ctx) q z ↔
    if decide (q = p ∧ z = e) then add = true else linked d (cx_link ctx) q z) as Hlink.
  { intros q z. rewrite (Hl (cx_link ctx)). repeat case_decide; naive_solver. }
  case_bool_decide as Hc.
  - destruct Hc as [He Hr]. destruct add.
    + replace (shared d' P (cx_denorm ctx) x y) with ({[p]} ∪ shared d P (cx_denorm ctx) x y).
      * rewrite size_union, size_singleton; [lia|]. intros q Hq%elem_of_singleton. subst q.
        rewrite shared_ctx, He by done. intros (_ & Hin & _). by apply Hold in Hin.
      * apply set_eq. intros q. rewrite elem_of_union, elem_of_singleton, !shared_ctx, Hrel, Hlink, He by done.
        case_decide; naive_solver.
    + replace (shared d P (cx_denorm ctx) x y) with ({[p]} ∪ shared d' P (cx_denorm ctx) x y).
      * rewrite size_union, size_singleton; [lia|]. intros q Hq%elem_of_singleton. subst q.
        rewrite shared_ctx, Hlink, He by done. rewrite decide_True by done. naive_solver.
      * apply set_eq. intros q. rewrite elem_of_union, elem_of_singleton, !shared_ctx, Hrel, Hlink, He by done.
        destruct (decide (q = p)) as [->|]; [rewrite decide_True by done|rewrite decide_False by naive_solver];
          naive_solver.
  - rewrite Z.add_0_r. do 2 f_equal. apply set_eq. intros q. rewrite !shared_ctx, Hrel, Hlink by done.
    case_decide as Hq; [|done]. destruct Hq as [-> He]. naive_solver.
Qed.

(** Tables the link does not count for are untouched. *)
Lemma shared_other d d' k p e add P D x y :
  links_set d d' k p e add → (k = pairLeft D ∨ k = pairRight D → p ∉ P) →
  shared d' P D x y = shared d P D x y.
Proof.
  intros Hl Hp. apply set_eq. intros q. unfold shared. rewrite !elem_of_filter.
  rewrite (Hl (pairLeft D)), (Hl (pairRight D)). repeat case_decide; naive_solver.
Qed.

Lemma relatedLink_inj rt rt' : relatedLink rt = relatedLink rt' → rt = rt'.
Proof. by destruct rt, rt'. Qed.

Lemma change_handler_db ctx p e add tx : tx_db (changeHandler ctx p e add tx) = tx_db tx.
Proof. unfold changeHandler. by destruct (cx_change ctx). Qed.

Lemma bool_decide_is (Q : Prop) `{Decision Q} (b : bool) : (Q ↔ b = true) → bool_decide Q = b.
Proof. intros HQ. destruct b; [apply bool_decide_true|apply bool_decide_false]; naive_solver. Qed.

Lemma relink_told ctx e p add tx d' :
  ctx_ok ctx → d_counts d' = d_counts (tx_db tx) → links_set (tx_db tx) d' (cx_link ctx) p e add →
  (linked (tx_db tx) (cx_link ctx) p e ↔ add = false) →
  told tx (changeHandler ctx p e add (mkTX d' (tx_effects tx))).
Proof.
  intros Hok Hc Hl Hold.
  assert (∀ t i s, access d' t i s = access (tx_db tx) t i s) as Ha.
  { intros t i s. unfold access, count. by rewrite Hc. }
  unfold changeHandler. destruct (cx_change ctx) as [rt|] eqn:Hch.
  - apply (co_change _ Hok) in Hch. eexists. split; [done|]. split; [intros t i s _; simpl; by rewrite Ha|].
    intros rt' p' x. unfold memberStep; simpl. case_bool_decide as Hx.
    + destruct Hx as (<- & <- & ->%list_elem_of_singleton).
      assert (member (tx_db tx) rt p e = negb add) as ->.
      { unfold member. rewrite <- Hch. apply bool_decide_is. rewrite Hold. destruct add; naive_solver. }
      assert (member d' rt p e = add) as ->.
      { unfold member. rewrite <- Hch. apply bool_decide_is. rewrite (Hl _ _ _), decide_True by done. done. }
      by destruct add.
    + simpl. f_equal. apply bool_decide_ext. rewrite (Hl _ _ _). rewrite decide_False; [done|].
      intros (Hk & -> & ->). rewrite Hch in Hk. apply relatedLink_inj in Hk as ->.
      apply Hx. split_and!; try done. by apply list_elem_of_singleton.
  - exists []. split; [by rewrite app_nil_r|]. split; [intros t i s _; simpl; by rewrite Ha|].
    intros rt p' x. simpl. f_equal. apply bool_decide_ext. rewrite (Hl _ _ _). rewrite decide_False; [done|].
    intros (Hk & _). symmetry in Hk. apply (co_change _ Hok) in Hk. congruence.
Qed.

(** [ProcessEntityPolicyMatched] and [Unmatched] in one. *)
Definition process (ctx : roleAttributeChangeContext) (add : bool) (e p : string) (tx : TX) : TX :=
  if add then ProcessEntityPolicyMatched ctx e p tx else ProcessEntityPolicyUnmatched ctx e p tx.

Lemma process_unfold ctx (add : bool) e p tx :
  let lc := if add then AddLink p e (d_links (tx_db tx) (cx_link ctx))
            else RemoveLink p e (d_links (tx_db tx) (cx_link ctx)) in
  let d' := set_links (<[cx_link ctx := lc.1]> (d_links (tx_db tx))) (tx_db tx) in
  process ctx add e p tx =
    if lc.2 then
      foldl (countPair ctx e add) (changeHandler ctx p e add (mkTX d' (tx_effects tx)))
        (IterateLinks (d_links d' (cx_related ctx)) p)
    else mkTX d' (tx_effects tx).
Proof.
  unfold process, ProcessEntityPolicyMatched, ProcessEntityPolicyUnmatched.
  destruct add; [destruct (AddLink _ _ _) as [l []]|destruct (RemoveLink _ _ _) as [l []]]; simpl; try done;
    by rewrite change_handler_db.
Qed.

Lemma relinked ctx (add : bool) e p tx :
  let lc := if add then AddLink p e (d_links (tx_db tx) (cx_link ctx))
            else RemoveLink p e (d_links (tx_db tx) (cx_link ctx)) in
  let d' := set_links (<[cx_link ctx := lc.1]> (d_links (tx_db tx))) (tx_db tx) in
  links_set (tx_db tx) d' (cx_link ctx) p e add ∧
  lc.2 = bool_decide (linked (tx_db tx) (cx_link ctx) p e ↔ add = false).
Proof.
  simpl. split.
  - intros k' p' e'. unfold linked. simpl. destruct (decide (k' = cx_link ctx)) as [->|Hk].
    + rewrite fn_lookup_insert. destruct add; rewrite ?AddLink_links, ?RemoveLink_links;
        case_decide; naive_solver.
    + rewrite fn_lookup_insert_ne by done. by rewrite decide_False by naive_solver.
  - unfold linked. destruct add; rewrite ?AddLink_added, ?RemoveLink_removed; apply bool_decide_ext; naive_solver.
Qed.

Lemma not_counted_access D : ¬ counted D → access_of D = None.
Proof. intros HD. destruct D; try done; by destruct HD. Qed.

Lemma process_spec own ctx (add : bool) e p tx :
  ctx_ok ctx → owner_ok own ctx p → counts_exact own (tx_db tx) →
  let tx' := process ctx add e p tx in
  same_data (tx_db tx) (tx_db tx') ∧ links_set (tx_db tx) (tx_db tx') (cx_link ctx) p e add ∧
  counts_exact own (tx_db tx') ∧ told tx tx'.
Proof.
  intros Hok Hown Hex. cbv zeta. rewrite process_unfold. pose proof (relinked ctx add e p tx) as Hre.
  set (lc := if add then AddLink p e (d_links (tx_db tx) (cx_link ctx))
             else RemoveLink p e (d_links (tx_db tx) (cx_link ctx))) in *. cbv zeta in *.
  set (d' := set_links _ (tx_db tx)) in *. destruct Hre as [Hl ->].
  case_bool_decide as Hch.
  2: { assert (∀ k q x, linked d' k q x ↔ linked (tx_db tx) k q x) as Hsame.
       { intros k q x. rewrite (Hl k q x). case_decide as Hx; [|done]. destruct Hx as (-> & -> & ->).
         destruct add; destruct (decide (linked (tx_db tx) (cx_link ctx) p e)); naive_solver. }
       split_and!; try done.
       - intros D a b HD. etrans; [exact (Hex D a b HD)|]. do 2 f_equal. apply set_eq. intros q. unfold shared.
         by rewrite !elem_of_filter, !Hsame.
       - exists []. split; [by rewrite app_nil_r|]. split; [done|]. intros rt q x. simpl. f_equal.
         by apply bool_decide_ext. }
  set (tx1 := changeHandler ctx p e add (mkTX d' (tx_effects tx))).
  assert (tx_db tx1 = d') as Hd1 by apply change_handler_db.
  assert (told tx tx1) as T1 by (by apply relink_told).
  assert (same_data (tx_db tx) d') as S1 by done.
  assert (∀ D x y, counted D → D ≠ cx_denorm ctx → shared d' (own D) D x y = shared (tx_db tx) (own D) D x y) as Hother.
  { intros D x y HD Hne. apply (shared_other _ _ _ _ _ _ _ _ _ _ Hl). intros Hk Hin. by apply (Hown D HD) in Hin. }
  set (rs := IterateLinks (d_links d' (cx_related ctx)) p).
  assert (∀ x, x ∈ rs ↔ linked (tx_db tx) (cx_related ctx) p x) as Hrs.
  { intros x. change (x ∈ rs) with (linked d' (cx_related ctx) p x). rewrite (Hl (cx_related ctx) p x).
    rewrite decide_False; [done|]. intros [Hk _]. by apply (link_related ctx). }
  destruct (decide (counted (cx_denorm ctx))) as [HD|HD].
  - assert (p ∈ own (cx_denorm ctx)) as Hp.
    { apply (Hown (cx_denorm ctx) HD); [|done]. rewrite (co_link _ Hok). destruct (cx_second ctx); auto. }
    destruct (count_loop ctx e add rs tx1) as (S2 & L2 & M2 & T2); [done|apply IterateLinks_NoDup|..].
    { intros x y Hx Hy. unfold count. rewrite Hd1. change (d_counts d') with (d_counts (tx_db tx)).
      rewrite (Hex (cx_denorm ctx) x y HD). split; [lia|]. intros ->.
      assert (p ∈ shared (tx_db tx) (own (cx_denorm ctx)) (cx_denorm ctx) x y) as Hin.
      { apply shared_ctx; [done|]. rewrite Hx. split_and!; [done|naive_solver|by apply Hrs]. }
      destruct (decide (size (shared (tx_db tx) (own (cx_denorm ctx)) (cx_denorm ctx) x y) = 0%nat)) as [Hz|];
        [apply size_empty_iff in Hz; set_solver|lia]. }
    rewrite Hd1 in *. split_and!; [by etrans| | |by etrans].
    + intros k q x. unfold linked. rewrite L2. apply Hl.
    + intros D x y HDc. change (GetLinkCount _ x y) with (count (tx_db (foldl (countPair ctx e add) tx1 rs)) D x y).
      rewrite (M2 D x y). change (count d' D x y) with (GetLinkCount (d_counts (tx_db tx) D) x y).
      rewrite (Hex D x y HDc).
      rewrite (shared_links d' (tx_db (foldl (countPair ctx e add) tx1 rs))) by done.
      destruct (decide (D = cx_denorm ctx)) as [->|Hne].
      * rewrite (shared_relink ctx _ _ _ _ _ _ _ _ Hok Hp Hl Hch). f_equal.
        rewrite (bool_decide_ext (_ ∧ _ ∧ relOf ctx x y ∈ rs)
          (entOf ctx x y = e ∧ linked (tx_db tx) (cx_related ctx) p (relOf ctx x y))); [done|].
        rewrite Hrs. naive_solver.
      * rewrite Hother by done. rewrite bool_decide_false by naive_solver. lia.
  - destruct (count_loop_quiet ctx e add rs tx1) as (S2 & L2 & M2 & T2); [done|by apply not_counted_access|].
    rewrite Hd1 in *. split_and!; [by etrans| | |by etrans].
    + intros k q x. unfold linked. rewrite L2. apply Hl.
    + intros D x y HDc. assert (D ≠ cx_denorm ctx) as Hne by (by intros ->).
      rewrite M2 by done. change (d_counts d' D) with (d_counts (tx_db tx) D). rewrite (Hex D x y HDc).
      rewrite <- Hother by done. do 2 f_equal. symmetry. by apply shared_links.
Qed.

(** ** Evaluating policies *)

(** What the stored roles of a policy select. *)
Definition selects (semantic : string) (roleSet : list string) (e : string) (attrs : list string) : bool :=
  match splitRolesAndIds roleSet with
  | Ok (roles, ids) => policyMatches semantic e ids roles attrs
  | Err _ => false
  end.

(** A step of a transaction that keeps the counts exact and tells its changes. *)
Definition steps own tx tx' : Prop :=
  counts_exact own (tx_db tx) →
  same_data (tx_db tx) (tx_db tx') ∧ counts_exact own (tx_db tx') ∧ told tx tx'.
#[global] Instance steps_preorder own : PreOrder (steps own).
Proof.
  split; [done|]. intros tx1 tx2 tx3 H1 H2 Hex. destruct (H1 Hex) as (S1 & E1 & T1).
  destruct (H2 E1) as (S2 & E2 & T2). split_and!; [by etrans|done|by etrans].
Qed.

Lemma evaluate_one own ctx sem p ids roles tx entity :
  ctx_ok ctx → owner_ok own ctx p → counts_exact own (tx_db tx) →
  let tx' := evaluatePolicyAgainstEntity ctx sem p ids roles tx entity in
  steps own tx tx' ∧
  links_set (tx_db tx) (tx_db tx') (cx_link ctx) p entity.1 (policyMatches sem entity.1 ids roles entity.2).
Proof.
  intros Hok Hown Hex.
  destruct (process_spec own ctx (policyMatches sem entity.1 ids roles entity.2) entity.1 p tx Hok Hown Hex)
    as (S1 & L1 & E1 & T1).
  unfold evaluatePolicyAgainstEntity. unfold process in *.
  destruct (policyMatches sem entity.1 ids roles entity.2); done.
Qed.

Lemma evaluate_entities own ctx sem p ids roles (ents : list (string * list string)) tx :
  ctx_ok ctx → owner_ok own ctx p → NoDup ents.*1 → counts_exact own (tx_db tx) →
  let tx' := foldl (evaluatePolicyAgainstEntity ctx sem p ids roles) tx ents in
  steps own tx tx' ∧
  (∀ k' p' e', linked (tx_db tx') k' p' e' ↔
     if decide (k' = cx_link ctx ∧ p' = p ∧ e' ∈ ents.*1)
     then ∃ attrs, (e', attrs) ∈ ents ∧ policyMatches sem e' ids roles attrs = true
     else linked (tx_db tx) k' p' e').
Proof.
  intros Hok Hown Hnd. revert tx. induction ents as [|[e attrs] ents IH]; intros tx Hex; simpl.
  { split; [done|]. intros k' p' e'. rewrite decide_False by set_solver. done. }
  apply list.NoDup_cons in Hnd as [He Hnd].
  destruct (evaluate_one own ctx sem p ids roles tx (e, attrs) Hok Hown Hex) as [S1 L1].
  set (tx1 := evaluatePolicyAgainstEntity ctx sem p ids roles tx (e, attrs)) in *.
  destruct (IH Hnd tx1) as [S2 L2]; [by apply S1|]. split; [by etrans|].
  intros k' p' e'. rewrite (L2 k' p' e'). pose proof (L1 k' p' e') as Hl1. simpl in *. clear S1 S2 L1 L2 IH.
  assert (e' ∈ e :: ents.*1 ↔ e' = e ∨ e' ∈ ents.*1) as Hc by apply elem_of_cons.
  assert (∀ x, (e', x) ∈ (e, attrs) :: ents ↔ (e' = e ∧ x = attrs) ∨ (e', x) ∈ ents) as Hcons.
  { intros x. rewrite elem_of_cons. naive_solver. }
  assert (e' ∈ ents.*1 ↔ ∃ x, (e', x) ∈ ents) as Hin.
  { rewrite list_elem_of_fmap. split; [intros [[] [-> ?]]; eauto|intros [x ?]; by exists (e', x)]. }
  revert Hl1. repeat case_decide; naive_solver.
Qed.

Lemma EvaluatePolicy_spec own ctx p sem roleSet tx tx' :
  ctx_ok ctx → owner_ok own ctx p → counts_exact own (tx_db tx) →
  EvaluatePolicy ctx p sem roleSet tx = Ok tx' →
  steps own tx tx' ∧
  (∀ k' p' e', linked (tx_db tx') k' p' e' ↔
     if decide (k' = cx_link ctx ∧ p' = p)
     then match d_attributes (tx_db tx) (linkedEntity k') !! e' with
          | Some attrs => selects sem roleSet e' attrs = true
          | None => linked (tx_db tx) k' p' e'
          end
     else linked (tx_db tx) k' p' e').
Proof.
  intros Hok Hown Hex. unfold EvaluatePolicy, selects. destruct (isSemanticValid sem); [simpl|done].
  destruct (splitRolesAndIds roleSet) as [[roles ids]|]; [simpl|done].
  destruct (validateEntityIds _ _ ids) as [[]|]; [simpl|done]. intros [= <-].
  destruct (evaluate_entities own ctx sem p ids roles
    (map_to_list (d_attributes (tx_db tx) (linkedEntity (cx_link ctx)))) tx Hok Hown) as [S1 L1];
    [apply NoDup_fst_map_to_list|done|]. split; [done|]. intros k' p' e'. rewrite (L1 k' p' e').
  destruct (decide (k' = cx_link ctx ∧ p' = p)) as [[-> ->]|Hn]; [|by rewrite decide_False by naive_solver].
  destruct (d_attributes (tx_db tx) (linkedEntity (cx_link ctx)) !! e') as [attrs|] eqn:Ha.
  - rewrite decide_True; [setoid_rewrite elem_of_map_to_list; rewrite Ha; naive_solver|]. split_and!; try done.
    apply list_elem_of_fmap. exists (e', attrs). split; [done|]. by apply elem_of_map_to_list.
  - rewrite decide_False; [done|]. intros (_ & _ & Hin). apply list_elem_of_fmap in Hin as [[x y] [-> Hin]].
    apply elem_of_map_to_list in Hin. simpl in Ha. congruence.
Qed.

Lemma UpdateRelatedRoles_spec own k e attrs pols tx tx' :
  (∀ p ctx sem roles, (p, (ctx, sem, roles)) ∈ pols → ctx_ok ctx ∧ cx_link ctx = k ∧ owner_ok own ctx p) →
  NoDup pols.*1 → counts_exact own (tx_db tx) → UpdateRelatedRoles e attrs pols tx = Ok tx' →
  steps own tx tx' ∧
  (∀ k' p' e', linked (tx_db tx') k' p' e' ↔
     if decide (k' = k ∧ e' = e ∧ p' ∈ pols.*1)
     then ∃ ctx sem roles, (p', (ctx, sem, roles)) ∈ pols ∧ selects sem roles e attrs = true
     else linked (tx_db tx) k' p' e').
Proof.
  intros Hall Hnd. revert tx. induction pols as [|[p [[ctx sem] roles]] pols IH]; intros tx Hex; simpl.
  { intros [= <-]. split; [done|]. intros k' p' e'. rewrite decide_False by set_solver. done. }
  apply list.NoDup_cons in Hnd as [Hp Hnd].
  destruct (Hall p ctx sem roles) as (Hok & Hk & Hown); [left|].
  destruct (splitRolesAndIds roles) as [[rs ids]|] eqn:Hsplit; [simpl|done].
  destruct (evaluate_one own ctx sem p ids rs tx (e, attrs) Hok Hown Hex) as [S1 L1].
  set (tx1 := evaluatePolicyAgainstEntity ctx sem p ids rs tx (e, attrs)) in *. intros Hup.
  apply IH in Hup as [S2 L2]; [|intros; eapply Hall; by right|done|by apply S1]. split; [by etrans|].
  intros k' p' e'. rewrite (L2 k' p' e'). pose proof (L1 k' p' e') as Hl1. rewrite Hk in Hl1.
  assert (selects sem roles e attrs = policyMatches sem e ids rs attrs) as Hs by (unfold selects; by rewrite Hsplit).
  simpl in *. rewrite <- Hs in Hl1. clear S1 S2 L1 L2 IH Hall.
  assert (p' ∈ p :: pols.*1 ↔ p' = p ∨ p' ∈ pols.*1) as Hc by apply elem_of_cons.
  assert (∀ x, (p', x) ∈ (p, (ctx, sem, roles)) :: pols ↔ (p' = p ∧ x = (ctx, sem, roles)) ∨ (p', x) ∈ pols) as Hcons.
  { intros x. rewrite elem_of_cons. naive_solver. }
  assert (∀ x, (p', x) ∈ pols → p' ∈ pols.*1) as Hin.
  { intros x Hx. apply list_elem_of_fmap. by exists (p', x). }
  destruct (decide (k' = k ∧ e' = e)) as [[-> ->]|Hne].
  2: { rewrite !decide_False by naive_solver. rewrite decide_False in Hl1 by naive_solver. done. }
  destruct (decide (p' = p)) as [->|Hpp].
  - rewrite decide_True in Hl1 by done. rewrite decide_False by naive_solver. rewrite decide_True by naive_solver.
    rewrite Hl1. naive_solver.
  - rewrite decide_False in Hl1 by naive_solver. destruct (decide (p' ∈ pols.*1)) as [Hpin|Hpin].
    + rewrite !decide_True by naive_solver. naive_solver.
    + rewrite !decide_False by naive_solver. done.
Qed.

(** ** The invariant of the store *)

(** Semantic and roles a policy has for one kind of link. *)
Definition rolesOf d (k : LinkKind) (p : string) : option (string * list string) :=
  match k with
  | SpIdentities => (λ q, (sp_Semantic q, sp_IdentityRoles q)) <$> d_servicePolicies d !! p
  | SpServices => (λ q, (sp_Semantic q, sp_ServiceRoles q)) <$> d_servicePolicies d !! p
  | SpPostureChecks => (λ q, (sp_Semantic q, sp_PostureCheckRoles q)) <$> d_servicePolicies d !! p
  | ErpIdentities => (λ q, (erp_Semantic q, erp_IdentityRoles q)) <$> d_edgeRouterPolicies d !! p
  | ErpEdgeRouters => (λ q, (erp_Semantic q, erp_EdgeRouterRoles q)) <$> d_edgeRouterPolicies d !! p
  | SerpServices => (λ q, (serp_Semantic q, serp_ServiceRoles q)) <$> d_serviceEdgeRouterPolicies d !! p
  | SerpEdgeRouters => (λ q, (serp_Semantic q, serp_EdgeRouterRoles q)) <$> d_serviceEdgeRouterPolicies d !! p
  end.

(** Whether a policy's stored roles select an entity of the store. *)
Definition selected d (k : LinkKind) (p e : string) : Prop :=
  match rolesOf d k p, d_attributes d (linkedEntity k) !! e with
  | Some (sem, roles), Some attrs => selects sem roles e attrs = true
  | _, _ => False
  end.
Definition links_exact d : Prop := ∀ k p e, linked d k p e ↔ selected d k p e.
Record store_ok d : Prop := {
  so_links : links_exact d;
  so_counts : counts_exact (owners d) d;
}.

(** ** Which table a policy is counted in *)

Lemma owner_sp d p q : d_servicePolicies d !! p = Some q →
  owner_ok (owners d) (identityRolesContext (sp_PolicyType q)) p ∧
  owner_ok (owners d) (serviceRolesContext (sp_PolicyType q)) p ∧
  owner_ok (owners d) (postureCheckRolesContext (sp_PolicyType q)) p.
Proof.
  intros Hq. assert (∀ D, D = DialAccess ∨ D = BindAccess → (p ∈ owners d D ↔ D = accessTable (sp_PolicyType q))) as Hd.
  { intros D [-> | ->]; simpl; rewrite elem_of_dom; unfold accessTable, is_Some;
      setoid_rewrite map_lookup_filter_Some; simpl; case_bool_decide; naive_solver. }
  split_and!; intros D HD Hk; simpl in *; destruct D; simpl in Hk; try naive_solver; try (apply Hd; naive_solver);
    by destruct HD.
Qed.
Lemma owner_erp d p q : d_edgeRouterPolicies d !! p = Some q →
  owner_ok (owners d) erpIdentityContext p ∧ owner_ok (owners d) erpEdgeRouterContext p.
Proof.
  intros Hq. split; intros D HD Hk; simpl in *; destruct D; simpl in *; try naive_solver;
    rewrite elem_of_dom; naive_solver.
Qed.
Lemma owner_serp d p q : d_serviceEdgeRouterPolicies d !! p = Some q →
  owner_ok (owners d) serpServiceContext p ∧ owner_ok (owners d) serpEdgeRouterContext p.
Proof.
  intros Hq. split; intros D HD Hk; simpl in *; destruct D; simpl in *; try naive_solver;
    rewrite elem_of_dom; naive_solver.
Qed.

Lemma owners_same d d' : same_data d d' → owners d' = owners d.
Proof. intros (_ & H1 & H2 & H3). unfold owners. by rewrite H1, H2, H3. Qed.

(** ** Setting role attributes *)

(** All links are as selected in [d1], except those of [e] of the kinds [K], which
    are still to be evaluated. *)
Definition pending d1 (K : list LinkKind) tx (e : string) : Prop :=
  ∀ k p e', if decide (e' = e ∧ k ∈ K) then linked (tx_db tx) k p e' → is_Some (rolesOf d1 k p)
            else linked (tx_db tx) k p e' ↔ selected d1 k p e'.

Lemma related_pending {P} own (m : gmap string P) (f : P → roleAttributeChangeContext * string * list string)
    d1 k K e attrs tx tx' :
  (∀ p q, m !! p = Some q → ctx_ok (f q).1.1 ∧ cx_link (f q).1.1 = k ∧ owner_ok own (f q).1.1 p) →
  (∀ p, rolesOf d1 k p = (λ q, ((f q).1.2, (f q).2)) <$> m !! p) →
  d_attributes d1 (linkedEntity k) !! e = Some attrs →
  counts_exact own (tx_db tx) → pending d1 (k :: K) tx e →
  UpdateRelatedRoles e attrs (map_to_list (f <$> m)) tx = Ok tx' →
  steps own tx tx' ∧ pending d1 K tx' e.
Proof.
  intros Hf Hr Ha Hex Hp Hup.
  assert (∀ p x, (p, x) ∈ map_to_list (f <$> m) ↔ ∃ q, m !! p = Some q ∧ x = f q) as Hin.
  { intros p x. rewrite elem_of_map_to_list, lookup_fmap_Some. naive_solver. }
  apply (UpdateRelatedRoles_spec own k) in Hup as [S1 L1]; [|..|done].
  2: { intros p ctx sem roles (q & Hq & Hx)%Hin. specialize (Hf p q Hq). by rewrite <- Hx in Hf. }
  2: apply NoDup_fst_map_to_list.
  split; [done|]. intros k' p' e'. specialize (Hp k' p' e'). pose proof (L1 k' p' e') as Hl. clear L1.
  assert (p' ∈ (map_to_list (f <$> m)).*1 ↔ is_Some (m !! p')) as Hdom.
  { rewrite list_elem_of_fmap. split.
    - intros [[p x] [-> (q & Hq & _)%Hin]]. eauto.
    - intros [q Hq]. exists (p', f q). split; [done|]. apply Hin. eauto. }
  destruct (decide (k' = k ∧ e' = e)) as [[-> ->]|Hne].
  - rewrite decide_True in Hp by (split; [done|left]).
    assert (linked (tx_db tx') k p' e ↔ selected d1 k p' e) as Hl'.
    { unfold selected. rewrite Hr, Ha. destruct (m !! p') as [q|] eqn:Hq; simpl.
      - rewrite decide_True in Hl by naive_solver. rewrite Hl. split.
        + intros (ctx & sem & roles & (q' & Hq' & Hx)%Hin & Hsel). simplify_eq. by rewrite <- Hx.
        + intros Hsel. exists (f q).1.1, (f q).1.2, (f q).2. split; [|done]. apply Hin. exists q. split; [done|].
          by destruct (f q) as [[]].
      - rewrite decide_False in Hl by naive_solver. rewrite Hl. split; [|done]. intros Hlk.
        apply Hp in Hlk as [y Hy]. by rewrite Hr, Hq in Hy. }
    destruct (decide (e = e ∧ k ∈ K)); [|done]. intros Hlk. apply Hl' in Hlk. unfold selected in Hlk.
    by destruct (rolesOf d1 k p').
  - rewrite decide_False in Hl by naive_solver.
    destruct (decide (e' = e ∧ k' ∈ K)) as [HK|HK].
    + rewrite decide_True in Hp by (destruct HK; split; [done|by right]). by rewrite Hl.
    + rewrite decide_False in Hp; [by rewrite Hl|]. intros [-> [->|Hk]%elem_of_cons]; naive_solver.
Qed.

Lemma ctx_ok_sp t : ctx_ok (serviceRolesContext t) ∧ ctx_ok (identityRolesContext t) ∧ ctx_ok (postureCheckRolesContext t).
Proof. by destruct (ctx_ok_all t) as (? & ? & ? & _). Qed.
Lemma ctx_ok_rp : ctx_ok erpIdentityContext ∧ ctx_ok erpEdgeRouterContext ∧ ctx_ok serpServiceContext ∧
  ctx_ok serpEdgeRouterContext.
Proof. by destruct (ctx_ok_all DialPolicy) as (_ & _ & _ & ?). Qed.

(** The kinds of links [rolesChanged] evaluates, in its order. *)
Definition kindsOf (kind : EntityKind) : list LinkKind :=
  match kind with
  | Identities => [ErpIdentities; SpIdentities]
  | Services => [SpServices; SerpServices]
  | PostureChecks => [SpPostureChecks]
  | EdgeRouters => [ErpEdgeRouters; SerpEdgeRouters]
  end.

Lemma sp_pending context roles k d1 K e attrs tx tx' :
  (∀ t, cx_link (context t) = k ∧ ctx_ok (context t)) →
  (∀ p q, d_servicePolicies d1 !! p = Some q → owner_ok (owners d1) (context (sp_PolicyType q)) p) →
  (∀ p, rolesOf d1 k p = (λ q, (sp_Semantic q, roles q)) <$> d_servicePolicies d1 !! p) →
  same_data d1 (tx_db tx) → d_attributes d1 (linkedEntity k) !! e = Some attrs →
  counts_exact (owners d1) (tx_db tx) → pending d1 (k :: K) tx e →
  updateServicePolicyRelatedRoles context roles e attrs tx = Ok tx' →
  steps (owners d1) tx tx' ∧ pending d1 K tx' e.
Proof.
  intros Hc Hown Hr (_ & Hd & _) Ha Hex Hp Hup. unfold updateServicePolicyRelatedRoles in Hup. rewrite Hd in Hup.
  eapply (related_pending (owners d1)) in Hup; [done| |exact Hr|done..].
  intros p q Hq. simpl. split_and!; [apply Hc..|by apply Hown].
Qed.
Lemma erp_pending context roles k d1 K e attrs tx tx' :
  cx_link context = k → ctx_ok context →
  (∀ p q, d_edgeRouterPolicies d1 !! p = Some q → owner_ok (owners d1) context p) →
  (∀ p, rolesOf d1 k p = (λ q, (erp_Semantic q, roles q)) <$> d_edgeRouterPolicies d1 !! p) →
  same_data d1 (tx_db tx) → d_attributes d1 (linkedEntity k) !! e = Some attrs →
  counts_exact (owners d1) (tx_db tx) → pending d1 (k :: K) tx e →
  updateErpRelatedRoles context roles e attrs tx = Ok tx' →
  steps (owners d1) tx tx' ∧ pending d1 K tx' e.
Proof.
  intros Hk Hc Hown Hr (_ & _ & Hd & _) Ha Hex Hp Hup. unfold updateErpRelatedRoles in Hup. rewrite Hd in Hup.
  eapply (related_pending (owners d1)) in Hup; [done| |exact Hr|done..].
  intros p q Hq. simpl. split_and!; [done..|by eapply Hown].
Qed.
Lemma serp_pending context roles k d1 K e attrs tx tx' :
  cx_link context = k → ctx_ok context →
  (∀ p q, d_serviceEdgeRouterPolicies d1 !! p = Some q → owner_ok (owners d1) context p) →
  (∀ p, rolesOf d1 k p = (λ q, (serp_Semantic q, roles q)) <$> d_serviceEdgeRouterPolicies d1 !! p) →
  same_data d1 (tx_db tx) → d_attributes d1 (linkedEntity k) !! e = Some attrs →
  counts_exact (owners d1) (tx_db tx) → pending d1 (k :: K) tx e →
  updateSerpRelatedRoles context roles e attrs tx = Ok tx' →
  steps (owners d1) tx tx' ∧ pending d1 K tx' e.
Proof.
  intros Hk Hc Hown Hr (_ & _ & _ & Hd) Ha Hex Hp Hup. unfold updateSerpRelatedRoles in Hup. rewrite Hd in Hup.
  eapply (related_pending (owners d1)) in Hup; [done| |exact Hr|done..].
  intros p q Hq. simpl. split_and!; [done..|by eapply Hown].
Qed.

Lemma rolesChanged_spec kind e attrs d1 tx tx' :
  same_data d1 (tx_db tx) → d_attributes d1 kind !! e = Some attrs →
  counts_exact (owners d1) (tx_db tx) → pending d1 (kindsOf kind) tx e →
  rolesChanged kind e attrs tx = Ok tx' →
  steps (owners d1) tx tx' ∧ pending d1 [] tx' e.
Proof.
  intros Hsame Ha Hex Hp Hch. destruct ctx_ok_rp as (? & ? & ? & ?).
  assert (∀ K K' tx0, steps (owners d1) tx tx0 ∧ pending d1 K tx0 e →
    (same_data d1 (tx_db tx0) → counts_exact (owners d1) (tx_db tx0) → pending d1 K tx0 e →
       steps (owners d1) tx0 tx' ∧ pending d1 K' tx' e) →
    steps (owners d1) tx tx' ∧ pending d1 K' tx' e) as Hseq.
  { intros K K' tx0 [Hs Hpd] Hnext. destruct (Hs Hex) as (Hd & He & _).
    destruct Hnext as [Hs' Hp']; [by etrans|done|done|]. split; [by etrans|done]. }
  destruct kind; simpl in *.
  - destruct (updateErpRelatedRoles _ _ _ _ _) as [tx0|] eqn:Hfst; [simpl in Hch|done].
    eapply Hseq; [eapply erp_pending; try exact Hfst; try done; intros; by eapply owner_erp|].
    intros. eapply (sp_pending _ _ SpIdentities); try exact Hch; try done; [intros t; split; [done|apply ctx_ok_sp]|].
    intros. by apply owner_sp.
  - destruct (updateServicePolicyRelatedRoles _ _ _ _ _) as [tx0|] eqn:Hfst; [simpl in Hch|done].
    eapply Hseq; [eapply (sp_pending _ _ SpServices); try exact Hfst; try done; [intros t; split; [done|apply ctx_ok_sp]|]|].
    { intros. by apply owner_sp. }
    intros. eapply serp_pending; try exact Hch; try done. intros. by eapply owner_serp.
  - eapply (sp_pending _ _ SpPostureChecks); try exact Hch; try done; [intros t; split; [done|apply ctx_ok_sp]|].
    intros. by apply owner_sp.
  - destruct (updateErpRelatedRoles _ _ _ _ _) as [tx0|] eqn:Hfst; [simpl in Hch|done].
    eapply Hseq; [eapply erp_pending; try exact Hfst; try done; intros; by eapply owner_erp|].
    intros. eapply serp_pending; try exact Hch; try done. intros. by eapply owner_serp.
Qed.

Lemma selected_same d d' k p e : same_data d d' → selected d' k p e ↔ selected d k p e.
Proof.
  intros (Ha & Hs & He & Hse). unfold selected. rewrite Ha.
  replace (rolesOf d' k p) with (rolesOf d k p); [done|]. destruct k; simpl; congruence.
Qed.

Lemma kindsOf_spec k kind : k ∈ kindsOf kind ↔ linkedEntity k = kind.
Proof. destruct kind, k; simpl; rewrite ?elem_of_cons, ?elem_of_nil; naive_solver. Qed.

(** Setting attributes changes only what is selected of the entity. *)
Lemma selected_attributes d kind e attrs k p e' :
  let d1 := set_attributes (<[kind := <[e := attrs]> (d_attributes d kind)]> (d_attributes d)) d in
  ¬ (e' = e ∧ k ∈ kindsOf kind) ∨ d_attributes d kind !! e = Some attrs →
  selected d1 k p e' ↔ selected d k p e'.
Proof.
  intros d1 Hne. unfold selected. replace (rolesOf d1 k p) with (rolesOf d k p) by (by destruct k).
  assert (d_attributes d1 (linkedEntity k) !! e' = d_attributes d (linkedEntity k) !! e') as ->; [|done].
  simpl. destruct (decide (linkedEntity k = kind)) as [Hk|Hk].
  - rewrite Hk, fn_lookup_insert. destruct (decide (e' = e)) as [->|].
    + rewrite lookup_insert_eq. destruct Hne as [Hne|Hne]; [|done]. exfalso. apply Hne. by rewrite kindsOf_spec.
    + by rewrite lookup_insert_ne.
  - by rewrite fn_lookup_insert_ne.
Qed.

Lemma attributes_ok kind e attrs tx tx' :
  store_ok (tx_db tx) → persistRoleAttributes kind e attrs tx = Ok tx' →
  store_ok (tx_db tx') ∧ told tx tx'.
Proof.
  intros [Hl Hc]. unfold persistRoleAttributes. destruct (if bool_decide _ then _ else _); [simpl|done].
  set (tx1 := onDb _ tx). set (d1 := tx_db tx1). assert (told tx tx1) as T1.
  { exists []. split; [by rewrite app_nil_r|]. done. }
  assert (counts_exact (owners d1) d1) as Hc1 by done.
  case_bool_decide as Hold.
  - intros [= <-]. split; [|done]. split; [|done]. intros k p e'.
    change (linked (tx_db tx1) k p e') with (linked (tx_db tx) k p e').
    rewrite (Hl k p e'). symmetry. apply selected_attributes. by right.
  - intros Hch. apply (rolesChanged_spec kind e attrs d1) in Hch as [Hs Hp]; [|done|..|done|].
    + destruct (Hs Hc1) as (Hd & He & T2). split; [|by etrans]. split.
      * intros k p e'. specialize (Hp k p e'). rewrite decide_False in Hp by set_solver.
        rewrite Hp. symmetry. by apply selected_same.
      * by rewrite (owners_same d1).
    + simpl. by rewrite fn_lookup_insert, lookup_insert_eq.
    + intros k p e'. change (linked (tx_db tx1) k p e') with (linked (tx_db tx) k p e').
      destruct (decide (e' = e ∧ k ∈ kindsOf kind)) as [HK|HK].
      * intros Hlk. apply Hl in Hlk. unfold selected in Hlk.
        replace (rolesOf d1 k p) with (rolesOf (tx_db tx) k p) by (by destruct k).
        by destruct (rolesOf (tx_db tx) k p).
      * rewrite (Hl k p e'). symmetry. apply selected_attributes. by left.
Qed.

(** ** Changing policies *)

(** All links are as selected in [d1], except those of policy [p] of the kinds
    [K], which are still to be evaluated. *)
Definition unevaluated d1 (K : list LinkKind) tx (p : string) : Prop :=
  ∀ k p' e, if decide (p' = p ∧ k ∈ K)
            then linked (tx_db tx) k p' e → is_Some (d_attributes d1 (linkedEntity k) !! e)
            else linked (tx_db tx) k p' e ↔ selected d1 k p' e.

Lemma evaluate_step own ctx p sem roles d1 K tx tx' :
  ctx_ok ctx → owner_ok own ctx p → rolesOf d1 (cx_link ctx) p = Some (sem, roles) →
  same_data d1 (tx_db tx) → counts_exact own (tx_db tx) → unevaluated d1 (cx_link ctx :: K) tx p →
  EvaluatePolicy ctx p sem roles tx = Ok tx' →
  (steps own tx tx' ∧ same_data d1 (tx_db tx') ∧ counts_exact own (tx_db tx')) ∧ unevaluated d1 K tx' p.
Proof.
  intros Hok Hown Hr Hd Hex Hun Hev. apply (EvaluatePolicy_spec own) in Hev as [S1 L1]; [|done..].
  destruct (S1 Hex) as (Hd' & Hex' & _). split; [split_and!; [done|by etrans|done]|].
  intros k p' e. specialize (Hun k p' e). pose proof (L1 k p' e) as Hl. clear L1.
  destruct Hd as (Ha & _). rewrite Ha in Hl.
  destruct (decide (k = cx_link ctx ∧ p' = p)) as [[-> ->]|Hne].
  - rewrite decide_True in Hun by (split; [done|left]).
    assert (linked (tx_db tx') (cx_link ctx) p e ↔ selected d1 (cx_link ctx) p e) as Hl'.
    { rewrite Hl. unfold selected. rewrite Hr.
      destruct (d_attributes d1 (linkedEntity (cx_link ctx)) !! e) eqn:He; [done|]. split; [|done].
      intros Hlk. by apply Hun in Hlk as [? ?]. }
    destruct (decide (p = p ∧ cx_link ctx ∈ K)); [|done]. intros Hlk. apply Hl' in Hlk. unfold selected in Hlk.
    rewrite Hr in Hlk. by destruct (d_attributes d1 _ !! e).
  - destruct (decide (p' = p ∧ k ∈ K)) as [HK|HK].
    + rewrite decide_True in Hun by (destruct HK; split; [done|by right]). by rewrite Hl.
    + rewrite decide_False in Hun; [by rewrite Hl|]. intros [-> [->|Hk]%elem_of_cons]; naive_solver.
Qed.

(** Counting a policy elsewhere is harmless while it has no links. *)
Lemma counts_owners own own' d p :
  (∀ D q, counted D → q ≠ p → q ∈ own D ↔ q ∈ own' D) →
  (∀ D e, counted D → linked d (pairLeft D) p e → p ∈ own D ↔ p ∈ own' D) →
  counts_exact own d → counts_exact own' d.
Proof.
  intros Hq Hp Hex D a b HD. rewrite (Hex D a b HD). do 2 f_equal. apply set_eq. intros q. unfold shared.
  rewrite !elem_of_filter. destruct (decide (q = p)) as [->|Hne]; [|by rewrite (Hq D q)].
  split; intros ((H1 & H2) & H3); (split; [done|]); by apply (Hp D a HD H1).
Qed.

Definition spKinds : list LinkKind := [SpIdentities; SpServices; SpPostureChecks].

Lemma identities_step own t p q d1 K tx tx' :
  d_servicePolicies d1 !! p = Some q → owner_ok own (identityRolesContext t) p →
  same_data d1 (tx_db tx) ∧ counts_exact own (tx_db tx) → unevaluated d1 (SpIdentities :: K) tx p →
  identityRolesUpdated t p tx = Ok tx' →
  (steps own tx tx' ∧ same_data d1 (tx_db tx') ∧ counts_exact own (tx_db tx')) ∧ unevaluated d1 K tx' p.
Proof.
  intros Hq Hown [Hd Hex] Hun Hev. pose proof Hd as (_ & Hs & _). unfold identityRolesUpdated, stored in Hev.
  rewrite Hs, Hq in Hev. eapply evaluate_step in Hev; [exact Hev|apply ctx_ok_sp|done| |done..].
  simpl. by rewrite Hq.
Qed.
Lemma sp_services_step own t p q d1 K tx tx' :
  d_servicePolicies d1 !! p = Some q → owner_ok own (serviceRolesContext t) p →
  same_data d1 (tx_db tx) ∧ counts_exact own (tx_db tx) → unevaluated d1 (SpServices :: K) tx p →
  serviceRolesUpdated t p tx = Ok tx' →
  (steps own tx tx' ∧ same_data d1 (tx_db tx') ∧ counts_exact own (tx_db tx')) ∧ unevaluated d1 K tx' p.
Proof.
  intros Hq Hown [Hd Hex] Hun Hev. pose proof Hd as (_ & Hs & _). unfold serviceRolesUpdated, stored in Hev.
  rewrite Hs, Hq in Hev. eapply evaluate_step in Hev; [exact Hev|apply ctx_ok_sp|done| |done..].
  simpl. by rewrite Hq.
Qed.
Lemma postureChecks_step own t p q d1 K tx tx' :
  d_servicePolicies d1 !! p = Some q → owner_ok own (postureCheckRolesContext t) p →
  same_data d1 (tx_db tx) ∧ counts_exact own (tx_db tx) → unevaluated d1 (SpPostureChecks :: K) tx p →
  postureCheckRolesUpdated t p tx = Ok tx' →
  (steps own tx tx' ∧ same_data d1 (tx_db tx') ∧ counts_exact own (tx_db tx')) ∧ unevaluated d1 K tx' p.
Proof.
  intros Hq Hown [Hd Hex] Hun Hev. pose proof Hd as (_ & Hs & _). unfold postureCheckRolesUpdated, stored in Hev.
  rewrite Hs, Hq in Hev. eapply evaluate_step in Hev; [exact Hev|apply ctx_ok_sp|done| |done..].
  simpl. by rewrite Hq.
Qed.

Lemma allRoles_step own t p q d1 tx tx' :
  d_servicePolicies d1 !! p = Some q →
  owner_ok own (identityRolesContext t) p ∧ owner_ok own (serviceRolesContext t) p ∧
    owner_ok own (postureCheckRolesContext t) p →
  same_data d1 (tx_db tx) ∧ counts_exact own (tx_db tx) → unevaluated d1 spKinds tx p →
  allRolesUpdated t p tx = Ok tx' →
  (steps own tx tx' ∧ same_data d1 (tx_db tx') ∧ counts_exact own (tx_db tx')) ∧ unevaluated d1 [] tx' p.
Proof.
  intros Hq (O1 & O2 & O3) Hd Hun. unfold allRolesUpdated.
  destruct (identityRolesUpdated t p tx) as [tx1|] eqn:E1; [simpl|done].
  eapply identities_step in E1 as [(S1 & D1) U1]; [|done..].
  destruct (serviceRolesUpdated t p tx1) as [tx2|] eqn:E2; [simpl|done].
  eapply sp_services_step in E2 as [(S2 & D2) U2]; [|done..]. intros E3.
  eapply postureChecks_step in E3 as [(S3 & D3) U3]; [|done..].
  split; [|done]. split; [|done]. etrans; [exact S1|]. by etrans.
Qed.

Lemma selects_nil sem e attrs : selects sem [] e attrs = false.
Proof.
  unfold selects, policyMatches; simpl. by rewrite !andb_false_r.
Qed.

(** A step that is taken only if its kind is to be evaluated. *)
Lemma cond_step own d1 K tx tx' p (c : bool) k (f : TX → result TX PersistError) :
  (unevaluated d1 (k :: K) tx p → f tx = Ok tx' →
     (steps own tx tx' ∧ same_data d1 (tx_db tx') ∧ counts_exact own (tx_db tx')) ∧ unevaluated d1 K tx' p) →
  same_data d1 (tx_db tx) ∧ counts_exact own (tx_db tx) →
  unevaluated d1 ((if c then [k] else []) ++ K) tx p → (if c then f tx else Ok tx) = Ok tx' →
  (steps own tx tx' ∧ same_data d1 (tx_db tx') ∧ counts_exact own (tx_db tx')) ∧ unevaluated d1 K tx' p.
Proof. intros Hf Hd Hun. destruct c; [by apply Hf|]. intros [= <-]. done. Qed.

Lemma told_db tx d' : d_links d' = d_links (tx_db tx) → d_counts d' = d_counts (tx_db tx) →
  told tx (mkTX d' (tx_effects tx)).
Proof.
  intros Hl Hc. exists []. split; [by rewrite app_nil_r|]. split.
  - intros t i s _. simpl. f_equal. unfold access, count. simpl. by rewrite Hc.
  - intros rt p x. simpl. f_equal. by apply member_links.
Qed.

Lemma store_ok_done d1 own tx p :
  same_data d1 (tx_db tx) → owners d1 = own → counts_exact own (tx_db tx) → unevaluated d1 [] tx p →
  store_ok (tx_db tx).
Proof.
  intros Hd Hown Hex Hun. split.
  - intros k p' e. specialize (Hun k p' e). rewrite decide_False in Hun by set_solver. rewrite Hun.
    symmetry. by apply selected_same.
  - by rewrite (owners_same d1), Hown.
Qed.

(** Replacing one service policy. *)
Definition put_sp (p : string) (q : ServicePolicy) d : DB := set_servicePolicies (<[p := q]> (d_servicePolicies d)) d.

Lemma selected_put_sp p q d k p' e : p' ≠ p ∨ k ∉ spKinds → selected (put_sp p q d) k p' e ↔ selected d k p' e.
Proof.
  intros Hne. unfold selected. replace (rolesOf (put_sp p q d) k p') with (rolesOf d k p'); [done|].
  destruct Hne as [Hne|Hk].
  - destruct k; simpl; try done; by rewrite lookup_insert_ne.
  - destruct k; simpl; try done; unfold spKinds in Hk; set_solver.
Qed.

Lemma owners_put_sp p q d :
  (∀ D p', p' ≠ p → p' ∈ owners (put_sp p q d) D ↔ p' ∈ owners d D) ∧
  (∀ q0, d_servicePolicies d !! p = Some q0 → sp_PolicyType q0 = sp_PolicyType q →
     ∀ D, p ∈ owners (put_sp p q d) D ↔ p ∈ owners d D).
Proof.
  split.
  - intros D p' Hne. destruct D; simpl; try done; rewrite !elem_of_dom; unfold is_Some;
      setoid_rewrite map_lookup_filter_Some; by rewrite lookup_insert_ne.
  - intros q0 Hq Ht D. destruct D; simpl; try done; rewrite !elem_of_dom; unfold is_Some;
      setoid_rewrite map_lookup_filter_Some; rewrite lookup_insert_eq, Hq; simpl; naive_solver congruence.
Qed.

Lemma no_links_without_policy d p k e : links_exact d → k ∈ spKinds → d_servicePolicies d !! p = None → ¬ linked d k p e.
Proof.
  intros Hl Hk Hn Hlk. apply Hl in Hlk. unfold selected in Hlk.
  unfold spKinds in Hk. rewrite !elem_of_cons, elem_of_nil in Hk.
  destruct Hk as [->|[->|[->|[]]]]; simpl in Hlk; by rewrite Hn in Hlk.
Qed.

Lemma linked_entity d k p e : links_exact d → linked d k p e → is_Some (d_attributes d (linkedEntity k) !! e).
Proof. intros Hl Hlk. apply Hl in Hlk. unfold selected in Hlk. destruct (rolesOf d k p) as [[]|]; [|done].
  by destruct (d_attributes d _ !! e). Qed.

(** What of a service policy a kind of link depends on. *)
Definition spRoles (k : LinkKind) (q : ServicePolicy) : list string :=
  match k with
  | SpIdentities => sp_IdentityRoles q
  | SpServices => sp_ServiceRoles q
  | _ => sp_PostureCheckRoles q
  end.
Lemma rolesOf_sp d k p : k ∈ spKinds →
  rolesOf d k p = (λ q, (sp_Semantic q, spRoles k q)) <$> d_servicePolicies d !! p.
Proof. unfold spKinds. rewrite !elem_of_cons, elem_of_nil. by intros [->|[->|[->|[]]]]. Qed.

(** A policy is replaced and the kinds [K] are to be evaluated: the roles of the
    others did not change. *)
Lemma unevaluated_put d p q d1 K es :
  links_exact d → d1 = put_sp p q d → K ⊆ spKinds →
  (∀ k, k ∈ spKinds → k ∉ K →
     match d_servicePolicies d !! p with
     | Some q0 => sp_Semantic q = sp_Semantic q0 ∧ spRoles k q = spRoles k q0
     | None => spRoles k q = []
     end) →
  unevaluated d1 K (mkTX d1 es) p.
Proof.
  intros Hl -> HK Hk k p' e. change (linked _ k p' e) with (linked d k p' e).
  case_decide as Hp; [apply linked_entity, Hl|]. rewrite (Hl k p' e).
  destruct (decide (p' = p ∧ k ∈ spKinds)) as [[-> Hsp]|Hne].
  2: { symmetry. apply selected_put_sp. destruct (decide (p' = p)); [right|by left]. naive_solver. }
  assert (k ∉ K) as Hkn by naive_solver. specialize (Hk k Hsp Hkn).
  unfold selected. rewrite !rolesOf_sp by done. simpl. rewrite lookup_insert_eq. simpl.
  destruct (d_servicePolicies d !! p) as [q0|]; simpl.
  - by destruct Hk as [-> ->].
  - rewrite Hk. destruct (d_attributes d (linkedEntity k) !! e); [|done]. by rewrite selects_nil.
Qed.

Lemma counts_put_sp d p q :
  store_ok d →
  (∀ q0, d_servicePolicies d !! p = Some q0 → sp_PolicyType q0 = sp_PolicyType q) →
  counts_exact (owners (put_sp p q d)) (put_sp p q d).
Proof.
  intros [Hl Hc] Ht. destruct (owners_put_sp p q d) as [O1 O2].
  apply (counts_owners (owners d) (owners (put_sp p q d)) d p) in Hc; [done|..].
  - intros D p' _ Hne. symmetry. by apply O1.
  - intros D e HD Hlk. destruct (d_servicePolicies d !! p) as [q0|] eqn:Hq.
    + symmetry. eapply O2; [done|]. by apply Ht.
    + assert (pairLeft D = SpIdentities ∨ D = IdentityRouters ∨ D = ServiceRouters) as [HD'|HD'].
      { destruct D; simpl; auto; by destruct HD. }
      * rewrite HD' in Hlk. eapply no_links_without_policy in Hlk; [done|done| |done]. left.
      * destruct HD' as [-> | ->]; done.
Qed.

Lemma put_sp_twice p q q' d : put_sp p q' (put_sp p q d) = put_sp p q' d.
Proof. unfold put_sp, set_servicePolicies. simpl. by rewrite insert_insert_eq. Qed.

Lemma updateRoles_ok d checker p entity current q0 es tx' :
  store_ok d →
  match d_servicePolicies d !! p with
  | Some q => q = current ∧ sp_PolicyType q = sp_PolicyType entity ∧ sp_Semantic q = sp_Semantic q0
  | None => sp_IdentityRoles current = [] ∧ sp_ServiceRoles current = [] ∧ sp_PostureCheckRoles current = []
  end →
  sp_PolicyType q0 = sp_PolicyType entity →
  updateRoles checker p entity current (mkTX (put_sp p q0 d) es) = Ok tx' →
  store_ok (tx_db tx') ∧ told (mkTX d es) tx' ∧
  (checker = None → d_servicePolicies (tx_db tx') !! p =
     Some (mkServicePolicy (sp_PolicyType q0) (sp_Semantic q0) (sp_IdentityRoles entity)
       (sp_ServiceRoles entity) (sp_PostureCheckRoles entity))).
Proof.
  intros Hok Hcur Ht. unfold updateRoles.
  assert (stored p (mkTX (put_sp p q0 d) es) = q0) as -> by (unfold stored; simpl; by rewrite lookup_insert_eq).
  set (setf f (new old : list string) := if ProceedWithSet checker f then new else old).
  set (changed f (new old : list string) := ProceedWithSet checker f && negb (bool_decide (old = new))).
  fold (setf FieldIdentityRoles (sp_IdentityRoles entity) (sp_IdentityRoles current)).
  fold (setf FieldServiceRoles (sp_ServiceRoles entity) (sp_ServiceRoles current)).
  fold (setf FieldPostureCheckRoles (sp_PostureCheckRoles entity) (sp_PostureCheckRoles current)).
  fold (changed FieldIdentityRoles (sp_IdentityRoles entity) (sp_IdentityRoles current)).
  fold (changed FieldServiceRoles (sp_ServiceRoles entity) (sp_ServiceRoles current)).
  fold (changed FieldPostureCheckRoles (sp_PostureCheckRoles entity) (sp_PostureCheckRoles current)).
  assert (∀ f new old, changed f new old = false → setf f new old = old) as Hset.
  { intros f new old. unfold changed, setf. destruct (ProceedWithSet checker f); [|done]. simpl.
    by case_bool_decide. }
  set (q1 := mkServicePolicy _ _ _ _ _).
  change (putServicePolicy p q1 (mkTX (put_sp p q0 d) es)) with (mkTX (put_sp p q1 (put_sp p q0 d)) es).
  rewrite put_sp_twice. set (d1 := put_sp p q1 d).
  set (c1 := changed FieldIdentityRoles _ _). set (c2 := changed FieldServiceRoles _ _).
  set (c3 := changed FieldPostureCheckRoles _ _).
  assert (d_servicePolicies d1 !! p = Some q1) as Hq1 by (simpl; apply lookup_insert_eq).
  destruct (owner_sp d1 p q1 Hq1) as (O1 & O2 & O3). change (sp_PolicyType q1) with (sp_PolicyType q0) in *.
  rewrite Ht in *.
  assert (counts_exact (owners d1) d1) as Hc1.
  { apply counts_put_sp; [done|]. intros q Hq. rewrite Hq in Hcur. simpl. rewrite Ht. naive_solver. }
  assert (unevaluated d1 ((if c1 then [SpIdentities] else []) ++ (if c2 then [SpServices] else []) ++
    (if c3 then [SpPostureChecks] else []) ++ []) (mkTX d1 es) p) as U0.
  { apply (unevaluated_put d p q1 d1); [apply Hok|done|destruct c1, c2, c3; unfold spKinds; set_solver|].
    intros k Hk HkK. unfold spKinds in Hk. rewrite !elem_of_cons, elem_of_nil in Hk.
    assert (spRoles k q1 = spRoles k current) as Hr.
    { destruct Hk as [->|[->|[->|[]]]]; simpl; apply Hset.
      - destruct c1 eqn:E; [set_solver|done].
      - destruct c2 eqn:E; [set_solver|done].
      - destruct c3 eqn:E; [set_solver|done]. }
    destruct (d_servicePolicies d !! p) as [q|]; [by destruct Hcur as (-> & _ & ->)|]. rewrite Hr.
    by destruct Hcur as (? & ? & ?), Hk as [->|[->|[->|[]]]]. }
  assert (told (mkTX d es) (mkTX d1 es)) as T0 by (by apply (told_db (mkTX d es))).
  destruct (if c1 then identityRolesUpdated (sp_PolicyType entity) p (mkTX d1 es) else Ok (mkTX d1 es))
    as [tx1|] eqn:E1; [simpl|done].
  eapply (cond_step (owners d1) d1 _ _ tx1 p c1 SpIdentities) in E1 as [(S1 & D1) U1]; [| |done|exact U0];
    [|by eapply identities_step].
  destruct (if c2 then serviceRolesUpdated (sp_PolicyType entity) p tx1 else Ok tx1) as [tx2|] eqn:E2; [simpl|done].
  eapply (cond_step (owners d1) d1 _ _ tx2 p c2 SpServices) in E2 as [(S2 & D2) U2]; [| |done|exact U1];
    [|by eapply sp_services_step].
  intros E3.
  eapply (cond_step (owners d1) d1 _ _ tx' p c3 SpPostureChecks) in E3 as [(S3 & D3) U3]; [| |done|exact U2];
    [|by eapply postureChecks_step].
  split_and!; [by eapply store_ok_done; destruct D3| |].
  2: { intros Hn. destruct D3 as [(_ & -> & _) _]. rewrite Hq1. unfold q1, setf. by rewrite Hn, Ht. }
  etrans; [exact T0|].
  destruct (S1 Hc1) as (_ & _ & T1), D1 as [_ C1]. destruct (S2 C1) as (_ & _ & T2), D2 as [_ C2].
  destruct (S3 C2) as (_ & _ & T3). etrans; [exact T1|]. by etrans.
Qed.

Lemma unevaluated_exact d1 tx p : same_data d1 (tx_db tx) → unevaluated d1 [] tx p → links_exact (tx_db tx).
Proof.
  intros Hd Hun k p' e. specialize (Hun k p' e). rewrite decide_False in Hun by set_solver. rewrite Hun.
  symmetry. by apply selected_same.
Qed.

Lemma pairLeft_cases D : counted D → pairLeft D = SpIdentities ∨ D = IdentityRouters ∨ D = ServiceRouters.
Proof. intros HD. destruct D; simpl; auto; by destruct HD. Qed.

(** A policy without links can be given any type. *)
Lemma counts_retype d0 d p q q0 :
  (∀ k e, k ∈ spKinds → ¬ linked d k p e) → same_data (put_sp p q0 d0) d → counts_exact (owners d0) d →
  counts_exact (owners (put_sp p q d)) (put_sp p q d).
Proof.
  intros Hno Hd Hc. destruct (owners_put_sp p q d) as [O1 _], (owners_put_sp p q0 d0) as [O2 _].
  apply owners_same in Hd as Ho.
  apply (counts_owners (owners d0) (owners (put_sp p q d)) d p) in Hc; [done|..].
  - intros D p' _ Hne. by rewrite O1, Ho, O2.
  - intros D e HD Hlk. destruct (pairLeft_cases D HD) as [HD'|HD'].
    + rewrite HD' in Hlk. apply Hno in Hlk; [done|]. left.
    + destruct Hd as (_ & _ & H1 & H2). destruct HD' as [-> | ->]; simpl; by rewrite ?H1, ?H2.
Qed.

Lemma changePolicyType_ok d checker p entity current q0 es tx' :
  store_ok d → d_servicePolicies d !! p = Some current → sp_PolicyType q0 = sp_PolicyType entity →
  changePolicyType checker p entity current (mkTX (put_sp p q0 d) es) = Ok tx' →
  store_ok (tx_db tx') ∧ told (mkTX d es) tx' ∧
  ∃ q, d_servicePolicies (tx_db tx') !! p = Some q ∧ sp_PostureCheckRoles q = [].
Proof.
  intros Hok Hcur Ht. unfold changePolicyType.
  assert (stored p (mkTX (put_sp p q0 d) es) = q0) as -> by (unfold stored; simpl; by rewrite lookup_insert_eq).
  set (q1 := mkServicePolicy _ _ [] [] []).
  change (putServicePolicy p q1 (mkTX (put_sp p q0 d) es)) with (mkTX (put_sp p q1 (put_sp p q0 d)) es).
  rewrite put_sp_twice. set (d1 := put_sp p q1 d).
  destruct (allRolesUpdated _ p (mkTX d1 es)) as [tx1|] eqn:E1; [simpl|done].
  eapply (allRoles_step (owners d) _ p q1 d1) in E1 as [(S1 & D1 & C1) U1].
  2: simpl; apply lookup_insert_eq. 2: by destruct (owner_sp d p current Hcur) as (? & ? & ?).
  2: split; [done|apply Hok].
  2: { apply (unevaluated_put d p q1 d1); [apply Hok|done|done|]. intros k Hk Hn. by destruct Hn. }
  apply unevaluated_exact in U1 as Hl1; [|done].
  assert (∀ k e, k ∈ spKinds → ¬ linked (tx_db tx1) k p e) as Hno.
  { intros k e Hk Hlk. apply Hl1 in Hlk. apply (selected_same d1) in Hlk; [|done]. unfold selected in Hlk.
    rewrite rolesOf_sp in Hlk by done. simpl in Hlk. rewrite lookup_insert_eq in Hlk. simpl in Hlk.
    destruct (d_attributes d (linkedEntity k) !! e); [|done].
    replace (spRoles k q1) with (@nil string) in Hlk by (by destruct k). by rewrite selects_nil in Hlk. }
  set (q2 := mkServicePolicy _ _ _ _ []).
  change (putServicePolicy p q2 tx1) with (mkTX (put_sp p q2 (tx_db tx1)) (tx_effects tx1)).
  set (d2 := put_sp p q2 (tx_db tx1)). intros E2.
  assert (d_servicePolicies d2 !! p = Some q2) as Hq2 by (simpl; apply lookup_insert_eq).
  assert (counts_exact (owners d2) d2) as C2 by (by apply (counts_retype d _ p q2 q1)).
  rewrite <- Ht in E2. apply (allRoles_step (owners d2) _ p q2 d2) in E2 as [(S2 & D2 & C3) U2]; [|done|..|done|].
  2: by apply (owner_sp d2 p q2).
  2: { apply (unevaluated_put (tx_db tx1) p q2 d2); [done|done|done|]. intros k Hk Hn. by destruct Hn. }
  split_and!; [by eapply store_ok_done| |].
  - etrans; [by apply (told_db (mkTX d es) d1)|]. destruct S1 as (_ & _ & T1); [apply Hok|]. etrans; [exact T1|].
    destruct (S2 C2) as (_ & _ & T2). by etrans; [apply (told_db tx1 d2)|].
  - exists q2. destruct D2 as (_ & -> & _). done.
Qed.

(** ** Persisting and deleting service policies *)

Lemma servicePolicy_persist_ok (isCreate : bool) checker p entity tx tx' :
  store_ok (tx_db tx) →
  match d_servicePolicies (tx_db tx) !! p with
  | Some q => isCreate = false ∧
     (ProceedWithSet checker FieldSemantic = true → sp_Semantic entity = sp_Semantic q ∨
        ProceedWithSet checker FieldType = true ∧ sp_PolicyType entity ≠ sp_PolicyType q)
  | None => isCreate = true
  end →
  servicePolicy_PersistEntity isCreate checker p entity tx = Ok tx' →
  store_ok (tx_db tx') ∧ told tx tx'.
Proof.
  intros Hok Hpre. unfold servicePolicy_PersistEntity.
  destruct (ProceedWithSet checker FieldType && _); [done|].
  destruct (validateRolesAndIds (sp_IdentityRoles entity)); [simpl|done].
  destruct (validateRolesAndIds (sp_ServiceRoles entity)); [simpl|done].
  destruct (validateRolesAndIds (sp_PostureCheckRoles entity)); [simpl|done].
  destruct (ProceedWithSet checker FieldSemantic && _); [done|].
  set (newType := if ProceedWithSet checker FieldType then _ else _).
  set (entity' := mkServicePolicy newType _ _ _ _). set (q0 := mkServicePolicy newType _ _ _ _).
  change (putServicePolicy p q0 tx) with (mkTX (put_sp p q0 (tx_db tx)) (tx_effects tx)).
  destruct (negb (bool_decide (newType = _)) && negb isCreate) eqn:Hch; intros Hrun.
  - apply andb_true_iff in Hch as [Hch Hc]. destruct isCreate; [done|].
    destruct (d_servicePolicies (tx_db tx) !! p) as [q|] eqn:Hq; [|done].
    assert (stored p tx = q) as Hst by (unfold stored; by rewrite Hq). rewrite Hst in *.
    apply changePolicyType_ok in Hrun as (? & ? & _); [|done..]. by destruct tx.
  - apply updateRoles_ok in Hrun as (? & ? & _); [by destruct tx|done| |done].
    destruct (d_servicePolicies (tx_db tx) !! p) as [q|] eqn:Hq.
    + destruct Hpre as [-> Hsem]. assert (stored p tx = q) as Hst by (unfold stored; by rewrite Hq).
      rewrite andb_true_r, negb_false_iff in Hch. apply bool_decide_eq_true in Hch. rewrite Hst in *.
      split_and!; [done|done|]. unfold q0, entity'; simpl. rewrite ?Hst.
      destruct (ProceedWithSet checker FieldSemantic); [|done].
      destruct (Hsem eq_refl) as [|[Hty Hne]]; [done|]. unfold newType in Hch. by rewrite Hty in Hch.
    + unfold stored. by rewrite Hq.
Qed.

(** With a nil checker and the same type, an update stores the sorted roles. *)
Lemma servicePolicy_persist_stored p q entity tx tx' :
  store_ok (tx_db tx) → d_servicePolicies (tx_db tx) !! p = Some q →
  sp_PolicyType entity = sp_PolicyType q → sp_Semantic entity = sp_Semantic q →
  servicePolicy_PersistEntity false None p entity tx = Ok tx' →
  d_servicePolicies (tx_db tx') !! p = Some (mkServicePolicy (sp_PolicyType q) (sp_Semantic q)
    (sortStrings (sp_IdentityRoles entity)) (sortStrings (sp_ServiceRoles entity))
    (sortStrings (sp_PostureCheckRoles entity))).
Proof.
  intros Hok Hq Hty Hsem. assert (stored p tx = q) as Hst by (unfold stored; by rewrite Hq).
  unfold servicePolicy_PersistEntity. rewrite Hst. simpl. destruct (bool_decide (_ = InvalidPolicy)); [done|].
  destruct (validateRolesAndIds (sp_IdentityRoles entity)); [simpl|done].
  destruct (validateRolesAndIds (sp_ServiceRoles entity)); [simpl|done].
  destruct (validateRolesAndIds (sp_PostureCheckRoles entity)); [simpl|done].
  destruct (isSemanticValid _); [simpl|done]. rewrite Hty, bool_decide_true by done. simpl.
  set (q0 := mkServicePolicy _ _ (sp_IdentityRoles q) _ _).
  change (putServicePolicy p q0 tx) with (mkTX (put_sp p q0 (tx_db tx)) (tx_effects tx)).
  intros Hrun. apply updateRoles_ok in Hrun as (_ & _ & Hs); [|done|by rewrite Hq|done].
  rewrite (Hs eq_refl). by rewrite <- Hsem.
Qed.

(** Removing a policy without roles. *)
Definition del_sp (p : string) d : DB := set_servicePolicies (delete p (d_servicePolicies d)) d.

Lemma del_sp_ok d p q :
  store_ok d → d_servicePolicies d !! p = Some q → (∀ k, k ∈ spKinds → spRoles k q = []) →
  store_ok (del_sp p d).
Proof.
  intros [Hl Hc] Hq Hr.
  assert (∀ k e, k ∈ spKinds → ¬ linked d k p e) as Hno.
  { intros k e Hk Hlk. apply Hl in Hlk. unfold selected in Hlk. rewrite rolesOf_sp, Hq in Hlk by done. simpl in Hlk.
    rewrite (Hr k Hk) in Hlk. destruct (d_attributes d (linkedEntity k) !! e); [|done].
    by rewrite selects_nil in Hlk. }
  split.
  - intros k p' e. change (linked (del_sp p d) k p' e) with (linked d k p' e).
    destruct (decide (k ∈ spKinds)) as [Hk|Hk].
    + destruct (decide (p' = p)) as [->|Hne].
      * split; [intros Hlk; by apply Hno in Hlk|]. unfold selected. rewrite rolesOf_sp by done. simpl.
        by rewrite lookup_delete_eq.
      * rewrite (Hl k p' e). unfold selected. rewrite !rolesOf_sp by done. simpl. by rewrite lookup_delete_ne.
    + rewrite (Hl k p' e). unfold selected.
      replace (rolesOf (del_sp p d) k p') with (rolesOf d k p'); [done|]. destruct k; try done; unfold spKinds in Hk; set_solver.
  - apply (counts_owners (owners d) (owners (del_sp p d)) d p) in Hc; [done|..].
    + intros D p' _ Hne. destruct D; simpl; try done; rewrite !elem_of_dom; unfold is_Some;
        setoid_rewrite map_lookup_filter_Some; by rewrite lookup_delete_ne.
    + intros D e HD Hlk. destruct (pairLeft_cases D HD) as [HD'|[-> | ->]]; [|done..].
      rewrite HD' in Hlk. apply Hno in Hlk; [done|]. left.
Qed.

Lemma servicePolicy_delete_ok p tx tx' :
  store_ok (tx_db tx) → servicePolicy_DeleteById p tx = Ok tx' →
  store_ok (tx_db tx') ∧ told tx tx' ∧ d_servicePolicies (tx_db tx') !! p = None.
Proof.
  intros Hok. unfold servicePolicy_DeleteById. destruct (d_servicePolicies (tx_db tx) !! p) as [q|] eqn:Hq; [|done].
  intros Hrun.
  assert (∃ tx1 q1, store_ok (tx_db tx1) ∧ told tx tx1 ∧ d_servicePolicies (tx_db tx1) !! p = Some q1 ∧
    (∀ k, k ∈ spKinds → spRoles k q1 = []) ∧ tx' = mkTX (del_sp p (tx_db tx1)) (tx_effects tx1))
    as (tx1 & q1 & Hok1 & T1 & Hq1 & Hr & ->).
  { set (clear := servicePolicy_PersistEntity false None p
      (mkServicePolicy (sp_PolicyType q) (sp_Semantic q) [] [] []) tx) in Hrun.
    assert ((sp_IdentityRoles q = [] ∧ sp_ServiceRoles q = [] ∧ sp_PostureCheckRoles q = [] ∧
        tx' = mkTX (del_sp p (tx_db tx)) (tx_effects tx)) ∨
      ∃ tx1, clear = Ok tx1 ∧ tx' = mkTX (del_sp p (tx_db tx1)) (tx_effects tx1)) as [Hnil|(tx1 & Hcl & ->)].
    { destruct (sp_IdentityRoles q), (sp_ServiceRoles q), (sp_PostureCheckRoles q);
        [left; simpl in Hrun; by injection Hrun as <-|..];
        right; destruct clear as [tx1|]; try done; simpl in Hrun; injection Hrun as <-; by exists tx1. }
    - destruct Hnil as (N1 & N2 & N3 & ->). exists tx, q. split_and!; try done. by intros [] _; simpl.
    - unfold clear in Hcl. pose proof Hcl as Hst. eapply servicePolicy_persist_stored in Hst; [|done..].
      apply servicePolicy_persist_ok in Hcl as [Hok1 T1]; [|done|rewrite Hq; auto]. eexists tx1, _.
      split_and!; [done|done|exact Hst| |done]. by intros [] _. }
  split_and!; [by eapply del_sp_ok| |simpl; apply lookup_delete_eq].
  etrans; [exact T1|]. by apply (told_db tx1).
Qed.

(** ** The other two kinds of policies *)

(** Edge router policies and service edge router policies have one table and two
    kinds of links each. *)
Section Family.
Context {P : Type} (get : DB → gmap string P) (put : gmap string P → DB → DB).
Context (K : list LinkKind) (D : Denorm) (semOf : P → string) (roles : LinkKind → P → list string).
Hypothesis get_put : ∀ m d, get (put m d) = m.
Hypothesis put_rest : ∀ m d, d_attributes (put m d) = d_attributes d ∧ d_links (put m d) = d_links d ∧
  d_counts (put m d) = d_counts d.
Hypothesis get_same : ∀ d d', same_data d d' → get d' = get d.
Hypothesis roles_in : ∀ d k p, k ∈ K → rolesOf d k p = (λ q, (semOf q, roles k q)) <$> get d !! p.
Hypothesis roles_out : ∀ d m k p, k ∉ K → rolesOf (put m d) k p = rolesOf d k p.
Hypothesis owners_in : ∀ d, owners d D = dom (get d).
Hypothesis owners_out : ∀ d m D', D' ≠ D → owners (put m d) D' = owners d D'.
Hypothesis table_in : pairLeft D ∈ K.
Hypothesis table_out : ∀ D' k, counted D' → k ∈ K → k = pairLeft D' ∨ k = pairRight D' → D' = D.

Lemma family_put d p m' :
  links_exact d → counts_exact (owners d) d →
  (∀ p', p' ≠ p → m' !! p' = get d !! p') → (is_Some (get d !! p) ↔ is_Some (m' !! p)) ∨ (∀ e, ¬ linked d (pairLeft D) p e) →
  counts_exact (owners (put m' d)) (put m' d).
Proof.
  intros Hl Hc Hm Hp. destruct (put_rest m' d) as (Ha & Hli & Hco).
  assert (counts_exact (owners (put m' d)) d) as Hc'.
  { revert Hc. apply (counts_owners _ _ _ p).
    - intros D' q HD Hq. destruct (decide (D' = D)) as [->|Hne]; [|by rewrite owners_out].
      rewrite !owners_in, get_put, !elem_of_dom. by rewrite Hm.
    - intros D' e HD Hlk. destruct (decide (D' = D)) as [->|Hne]; [|by rewrite owners_out].
      rewrite !owners_in, get_put, !elem_of_dom. destruct Hp as [Hp|Hp]; [done|by apply Hp in Hlk]. }
  intros D' a b HD. rewrite Hco, (Hc' D' a b HD). do 2 f_equal. symmetry. by apply shared_links.
Qed.

Lemma family_selected d m' k p e : (k ∉ K ∨ m' !! p = get d !! p) → selected (put m' d) k p e ↔ selected d k p e.
Proof.
  intros Hk. unfold selected. destruct (put_rest m' d) as (-> & _).
  destruct (decide (k ∈ K)) as [HK|HK]; [|by rewrite roles_out].
  rewrite !roles_in, get_put by done. destruct Hk as [Hk|Hk]; [done|by rewrite Hk].
Qed.

Lemma family_nolink d p k e : links_exact d → k ∈ K → linked d k p e →
  ∃ q, get d !! p = Some q ∧ roles k q ≠ [].
Proof.
  intros Hl Hk Hlk. apply Hl in Hlk. unfold selected in Hlk. rewrite roles_in in Hlk by done.
  destruct (get d !! p) as [q|]; [|done]. exists q. split; [done|]. intros Hr. simpl in Hlk. rewrite Hr in Hlk.
  destruct (d_attributes d (linkedEntity k) !! e); [|done]. by rewrite selects_nil in Hlk.
Qed.

(** One policy is stored and one kind of its links evaluated, or the roles for
    that kind are as before. *)
Lemma family_stage (ctx : roleAttributeChangeContext) (same : bool) d p q es tx' :
  store_ok d → ctx_ok ctx → cx_link ctx ∈ K → cx_denorm ctx = D →
  (∀ k, k ∈ K → k ≠ cx_link ctx ∨ same = true →
     match get d !! p with
     | Some q0 => semOf q = semOf q0 ∧ roles k q = roles k q0
     | None => roles k q = []
     end) →
  (if same then Ok (mkTX (put (<[p := q]> (get d)) d) es)
   else EvaluatePolicy ctx p (semOf q) (roles (cx_link ctx) q) (mkTX (put (<[p := q]> (get d)) d) es)) = Ok tx' →
  store_ok (tx_db tx') ∧ told (mkTX d es) tx' ∧ get (tx_db tx') = <[p := q]> (get d).
Proof.
  intros [Hl Hc] Hok Hk HD Hroles Hrun. set (d1 := put (<[p := q]> (get d)) d) in *.
  destruct (put_rest (<[p := q]> (get d)) d) as (Ha & Hli & Hco). fold d1 in Ha, Hli, Hco.
  assert (counts_exact (owners d1) d1) as Hc1.
  { apply (family_put d p); [done|done|intros; by rewrite lookup_insert_ne|].
    rewrite lookup_insert_eq. destruct (get d !! p) as [q0|] eqn:Hq; [left; naive_solver|right].
    intros e Hlk. apply family_nolink in Hlk as (? & ? & _); [|done|done]. congruence. }
  assert (unevaluated d1 (if same then [] else [cx_link ctx]) (mkTX d1 es) p) as Hun.
  { intros k p' e. assert (linked (tx_db (mkTX d1 es)) k p' e ↔ linked d k p' e) as Hlk
      by (unfold linked; simpl; by rewrite Hli).
    case_decide as Hx; rewrite Hlk; [rewrite Ha; by apply linked_entity|]. rewrite (Hl k p' e).
    destruct (decide (k ∈ K ∧ p' = p)) as [[HkK ->]|Hne].
    2: { symmetry. apply family_selected. destruct (decide (k ∈ K)); [right|by left].
         apply lookup_insert_ne. naive_solver. }
    specialize (Hroles k HkK). unfold selected. rewrite Ha, !roles_in by done. unfold d1. rewrite get_put, lookup_insert_eq.
    simpl. assert (k ≠ cx_link ctx ∨ same = true) as Hs.
    { destruct same; [by right|left]. intros ->. apply Hx. split; [done|left]. }
    specialize (Hroles Hs). destruct (get d !! p) as [q0|]; simpl; [by destruct Hroles as [-> ->]|].
    rewrite Hroles. destruct (d_attributes d (linkedEntity k) !! e); [|done]. by rewrite selects_nil. }
  assert (told (mkTX d es) (mkTX d1 es)) as T0 by (by apply (told_db (mkTX d es))).
  destruct same.
  - injection Hrun as <-. split_and!; [|done|apply get_put]. by eapply store_ok_done.
  - eapply (evaluate_step (owners d1) ctx p (semOf q) (roles (cx_link ctx) q) d1 []) in Hrun
      as [(S1 & D1 & C1) U1]; [|done|..|done|done|done].
    + destruct (S1 Hc1) as (_ & _ & T1). split_and!; [by eapply store_ok_done|by etrans|].
      rewrite (get_same d1) by done. apply get_put.
    + intros D' HD' Hlk. assert (D' = D) as -> by (by eapply table_out).
      rewrite owners_in. unfold d1. rewrite get_put, elem_of_dom, lookup_insert_eq. naive_solver.
    + rewrite roles_in by done. unfold d1. by rewrite get_put, lookup_insert_eq.
Qed.

Lemma family_delete d p q :
  store_ok d → get d !! p = Some q → (∀ k, k ∈ K → roles k q = []) → store_ok (put (delete p (get d)) d).
Proof.
  intros [Hl Hc] Hq Hr. destruct (put_rest (delete p (get d)) d) as (Ha & Hli & Hco).
  assert (∀ k e, k ∈ K → ¬ linked d k p e) as Hno.
  { intros k e Hk Hlk. apply family_nolink in Hlk as (q' & Hq' & Hne); [|done|done]. simplify_eq. by apply Hne, Hr. }
  split.
  - intros k p' e. assert (linked (put (delete p (get d)) d) k p' e ↔ linked d k p' e) as -> by (unfold linked; by rewrite Hli).
    destruct (decide (k ∈ K ∧ p' = p)) as [[Hk ->]|Hne].
    + split; [intros Hlk; by apply Hno in Hlk|]. unfold selected. rewrite roles_in, get_put, lookup_delete_eq by done. done.
    + rewrite (Hl k p' e). symmetry. apply family_selected. destruct (decide (k ∈ K)); [right|by left].
      apply lookup_delete_ne. naive_solver.
  - apply (family_put d p); [done|done|intros; by rewrite lookup_delete_ne|]. right. intros e. by apply Hno.
Qed.
End Family.

Definition erpRoles (k : LinkKind) (q : EdgeRouterPolicy) : list string :=
  match k with ErpIdentities => erp_IdentityRoles q | _ => erp_EdgeRouterRoles q end.

Lemma erp_stage (ctx : roleAttributeChangeContext) (same : bool) d p q es tx' :
  store_ok d → ctx_ok ctx → cx_link ctx ∈ [ErpIdentities; ErpEdgeRouters] → cx_denorm ctx = IdentityRouters →
  (∀ k, k ∈ [ErpIdentities; ErpEdgeRouters] → k ≠ cx_link ctx ∨ same = true →
     match d_edgeRouterPolicies d !! p with
     | Some q0 => erp_Semantic q = erp_Semantic q0 ∧ erpRoles k q = erpRoles k q0
     | None => erpRoles k q = []
     end) →
  (if same then Ok (mkTX (set_edgeRouterPolicies (<[p := q]> (d_edgeRouterPolicies d)) d) es)
   else EvaluatePolicy ctx p (erp_Semantic q) (erpRoles (cx_link ctx) q)
          (mkTX (set_edgeRouterPolicies (<[p := q]> (d_edgeRouterPolicies d)) d) es)) = Ok tx' →
  store_ok (tx_db tx') ∧ told (mkTX d es) tx' ∧ d_edgeRouterPolicies (tx_db tx') = <[p := q]> (d_edgeRouterPolicies d).
Proof.
  apply family_stage with (put := set_edgeRouterPolicies); try done.
  - by intros d0 d' (_ & _ & ? & _).
  - intros d0 k p0 Hk. rewrite !elem_of_cons, elem_of_nil in Hk. by destruct Hk as [->|[->|[]]].
  - intros d0 m k p0 Hk. destruct k; try done; set_solver.
  - by intros d0 m [].
  - left.
  - intros D' k HD Hk Hp. rewrite !elem_of_cons, elem_of_nil in Hk.
    destruct Hk as [->|[->|[]]], D'; naive_solver.
Qed.

Lemma erp_delete d p q :
  store_ok d → d_edgeRouterPolicies d !! p = Some q → erp_IdentityRoles q = [] → erp_EdgeRouterRoles q = [] →
  store_ok (set_edgeRouterPolicies (delete p (d_edgeRouterPolicies d)) d).
Proof.
  intros Hok Hq H1 H2. apply (family_delete d_edgeRouterPolicies set_edgeRouterPolicies [ErpIdentities; ErpEdgeRouters] IdentityRouters erp_Semantic erpRoles) with (q := q); try done.
  - intros d0 k p0 Hk. rewrite !elem_of_cons, elem_of_nil in Hk. by destruct Hk as [->|[->|[]]].
  - intros d0 m k p0 Hk. destruct k; try done; set_solver.
  - by intros d0 m [].
  - left.
  - by intros [] _.
Qed.


Definition serpRoles (k : LinkKind) (q : ServiceEdgeRouterPolicy) : list string :=
  match k with SerpServices => serp_ServiceRoles q | _ => serp_EdgeRouterRoles q end.

Lemma serp_stage (ctx : roleAttributeChangeContext) (same : bool) d p q es tx' :
  store_ok d → ctx_ok ctx → cx_link ctx ∈ [SerpServices; SerpEdgeRouters] → cx_denorm ctx = ServiceRouters →
  (∀ k, k ∈ [SerpServices; SerpEdgeRouters] → k ≠ cx_link ctx ∨ same = true →
     match d_serviceEdgeRouterPolicies d !! p with
     | Some q0 => serp_Semantic q = serp_Semantic q0 ∧ serpRoles k q = serpRoles k q0
     | None => serpRoles k q = []
     end) →
  (if same then Ok (mkTX (set_serviceEdgeRouterPolicies (<[p := q]> (d_serviceEdgeRouterPolicies d)) d) es)
   else EvaluatePolicy ctx p (serp_Semantic q) (serpRoles (cx_link ctx) q)
          (mkTX (set_serviceEdgeRouterPolicies (<[p := q]> (d_serviceEdgeRouterPolicies d)) d) es)) = Ok tx' →
  store_ok (tx_db tx') ∧ told (mkTX d es) tx' ∧ d_serviceEdgeRouterPolicies (tx_db tx') = <[p := q]> (d_serviceEdgeRouterPolicies d).
Proof.
  apply family_stage with (put := set_serviceEdgeRouterPolicies); try done.
  - by intros d0 d' (_ & _ & _ & ?).
  - intros d0 k p0 Hk. rewrite !elem_of_cons, elem_of_nil in Hk. by destruct Hk as [->|[->|[]]].
  - intros d0 m k p0 Hk. destruct k; try done; set_solver.
  - by intros d0 m [].
  - left.
  - intros D' k HD Hk Hp. rewrite !elem_of_cons, elem_of_nil in Hk.
    destruct Hk as [->|[->|[]]], D'; naive_solver.
Qed.

Lemma serp_delete d p q :
  store_ok d → d_serviceEdgeRouterPolicies d !! p = Some q → serp_ServiceRoles q = [] → serp_EdgeRouterRoles q = [] →
  store_ok (set_serviceEdgeRouterPolicies (delete p (d_serviceEdgeRouterPolicies d)) d).
Proof.
  intros Hok Hq H1 H2. apply (family_delete d_serviceEdgeRouterPolicies set_serviceEdgeRouterPolicies [SerpServices; SerpEdgeRouters] ServiceRouters serp_Semantic serpRoles) with (q := q); try done.
  - intros d0 k p0 Hk. rewrite !elem_of_cons, elem_of_nil in Hk. by destruct Hk as [->|[->|[]]].
  - intros d0 m k p0 Hk. destruct k; try done; set_solver.
  - by intros d0 m [].
  - left.
  - by intros [] _.
Qed.

Lemma edgeRouterPolicy_persist_ok checker p entity tx tx' :
  store_ok (tx_db tx) →
  (∀ q, d_edgeRouterPolicies (tx_db tx) !! p = Some q → ProceedWithSet checker FieldSemantic = true →
     erp_Semantic entity = erp_Semantic q) →
  edgeRouterPolicy_PersistEntity checker p entity tx = Ok tx' →
  store_ok (tx_db tx') ∧ told tx tx' ∧
  (checker = None → d_edgeRouterPolicies (tx_db tx') !! p =
     Some (mkEdgeRouterPolicy (erp_Semantic entity) (sortStrings (erp_IdentityRoles entity)) (sortStrings (erp_EdgeRouterRoles entity)))).
Proof.
  intros Hok Hsem. unfold edgeRouterPolicy_PersistEntity.
  destruct (validateRolesAndIds (erp_IdentityRoles entity)); [simpl|done].
  destruct (validateRolesAndIds (erp_EdgeRouterRoles entity)); [simpl|done].
  destruct (ProceedWithSet checker FieldSemantic && _); [done|].
  set (current := default _ _). set (sem := if ProceedWithSet checker FieldSemantic then _ else _).
  set (roles1 := if ProceedWithSet checker FieldIdentityRoles then _ else _).
  set (roles2 := if ProceedWithSet checker FieldEdgeRouterRoles then _ else _).
  set (tx1 := onDb _ tx). set (q1 := mkEdgeRouterPolicy sem roles1 (erp_EdgeRouterRoles current)) in tx1.
  change tx1 with (mkTX (set_edgeRouterPolicies (<[p := q1]> (d_edgeRouterPolicies (tx_db tx))) (tx_db tx)) (tx_effects tx)).
  destruct (if bool_decide (erp_IdentityRoles current = roles1) then _ else _) as [tx2|] eqn:E1; [simpl|done].
  destruct ctx_ok_rp as (? & ? & ? & ?).
  apply (erp_stage erpIdentityContext _ (tx_db tx) p q1) in E1 as (Hok2 & T1 & Hg); [|done|done|by repeat constructor|done|].
  2: { intros k Hk Hs. unfold current in *. destruct (d_edgeRouterPolicies (tx_db tx) !! p) as [q|] eqn:Hq; simpl in *.
       - split; [unfold sem; destruct (ProceedWithSet checker FieldSemantic); [by apply Hsem|done]|].
         destruct Hs as [Hs|Hs%bool_decide_eq_true]; [|by destruct k; simpl; rewrite <- ?Hs].
         rewrite !elem_of_cons, elem_of_nil in Hk. by destruct Hk as [->|[->|[]]].
       - rewrite !elem_of_cons, elem_of_nil in Hk. destruct Hk as [->|[->|[]]]; [|done].
         destruct Hs as [Hs|Hs%bool_decide_eq_true]; [done|]. simpl. by rewrite <- Hs. }
  set (q2 := mkEdgeRouterPolicy sem roles1 roles2). intros E2.
  assert (mkTX (tx_db tx) (tx_effects tx) = tx) as Htx by (by destruct tx). rewrite Htx in T1.
  change (onDb _ tx2) with (mkTX (set_edgeRouterPolicies (<[p := q2]> (d_edgeRouterPolicies (tx_db tx2))) (tx_db tx2)) (tx_effects tx2)) in E2.
  apply (erp_stage erpEdgeRouterContext _ (tx_db tx2) p q2) in E2 as (Hok3 & T2 & Hg2); [|done|done|by repeat constructor|done|].
  2: { intros k Hk Hs. rewrite Hg, lookup_insert_eq. split; [done|].
       rewrite !elem_of_cons, elem_of_nil in Hk. destruct Hk as [->|[->|[]]]; [done|]. simpl.
       destruct Hs as [Hs|Hs%bool_decide_eq_true]; done. }
  split_and!; [done|etrans; [exact T1|]; by destruct tx2|].
  intros Hn. rewrite Hg2, lookup_insert_eq. unfold q2, sem, roles1, roles2. by rewrite Hn.
Qed.

Lemma edgeRouterPolicy_delete_ok p tx tx' :
  store_ok (tx_db tx) → edgeRouterPolicy_DeleteById p tx = Ok tx' →
  store_ok (tx_db tx') ∧ told tx tx' ∧ d_edgeRouterPolicies (tx_db tx') !! p = None.
Proof.
  intros Hok. unfold edgeRouterPolicy_DeleteById. destruct (d_edgeRouterPolicies (tx_db tx) !! p) as [q|] eqn:Hq; [|done].
  destruct (edgeRouterPolicy_PersistEntity _ _ _ _) as [tx1|] eqn:E; [simpl|done]. intros [= <-].
  apply edgeRouterPolicy_persist_ok in E as (Hok1 & T1 & Hs); [|done|intros q' Hq' _; simpl; congruence].
  split_and!; [eapply erp_delete; [done|by apply Hs|done|done]| |simpl; apply lookup_delete_eq].
  etrans; [exact T1|]. by apply (told_db tx1).
Qed.


Lemma serviceEdgeRouterPolicy_persist_ok checker p entity tx tx' :
  store_ok (tx_db tx) →
  (∀ q, d_serviceEdgeRouterPolicies (tx_db tx) !! p = Some q → ProceedWithSet checker FieldSemantic = true →
     serp_Semantic entity = serp_Semantic q) →
  serviceEdgeRouterPolicy_PersistEntity checker p entity tx = Ok tx' →
  store_ok (tx_db tx') ∧ told tx tx' ∧
  (checker = None → d_serviceEdgeRouterPolicies (tx_db tx') !! p =
     Some (mkServiceEdgeRouterPolicy (serp_Semantic entity) (sortStrings (serp_ServiceRoles entity)) (sortStrings (serp_EdgeRouterRoles entity)))).
Proof.
  intros Hok Hsem. unfold serviceEdgeRouterPolicy_PersistEntity.
  destruct (validateRolesAndIds (serp_ServiceRoles entity)); [simpl|done].
  destruct (validateRolesAndIds (serp_EdgeRouterRoles entity)); [simpl|done].
  destruct (ProceedWithSet checker FieldSemantic && _); [done|].
  set (current := default _ _). set (sem := if ProceedWithSet checker FieldSemantic then _ else _).
  set (roles1 := if ProceedWithSet checker FieldServiceRoles then _ else _).
  set (roles2 := if ProceedWithSet checker FieldEdgeRouterRoles then _ else _).
  set (tx1 := onDb _ tx). set (q1 := mkServiceEdgeRouterPolicy sem roles1 (serp_EdgeRouterRoles current)) in tx1.
  change tx1 with (mkTX (set_serviceEdgeRouterPolicies (<[p := q1]> (d_serviceEdgeRouterPolicies (tx_db tx))) (tx_db tx)) (tx_effects tx)).
  destruct (if bool_decide (serp_ServiceRoles current = roles1) then _ else _) as [tx2|] eqn:E1; [simpl|done].
  destruct ctx_ok_rp as (? & ? & ? & ?).
  apply (serp_stage serpServiceContext _ (tx_db tx) p q1) in E1 as (Hok2 & T1 & Hg); [|done|done|by repeat constructor|done|].
  2: { intros k Hk Hs. unfold current in *. destruct (d_serviceEdgeRouterPolicies (tx_db tx) !! p) as [q|] eqn:Hq; simpl in *.
       - split; [unfold sem; destruct (ProceedWithSet checker FieldSemantic); [by apply Hsem|done]|].
         destruct Hs as [Hs|Hs%bool_decide_eq_true]; [|by destruct k; simpl; rewrite <- ?Hs].
         rewrite !elem_of_cons, elem_of_nil in Hk. by destruct Hk as [->|[->|[]]].
       - rewrite !elem_of_cons, elem_of_nil in Hk. destruct Hk as [->|[->|[]]]; [|done].
         destruct Hs as [Hs|Hs%bool_decide_eq_true]; [done|]. simpl. by rewrite <- Hs. }
  set (q2 := mkServiceEdgeRouterPolicy sem roles1 roles2). intros E2.
  assert (mkTX (tx_db tx) (tx_effects tx) = tx) as Htx by (by destruct tx). rewrite Htx in T1.
  change (onDb _ tx2) with (mkTX (set_serviceEdgeRouterPolicies (<[p := q2]> (d_serviceEdgeRouterPolicies (tx_db tx2))) (tx_db tx2)) (tx_effects tx2)) in E2.
  apply (serp_stage serpEdgeRouterContext _ (tx_db tx2) p q2) in E2 as (Hok3 & T2 & Hg2); [|done|done|by repeat constructor|done|].
  2: { intros k Hk Hs. rewrite Hg, lookup_insert_eq. split; [done|].
       rewrite !elem_of_cons, elem_of_nil in Hk. destruct Hk as [->|[->|[]]]; [done|]. simpl.
       destruct Hs as [Hs|Hs%bool_decide_eq_true]; done. }
  split_and!; [done|etrans; [exact T1|]; by destruct tx2|].
  intros Hn. rewrite Hg2, lookup_insert_eq. unfold q2, sem, roles1, roles2. by rewrite Hn.
Qed.

Lemma serviceEdgeRouterPolicy_delete_ok p tx tx' :
  store_ok (tx_db tx) → serviceEdgeRouterPolicy_DeleteById p tx = Ok tx' →
  store_ok (tx_db tx') ∧ told tx tx' ∧ d_serviceEdgeRouterPolicies (tx_db tx') !! p = None.
Proof.
  intros Hok. unfold serviceEdgeRouterPolicy_DeleteById. destruct (d_serviceEdgeRouterPolicies (tx_db tx) !! p) as [q|] eqn:Hq; [|done].
  destruct (serviceEdgeRouterPolicy_PersistEntity _ _ _ _) as [tx1|] eqn:E; [simpl|done]. intros [= <-].
  apply serviceEdgeRouterPolicy_persist_ok in E as (Hok1 & T1 & Hs); [|done|intros q' Hq' _; simpl; congruence].
  split_and!; [eapply serp_delete; [done|by apply Hs|done|done]| |simpl; apply lookup_delete_eq].
  etrans; [exact T1|]. by apply (told_db tx1).
Qed.
End Links.
