(* ===== verification/PolicyStore.v ===== *)
(** * Transactions on the policy stores

    The operations of the controller on its policy stores as transactions, one
    after the other, and what holds after any sequence of them: the link tables
    and the access counts are exact, and what a transaction reports is what it
    changed. The last part instantiates the link tables with finite maps. *)

From stdpp Require Import base gmap list strings fin_maps fin_sets functions.
From Stdlib Require Import ZArith Lia.
From S2P Require Import Prelude EventCache DataModel Policies PolicyLinks.

Open Scope Z_scope.

Section Transactions.
Context {L C : Type} {LC : LinkCollection L} {LCL : LinkCollectionLaws L}.
Context {RC : RefCountedLinkCollection C} {RCL : RefCountedLaws C}.
Local Abbreviation DB := (DB (L:=L) (C:=C)).
Local Abbreviation TX := (TX (L:=L) (C:=C)).
Implicit Types (d : DB) (tx : TX).

(** ** Runs of the store *)

Inductive StoreOp :=
| CreateServicePolicy (p : string) (entity : ServicePolicy)
| UpdateServicePolicy (checker : FieldChecker) (p : string) (entity : ServicePolicy)
| DeleteServicePolicy (p : string)
| PutEdgeRouterPolicy (checker : FieldChecker) (p : string) (entity : EdgeRouterPolicy)
| DeleteEdgeRouterPolicy (p : string)
| PutServiceEdgeRouterPolicy (checker : FieldChecker) (p : string) (entity : ServiceEdgeRouterPolicy)
| DeleteServiceEdgeRouterPolicy (p : string)
| SetRoleAttributes (kind : EntityKind) (id : string) (attributes : list string).

(** One transaction; creating an existing policy and updating a missing one are
    errors of the base store. *)
Definition transact (op : StoreOp) d : result TX PersistError :=
  let tx := mkTX d [] in
  match op with
  | CreateServicePolicy p entity =>
    match d_servicePolicies d !! p with
    | None => servicePolicy_PersistEntity true None p entity tx
    | Some _ => Err (NotFound p)
    end
  | UpdateServicePolicy checker p entity =>
    match d_servicePolicies d !! p with
    | Some _ => servicePolicy_PersistEntity false checker p entity tx
    | None => Err (NotFound p)
    end
  | DeleteServicePolicy p => servicePolicy_DeleteById p tx
  | PutEdgeRouterPolicy checker p entity => edgeRouterPolicy_PersistEntity checker p entity tx
  | DeleteEdgeRouterPolicy p => edgeRouterPolicy_DeleteById p tx
  | PutServiceEdgeRouterPolicy checker p entity => serviceEdgeRouterPolicy_PersistEntity checker p entity tx
  | DeleteServiceEdgeRouterPolicy p => serviceEdgeRouterPolicy_DeleteById p tx
  | SetRoleAttributes kind id attributes => persistRoleAttributes kind id attributes tx
  end.

(** A failed transaction is rolled back. *)
Definition commit (op : StoreOp) d : DB * list Effect :=
  match transact op d with
  | Ok tx => (tx_db tx, tx_effects tx)
  | Err _ => (d, [])
  end.

(** An update that keeps the semantic of the policy, or changes its type. *)
Definition keeps_semantic (op : StoreOp) d : Prop :=
  match op with
  | UpdateServicePolicy checker p entity =>
    ∀ q, d_servicePolicies d !! p = Some q → ProceedWithSet checker FieldSemantic = true →
      sp_Semantic entity = sp_Semantic q ∨
      ProceedWithSet checker FieldType = true ∧ sp_PolicyType entity ≠ sp_PolicyType q
  | PutEdgeRouterPolicy checker p entity =>
    ∀ q, d_edgeRouterPolicies d !! p = Some q → ProceedWithSet checker FieldSemantic = true →
      erp_Semantic entity = erp_Semantic q
  | PutServiceEdgeRouterPolicy checker p entity =>
    ∀ q, d_serviceEdgeRouterPolicies d !! p = Some q → ProceedWithSet checker FieldSemantic = true →
      serp_Semantic entity = serp_Semantic q
  | _ => True
  end.
Fixpoint keeps_semantics (ops : list StoreOp) d : Prop :=
  match ops with
  | [] => True
  | op :: ops => keeps_semantic op d ∧ keeps_semantics ops (commit op d).1
  end.

Lemma transact_ok op d tx :
  store_ok d → keeps_semantic op d → transact op d = Ok tx → store_ok (tx_db tx) ∧ told (mkTX d []) tx.
Proof.
  intros Hok Hk. destruct op as [p en|ck p en|p|ck p en|p|ck p en|p|kind id at_]; simpl in *.
  - destruct (d_servicePolicies d !! p) eqn:Hq; [done|]. intros Hr.
    by apply servicePolicy_persist_ok in Hr; [|done|simpl; rewrite Hq].
  - destruct (d_servicePolicies d !! p) eqn:Hq; [|done]. intros Hr.
    apply servicePolicy_persist_ok in Hr; [done|done|]. simpl. rewrite Hq. split; [done|]. by apply Hk.
  - intros (? & ? & _)%servicePolicy_delete_ok; done.
  - intros (? & ? & _)%edgeRouterPolicy_persist_ok; done.
  - intros (? & ? & _)%edgeRouterPolicy_delete_ok; done.
  - intros (? & ? & _)%serviceEdgeRouterPolicy_persist_ok; done.
  - intros (? & ? & _)%serviceEdgeRouterPolicy_delete_ok; done.
  - by apply attributes_ok.
Qed.

Lemma commit_ok op d : store_ok d → keeps_semantic op d → store_ok (commit op d).1.
Proof.
  intros Hok Hk. unfold commit. destruct (transact op d) eqn:E; [|done]. simpl. by eapply transact_ok.
Qed.

Lemma runs_ok ops d : store_ok d → keeps_semantics ops d → store_ok (foldl (λ d op, (commit op d).1) d ops).
Proof.
  revert d. induction ops as [|op ops IH]; intros d Hok; simpl; [done|]. intros [Hk Hks].
  apply IH; [by apply commit_ok|done].
Qed.

(** The empty store. *)
Definition empty_store d : Prop :=
  (∀ kind, d_attributes d kind = ∅) ∧ d_servicePolicies d = ∅ ∧ d_edgeRouterPolicies d = ∅ ∧
  d_serviceEdgeRouterPolicies d = ∅ ∧ (∀ k p, IterateLinks (d_links d k) p = []) ∧
  (∀ D a b, count d D a b = 0).

Lemma empty_store_ok d : empty_store d → store_ok d.
Proof.
  intros (Ha & Hs & He & Hse & Hl & Hc). split.
  - intros k p e. unfold linked, selected. rewrite Hl, Ha, lookup_empty.
    split; [by intros ?%elem_of_nil|]. by destruct (rolesOf d k p) as [[]|].
  - intros D a b HD. change (GetLinkCount (d_counts d D) a b) with (count d D a b). rewrite Hc.
    replace (shared d (owners d D) D a b) with (∅ : gset string); [by rewrite size_empty|].
    apply set_eq. intros q. unfold shared, linked. rewrite elem_of_filter, !Hl. set_solver.
Qed.

#[global] Instance selected_dec d k p e : Decision (selected d k p e).
Proof.
  unfold selected. destruct (rolesOf d k p) as [[]|], (d_attributes d (linkedEntity k) !! e); apply _.
Defined.

(** C23. After any sequence of transactions (policies created, updated and deleted,
    entities created and given role attributes) that change no policy's semantic,
    the links of every policy are exactly the entities its roles select by id, by
    "#all" or by their attributes under the policy's semantic, and the count kept
    for a pair of entities (identity and service by dial or bind policies,
    identity and router, service and router) is exactly the number of policies
    that select both. *)
Theorem policy_store_exact ops d0 :
  empty_store d0 → keeps_semantics ops d0 →
  let d := foldl (λ d op, (commit op d).1) d0 ops in
  (∀ k p e, linked d k p e ↔ selected d k p e) ∧
  (∀ D a b, counted D → GetLinkCount (d_counts d D) a b =
     Z.of_nat (size (filter (λ p, selected d (pairLeft D) p a ∧ selected d (pairRight D) p b) (owners d D)))).
Proof.
  intros H0 Hk d. destruct (runs_ok ops d0 (empty_store_ok d0 H0) Hk) as [Hl Hc]. split; [exact Hl|].
  intros D a b HD. etrans; [exact (Hc D a b HD)|]. do 2 f_equal. apply set_eq. intros p. unfold shared.
  by rewrite !elem_of_filter, (Hl _ p a), (Hl _ p b).
Qed.


(** Changing the type of a service policy loses its posture checks: whatever
    posture check roles the policy had and the update asks for, afterwards it has
    none and no posture check is linked to it. *)
Theorem type_change_drops_posture_checks checker p entity q d tx' :
  store_ok d → d_servicePolicies d !! p = Some q →
  ProceedWithSet checker FieldType = true → sp_PolicyType entity ≠ sp_PolicyType q →
  transact (UpdateServicePolicy checker p entity) d = Ok tx' →
  (∀ c, ¬ linked (tx_db tx') SpPostureChecks p c) ∧
  sp_PostureCheckRoles <$> d_servicePolicies (tx_db tx') !! p = Some [].
Proof.
  intros Hok Hq Hset Hne. simpl. rewrite Hq. unfold servicePolicy_PersistEntity.
  assert (stored p (mkTX d []) = q) as -> by (unfold stored; simpl; by rewrite Hq). rewrite Hset. simpl.
  destruct (bool_decide (_ = InvalidPolicy)); [done|].
  destruct (validateRolesAndIds (sp_IdentityRoles entity)); [simpl|done].
  destruct (validateRolesAndIds (sp_ServiceRoles entity)); [simpl|done].
  destruct (validateRolesAndIds (sp_PostureCheckRoles entity)); [simpl|done].
  destruct (ProceedWithSet checker FieldSemantic && _); [done|]. rewrite bool_decide_false by done. simpl.
  intros Hrun. apply changePolicyType_ok in Hrun as (Hok' & _ & q' & Hq' & Hr); [|done..].
  rewrite Hq'. simpl. rewrite Hr. split; [|done]. intros c Hc. apply (so_links _ Hok') in Hc.
  unfold selected in Hc. simpl in Hc. rewrite Hq' in Hc. simpl in Hc. rewrite Hr in Hc.
  destruct (d_attributes (tx_db tx') PostureChecks !! c); [|done]. by rewrite selects_nil in Hc.
Qed.

(** Updating only the semantic of a policy stores it and evaluates nothing: the
    policy keeps the entities that its old semantic selected. *)
Theorem semantic_update_keeps_links p entity q d :
  d_servicePolicies d !! p = Some q → isSemanticValid (sp_Semantic entity) = true →
  validateRolesAndIds (sp_IdentityRoles entity) = Ok () → validateRolesAndIds (sp_ServiceRoles entity) = Ok () →
  validateRolesAndIds (sp_PostureCheckRoles entity) = Ok () →
  let d' := (commit (UpdateServicePolicy (Some [FieldSemantic]) p entity) d).1 in
  d_links d' = d_links d ∧ sp_Semantic <$> d_servicePolicies d' !! p = Some (sp_Semantic entity).
Proof.
  intros Hq Hsem H1 H2 H3. unfold commit, transact. rewrite Hq. unfold servicePolicy_PersistEntity.
  assert (stored p (mkTX d []) = q) as -> by (unfold stored; simpl; by rewrite Hq). simpl.
  rewrite H1, H2, H3. simpl. rewrite Hsem. simpl. rewrite bool_decide_true by done. simpl.
  unfold updateRoles, stored. simpl. rewrite lookup_insert_eq. simpl. rewrite lookup_insert_eq. done.
Qed.
End Transactions.

(** ** The link tables as finite maps *)

Abbreviation LinkMap := (gmap string (gset string)).
Definition linksOf (l : LinkMap) (p : string) : gset string := default ∅ (l !! p).
#[export] Instance LinkMap_collection : LinkCollection LinkMap := {
  IterateLinks l p := elements (linksOf l p);
  AddLink p e l := (<[p := {[e]} ∪ linksOf l p]> l, bool_decide (e ∉ linksOf l p));
  RemoveLink p e l := (<[p := linksOf l p ∖ {[e]}]> l, bool_decide (e ∈ linksOf l p));
}.

Lemma linksOf_insert l p q s : linksOf (<[p := s]> l) q = if decide (p = q) then s else linksOf l q.
Proof. unfold linksOf. destruct (decide (p = q)) as [->|]; [by rewrite lookup_insert_eq|by rewrite lookup_insert_ne]. Qed.

#[export] Instance LinkMap_laws : LinkCollectionLaws LinkMap.
Proof.
  split; simpl; intros.
  - apply NoDup_elements.
  - apply bool_decide_ext. by rewrite elem_of_elements.
  - rewrite !elem_of_elements, linksOf_insert. case_decide; set_solver.
  - apply bool_decide_ext. by rewrite elem_of_elements.
  - rewrite !elem_of_elements, linksOf_insert. case_decide; set_solver.
Qed.

(** A count that falls to zero is removed. *)
Abbreviation CountMap := (gmap (string * string) Z).
Definition countOf (c : CountMap) (ab : string * string) : Z := default 0 (c !! ab).
#[export] Instance CountMap_collection : RefCountedLinkCollection CountMap := {
  GetLinkCount c a b := countOf c (a, b);
  IncrementLinkCount a b c := (<[(a, b) := countOf c (a, b) + 1]> c, countOf c (a, b) + 1);
  DecrementLinkCount a b c :=
    (if countOf c (a, b) - 1 =? 0 then delete (a, b) c else <[(a, b) := countOf c (a, b) - 1]> c,
     countOf c (a, b) - 1);
  IterateCounted c b := (filter (λ ab, ab.2 = b) (map_to_list c).*1).*1;
}.

#[export] Instance CountMap_laws : RefCountedLaws CountMap.
Proof.
  split; simpl; try done.
  - intros a b c x y. unfold countOf. destruct (decide ((x, y) = (a, b))) as [[= -> ->]|Hne].
    + rewrite lookup_insert_eq, bool_decide_true by done. done.
    + rewrite lookup_insert_ne by congruence. rewrite bool_decide_false by naive_solver. lia.
  - intros a b c x y Hpos. unfold countOf in *. destruct (decide ((x, y) = (a, b))) as [[= -> ->]|Hne].
    + rewrite bool_decide_true by done. destruct (Z.eqb_spec (default 0 (c !! (a, b)) - 1) 0) as [E|E].
      * rewrite lookup_delete_eq. simpl. lia.
      * by rewrite lookup_insert_eq.
    + rewrite bool_decide_false by naive_solver.
      case_match; [rewrite lookup_delete_ne by congruence|rewrite lookup_insert_ne by congruence]; lia.
Qed.

(** ** A run *)

Definition store0 : DB (L:=LinkMap) (C:=CountMap) := mkDB (λ _, ∅) ∅ ∅ ∅ (λ _, ∅) (λ _, ∅).
Lemma store0_empty : empty_store store0.
Proof. by split_and!. Qed.

Definition setup : list StoreOp :=
  [SetRoleAttributes Identities "i1" ["sales"]; SetRoleAttributes Identities "i2" ["sales"; "eu"];
   SetRoleAttributes Services "s1" ["crm"]; SetRoleAttributes PostureChecks "c1" ["os"];
   SetRoleAttributes EdgeRouters "r1" [];
   CreateServicePolicy "p1" (mkServicePolicy DialPolicy "AllOf" ["#sales"; "#eu"] ["#all"] ["#os"]);
   CreateServicePolicy "p2" (mkServicePolicy DialPolicy "AnyOf" ["#sales"] ["@s1"] []);
   PutEdgeRouterPolicy None "e1" (mkEdgeRouterPolicy "AnyOf" ["#eu"] ["@r1"])]%string.
Definition run (ops : list StoreOp) : DB (L:=LinkMap) (C:=CountMap) := foldl (λ d op, (commit op d).1) store0 ops.

Lemma setup_keeps : keeps_semantics setup store0.
Proof. repeat split; intros q Hq; vm_compute in Hq; discriminate. Qed.
Lemma setup_ok : store_ok (run setup).
Proof. exact (runs_ok _ _ (empty_store_ok _ store0_empty) setup_keeps). Qed.

Lemma policy_store_exact_witness :
  linked (run setup) SpIdentities "p1" "i2" ∧ ¬ linked (run setup) SpIdentities "p1" "i1" ∧
  GetLinkCount (d_counts (run setup) DialAccess) "i2" "s1" = 2 ∧
  GetLinkCount (d_counts (run setup) IdentityRouters) "i1" "r1" = 0.
Proof.
  destruct (policy_store_exact setup store0 store0_empty setup_keeps) as [Hl Hc].
  unfold run. rewrite !Hl, !Hc by done.
  split_and!; [vm_compute; reflexivity|apply (bool_decide_eq_false_1 _); vm_compute; reflexivity|
    vm_compute; reflexivity|vm_compute; reflexivity].
Defined.


(** The update asks for the posture checks that the policy had. *)
Definition toBind : ServicePolicy := mkServicePolicy BindPolicy "AllOf" ["#sales"; "#eu"] ["#all"] ["#os"].
Lemma type_change_drops_posture_checks_witness :
  linked (run setup) SpPostureChecks "p1" "c1" ∧
  ∃ tx', transact (UpdateServicePolicy None "p1" toBind) (run setup) = Ok tx' ∧
    ¬ linked (tx_db tx') SpPostureChecks "p1" "c1".
Proof.
  split; [vm_compute; left|].
  assert (match transact (UpdateServicePolicy None "p1" toBind) (run setup) with Ok _ => true | Err _ => false end = true)
    as Hr by (vm_compute; reflexivity).
  assert (d_servicePolicies (run setup) !! "p1"%string = Some (mkServicePolicy DialPolicy "AllOf" ["#eu"; "#sales"] ["#all"] ["#os"]))
    as Hq by (vm_compute; reflexivity).
  pose proof (λ tx', type_change_drops_posture_checks None "p1" toBind _ (run setup) tx' setup_ok Hq eq_refl
    ltac:(discriminate)) as Ht.
  remember (transact (UpdateServicePolicy None "p1" toBind) (run setup)) as r eqn:E. clear E Hq.
  destruct r as [tx'|]; [|discriminate]. exists tx'. split; [reflexivity|].
  exact (proj1 (Ht tx' eq_refl) "c1"%string).
Defined.

(** Deleting a policy unlinks its services before its posture checks, so that the
    count of a posture check and a service stays. *)
Example deleted_policy_keeps_check_count :
  let d := run (setup ++ [DeleteServicePolicy "p1"]) in
  d_servicePolicies d !! "p1"%string = None ∧ GetLinkCount (d_counts d CheckDial) "c1" "s1" = 1.
Proof. vm_compute. split; reflexivity. Qed.
