(* ===== verification/PolicyIntegrity.v ===== *)
(** * The integrity check of the policy stores (controller/db/policy_common.go, CheckIntegrity of the policy stores)

    [CheckIntegrity] recomputes the access counts from the links of the policies,
    reports every pair whose stored count differs and, if asked to, sets it. The
    check of the base store that follows it belongs to boltz. *)

From stdpp Require Import base gmap list strings fin_maps fin_sets functions.
From Stdlib Require Import ZArith Lia.
From S2P Require Import Prelude EventCache DataModel Policies PolicyLinks PolicyStore.

Open Scope Z_scope.

(** Reading both ends of a count and setting it; boltz keeps the count at either
    entity as an int32, and both are one count here. Setting returns what was there. *)
Class CountRepair (C : Type) := {
  GetLinkCounts : string → string → C → option Z * option Z;
  SetLinkCount : string → string → Z → C → C * (option Z * option Z);
}.
Class CountRepairLaws (C : Type) `{RefCountedLinkCollection C} `{CountRepair C} := {
  GetLinkCounts_count a b (c : C) : default 0 (GetLinkCounts a b c).1 = GetLinkCount c a b;
  GetLinkCounts_both a b (c : C) : (GetLinkCounts a b c).1 = (GetLinkCounts a b c).2;
  SetLinkCount_count a b n (c : C) x y : 0 ≤ n < 2 ^ 31 →
    GetLinkCount (SetLinkCount a b n c).1 x y = if bool_decide (x = a ∧ y = b) then n else GetLinkCount c x y;
  SetLinkCount_old a b n (c : C) : (SetLinkCount a b n c).2 = GetLinkCounts a b c;
}.

Inductive Discrepancy :=
| MismatchedCounts (D : Denorm) (sourceId targetId : string)
| IncorrectCount (D : Denorm) (sourceId targetId : string) (found should : Z).

Section Integrity.
Context {L C : Type} {LC : LinkCollection L} {RC : RefCountedLinkCollection C} {CR : CountRepair C}.
Local Abbreviation DB := (DB (L:=L) (C:=C)).
Implicit Types d : DB.

(** [policyStore] with [policyFilter] is the list of the policies looked at. *)
Record denormCheckCtx := mkCheckCtx {
  ck_source : EntityKind;
  ck_target : EntityKind;
  ck_sourceLinks : LinkKind;
  ck_targetLinks : LinkKind;
  ck_denorm : Denorm;
  ck_policies : DB → list string;
}.

Definition addLinkCount (links : gmap string (gmap string Z)) (sourceId destId : string)
    : gmap string (gmap string Z) :=
  let destMap := default ∅ (links !! sourceId) in
  <[sourceId := <[destId := default 0 (destMap !! destId) + 1]> destMap]> links.
Definition countPolicyLinks (ctx : denormCheckCtx) d (links : gmap string (gmap string Z)) (policyId : string)
    : gmap string (gmap string Z) :=
  foldl (λ links sourceId,
      foldl (λ links destId, addLinkCount links sourceId destId) links
        (IterateLinks (d_links d (ck_targetLinks ctx)) policyId))
    links (IterateLinks (d_links d (ck_sourceLinks ctx)) policyId).
Definition countLinks (ctx : denormCheckCtx) d : gmap string (gmap string Z) :=
  foldl (countPolicyLinks ctx d) ∅ (ck_policies ctx d).

Definition logDiscrepencies (ctx : denormCheckCtx) (count : Z) (sourceId targetId : string)
    (counts : option Z * option Z) : list Discrepancy :=
  let '(sourceLinkCount, targetLinkCount) := counts in
  (if bool_decide (sourceLinkCount = targetLinkCount) then []
   else [MismatchedCounts (ck_denorm ctx) sourceId targetId]) ++
  (if match sourceLinkCount with
      | None => negb (count =? 0)
      | Some n => (n =? 0) && negb (count =? 0) || negb (n =? int32 count)
      end
   then [IncorrectCount (ck_denorm ctx) sourceId targetId (default 0 sourceLinkCount) count] else []).

(** The body of the loops over both stores. *)
Definition checkPair (ctx : denormCheckCtx) (repair : bool) (links : gmap string (gmap string Z))
    (acc : DB * list Discrepancy) (pair : string * string) : DB * list Discrepancy :=
  let '(d, reports) := acc in
  let '(sourceId, targetId) := pair in
  let linkCount := default 0 (default ∅ (links !! sourceId) !! targetId) in
  let c := d_counts d (ck_denorm ctx) in
  if repair then
    let '(c', counts) := SetLinkCount sourceId targetId linkCount c in
    (set_counts (<[ck_denorm ctx := c']> (d_counts d)) d,
     reports ++ logDiscrepencies ctx linkCount sourceId targetId counts)
  else (d, reports ++ logDiscrepencies ctx linkCount sourceId targetId (GetLinkCounts sourceId targetId c)).

Definition entityPairs (ctx : denormCheckCtx) d : list (string * string) :=
  (map_to_list (d_attributes d (ck_source ctx))).*1 ≫= λ s,
    (λ t, (s, t)) <$> (map_to_list (d_attributes d (ck_target ctx))).*1.
Definition validatePolicyDenormalization (ctx : denormCheckCtx) (repair : bool) d : DB * list Discrepancy :=
  foldl (checkPair ctx repair (countLinks ctx d)) (d, []) (entityPairs ctx d).

Definition ofType (t : PolicyType) d : list string :=
  (filter (λ kv, sp_PolicyType kv.2 = t) (map_to_list (d_servicePolicies d))).*1.
Definition bindCheck : denormCheckCtx :=
  mkCheckCtx Identities Services SpIdentities SpServices BindAccess (ofType BindPolicy).
Definition dialCheck : denormCheckCtx :=
  mkCheckCtx Identities Services SpIdentities SpServices DialAccess (ofType DialPolicy).
Definition edgeRouterPolicyCheck : denormCheckCtx :=
  mkCheckCtx Identities EdgeRouters ErpIdentities ErpEdgeRouters IdentityRouters
    (λ d, (map_to_list (d_edgeRouterPolicies d)).*1).
Definition serviceEdgeRouterPolicyCheck : denormCheckCtx :=
  mkCheckCtx Services EdgeRouters SerpServices SerpEdgeRouters ServiceRouters
    (λ d, (map_to_list (d_serviceEdgeRouterPolicies d)).*1).

Definition runChecks (ctxs : list denormCheckCtx) (fix_ : bool) d : DB * list Discrepancy :=
  foldl (λ acc ctx, let '(d, r) := validatePolicyDenormalization ctx fix_ acc.1 in (d, acc.2 ++ r)) (d, []) ctxs.
Definition servicePolicy_CheckIntegrity := runChecks [bindCheck; dialCheck].
Definition edgeRouterPolicy_CheckIntegrity := runChecks [edgeRouterPolicyCheck].
Definition serviceEdgeRouterPolicy_CheckIntegrity := runChecks [serviceEdgeRouterPolicyCheck].
End Integrity.

(** ** Counting the links *)

Section Counting.
Context {L C : Type} {LC : LinkCollection L} {LCL : LinkCollectionLaws L}.
Context {RC : RefCountedLinkCollection C} {CR : CountRepair C} {CRL : CountRepairLaws C}.
Local Abbreviation DB := (DB (L:=L) (C:=C)).
Implicit Types (d : DB) (ctx : denormCheckCtx (L:=L) (C:=C)).

Definition pairCount (links : gmap string (gmap string Z)) (x y : string) : Z :=
  default 0 (default ∅ (links !! x) !! y).

Lemma addLinkCount_spec links s t x y :
  pairCount (addLinkCount links s t) x y = pairCount links x y + (if bool_decide (x = s ∧ y = t) then 1 else 0).
Proof.
  unfold pairCount, addLinkCount. destruct (decide (x = s)) as [->|Hx].
  - rewrite lookup_insert_eq. simpl. destruct (decide (y = t)) as [->|Hy].
    + rewrite lookup_insert_eq, bool_decide_true by done. done.
    + rewrite lookup_insert_ne by done. rewrite bool_decide_false by naive_solver. lia.
  - rewrite lookup_insert_ne by done. rewrite bool_decide_false by naive_solver. lia.
Qed.

(** A fold that adds one for each element of a list without duplicates that has
    a property. *)
Lemma fold_count {A} (f : gmap string (gmap string Z) → A → gmap string (gmap string Z)) (P : A → Prop)
    `{∀ a, Decision (P a)} l links x y :
  (∀ links a, a ∈ l → pairCount (f links a) x y = pairCount links x y + (if bool_decide (P a) then 1 else 0)) →
  pairCount (foldl f links l) x y = pairCount links x y + Z.of_nat (length (filter P l)).
Proof.
  revert links. induction l as [|a l IH]; intros links Hf; simpl; [lia|].
  rewrite IH by (intros; apply Hf; by right). rewrite Hf by left. rewrite filter_cons.
  destruct (decide (P a)); [rewrite bool_decide_true by done|rewrite bool_decide_false by done]; simpl; lia.
Qed.
Lemma filter_never {A} (P : A → Prop) `{∀ a, Decision (P a)} l : (∀ a, ¬ P a) → filter P l = [].
Proof. intros Hn. induction l as [|a l IH]; [done|]. by rewrite filter_cons, decide_False. Qed.
Lemma filter_eq_length (l : list string) x :
  NoDup l → length (filter (λ a, x = a) l) = if bool_decide (x ∈ l) then 1%nat else 0%nat.
Proof.
  induction l as [|a l IH]; intros Hnd; [done|]. apply list.NoDup_cons in Hnd as [Hni Hnd]. rewrite filter_cons.
  destruct (decide (x = a)) as [->|Hne]; simpl; rewrite IH by done.
  - rewrite bool_decide_false, bool_decide_true; [done|left|done].
  - apply (f_equal (λ b : bool, if b then 1%nat else 0%nat)), bool_decide_ext. rewrite elem_of_cons. naive_solver.
Qed.

Lemma countPolicyLinks_spec ctx d links p x y :
  pairCount (countPolicyLinks ctx d links p) x y =
  pairCount links x y +
  (if bool_decide (linked d (ck_sourceLinks ctx) p x ∧ linked d (ck_targetLinks ctx) p y) then 1 else 0).
Proof.
  unfold countPolicyLinks, linked.
  rewrite (fold_count _ (λ s, x = s ∧ y ∈ IterateLinks (d_links d (ck_targetLinks ctx)) p)).
  - f_equal. destruct (decide (y ∈ IterateLinks (d_links d (ck_targetLinks ctx)) p)) as [Hy|Hy].
    + rewrite (list_filter_iff _ (λ s, x = s)) by naive_solver.
      rewrite filter_eq_length by apply IterateLinks_NoDup.
      by rewrite (bool_decide_ext (_ ∧ _) (x ∈ IterateLinks (d_links d (ck_sourceLinks ctx)) p)) by naive_solver;
        destruct (bool_decide _).
    + rewrite bool_decide_false by naive_solver.
      by rewrite filter_never by naive_solver.
  - intros ls s _. rewrite (fold_count _ (λ t, x = s ∧ y = t)) by (intros; apply addLinkCount_spec). f_equal.
    destruct (decide (x = s)) as [->|Hx].
    + rewrite (list_filter_iff _ (λ t, y = t)) by naive_solver. rewrite filter_eq_length by apply IterateLinks_NoDup.
      by rewrite (bool_decide_ext (_ ∧ _) (y ∈ IterateLinks (d_links d (ck_targetLinks ctx)) p)) by naive_solver;
        destruct (bool_decide _).
    + rewrite bool_decide_false by naive_solver.
      by rewrite filter_never by naive_solver.
Qed.

(** The policies looked at that link both. *)
Definition linking ctx d (a b : string) : list string :=
  filter (λ p, linked d (ck_sourceLinks ctx) p a ∧ linked d (ck_targetLinks ctx) p b) (ck_policies ctx d).
Lemma countLinks_spec ctx d a b : pairCount (countLinks ctx d) a b = Z.of_nat (length (linking ctx d a b)).
Proof.
  unfold countLinks. rewrite (fold_count _ (λ p, linked d (ck_sourceLinks ctx) p a ∧ linked d (ck_targetLinks ctx) p b))
    by (intros; apply countPolicyLinks_spec). done.
Qed.

(** ** The loops over the pairs *)

Definition same_but_counts d d' : Prop :=
  d_attributes d' = d_attributes d ∧ d_servicePolicies d' = d_servicePolicies d ∧
  d_edgeRouterPolicies d' = d_edgeRouterPolicies d ∧
  d_serviceEdgeRouterPolicies d' = d_serviceEdgeRouterPolicies d ∧ d_links d' = d_links d.
#[local] Instance same_but_counts_preorder : PreOrder same_but_counts.
Proof.
  split; [by intros d|]. intros d1 d2 d3 (?&?&?&?&?) (?&?&?&?&?). unfold same_but_counts. split_and!; congruence.
Qed.

(** What is reported of a pair. *)
Definition reportOf (D : Denorm) (c : C) (a b : string) (n : Z) : list Discrepancy :=
  if GetLinkCount c a b =? n then [] else [IncorrectCount D a b (GetLinkCount c a b) n].
Lemma log_report ctx n a b c :
  0 <= n < 2 ^ 31 → logDiscrepencies ctx n a b (GetLinkCounts a b c) = reportOf (ck_denorm ctx) c a b n.
Proof.
  intros Hn. unfold logDiscrepencies, reportOf. pose proof (GetLinkCounts_count a b c) as Hc.
  pose proof (GetLinkCounts_both a b c) as Hb. destruct (GetLinkCounts a b c) as [o1 o2]. simpl in *. subst o2.
  rewrite bool_decide_true by done. simpl. rewrite <- Hc. destruct o1 as [z|]; simpl.
  - rewrite int32_small by (unfold in_int32; lia).
    destruct (Z.eqb_spec z n) as [->|Hne]; simpl; [by destruct (n =? 0)|]. by rewrite orb_true_r.
  - by destruct n.
Qed.

Lemma checkPairs_spec ctx (repair : bool) links l d reports :
  NoDup l → (∀ a b, 0 <= pairCount links a b < 2 ^ 31) →
  ∃ d', foldl (checkPair ctx repair links) (d, reports) l =
      (d', reports ++ (l ≫= λ ab, reportOf (ck_denorm ctx) (d_counts d (ck_denorm ctx)) ab.1 ab.2
                                    (pairCount links ab.1 ab.2))) ∧
    same_but_counts d d' ∧ (∀ D, D ≠ ck_denorm ctx → d_counts d' D = d_counts d D) ∧
    (repair = false → d' = d) ∧
    ∀ a b, GetLinkCount (d_counts d' (ck_denorm ctx)) a b =
      if repair && bool_decide ((a, b) ∈ l) then pairCount links a b else GetLinkCount (d_counts d (ck_denorm ctx)) a b.
Proof.
  intros Hnd Hn. revert d reports Hnd. induction l as [|[s t] l IH]; intros d reports Hnd.
  { exists d. simpl. rewrite app_nil_r. split_and!; try done. intros a b. by rewrite andb_false_r. }
  apply list.NoDup_cons in Hnd as [Hni Hnd]. cbn [foldl mbind list_bind].
  assert (∃ d1, checkPair ctx repair links (d, reports) (s, t) =
      (d1, reports ++ reportOf (ck_denorm ctx) (d_counts d (ck_denorm ctx)) s t (pairCount links s t)) ∧
      same_but_counts d d1 ∧ (∀ D, D ≠ ck_denorm ctx → d_counts d1 D = d_counts d D) ∧ (repair = false → d1 = d) ∧
      ∀ a b, GetLinkCount (d_counts d1 (ck_denorm ctx)) a b = if repair && bool_decide (a = s ∧ b = t)
        then pairCount links a b else GetLinkCount (d_counts d (ck_denorm ctx)) a b) as (d1 & -> & H1 & H2 & H2' & H3).
  { unfold checkPair. fold (pairCount links s t). destruct repair.
    - pose proof (SetLinkCount_old s t (pairCount links s t) (d_counts d (ck_denorm ctx))) as Hold.
      pose proof (SetLinkCount_count s t (pairCount links s t) (d_counts d (ck_denorm ctx))) as Hset.
      specialize (λ a b, Hset a b (Hn s t)).
      destruct (SetLinkCount _ _ _ _) as [c' old]. simpl in *. subst old. rewrite log_report by apply Hn.
      eexists. split; [done|]. split; [done|]. simpl. split; [intros D HD; by rewrite fn_lookup_insert_ne|].
      split; [done|]. intros a b. rewrite fn_lookup_insert, Hset. case_bool_decide as Hab; [|done]. by destruct Hab as [-> ->].
    - rewrite log_report by apply Hn. exists d. by split_and!. }
  destruct (IH d1 (reports ++ reportOf (ck_denorm ctx) (d_counts d (ck_denorm ctx)) s t (pairCount links s t)) Hnd)
    as (d' & -> & H4 & H5 & H5' & H6). exists d'. split_and!.
  - f_equal. rewrite <- app_assoc. f_equal. f_equal. apply Forall_bind_ext, list.Forall_forall. intros [a b] Hab. unfold reportOf. simpl.
    rewrite H3. rewrite bool_decide_false, andb_false_r; [done|]. by intros [-> ->].
  - by etrans.
  - intros D HD. by rewrite H5, H2.
  - intros Hr. by rewrite H5', H2'.
  - intros a b. rewrite H6, H3. destruct repair; simpl; [|done].
    destruct (decide ((a, b) ∈ l)) as [Hin|Hout].
    + rewrite bool_decide_true, bool_decide_true; [done|by right|done].
    + rewrite (bool_decide_false ((a, b) ∈ l)) by done. apply (f_equal (λ b : bool, if b then _ else _)).
      apply bool_decide_ext. rewrite elem_of_cons. naive_solver.
Qed.

(** ** A check *)

Definition exist d (k : EntityKind) (a : string) : Prop := is_Some (d_attributes d k !! a).

Lemma entityPairs_elem ctx d a b : (a, b) ∈ entityPairs ctx d ↔ exist d (ck_source ctx) a ∧ exist d (ck_target ctx) b.
Proof.
  unfold entityPairs, exist. rewrite <- !elem_of_keys, list_elem_of_bind. split.
  - intros (s & (t & [= -> ->] & Ht)%list_elem_of_fmap & Hs). by split.
  - intros [Ha Hb]. exists a. split; [|done]. apply list_elem_of_fmap. by exists b.
Qed.
Lemma entityPairs_NoDup ctx d : NoDup (entityPairs ctx d).
Proof.
  unfold entityPairs. pose proof (NoDup_fst_map_to_list (d_attributes d (ck_target ctx))) as Ht.
  pose proof (NoDup_fst_map_to_list (d_attributes d (ck_source ctx))) as Hs. revert Ht Hs.
  generalize (map_to_list (d_attributes d (ck_target ctx))).*1. intros ts Ht.
  generalize (map_to_list (d_attributes d (ck_source ctx))).*1. intros ss Hs.
  induction Hs as [|s ss Hni Hs IH]; cbn [mbind list_bind]; [constructor|]. apply list.NoDup_app. split_and!.
  - apply NoDup_fmap; [by intros ? ? [= ->]|done].
  - intros [x t] (t' & [= -> ->] & _)%list_elem_of_fmap Hin. apply list_elem_of_bind in Hin as (x' & Hx & Hin').
    apply list_elem_of_fmap in Hx as (? & [= -> ->] & _). done.
  - done.
Qed.

Definition few ctx d : Prop := Z.of_nat (length (ck_policies ctx d)) < 2 ^ 31.
Lemma validate_spec ctx (repair : bool) d :
  few ctx d →
  ∃ d', validatePolicyDenormalization ctx repair d =
      (d', entityPairs ctx d ≫= λ ab, reportOf (ck_denorm ctx) (d_counts d (ck_denorm ctx)) ab.1 ab.2
                                       (Z.of_nat (length (linking ctx d ab.1 ab.2)))) ∧
    same_but_counts d d' ∧ (∀ D, D ≠ ck_denorm ctx → d_counts d' D = d_counts d D) ∧
    (repair = false → d' = d) ∧
    ∀ a b, repair = true → exist d (ck_source ctx) a → exist d (ck_target ctx) b →
      GetLinkCount (d_counts d' (ck_denorm ctx)) a b = Z.of_nat (length (linking ctx d a b)).
Proof.
  intros Hfew. unfold validatePolicyDenormalization.
  destruct (checkPairs_spec ctx repair (countLinks ctx d) (entityPairs ctx d) d []) as (d' & E & H1 & H2 & H3 & H4).
  - apply entityPairs_NoDup.
  - intros a b. rewrite countLinks_spec. split; [lia|]. unfold few, linking in *.
    pose proof (length_filter (λ p, linked d (ck_sourceLinks ctx) p a ∧ linked d (ck_targetLinks ctx) p b)
      (ck_policies ctx d)). lia.
  - exists d'. split_and!; [|done..|].
    + rewrite E. f_equal. apply Forall_bind_ext, list.Forall_forall. intros [a b] _. by rewrite countLinks_spec.
    + intros a b -> Ha Hb. rewrite H4, bool_decide_true by (by apply entityPairs_elem). apply countLinks_spec.
Qed.

(** A check that looks at policies and links only. *)
Definition stable ctx : Prop := ∀ d d', same_but_counts d d' → ck_policies ctx d' = ck_policies ctx d.
Lemma linking_same ctx d d' a b : stable ctx → same_but_counts d d' → linking ctx d' a b = linking ctx d a b.
Proof.
  intros Hst Hs. unfold linking. rewrite (Hst _ _ Hs). apply list_filter_iff. intros p. unfold linked.
  destruct Hs as (_ & _ & _ & _ & ->). done.
Qed.

Lemma runChecks_repair ctxs d :
  NoDup (ck_denorm <$> ctxs) → (∀ ctx, ctx ∈ ctxs → stable ctx ∧ few ctx d) →
  let d' := (runChecks ctxs true d).1 in
  same_but_counts d d' ∧ (∀ D, D ∉ ck_denorm <$> ctxs → d_counts d' D = d_counts d D) ∧
  ∀ ctx a b, ctx ∈ ctxs → exist d (ck_source ctx) a → exist d (ck_target ctx) b →
    GetLinkCount (d_counts d' (ck_denorm ctx)) a b = Z.of_nat (length (linking ctx d a b)).
Proof.
  unfold runChecks. generalize (@nil Discrepancy). revert d.
  induction ctxs as [|ctx ctxs IH]; intros d r Hnd Hok; [split_and!; [done|done|by intros ??? ?%elem_of_nil]|].
  apply list.NoDup_cons in Hnd as [Hni Hnd]. destruct (Hok ctx) as [Hst Hfew]; [left|]. cbn [foldl fst snd].
  destruct (validate_spec ctx true d Hfew) as (d1 & -> & H1 & H2 & _ & H3).
  destruct (IH d1 (r ++ (entityPairs ctx d ≫= λ ab, reportOf (ck_denorm ctx) (d_counts d (ck_denorm ctx)) ab.1 ab.2
     (Z.of_nat (length (linking ctx d ab.1 ab.2))))) Hnd) as (G1 & G2 & G3).
  { intros c Hc. destruct (Hok c) as [Hs Hf]; [by right|]. split; [done|]. unfold few. by rewrite (Hs _ _ H1). }
  split_and!.
  - by etrans.
  - intros D HD. rewrite fmap_cons, not_elem_of_cons in HD. destruct HD. by rewrite G2, H2.
  - intros c a b [->|Hc]%elem_of_cons Ha Hb; [rewrite G2 by done; by apply H3|].
    destruct (Hok c) as [Hs _]; [by right|]. rewrite <- (linking_same c d d1) by done.
    apply G3; [done|unfold exist; by rewrite (proj1 H1)..].
Qed.
Lemma bind_nil {A B} (f : A → list B) l : (∀ x, x ∈ l → f x = []) → l ≫= f = [].
Proof.
  induction l as [|x l IH]; intros Hf; [done|]. cbn [mbind list_bind]. rewrite Hf by left. apply IH. intros.
  apply Hf. by right.
Qed.
Lemma runChecks_silent ctxs d :
  (∀ ctx, ctx ∈ ctxs → few ctx d ∧ ∀ a b, exist d (ck_source ctx) a → exist d (ck_target ctx) b →
     GetLinkCount (d_counts d (ck_denorm ctx)) a b = Z.of_nat (length (linking ctx d a b))) →
  runChecks ctxs false d = (d, []).
Proof.
  unfold runChecks. induction ctxs as [|ctx ctxs IH]; intros Hok; [done|]. cbn [foldl fst snd].
  destruct (Hok ctx) as [Hfew Hc]; [left|]. destruct (validate_spec ctx false d Hfew) as (d1 & -> & _ & _ & Hd & _).
  rewrite (Hd eq_refl).
  rewrite bind_nil; [apply IH; intros; apply Hok; by right|]. intros [a b] [Ha Hb]%entityPairs_elem.
  unfold reportOf. simpl. by rewrite Hc, Z.eqb_refl.
Qed.

(** ** The checks of the three stores *)

(** The policies whose links a table should count. *)
Definition granting d (D : Denorm) : gset string :=
  match D with
  | DialAccess => dom (filter (λ kv, sp_PolicyType kv.2 = DialPolicy) (d_servicePolicies d))
  | BindAccess => dom (filter (λ kv, sp_PolicyType kv.2 = BindPolicy) (d_servicePolicies d))
  | IdentityRouters => dom (d_edgeRouterPolicies d)
  | ServiceRouters => dom (d_serviceEdgeRouterPolicies d)
  | CheckDial | CheckBind => ∅
  end.
Definition checkOf (D : Denorm) : option (denormCheckCtx (L:=L) (C:=C)) :=
  match D with
  | DialAccess => Some dialCheck
  | BindAccess => Some bindCheck
  | IdentityRouters => Some edgeRouterPolicyCheck
  | ServiceRouters => Some serviceEdgeRouterPolicyCheck
  | CheckDial | CheckBind => None
  end.
Definition fits d : Prop :=
  Z.of_nat (size (d_servicePolicies d)) < 2 ^ 31 ∧ Z.of_nat (size (d_edgeRouterPolicies d)) < 2 ^ 31 ∧
  Z.of_nat (size (d_serviceEdgeRouterPolicies d)) < 2 ^ 31.

Lemma ofType_spec t d : NoDup (ofType t d) ∧ (length (ofType t d) ≤ size (d_servicePolicies d))%nat ∧
  (list_to_set (ofType t d) : gset string) = dom (filter (λ kv, sp_PolicyType kv.2 = t) (d_servicePolicies d)).
Proof.
  unfold ofType. split_and!.
  - eapply sublist_NoDup; [apply (NoDup_fst_map_to_list (d_servicePolicies d))|apply fmap_sublist, sublist_filter].
  - rewrite length_fmap. etrans; [apply length_filter|]. by rewrite length_map_to_list.
  - apply set_eq. intros p. rewrite elem_of_list_to_set, list_elem_of_fmap, elem_of_dom. split.
    + intros ([p' q] & -> & [Ht Hq]%list_elem_of_filter). exists q. apply map_lookup_filter_Some.
      split; [by apply elem_of_map_to_list|done].
    + intros [q [Hq Ht]%map_lookup_filter_Some]. exists (p, q). split; [done|]. apply list_elem_of_filter.
      split; [done|by apply elem_of_map_to_list].
Qed.
Lemma keys_spec {V} (m : gmap string V) : NoDup (map_to_list m).*1 ∧ (length (map_to_list m).*1 = size m)%nat ∧
  (list_to_set (map_to_list m).*1 : gset string) = dom m.
Proof.
  split_and!; [apply NoDup_fst_map_to_list|by rewrite length_fmap, length_map_to_list|].
  apply set_eq. intros k. by rewrite elem_of_list_to_set, elem_of_keys, elem_of_dom.
Qed.

Lemma checkOf_spec D ctx d :
  checkOf D = Some ctx → fits d →
  ck_denorm ctx = D ∧ ck_source ctx = linkedEntity (pairLeft D) ∧ ck_target ctx = linkedEntity (pairRight D) ∧
  stable ctx ∧ few ctx d ∧
  ∀ a b, length (linking ctx d a b) =
    size (filter (λ p, linked d (pairLeft D) p a ∧ linked d (pairRight D) p b) (granting d D)).
Proof.
  intros HD (F1 & F2 & F3).
  assert (∀ (l : list string) (X : gset string) (P : string → Prop) `{∀ p, Decision (P p)},
    NoDup l → list_to_set l = X → length (filter P l) = size (filter P X)) as Hsize.
  { intros l X P HP Hnd <-. replace (filter P (list_to_set l : gset string)) with (list_to_set (filter P l) : gset string).
    - rewrite size_list_to_set; [done|]. by apply list.NoDup_filter.
    - apply set_eq. intros x. rewrite elem_of_filter, !elem_of_list_to_set, list_elem_of_filter. done. }
  destruct D; simplify_eq/=; unfold stable, few; simpl.
  - destruct (ofType_spec DialPolicy d) as (H1 & H2 & H3). split_and!; [done..| |lia|].
    + intros d1 d2 (_ & Hs & _). unfold ofType. by rewrite Hs.
    + intros a b. by apply Hsize.
  - destruct (ofType_spec BindPolicy d) as (H1 & H2 & H3). split_and!; [done..| |lia|].
    + intros d1 d2 (_ & Hs & _). unfold ofType. by rewrite Hs.
    + intros a b. by apply Hsize.
  - destruct (keys_spec (d_edgeRouterPolicies d)) as (H1 & H2 & H3). split_and!; [done..| |lia|].
    + by intros d1 d2 (_ & _ & -> & _).
    + intros a b. by apply Hsize.
  - destruct (keys_spec (d_serviceEdgeRouterPolicies d)) as (H1 & H2 & H3). split_and!; [done..| |lia|].
    + by intros d1 d2 (_ & _ & _ & -> & _).
    + intros a b. by apply Hsize.
Qed.

Lemma runChecks_app l1 l2 (fix_ : bool) d : (runChecks (l1 ++ l2) fix_ d).1 = (runChecks l2 fix_ (runChecks l1 fix_ d).1).1.
Proof.
  unfold runChecks. rewrite foldl_app. destruct (foldl _ (d, []) l1) as [d1 r1]. simpl.
  assert (∀ r r', (foldl (λ acc ctx, let '(d, r) := validatePolicyDenormalization ctx fix_ acc.1 in (d, acc.2 ++ r)) (d1, r) l2).1
    = (foldl (λ acc ctx, let '(d, r) := validatePolicyDenormalization ctx fix_ acc.1 in (d, acc.2 ++ r)) (d1, r') l2).1); [|done].
  revert d1. induction l2 as [|ctx l2 IH]; intros d1 r r'; simpl; [done|].
  destruct (validatePolicyDenormalization ctx fix_ d1). apply IH.
Qed.

End Counting.

Section Silent.
Context {L C : Type} {LC : LinkCollection L} {LCL : LinkCollectionLaws L}.
Context {RC : RefCountedLinkCollection C} {RCL : RefCountedLaws C} {CR : CountRepair C} {CRL : CountRepairLaws C}.
Implicit Types d : DB (L:=L) (C:=C).

(** The integrity check has nothing to report of a store that was only changed
    through its operations: after any sequence of transactions that keep semantics,
    the checks of the three policy stores report no discrepancy. *)
Theorem integrity_check_silent ops d0 :
  empty_store d0 → keeps_semantics ops d0 →
  let d := foldl (λ d op, (commit op d).1) d0 ops in
  fits d → (∀ p q, d_servicePolicies d !! p = Some q → sp_PolicyType q ≠ InvalidPolicy) →
  servicePolicy_CheckIntegrity false d = (d, []) ∧ edgeRouterPolicy_CheckIntegrity false d = (d, []) ∧
  serviceEdgeRouterPolicy_CheckIntegrity false d = (d, []).
Proof.
  intros H0 Hk d Hf Ht. destruct (runs_ok ops d0 (empty_store_ok d0 H0) Hk) as [_ Hc]. fold d in Hc.
  assert (∀ D ctx, checkOf D = Some ctx → few ctx d ∧ ∀ a b, exist d (ck_source ctx) a → exist d (ck_target ctx) b →
    GetLinkCount (d_counts d (ck_denorm ctx)) a b = Z.of_nat (length (linking ctx d a b))) as Hall.
  { intros D ctx HD. destruct (checkOf_spec D ctx d HD Hf) as (E1 & _ & _ & _ & E5 & E6). split; [done|].
    intros a b _ _. rewrite E1, E6. etrans; [apply (Hc D); by destruct D|]. do 2 f_equal. unfold shared, owners, granting.
    destruct D; try done. do 2 f_equal. apply map_filter_strong_ext. intros p q. split; intros [Hq Hp]; split; try done.
    - pose proof (Ht _ _ Hp). simpl in *. by destruct (sp_PolicyType q).
    - simpl in *. by rewrite Hq. }
  split_and!; apply runChecks_silent; intros ctx; rewrite !elem_of_cons, elem_of_nil.
  - intros [->|[->|[]]]; [by apply (Hall BindAccess)|by apply (Hall DialAccess)].
  - intros [->|[]]. by apply (Hall IdentityRouters).
  - intros [->|[]]. by apply (Hall ServiceRouters).
Qed.
End Silent.

(** ** The check on counts in finite maps *)

#[export] Instance CountMap_repair : CountRepair CountMap := {
  GetLinkCounts a b c := (c !! (a, b), c !! (a, b));
  SetLinkCount a b n c :=
    (if n =? 0 then delete (a, b) c else <[(a, b) := n]> c, (c !! (a, b), c !! (a, b)));
}.
#[export] Instance CountMap_repair_laws : CountRepairLaws CountMap.
Proof.
  split; simpl; try done. intros a b n c x y _. unfold countOf.
  destruct (decide ((x, y) = (a, b))) as [[= -> ->]|Hne].
  - rewrite bool_decide_true by done. destruct (Z.eqb_spec n 0) as [->|].
    + by rewrite lookup_delete_eq.
    + by rewrite lookup_insert_eq.
  - rewrite bool_decide_false by naive_solver.
    case_match; [by rewrite lookup_delete_ne by congruence|by rewrite lookup_insert_ne by congruence].
Qed.

(** A store whose dial counts were lost and that counts a bind access nobody granted. *)
Definition damaged : DB (L:=LinkMap) (C:=CountMap) :=
  set_counts (<[BindAccess := {[("i1", "s1")%string := 3]}]> (<[DialAccess := ∅]> (d_counts (run setup)))) (run setup).

Lemma setup_fits : fits (run setup).
Proof. split_and!; vm_compute; reflexivity. Qed.
Lemma damaged_fits : fits damaged.
Proof. split_and!; vm_compute; reflexivity. Qed.


Lemma setup_types p q : d_servicePolicies (run setup) !! p = Some q → sp_PolicyType q ≠ InvalidPolicy.
Proof.
  assert (map_Forall (λ _ q, sp_PolicyType q ≠ InvalidPolicy) (d_servicePolicies (run setup))) as H; [|exact (H p q)].
  apply (bool_decide_unpack _). vm_compute. exact I.
Qed.

Lemma integrity_check_silent_witness :
  servicePolicy_CheckIntegrity false (run setup) = (run setup, []).
Proof.
  assert (∀ ops, keeps_semantics ops store0 → fits (run ops) →
    (∀ p q, d_servicePolicies (run ops) !! p = Some q → sp_PolicyType q ≠ InvalidPolicy) →
    servicePolicy_CheckIntegrity false (run ops) = (run ops, [])) as H.
  { intros ops Hk Hf Ht. exact (proj1 (integrity_check_silent ops store0 store0_empty Hk Hf Ht)). }
  exact (H setup setup_keeps setup_fits setup_types).
Defined.

(** The reports of the damaged store: the lost dial counts and the bind count. *)
Example damage_reported :
  length (servicePolicy_CheckIntegrity false damaged).2 = 3%nat ∧ length (servicePolicy_CheckIntegrity false (run setup)).2 = 0%nat.
Proof. split; vm_compute; reflexivity. Qed.
