(* ===== verification/HostedServices.v ===== *)
(** * Hosted services of a router (router/xgress_edge/hosted.go, fabric.go, listener.go)

    An SDK client that hosts a service binds it at a router; the router keeps a
    terminator for the bind, creates it on the controller, and deletes it there
    when the client goes away. [hostedServiceRegistry] holds the terminators by id,
    the terminators waiting to be created ([establishSet]) and to be deleted
    ([deleteSet]); one goroutine serves events and both sets.

    Terminators are objects shared by pointer: the heap maps references to them.
    The events channel is unbuffered, so that any of the waiting senders may be
    served next; handlers of one event, one evaluation of a set, one response of the
    controller and one batch of deletions are single transitions. Clocks, the
    answers of the rate limiter, the pool and the controller, generated ids and map
    orders are arguments of the transitions. Left out: the listener for removed
    sessions ([onClose]), inspection for operators, dialing and the copying of data,
    and the fields that only travel in the create request. *)

From stdpp Require Import base gmap list strings fin_maps fin_sets.
From Stdlib Require Import ZArith Lia.
From S2P Require Import Prelude.

Open Scope Z_scope.

(** ** Data *)

Inductive TerminatorState := Establishing | Established | Deleting.
#[global] Instance TerminatorState_eq_dec : EqDecision TerminatorState.
Proof. solve_decision. Defined.
Definition IsWorkRequired (s : TerminatorState) : bool :=
  match s with Establishing | Deleting => true | Established => false end.

(** A session token, an object shared by pointer, with its id and service. *)
Record ServiceSessionToken := mkToken {
  tk_ref : nat;
  tk_TokenId : string;
  tk_ServiceId : string;
}.

(** [t_ch] is the channel of the client connection [t_conn]; times are in
    nanoseconds, [None] is the zero time. [t_establishCallback] is the flag that
    the callback captures, [None] while it is nil. *)
Record edgeTerminator := mkTerm {
  t_connId : Z;
  t_ch : nat;
  t_conn : nat;
  t_identityId : string;
  t_terminatorId : string;
  t_listenerId : string;
  t_token : ServiceSessionToken;
  t_instance : string;
  t_v2 : bool;
  t_state : TerminatorState;
  t_operationActive : bool;
  t_createTime : option Z;
  t_lastAttempt : option Z;
  t_establishCallback : option bool;
  t_rateLimitCallback : option nat;
  t_failureCount : Z;
}.

(** The fields that change. *)
Record Dyn := mkDyn {
  dy_terminatorId : string;
  dy_state : TerminatorState;
  dy_operationActive : bool;
  dy_createTime : option Z;
  dy_lastAttempt : option Z;
  dy_establishCallback : option bool;
  dy_rateLimitCallback : option nat;
  dy_failureCount : Z;
}.
Definition dyn (t : edgeTerminator) : Dyn :=
  mkDyn (t_terminatorId t) (t_state t) (t_operationActive t) (t_createTime t) (t_lastAttempt t)
    (t_establishCallback t) (t_rateLimitCallback t) (t_failureCount t).
Definition with_dyn (d : Dyn) (t : edgeTerminator) : edgeTerminator :=
  mkTerm (t_connId t) (t_ch t) (t_conn t) (t_identityId t) (dy_terminatorId d) (t_listenerId t) (t_token t)
    (t_instance t) (t_v2 t) (dy_state d) (dy_operationActive d) (dy_createTime d) (dy_lastAttempt d)
    (dy_establishCallback d) (dy_rateLimitCallback d) (dy_failureCount d).

Definition setState (s : TerminatorState) (t : edgeTerminator) : edgeTerminator :=
  let d := dyn t in
  with_dyn (mkDyn (dy_terminatorId d) s (dy_operationActive d) (dy_createTime d) (dy_lastAttempt d)
              (dy_establishCallback d) (dy_rateLimitCallback d) (dy_failureCount d)) t.
Definition setActive (b : bool) (t : edgeTerminator) : edgeTerminator :=
  let d := dyn t in
  with_dyn (mkDyn (dy_terminatorId d) (dy_state d) b (dy_createTime d) (dy_lastAttempt d)
              (dy_establishCallback d) (dy_rateLimitCallback d) (dy_failureCount d)) t.
Definition setAttempt (now : Z) (t : edgeTerminator) : edgeTerminator :=
  let d := dyn t in
  with_dyn (mkDyn (dy_terminatorId d) (dy_state d) (dy_operationActive d) (dy_createTime d) (Some now)
              (dy_establishCallback d) (dy_rateLimitCallback d) (dy_failureCount d)) t.
Definition setEstablishCallback (notify : bool) (t : edgeTerminator) : edgeTerminator :=
  let d := dyn t in
  with_dyn (mkDyn (dy_terminatorId d) (dy_state d) (dy_operationActive d) (dy_createTime d) (dy_lastAttempt d)
              (Some notify) (dy_rateLimitCallback d) (dy_failureCount d)) t.
Definition SetRateLimitCallback (c : option nat) (t : edgeTerminator) : edgeTerminator :=
  let d := dyn t in
  with_dyn (mkDyn (dy_terminatorId d) (dy_state d) (dy_operationActive d) (dy_createTime d) (dy_lastAttempt d)
              (dy_establishCallback d) c (dy_failureCount d)) t.
Definition setFailures (n : Z) (t : edgeTerminator) : edgeTerminator :=
  let d := dyn t in
  with_dyn (mkDyn (dy_terminatorId d) (dy_state d) (dy_operationActive d) (dy_createTime d) (dy_lastAttempt d)
              (dy_establishCallback d) (dy_rateLimitCallback d) n) t.
Definition updateState (oldState newState : TerminatorState) (t : edgeTerminator) : edgeTerminator :=
  if decide (t_state t = oldState) then setState newState t else t.

(** Taking over another terminator's id and progress. *)
Definition replace (other self : edgeTerminator) : edgeTerminator :=
  let d := dyn self in
  with_dyn (mkDyn (t_terminatorId other) (t_state other) (t_operationActive other) (t_createTime other)
              (t_lastAttempt other) (dy_establishCallback d) (t_rateLimitCallback other) (dy_failureCount d)) self.

Definition second : Z := 1000000000.
Definition maxDuration : Z := 9223372036854775807.
(** [time.Since]; the zero time is longer ago than any duration. *)
Definition Since (now : Z) (t : option Z) : Z :=
  match t with Some x => now - x | None => maxDuration end.

Inductive terminatorEvent :=
| queueEstablishTerminator (p : nat)
| requeueRemoveTerminator (p : nat)
| queueRemoveTerminator (p : nat)
| channelClosedEvent (ch : nat)
| findMatchingEvent (p : nat)
| sdkTerminatorInvalidEvent (p : nat) (notifyCtrl : bool)
| markEstablishedEvent (p : nat).

Record listenerIdCheckResult := mkCheck {
  ck_replaceExisting : bool;
  ck_previous : option nat;
}.

(** What leaves the registry: requests to the controller, messages to clients and
    the completion of rate limiter slots. *)
Inductive LimiterOutcome := LimSuccess | LimBackoff | LimFailed.
Inductive Effect :=
| SentCreate (terminatorId : string) (p : nat)
| SentDelete (terminatorIds : list string)
| SentDeleteV1 (terminatorId : string)
| SdkClosed (p : nat)
| SdkBindSuccess (p : nat)
| LimiterDone (control : nat) (o : LimiterOutcome).

(** [h_gates] are the binds whose cancel gate is taken (or that need no check),
    [h_results] the results waiting for their bind, [h_closed] the closed channels,
    [h_batches] the deletions given to the pool, [h_reconnects] the lists of
    [HandleReconnect] calls that wait. *)
Record hostedServiceRegistry := mkReg {
  h_heap : gmap nat edgeTerminator;
  h_terminators : gmap string nat;
  h_establishSet : gmap string nat;
  h_deleteSet : gmap string nat;
  h_events : list terminatorEvent;
  h_triggerEvalC : bool;
  h_gates : gset nat;
  h_results : gmap nat listenerIdCheckResult;
  h_closed : gset nat;
  h_batches : list (list nat);
  h_reconnects : list (list nat);
  h_sent : list Effect;
}.

Definition newHostedServicesRegistry : hostedServiceRegistry :=
  mkReg ∅ ∅ ∅ ∅ [] false ∅ ∅ ∅ [] [] [].

(** ** Updates of single fields *)

Definition upd_heap x (r : hostedServiceRegistry) := mkReg x (h_terminators r) (h_establishSet r) (h_deleteSet r)
  (h_events r) (h_triggerEvalC r) (h_gates r) (h_results r) (h_closed r) (h_batches r) (h_reconnects r) (h_sent r).
Definition upd_terminators x (r : hostedServiceRegistry) := mkReg (h_heap r) x (h_establishSet r) (h_deleteSet r)
  (h_events r) (h_triggerEvalC r) (h_gates r) (h_results r) (h_closed r) (h_batches r) (h_reconnects r) (h_sent r).
Definition upd_establishSet x (r : hostedServiceRegistry) := mkReg (h_heap r) (h_terminators r) x (h_deleteSet r)
  (h_events r) (h_triggerEvalC r) (h_gates r) (h_results r) (h_closed r) (h_batches r) (h_reconnects r) (h_sent r).
Definition upd_deleteSet x (r : hostedServiceRegistry) := mkReg (h_heap r) (h_terminators r) (h_establishSet r) x
  (h_events r) (h_triggerEvalC r) (h_gates r) (h_results r) (h_closed r) (h_batches r) (h_reconnects r) (h_sent r).
Definition upd_events x (r : hostedServiceRegistry) := mkReg (h_heap r) (h_terminators r) (h_establishSet r)
  (h_deleteSet r) x (h_triggerEvalC r) (h_gates r) (h_results r) (h_closed r) (h_batches r) (h_reconnects r) (h_sent r).
Definition upd_trigger x (r : hostedServiceRegistry) := mkReg (h_heap r) (h_terminators r) (h_establishSet r)
  (h_deleteSet r) (h_events r) x (h_gates r) (h_results r) (h_closed r) (h_batches r) (h_reconnects r) (h_sent r).
Definition upd_gates x (r : hostedServiceRegistry) := mkReg (h_heap r) (h_terminators r) (h_establishSet r)
  (h_deleteSet r) (h_events r) (h_triggerEvalC r) x (h_results r) (h_closed r) (h_batches r) (h_reconnects r) (h_sent r).
Definition upd_results x (r : hostedServiceRegistry) := mkReg (h_heap r) (h_terminators r) (h_establishSet r)
  (h_deleteSet r) (h_events r) (h_triggerEvalC r) (h_gates r) x (h_closed r) (h_batches r) (h_reconnects r) (h_sent r).
Definition upd_closed x (r : hostedServiceRegistry) := mkReg (h_heap r) (h_terminators r) (h_establishSet r)
  (h_deleteSet r) (h_events r) (h_triggerEvalC r) (h_gates r) (h_results r) x (h_batches r) (h_reconnects r) (h_sent r).
Definition upd_batches x (r : hostedServiceRegistry) := mkReg (h_heap r) (h_terminators r) (h_establishSet r)
  (h_deleteSet r) (h_events r) (h_triggerEvalC r) (h_gates r) (h_results r) (h_closed r) x (h_reconnects r) (h_sent r).
Definition upd_reconnects x (r : hostedServiceRegistry) := mkReg (h_heap r) (h_terminators r) (h_establishSet r)
  (h_deleteSet r) (h_events r) (h_triggerEvalC r) (h_gates r) (h_results r) (h_closed r) (h_batches r) x (h_sent r).
Definition emit (e : Effect) (r : hostedServiceRegistry) := mkReg (h_heap r) (h_terminators r) (h_establishSet r)
  (h_deleteSet r) (h_events r) (h_triggerEvalC r) (h_gates r) (h_results r) (h_closed r) (h_batches r) (h_reconnects r)
  (h_sent r ++ [e]).

Definition onTerm (f : edgeTerminator → edgeTerminator) (p : nat) (r : hostedServiceRegistry) :=
  upd_heap (alter f p (h_heap r)) r.
Definition queue (ev : terminatorEvent) (r : hostedServiceRegistry) := upd_events (h_events r ++ [ev]) r.
Definition triggerEvaluates (r : hostedServiceRegistry) := upd_trigger true r.

(** ** Operations on the map of terminators *)

Definition Put (p : nat) (r : hostedServiceRegistry) : hostedServiceRegistry :=
  match h_heap r !! p with
  | Some t => upd_terminators (<[t_terminatorId t := p]> (h_terminators r)) r
  | None => r
  end.
Definition Get (terminatorId : string) (r : hostedServiceRegistry) : option nat := h_terminators r !! terminatorId.
Definition Delete (terminatorId : string) (r : hostedServiceRegistry) : hostedServiceRegistry :=
  upd_terminators (delete terminatorId (h_terminators r)) r.
(** Removes the terminator only if the id is still its own. *)
Definition Remove (p : nat) (r : hostedServiceRegistry) : hostedServiceRegistry * bool :=
  match h_heap r !! p with
  | None => (r, false)
  | Some t =>
    if decide (Get (t_terminatorId t) r = Some p) then (Delete (t_terminatorId t) r, true) else (r, false)
  end.
Definition currents (r : hostedServiceRegistry) : list nat := (map_to_list (h_terminators r)).*2.
Definition matching (f : edgeTerminator → bool) (r : hostedServiceRegistry) : list nat :=
  filter (λ p, match h_heap r !! p with Some t => f t | None => false end = true) (currents r).

(** ** Queueing work *)

Definition queueEstablishTerminatorSync (p : nat) (r : hostedServiceRegistry) : hostedServiceRegistry :=
  match h_heap r !! p with
  | Some t =>
    if decide (t_state t = Establishing) then
      upd_establishSet (<[t_terminatorId t := p]> (h_establishSet r)) (onTerm (setActive false) p r)
    else r
  | None => r
  end.

Definition queueRemoveTerminatorUnchecked (p : nat) (r : hostedServiceRegistry) : hostedServiceRegistry :=
  match h_heap r !! p with
  | Some t =>
    upd_deleteSet (<[t_terminatorId t := p]> (h_deleteSet r))
      (onTerm (λ t, setActive false (setState Deleting t)) p r)
  | None => r
  end.
(** Whether the id of a terminator is still its own, or nobody's. *)
Definition stillCurrent (p : nat) (r : hostedServiceRegistry) : bool :=
  match h_heap r !! p with
  | Some t => match Get (t_terminatorId t) r with None => true | Some q => bool_decide (q = p) end
  | None => false
  end.
Definition queueRemoveTerminatorSync (p : nat) (r : hostedServiceRegistry) : hostedServiceRegistry :=
  if stillCurrent p r then queueRemoveTerminatorUnchecked p r else r.
Definition requeueForDeleteSync (ps : list nat) (r : hostedServiceRegistry) : hostedServiceRegistry :=
  foldl (λ r p, queueRemoveTerminatorSync p r) r ps.
Definition requeueRemoveTerminatorSync (p : nat) (r : hostedServiceRegistry) : hostedServiceRegistry :=
  match h_heap r !! p with
  | Some t =>
    if match Get (t_terminatorId t) r with
       | None => true
       | Some q => bool_decide (q = p) && bool_decide (t_state t = Deleting)
       end
    then upd_deleteSet (<[t_terminatorId t := p]> (h_deleteSet r)) (onTerm (setActive false) p r)
    else r
  | None => r
  end.

(** ** Closing a terminator *)

Definition close (p : nat) (notifySdk notifyCtrl : bool) (r : hostedServiceRegistry) : hostedServiceRegistry :=
  match h_heap r !! p with
  | None => r
  | Some t =>
    let r := if notifySdk && bool_decide (t_ch t ∉ h_closed r) then emit (SdkClosed p) r else r in
    if t_v2 t then
      if notifyCtrl then queue (queueRemoveTerminator p) r else (Remove p r).1
    else
      let r := if notifyCtrl && negb (bool_decide (t_terminatorId t = ""%string))
               then emit (SentDeleteV1 (t_terminatorId t)) r else r in
      Delete (tk_TokenId (t_token t)) r
  end.
Definition closeAll (notifySdk notifyCtrl : bool) (ps : list nat) (r : hostedServiceRegistry) : hostedServiceRegistry :=
  foldl (λ r p, close p notifySdk notifyCtrl r) r ps.

Definition cleanupDuplicates (newest : nat) (r : hostedServiceRegistry) : hostedServiceRegistry :=
  match h_heap r !! newest with
  | None => r
  | Some n =>
    let toClose := filter (λ p, p ≠ newest) (matching (λ t,
        bool_decide (tk_TokenId (t_token n) = tk_TokenId (t_token t)) && bool_decide (t_instance n = t_instance t)) r) in
    closeAll false true toClose r
  end.
Definition unbindSession (connId : Z) (tokenId : string) (proxy : nat) (r : hostedServiceRegistry)
    : hostedServiceRegistry * bool :=
  let toClose := matching (λ t, (t_connId t =? connId) && bool_decide (tk_TokenId (t_token t) = tokenId) &&
                                bool_decide (t_conn t = proxy)) r in
  (closeAll false true toClose r, negb (bool_decide (toClose = []))).
Definition getTerminatorsForService (serviceId : string) (r : hostedServiceRegistry) : list nat :=
  matching (λ t, bool_decide (tk_ServiceId (t_token t) = serviceId)) r.
(** A client connection learns that its identity lost bind access to a service. *)
Definition handleBindAccessLost (serviceId : string) (r : hostedServiceRegistry) : hostedServiceRegistry :=
  closeAll true true (getTerminatorsForService serviceId r) r.

(** ** Events *)

(** The lookup of a terminator that the client bound before with the same listener
    id. The first existing one that is not being deleted is taken over. *)
Definition findMatching (p : nat) (r : hostedServiceRegistry) : hostedServiceRegistry :=
  if decide (p ∈ h_gates r) then r
  else
    let r := upd_gates ({[p]} ∪ h_gates r) r in
    let answer b previous r := upd_results (<[p := mkCheck b previous]> (h_results r)) r in
    match h_heap r !! p with
    | None => r
    | Some self =>
      let existingList := matching (λ t, t_v2 t && bool_decide (t_listenerId t = t_listenerId self) &&
                                         bool_decide (t_identityId t = t_identityId self)) r in
      let live q := match h_heap r !! q with Some e => negb (bool_decide (t_state e = Deleting)) | None => false end in
      let matches q := match h_heap r !! q with
        | Some e => bool_decide (t_conn self = t_conn e) && bool_decide (tk_ref (t_token self) = tk_ref (t_token e)) &&
                    (t_connId self =? t_connId e) && negb (bool_decide (t_state e = Deleting))
        | None => false
        end in
      match existingList with
      | [] => answer false None (Put p r)
      | first :: _ =>
        match List.find matches existingList with
        | Some q => answer true (Some q) r
        | None =>
          match List.find live existingList with
          | Some q =>
            match h_heap r !! q with
            | Some e =>
              let r := Put p (onTerm (replace e) p r) in
              let r := onTerm (setState Deleting) q (close q true false r) in
              answer true (Some q) r
            | None => r
            end
          | None => answer false (Some first) (Put p r)
          end
        end
      end
    end.

Record invalidTerminatorRemoveResult := mkInvalid { iv_existed : bool; iv_removed : bool }.
Definition removeInvalid (p : nat) (notifyCtrl : bool) (r : hostedServiceRegistry)
    : hostedServiceRegistry * invalidTerminatorRemoveResult :=
  match h_heap r !! p with
  | None => (r, mkInvalid false false)
  | Some t =>
    match Get (t_terminatorId t) r with
    | None => (r, mkInvalid false false)
    | Some q =>
      if decide (q = p) then
        if notifyCtrl then (queueRemoveTerminatorSync p r, mkInvalid true true)
        else let '(r, removed) := Remove p r in (r, mkInvalid true removed)
      else (r, mkInvalid true false)
    end
  end.

Definition channelClosed (ch : nat) (r : hostedServiceRegistry) : hostedServiceRegistry :=
  foldl (λ r p,
      match h_heap r !! p with
      | Some t => if t_v2 t then queueRemoveTerminatorUnchecked p r else close p false true r
      | None => r
      end) r (matching (λ t, bool_decide (t_ch t = ch)) r).

(** Completes and clears the slot of a terminator. *)
Definition finishSlot (o : LimiterOutcome) (p : nat) (r : hostedServiceRegistry) : hostedServiceRegistry :=
  match h_heap r !! p ≫= t_rateLimitCallback with
  | Some c => emit (LimiterDone c o) (onTerm (SetRateLimitCallback None) p r)
  | None => r
  end.
Definition markEstablished (p : nat) (r : hostedServiceRegistry) : hostedServiceRegistry :=
  onTerm (setActive false) p (onTerm (updateState Establishing Established) p (finishSlot LimSuccess p r)).

Definition handle (ev : terminatorEvent) (r : hostedServiceRegistry) : hostedServiceRegistry :=
  match ev with
  | queueEstablishTerminator p => queueEstablishTerminatorSync p r
  | requeueRemoveTerminator p => requeueRemoveTerminatorSync p r
  | queueRemoveTerminator p => queueRemoveTerminatorSync p r
  | channelClosedEvent ch => channelClosed ch r
  | findMatchingEvent p => findMatching p r
  | sdkTerminatorInvalidEvent p notifyCtrl => (removeInvalid p notifyCtrl r).1
  | markEstablishedEvent p => markEstablished p r
  end.

(** ** The sets of waiting terminators *)

(** For each terminator tried: the slot of the rate limiter, if it gives one, and
    whether the create request could be handed to a controller channel. *)
Record EstablishEnv := mkEstEnv { ee_slot : option nat; ee_sent : bool }.

Definition dequeueEstablish (id : string) (r : hostedServiceRegistry) : hostedServiceRegistry :=
  upd_establishSet (delete id (h_establishSet r)) r.

Fixpoint evaluateEstablishQueue (order : list string) (env : string → EstablishEnv) (now : Z)
    (r : hostedServiceRegistry) : hostedServiceRegistry :=
  match order with
  | [] => r
  | id :: order =>
    match h_establishSet r !! id ≫= λ p, t ← h_heap r !! p; Some (p, t) with
    | None => evaluateEstablishQueue order env now r
    | Some (p, t) =>
      if decide (t_ch t ∈ h_closed r) then
        evaluateEstablishQueue order env now (dequeueEstablish id (Remove p r).1)
      else if decide (t_terminatorId t = ""%string) then evaluateEstablishQueue order env now (dequeueEstablish id r)
      else if decide (t_state t ≠ Establishing) then evaluateEstablishQueue order env now (dequeueEstablish id r)
      else
        match ee_slot (env id) with
        | None => r
        | Some control =>
          if t_operationActive t && (Since now (t_lastAttempt t) <? 30 * second) then
            evaluateEstablishQueue order env now (emit (LimiterDone control LimFailed) r)
          else
            let r := onTerm (λ t, setAttempt now (SetRateLimitCallback (Some control) (setActive true t))) p
                       (dequeueEstablish id r) in
            if ee_sent (env id) then
              evaluateEstablishQueue order env now (emit (SentCreate (t_terminatorId t) p) r)
            else emit (LimiterDone control LimFailed) (queueEstablishTerminatorSync p r)
        end
    end
  end.

(** For each batch: whether the limiter is at its limit and whether the pool takes
    the batch. *)
Record DeleteEnv := mkDelEnv { de_limited : bool; de_accepted : bool }.

Definition RemoveTerminatorsRateLimited (ps : list nat) (env : DeleteEnv) (r : hostedServiceRegistry)
    : hostedServiceRegistry * bool :=
  if de_limited env then (requeueForDeleteSync ps r, false)
  else
    let r := foldl (λ r p, onTerm (setActive true) p r) r ps in
    if de_accepted env then (upd_batches (h_batches r ++ [ps]) r, true) else (requeueForDeleteSync ps r, false).

Definition batchSize : nat := 50.

(** One entry of the set: taken out, and kept for the batch if it is due. *)
Definition dueForDelete (id : string) (p : nat) (now : Z) (r : hostedServiceRegistry) : hostedServiceRegistry * bool :=
  let r := upd_deleteSet (delete id (h_deleteSet r)) r in
  match h_heap r !! p with
  | None => (r, false)
  | Some t =>
    if decide (t_state t ≠ Deleting) then (r, false)
    else if match Get id r with Some q => negb (bool_decide (q = p)) | None => false end then (r, false)
    else if t_operationActive t then
      if Since now (t_lastAttempt t) >? 30 * second then (onTerm (setActive false) p r, true) else (r, false)
    else (r, true)
  end.

Fixpoint evaluateDeleteQueue (order : list string) (env : nat → DeleteEnv) (now : Z) (deleteList : list nat)
    (r : hostedServiceRegistry) : hostedServiceRegistry :=
  match order with
  | [] => if decide (deleteList = []) then r else (RemoveTerminatorsRateLimited deleteList (env 0%nat) r).1
  | id :: order =>
    match h_deleteSet r !! id with
    | None => evaluateDeleteQueue order env now deleteList r
    | Some p =>
      let '(r, due) := dueForDelete id p now r in
      if due then
        let deleteList := deleteList ++ [p] in
        if (batchSize <=? length deleteList)%nat then
          let '(r, ok) := RemoveTerminatorsRateLimited deleteList (env (length order)) r in
          if ok then evaluateDeleteQueue order env now [] r else r
        else evaluateDeleteQueue order env now deleteList r
      else evaluateDeleteQueue order env now deleteList r
    end
  end.

Inductive BatchOutcome :=
| BatchLimited                                    (* no slot *)
| BatchFailed (control : nat) (sent busy : bool)  (* no controller, no answer or an error *)
| BatchDone (control : nat).

Definition idsOf (ps : list nat) (r : hostedServiceRegistry) : list string :=
  ps ≫= λ p, match h_heap r !! p with Some t => [t_terminatorId t] | None => [] end.
Definition requeueAll (ps : list nat) (r : hostedServiceRegistry) : hostedServiceRegistry :=
  upd_events (h_events r ++ (requeueRemoveTerminator <$> ps)) r.
(** The function given to the pool. *)
Definition runBatch (ps : list nat) (o : BatchOutcome) (r : hostedServiceRegistry) : hostedServiceRegistry :=
  match o with
  | BatchLimited => requeueAll ps r
  | BatchFailed control sent busy =>
    let r := if sent then emit (SentDelete (idsOf ps r)) r else r in
    requeueAll ps (emit (LimiterDone control (if busy then LimBackoff else LimFailed)) r)
  | BatchDone control =>
    let r := emit (LimiterDone control LimSuccess) (emit (SentDelete (idsOf ps r)) r) in
    foldl (λ r p, (Remove p (onTerm (setActive false) p r)).1) r ps
  end.

(** The terminators that need work and were not tried for two minutes. *)
Definition scanForRetries (now : Z) (r : hostedServiceRegistry) : hostedServiceRegistry :=
  foldl (λ r p,
      match h_heap r !! p with
      | Some t =>
        match t_state t with
        | Establishing => queueEstablishTerminatorSync p r
        | Deleting => requeueRemoveTerminatorSync p r
        | Established => r
        end
      | None => r
      end) r
    (matching (λ t, IsWorkRequired (t_state t) && (Since now (t_lastAttempt t) >? 120 * second)) r).

(** ** Responses of the controller *)

Inductive CreateTerminatorResult := CtSuccess | CtFailedBusy | CtFailedOther.

(** [retryDefault]: the retry hint is [RetryDefault]. [None] is the call of a nil
    callback. *)
Definition HandleCreateTerminatorResponse (terminatorId : string) (res : CreateTerminatorResult) (retryDefault : bool)
    (r : hostedServiceRegistry) : option hostedServiceRegistry :=
  match Get terminatorId r ≫= λ p, t ← h_heap r !! p; Some (p, t) with
  | None => Some (triggerEvaluates r)
  | Some (p, t) =>
    match res with
    | CtFailedBusy =>
      Some (triggerEvaluates (queue (queueEstablishTerminator p) (finishSlot LimBackoff p r)))
    | CtFailedOther =>
      let r := onTerm (setActive false) p (finishSlot LimSuccess p r) in
      if retryDefault then
        let n := wrap_u 32 (t_failureCount t + 1) in
        let r := onTerm (setFailures n) p r in
        Some (triggerEvaluates (if n =? 3 then close p true false r else r))
      else Some (triggerEvaluates (close p true false r))
    | CtSuccess =>
      let r := queue (markEstablishedEvent p) (onTerm (setFailures 0) p r) in
      match t_establishCallback t with
      | None => None
      | Some notify => Some (triggerEvaluates (if notify then emit (SdkBindSuccess p) r else r))
      end
    end
  end.

(** After reconnecting to a controller; the second part runs ten seconds later. *)
Definition HandleReconnect (r : hostedServiceRegistry) : hostedServiceRegistry :=
  let reestablishList := matching (λ t, bool_decide (t_state t = Established)) r in
  upd_reconnects (h_reconnects r ++ [reestablishList])
    (foldl (λ r p, onTerm (updateState Established Establishing) p r) r reestablishList).
Definition finishReconnect (ps : list nat) (r : hostedServiceRegistry) : hostedServiceRegistry :=
  foldl (λ r p,
      match h_heap r !! p with
      | Some t => if decide (t_state t = Establishing) then queue (queueEstablishTerminator p) r else r
      | None => r
      end) r ps.

(** ** Binding *)

(** [checkForExistingListenerId], up to the wait for the answer. *)
Definition startBind (p : nat) (t : edgeTerminator) (r : hostedServiceRegistry) : hostedServiceRegistry :=
  let r := upd_heap (<[p := t]> (h_heap r)) r in
  if decide (t_listenerId t = ""%string) then
    upd_results (<[p := mkCheck false None]> (h_results r)) (Put p (upd_gates ({[p]} ∪ h_gates r) r))
  else queue (findMatchingEvent p) r.
(** The wait is over after 100 ms, unless the event is being handled. *)
Definition timeoutBind (p : nat) (r : hostedServiceRegistry) : hostedServiceRegistry :=
  if decide (p ∈ h_gates r ∨ h_heap r !! p = None) then r
  else upd_results (<[p := mkCheck false None]> (h_results r)) (Put p (upd_gates ({[p]} ∪ h_gates r) r)).

(** [processBindV2] after the check. *)
Definition finishBind (p : nat) (notifyEstablished hasAccess : bool) (r : hostedServiceRegistry) : hostedServiceRegistry :=
  match h_results r !! p, h_heap r !! p with
  | Some checkResult, Some t =>
    let r := upd_results (delete p (h_results r)) r in
    if decide (t_state t = Deleting) then r
    else
      let r := onTerm (setEstablishCallback notifyEstablished) p r in
      let r :=
        if ck_replaceExisting checkResult then if notifyEstablished then emit (SdkBindSuccess p) r else r
        else
          let r := queue (queueEstablishTerminator p) r in
          if decide (t_listenerId t = ""%string) then cleanupDuplicates p r else r in
      if hasAccess then r else close p true true r
  | _, _ => r
  end.

(** ** Transitions *)

Inductive Op :=
| OpBind (p : nat) (t : edgeTerminator)
| OpBindTimeout (p : nat)
| OpBindDone (p : nat) (notifyEstablished hasAccess : bool)
| OpEvent (i : nat)                        (* the run loop takes a waiting event *)
| OpEstablish (order : list string) (env : string → EstablishEnv) (now : Z)
| OpDelete (order : list string) (env : nat → DeleteEnv) (now : Z)
| OpScan (now : Z)
| OpBatch (i : nat) (o : BatchOutcome)     (* a worker of the pool *)
| OpResponse (terminatorId : string) (res : CreateTerminatorResult) (retryDefault : bool)
| OpReconnect
| OpReconnected (i : nat)
| OpUnbind (connId : Z) (tokenId : string) (proxy : nat)
| OpBindAccessLost (serviceId : string)
| OpSessionEnded (p : nat)
| OpChannelClosed (ch : nat)
| OpInspectedInvalid (p : nat) (notifyCtrl : bool)
| OpValidated (terminatorId : string).

(** A bind comes with a new object and a new id, on a channel that was open. *)
Definition newTerminator (p : nat) (t : edgeTerminator) (r : hostedServiceRegistry) : Prop :=
  h_heap r !! p = None ∧ t_v2 t = true ∧ t_state t = Establishing ∧ t_terminatorId t ≠ ""%string ∧
  map_Forall (λ _ q, t_terminatorId q ≠ t_terminatorId t) (h_heap r).
#[global] Instance newTerminator_dec p t r : Decision (newTerminator p t r).
Proof. apply _. Defined.

Definition dropAt {A} (i : nat) (l : list A) : list A := take i l ++ drop (S i) l.

(** [None] is a panic; an operation that is not possible in the state does
    nothing. *)
Definition step (op : Op) (r : hostedServiceRegistry) : option hostedServiceRegistry :=
  match op with
  | OpBind p t => Some (if decide (newTerminator p t r) then startBind p t r else r)
  | OpBindTimeout p => Some (timeoutBind p r)
  | OpBindDone p n a => Some (finishBind p n a r)
  | OpEvent i =>
    Some (match h_events r !! i with
          | Some ev => handle ev (upd_events (dropAt i (h_events r)) r)
          | None => r
          end)
  | OpEstablish order env now => Some (evaluateEstablishQueue order env now r)
  | OpDelete order env now => Some (evaluateDeleteQueue order env now [] r)
  | OpScan now => Some (scanForRetries now r)
  | OpBatch i o =>
    Some (match h_batches r !! i with
          | Some ps => runBatch ps o (upd_batches (dropAt i (h_batches r)) r)
          | None => r
          end)
  | OpResponse id res d => HandleCreateTerminatorResponse id res d r
  | OpReconnect => Some (HandleReconnect r)
  | OpReconnected i =>
    Some (match h_reconnects r !! i with
          | Some ps => finishReconnect ps (upd_reconnects (dropAt i (h_reconnects r)) r)
          | None => r
          end)
  | OpUnbind c tk proxy => Some (unbindSession c tk proxy r).1
  | OpBindAccessLost s => Some (handleBindAccessLost s r)
  | OpSessionEnded p => Some (if decide (p ∈ h_gates r) then close p true true r else r)
  | OpChannelClosed ch => Some (queue (channelClosedEvent ch) (upd_closed ({[ch]} ∪ h_closed r) r))
  | OpInspectedInvalid p n => Some (if decide (p ∈ h_gates r) then queue (sdkTerminatorInvalidEvent p n) r else r)
  | OpValidated id => Some (match Get id r with Some p => queue (markEstablishedEvent p) r | None => r end)
  end.
Definition run (ops : list Op) (r : hostedServiceRegistry) : option hostedServiceRegistry := foldM step ops r.
