(* ===== verification/HostedServicesOk.v ===== *)
(** * Hosted services: the registry stays consistent

    The invariant of the registry of [HostedServices], that every transition keeps
    it, and what follows: a terminator that is in use is never deleted on the
    controller, no deletion is lost, a listener id has one terminator in use. *)

From stdpp Require Import base gmap list strings fin_maps fin_sets.
From Stdlib Require Import ZArith Lia.
From S2P Require Import Prelude HostedServices.

Open Scope Z_scope.

Implicit Types (r : hostedServiceRegistry) (t : edgeTerminator) (p q : nat).

(** ** The invariant *)

Definition current r (id : string) p : Prop := h_terminators r !! id = Some p.
(** A terminator being deleted whose id nobody else has. *)
Definition doomed r p : Prop :=
  p ∈ h_gates r ∧ ∃ t, h_heap r !! p = Some t ∧ t_state t = Deleting ∧ ∀ q, current r (t_terminatorId t) q → q = p.
Definition named r (id : string) p : Prop :=
  p ∈ h_gates r ∧ ∃ t, h_heap r !! p = Some t ∧ t_terminatorId t = id.

Definition event_ok r (ev : terminatorEvent) : Prop :=
  match ev with
  | requeueRemoveTerminator p => doomed r p
  | queueEstablishTerminator p | queueRemoveTerminator p | sdkTerminatorInvalidEvent p _ | markEstablishedEvent p =>
    p ∈ h_gates r
  | findMatchingEvent p => is_Some (h_heap r !! p) ∧ ∀ t, h_heap r !! p = Some t → t_listenerId t ≠ ""%string
  | channelClosedEvent _ => True
  end.

(** [held] are terminators taken out of the delete set, out of an event or a batch
    and still to be put somewhere; [checked] says that no bind skipped the check
    for its listener id. *)
Record reg_ok (checked : bool) (held : list nat) r : Prop := {
  ok_gates p : p ∈ h_gates r → is_Some (h_heap r !! p);
  ok_v2 p t : h_heap r !! p = Some t → t_v2 t = true;
  ok_fresh p t : h_heap r !! p = Some t → p ∉ h_gates r →
    t_state t ≠ Deleting ∧ ∀ q t', h_heap r !! q = Some t' → q ≠ p → t_terminatorId t' ≠ t_terminatorId t;
  ok_map id p : h_terminators r !! id = Some p → named r id p;
  ok_est id p : h_establishSet r !! id = Some p → named r id p;
  ok_del id p : h_deleteSet r !! id = Some p →
    named r id p ∧ doomed r p ∧ ∀ t, h_heap r !! p = Some t → t_operationActive t = false;
  ok_batch ps : ps ∈ h_batches r → (length ps ≤ batchSize)%nat ∧ ∀ p, p ∈ ps → doomed r p;
  ok_events ev : ev ∈ h_events r → event_ok r ev;
  ok_results p c : h_results r !! p = Some c → p ∈ h_gates r;
  ok_reconnects ps p : ps ∈ h_reconnects r → p ∈ ps → p ∈ h_gates r;
  ok_held p : p ∈ held → doomed r p;
  ok_sent ids id : SentDelete ids ∈ h_sent r → id ∈ ids → ∃ p, named r id p ∧ doomed r p;
  ok_tracked id p t : current r id p → h_heap r !! p = Some t → t_state t = Deleting →
    h_deleteSet r !! id = Some p ∨ (∃ ps, ps ∈ h_batches r ∧ p ∈ ps) ∨
    requeueRemoveTerminator p ∈ h_events r ∨ p ∈ held;
  ok_unique id1 id2 p1 p2 t1 t2 : checked = true →
    current r id1 p1 → current r id2 p2 → h_heap r !! p1 = Some t1 → h_heap r !! p2 = Some t2 →
    t_state t1 ≠ Deleting → t_state t2 ≠ Deleting → t_listenerId t1 ≠ ""%string →
    t_listenerId t1 = t_listenerId t2 → t_identityId t1 = t_identityId t2 → p1 = p2;
}.

Lemma new_ok u : reg_ok u [] newHostedServicesRegistry.
Proof. constructor; unfold current; simpl; intros; try (by rewrite lookup_empty in *); set_solver. Qed.

(** ** Changes of terminators that keep the invariant *)

(** The id and the bind stay, a deletion is neither begun nor taken back, and
    a terminator of the delete set does not become active. *)
Definition steady r (h' : gmap nat edgeTerminator) : Prop :=
  ∀ q, match h_heap r !! q, h' !! q with
       | Some t, Some t' =>
         t_terminatorId t' = t_terminatorId t ∧ t_listenerId t' = t_listenerId t ∧ t_identityId t' = t_identityId t ∧
         t_v2 t' = t_v2 t ∧ (t_state t' = Deleting ↔ t_state t = Deleting) ∧
         (t_operationActive t' = true → t_operationActive t = true ∨ ∀ id, h_deleteSet r !! id ≠ Some q)
       | None, None => True
       | _, _ => False
       end.

Lemma steady_back r h' q t' : steady r h' → h' !! q = Some t' →
  ∃ t, h_heap r !! q = Some t ∧ t_terminatorId t' = t_terminatorId t ∧ t_listenerId t' = t_listenerId t ∧
    t_identityId t' = t_identityId t ∧ t_v2 t' = t_v2 t ∧ (t_state t' = Deleting ↔ t_state t = Deleting) ∧
    (t_operationActive t' = true → t_operationActive t = true ∨ ∀ id, h_deleteSet r !! id ≠ Some q).
Proof. intros H Hq. specialize (H q). rewrite Hq in H. destruct (h_heap r !! q); [eauto|done]. Qed.
Lemma steady_fwd r h' q t : steady r h' → h_heap r !! q = Some t →
  ∃ t', h' !! q = Some t' ∧ t_terminatorId t' = t_terminatorId t ∧ (t_state t' = Deleting ↔ t_state t = Deleting).
Proof. intros H Hq. specialize (H q). rewrite Hq in H. destruct (h' !! q); naive_solver. Qed.

Lemma steady_named r h' id q : steady r h' → named r id q → named (upd_heap h' r) id q.
Proof.
  intros H (Hg & t & Ht & Hid). split; [done|]. destruct (steady_fwd _ _ _ _ H Ht) as (t' & ? & ? & _).
  exists t'. simpl. by split; [|congruence].
Qed.
Lemma steady_doomed r h' q : steady r h' → doomed r q → doomed (upd_heap h' r) q.
Proof.
  intros H (Hg & t & Ht & Hd & Hc). split; [done|]. destruct (steady_fwd _ _ _ _ H Ht) as (t' & ? & E & Hs).
  exists t'. simpl. split_and!; [done|by apply Hs|]. unfold current in *. simpl. by rewrite E.
Qed.
Lemma steady_event r h' ev : steady r h' → event_ok r ev → event_ok (upd_heap h' r) ev.
Proof.
  intros H. destruct ev; simpl; try done; [by apply steady_doomed|]. intros [[t Ht] Hl]. split.
  - destruct (steady_fwd _ _ _ _ H Ht) as (t' & -> & _). done.
  - intros t' Ht'. destruct (steady_back _ _ _ _ H Ht') as (t0 & H0 & _ & -> & _). by apply Hl.
Qed.

Lemma ok_heap u held r h' : reg_ok u held r → steady r h' → reg_ok u held (upd_heap h' r).
Proof.
  intros O H. constructor; cbn [upd_heap h_heap h_terminators h_establishSet h_deleteSet h_events h_gates h_results
    h_batches h_reconnects h_sent].
  - intros p [t Ht]%(ok_gates _ _ _ O). destruct (steady_fwd _ _ _ _ H Ht) as (t' & -> & _). done.
  - intros p t' (t & Ht & _ & _ & _ & -> & _)%(steady_back _ _ _ _ H). by eapply ok_v2.
  - intros p t' (t & Ht & -> & _ & _ & _ & Hs & _)%(steady_back _ _ _ _ H) Hp.
    destruct (ok_fresh _ _ _ O _ _ Ht Hp) as [H1 H2]. split; [by rewrite Hs|].
    intros q u' (t1 & Ht1 & -> & _)%(steady_back _ _ _ _ H) Hne. by eapply H2.
  - intros id p Hp. by apply steady_named, (ok_map _ _ _ O).
  - intros id p Hp. by apply steady_named, (ok_est _ _ _ O).
  - intros id p Hp. destruct (ok_del _ _ _ O _ _ Hp) as (H1 & H2 & H3). split_and!.
    + by apply steady_named.
    + by apply steady_doomed.
    + intros t' (t & Ht & _ & _ & _ & _ & _ & Ha)%(steady_back _ _ _ _ H). apply not_true_is_false. intros E.
      destruct (Ha E) as [E'|E']; [|by eapply E']. by rewrite (H3 _ Ht) in E'.
  - intros ps Hps. destruct (ok_batch _ _ _ O _ Hps) as [H1 H2]. split; [done|]. intros p Hp. by apply steady_doomed, H2.
  - intros ev Hev. by apply steady_event, (ok_events _ _ _ O).
  - apply (ok_results _ _ _ O).
  - apply (ok_reconnects _ _ _ O).
  - intros p Hp. by apply steady_doomed, (ok_held _ _ _ O).
  - intros ids id Hs Hid. destruct (ok_sent _ _ _ O _ _ Hs Hid) as (p & ? & ?). exists p.
    split; [by apply steady_named|by apply steady_doomed].
  - intros id p t' Hc (t & Ht & _ & _ & _ & _ & Hs & _)%(steady_back _ _ _ _ H) Hd. by apply (ok_tracked _ _ _ O id p t Hc Ht), Hs.
  - intros id1 id2 p1 p2 t1' t2' Hu Hc1 Hc2 (t1 & Ht1 & _ & -> & -> & _ & Hs1 & _)%(steady_back _ _ _ _ H)
      (t2 & Ht2 & _ & -> & -> & _ & Hs2 & _)%(steady_back _ _ _ _ H). rewrite Hs1, Hs2. by eapply (ok_unique _ _ _ O).
Qed.

(** A change of one terminator. *)
Definition calm (f : edgeTerminator → edgeTerminator) : Prop :=
  ∀ t, t_terminatorId (f t) = t_terminatorId t ∧ t_listenerId (f t) = t_listenerId t ∧
    t_identityId (f t) = t_identityId t ∧ t_v2 (f t) = t_v2 t ∧ (t_state (f t) = Deleting ↔ t_state t = Deleting).
Definition quiet (f : edgeTerminator → edgeTerminator) : Prop :=
  calm f ∧ ∀ t, t_operationActive (f t) = true → t_operationActive t = true.

Lemma ok_onTerm_active u held r f p :
  reg_ok u held r → calm f → (∀ id, h_deleteSet r !! id ≠ Some p) → reg_ok u held (onTerm f p r).
Proof.
  intros O Hf Hp. apply ok_heap; [done|]. intros q. destruct (decide (q = p)) as [->|Hne].
  - rewrite lookup_alter_eq. destruct (h_heap r !! p) as [t|]; [|done]. simpl. destruct (Hf t) as (? & ? & ? & ? & ?).
    split_and!; [done..|]. by right.
  - rewrite lookup_alter_ne by done. destruct (h_heap r !! q); naive_solver.
Qed.
Lemma ok_onTerm u held r f p : reg_ok u held r → quiet f → reg_ok u held (onTerm f p r).
Proof.
  intros O [Hf Ha]. apply ok_heap; [done|]. intros q. destruct (decide (q = p)) as [->|Hne].
  - rewrite lookup_alter_eq. destruct (h_heap r !! p) as [t|]; [|done]. simpl. destruct (Hf t) as (? & ? & ? & ? & ?).
    split_and!; [done..|]. intros. left. by apply Ha.
  - rewrite lookup_alter_ne by done. destruct (h_heap r !! q); naive_solver.
Qed.

Lemma setActive_quiet : quiet (setActive false).
Proof. by split; [intros t; split_and!|intros t]. Qed.
Lemma setFailures_quiet n : quiet (setFailures n).
Proof. by split; [intros t; split_and!|intros t]. Qed.
Lemma setCallback_quiet b : quiet (setEstablishCallback b).
Proof. by split; [intros t; split_and!|intros t]. Qed.
Lemma setSlot_quiet c : quiet (SetRateLimitCallback c).
Proof. by split; [intros t; split_and!|intros t]. Qed.
Lemma updateState_quiet a b : a ≠ Deleting → b ≠ Deleting → quiet (updateState a b).
Proof.
  intros Ha Hb. split; intros t; unfold updateState; case_decide as E; try done.
  simpl. split_and!; try done; split; [done|congruence].
Qed.
Create HintDb hosted.
#[export] Hint Resolve setActive_quiet setFailures_quiet setCallback_quiet setSlot_quiet : hosted.

(** ** Changes of the other fields *)

Lemma ok_emit u held r e : (∀ ids, e ≠ SentDelete ids) → reg_ok u held r → reg_ok u held (emit e r).
Proof.
  intros He O. destruct O; constructor; simpl; eauto.
  intros ids id [?|E%list_elem_of_singleton]%elem_of_app Hid; [by eapply ok_sent0|]. by destruct (He ids).
Qed.
Lemma ok_trigger u held r : reg_ok u held r → reg_ok u held (triggerEvaluates r).
Proof. intros O. by destruct O. Qed.
Lemma ok_closed u held r x : reg_ok u held r → reg_ok u held (upd_closed x r).
Proof. intros O. by destruct O. Qed.
Lemma ok_answer u held r m p c :
  m = h_results r → p ∈ h_gates r → reg_ok u held r → reg_ok u held (upd_results (<[p := c]> m) r).
Proof.
  intros -> Hp O. destruct O; constructor; simpl; eauto. intros q c'. rewrite lookup_insert_Some. naive_solver.
Qed.
Lemma ok_consume u held r p : reg_ok u held r → reg_ok u held (upd_results (delete p (h_results r)) r).
Proof. intros O. destruct O; constructor; simpl; eauto. intros q c' [_ ?]%lookup_delete_Some. eauto. Qed.
Lemma ok_reconnects_sub u held r l : (∀ ps, ps ∈ l → ps ∈ h_reconnects r ∨ ∀ p, p ∈ ps → p ∈ h_gates r) →
  reg_ok u held r → reg_ok u held (upd_reconnects l r).
Proof. intros Hl O. destruct O; constructor; simpl; eauto. intros ps p [?|?]%Hl; eauto. Qed.

Lemma ok_queue u held r ev : event_ok r ev → reg_ok u held r → reg_ok u held (queue ev r).
Proof.
  intros He O. destruct O; constructor; simpl; eauto.
  - intros ev' [?|E%list_elem_of_singleton]%elem_of_app; [by apply ok_events0|by subst].
  - intros id p t H1 H2 H3. setoid_rewrite elem_of_app. destruct (ok_tracked0 id p t H1 H2 H3) as [?|[?|[?|?]]]; eauto.
Qed.
(** An event is taken: what it was to put back is held. *)
Definition heldBy (ev : terminatorEvent) : list nat :=
  match ev with requeueRemoveTerminator p => [p] | _ => [] end.
Lemma elem_of_dropAt {A} (x : A) i l : x ∈ dropAt i l → x ∈ l.
Proof.
  unfold dropAt. rewrite elem_of_app. intros [H|H]; [by eapply subseteq_take|by eapply subseteq_drop].
Qed.
Lemma dropAt_elem {A} (x y : A) i l : l !! i = Some y → x ∈ l → x = y ∨ x ∈ dropAt i l.
Proof.
  intros Hi Hx. unfold dropAt. rewrite <- (take_drop_middle l i y Hi), elem_of_app, elem_of_cons in Hx.
  rewrite elem_of_app. tauto.
Qed.
Lemma ok_take_event u held r i ev : h_events r !! i = Some ev → reg_ok u held r →
  reg_ok u (heldBy ev ++ held) (upd_events (dropAt i (h_events r)) r).
Proof.
  intros Hi O. pose proof (ok_events _ _ _ O ev ltac:(by eapply list_elem_of_lookup_2)) as He.
  destruct O; constructor; simpl; eauto.
  - intros ev' Hev'%elem_of_dropAt. by apply ok_events0.
  - intros p [Hp|Hp]%elem_of_app; [|by apply ok_held0]. destruct ev; simpl in Hp; try by apply elem_of_nil in Hp.
    apply list_elem_of_singleton in Hp as ->. done.
  - intros id p t H1 H2 H3. destruct (ok_tracked0 id p t H1 H2 H3) as [?|[?|[Hp|?]]]; [eauto..| |].
    + destruct (dropAt_elem _ _ _ _ Hi Hp) as [<-|?]; [|by eauto]. right. right. right. simpl. left.
    + right. right. right. rewrite elem_of_app. by right.
Qed.
Lemma ok_take_batch u r i ps : h_batches r !! i = Some ps → reg_ok u [] r →
  reg_ok u ps (upd_batches (dropAt i (h_batches r)) r).
Proof.
  intros Hi O. pose proof (ok_batch _ _ _ O ps ltac:(by eapply list_elem_of_lookup_2)) as [_ Hd].
  destruct O; constructor; simpl; eauto.
  - intros ps' Hps%elem_of_dropAt. by apply ok_batch0.
  - intros id p t H1 H2 H3. destruct (ok_tracked0 id p t H1 H2 H3) as [?|[(ps' & Hps & Hp)|[?|[]%elem_of_nil]]]; [eauto| |eauto].
    destruct (dropAt_elem _ _ _ _ Hi Hps) as [<-|?]; [by eauto|]. right. left. eauto.
Qed.

Lemma ok_est_insert u held r id p : named r id p → reg_ok u held r →
  reg_ok u held (upd_establishSet (<[id := p]> (h_establishSet r)) r).
Proof.
  intros Hn O. destruct O; constructor; simpl; eauto. intros id' p'. rewrite lookup_insert_Some. naive_solver.
Qed.
Lemma ok_dequeue u held r id : reg_ok u held r → reg_ok u held (dequeueEstablish id r).
Proof. intros O. destruct O; constructor; simpl; eauto. intros id' p' [_ ?]%lookup_delete_Some. eauto. Qed.

(** ** Removing from the map *)

Lemma current_Delete r id id' q : current (Delete id r) id' q ↔ id ≠ id' ∧ current r id' q.
Proof. apply lookup_delete_Some. Qed.

Lemma doomed_Delete r id q : doomed r q → doomed (Delete id r) q.
Proof.
  intros (Hg & t & Ht & Hd & Hc). split; [done|]. exists t. split_and!; [done..|].
  intros q' [_ Hq]%current_Delete. by apply Hc.
Qed.
Lemma ok_Delete u held r id : reg_ok u held r → reg_ok u held (Delete id r).
Proof.
  intros O. constructor; cbn [Delete upd_terminators h_heap h_terminators h_establishSet h_deleteSet h_events h_gates
    h_results h_batches h_reconnects h_sent].
  - apply (ok_gates _ _ _ O).
  - apply (ok_v2 _ _ _ O).
  - apply (ok_fresh _ _ _ O).
  - intros id' p [_ Hp]%lookup_delete_Some. by apply (ok_map _ _ _ O).
  - apply (ok_est _ _ _ O).
  - intros id' p Hp. destruct (ok_del _ _ _ O _ _ Hp) as (? & ? & ?). split_and!; [done|by apply doomed_Delete|done].
  - intros ps Hps. destruct (ok_batch _ _ _ O _ Hps) as [? Hd]. split; [done|]. intros p Hp. by apply doomed_Delete, Hd.
  - intros ev Hev. pose proof (ok_events _ _ _ O _ Hev). destruct ev; try done. by apply doomed_Delete.
  - apply (ok_results _ _ _ O).
  - apply (ok_reconnects _ _ _ O).
  - intros p Hp. by apply doomed_Delete, (ok_held _ _ _ O).
  - intros ids id' Hs Hid. destruct (ok_sent _ _ _ O _ _ Hs Hid) as (p & ? & ?). exists p. split; [done|by apply doomed_Delete].
  - intros id' p t [_ Hc]%current_Delete. by apply (ok_tracked _ _ _ O).
  - intros id1 id2 p1 p2 t1 t2 Hu [_ H1]%current_Delete [_ H2]%current_Delete. by apply (ok_unique _ _ _ O id1 id2).
Qed.
Lemma ok_Remove u held r p : reg_ok u held r → reg_ok u held (Remove p r).1.
Proof. intros O. unfold Remove. destruct (h_heap r !! p); [|done]. case_decide; [by apply ok_Delete|done]. Qed.
(** The removed terminator is no longer to be tracked. *)
Lemma not_current_Remove u held r id p : reg_ok u held r → ¬ current (Remove p r).1 id p.
Proof.
  intros O Hc. unfold Remove in Hc. destruct (h_heap r !! p) as [t|] eqn:Ht.
  - case_decide as E; simpl in Hc.
    + apply current_Delete in Hc as [Hne Hc].
      destruct (ok_map _ _ _ O _ _ Hc) as (_ & t' & ? & ?). congruence.
    + destruct (ok_map _ _ _ O _ _ Hc) as (_ & t' & ? & <-). unfold current in Hc. unfold Get in E. congruence.
  - destruct (ok_map _ _ _ O _ _ Hc) as (_ & t' & ? & ?). congruence.
Qed.
Lemma ok_release u p held r : (∀ id, ¬ current r id p) → reg_ok u (p :: held) r → reg_ok u held r.
Proof.
  intros Hn O. destruct O; constructor; eauto.
  - intros q Hq. apply ok_held0. by right.
  - intros id q t H1 H2 H3. destruct (ok_tracked0 id q t H1 H2 H3) as [?|[?|[?|[->|?]%elem_of_cons]]]; [eauto..| |by eauto].
    by destruct (Hn id).
Qed.

(** ** Queueing deletions *)

Lemma ok_hold u p held r : doomed r p → reg_ok u held r → reg_ok u (p :: held) r.
Proof.
  intros Hd O. destruct O; constructor; eauto.
  - intros q [->|Hq]%elem_of_cons; [done|by apply ok_held0].
  - intros id q t H1 H2 H3. rewrite elem_of_cons. destruct (ok_tracked0 id q t H1 H2 H3) as [?|[?|[?|?]]]; eauto.
Qed.
Lemma ok_del_insert u p held r id :
  named r id p → (∀ t, h_heap r !! p = Some t → t_operationActive t = false) →
  reg_ok u (p :: held) r → reg_ok u held (upd_deleteSet (<[id := p]> (h_deleteSet r)) r).
Proof.
  intros Hn Ha O. pose proof (ok_held _ _ _ O p ltac:(left)) as Hd. destruct O; constructor; simpl; eauto.
  - intros id' p'. rewrite lookup_insert_Some. intros [[<- <-]|[Hne Hp]]; [by split_and!|]. by apply ok_del0.
  - intros q Hq. apply ok_held0. by right.
  - intros id' q t H1 H2 H3. destruct (decide (id' = id)) as [->|Hne].
    + left. rewrite lookup_insert_eq. destruct Hn as (_ & t' & Ht' & <-). destruct Hd as (_ & t'' & Ht'' & _ & Hc).
      f_equal. symmetry. apply Hc. by simplify_eq.
    + rewrite lookup_insert_ne by done. destruct (ok_tracked0 id' q t H1 H2 H3) as [?|[?|[?|[->|?]%elem_of_cons]]]; [eauto..| |by eauto].
      destruct Hn as (_ & t' & Ht' & <-). destruct (ok_map0 _ _ H1) as (_ & t'' & Ht'' & <-). congruence.
Qed.

Lemma heap_onTerm f p r t : h_heap r !! p = Some t → h_heap (onTerm f p r) !! p = Some (f t).
Proof. intros Ht. simpl. rewrite lookup_alter_eq, Ht. done. Qed.
Lemma heap_onTerm_ne f p q r : q ≠ p → h_heap (onTerm f p r) !! q = h_heap r !! q.
Proof. intros Hne. simpl. by rewrite lookup_alter_ne. Qed.

Lemma ok_requeueRemove u p held r : reg_ok u (p :: held) r → reg_ok u held (requeueRemoveTerminatorSync p r).
Proof.
  intros O. destruct (ok_held _ _ _ O p ltac:(left)) as (Hg & t & Ht & Hd & Hc).
  unfold requeueRemoveTerminatorSync. rewrite Ht. unfold Get.
  replace (match h_terminators r !! t_terminatorId t with Some q => _ | None => _ end) with true.
  - change (h_deleteSet r) with (h_deleteSet (onTerm (setActive false) p r)). apply ok_del_insert.
    + split; [done|]. exists (setActive false t). by rewrite (heap_onTerm _ _ _ _ Ht).
    + intros t'. rewrite (heap_onTerm _ _ _ _ Ht). by intros [= <-].
    + apply ok_onTerm; auto with hosted.
  - destruct (h_terminators r !! t_terminatorId t) as [q|] eqn:E; [|done]. rewrite (Hc q E).
    by rewrite !bool_decide_true.
Qed.

(** A deletion begins. *)
Definition doomTerm (t : edgeTerminator) : edgeTerminator := setActive false (setState Deleting t).
Lemma doomed_doom r p q : p ∈ h_gates r → doomed r q → doomed (onTerm doomTerm p r) q.
Proof.
  intros Hp (Hg & t & Ht & Hd & Hc). split; [done|]. destruct (decide (q = p)) as [->|Hne].
  - exists (doomTerm t). by rewrite (heap_onTerm _ _ _ _ Ht).
  - exists t. by rewrite heap_onTerm_ne.
Qed.
Lemma doom_back r p q t' : h_heap (onTerm doomTerm p r) !! q = Some t' →
  ∃ t, h_heap r !! q = Some t ∧ t_terminatorId t' = t_terminatorId t ∧ t_listenerId t' = t_listenerId t ∧
    t_identityId t' = t_identityId t ∧ t_v2 t' = t_v2 t ∧ (t_state t' ≠ Deleting → t_state t ≠ Deleting) ∧
    (q = p ∧ t' = doomTerm t ∨ q ≠ p ∧ t' = t).
Proof.
  destruct (decide (q = p)) as [->|Hne].
  - simpl. rewrite lookup_alter_eq. destruct (h_heap r !! p) as [t|]; [|done]. intros [= <-]. exists t. naive_solver.
  - rewrite heap_onTerm_ne by done. naive_solver.
Qed.
Lemma named_onTerm f r id p q : (∀ t, t_terminatorId (f t) = t_terminatorId t) → named r id q → named (onTerm f p r) id q.
Proof.
  intros Hf (Hg & t & Ht & <-). split; [done|]. destruct (decide (q = p)) as [->|Hne].
  - exists (f t). by rewrite (heap_onTerm _ _ _ _ Ht).
  - exists t. by rewrite heap_onTerm_ne.
Qed.

Lemma ok_doom u held r p t :
  reg_ok u held r → p ∈ h_gates r → h_heap r !! p = Some t → (∀ q, current r (t_terminatorId t) q → q = p) →
  reg_ok u (p :: held) (onTerm doomTerm p r).
Proof.
  intros O Hp Ht Hc. assert (doomed (onTerm doomTerm p r) p) as Hd.
  { split; [done|]. exists (doomTerm t). by rewrite (heap_onTerm _ _ _ _ Ht). }
  pose proof (λ q, doomed_doom r p q Hp) as Hmono.
  pose proof (λ id q, named_onTerm doomTerm r id p q (λ _, eq_refl)) as Hname.
  constructor; cbn [onTerm upd_heap h_terminators h_establishSet h_deleteSet h_events h_gates h_results h_batches
    h_reconnects h_sent].
  - intros q Hq. destruct (ok_gates _ _ _ O q Hq) as [t' Ht'].
    destruct (Hname (t_terminatorId t') q) as (_ & t'' & -> & _); [split; eauto|done].
  - intros q t' (t0 & Ht0 & _ & _ & _ & -> & _)%doom_back. by eapply (ok_v2 _ _ _ O).
  - intros q t' (t0 & Ht0 & -> & _ & _ & _ & _ & [[-> _]|[_ ->]])%doom_back Hq; [done|].
    destruct (ok_fresh _ _ _ O _ _ Ht0 Hq) as [H1 H2]. split; [done|].
    intros q' u' (t1 & Ht1 & -> & _)%doom_back Hne. by eapply H2.
  - intros id q Hq. by apply Hname, (ok_map _ _ _ O).
  - intros id q Hq. by apply Hname, (ok_est _ _ _ O).
  - intros id q Hq. destruct (ok_del _ _ _ O _ _ Hq) as (H1 & H2 & H3). split_and!; [by apply Hname|by apply Hmono|].
    intros t' (t0 & Ht0 & _ & _ & _ & _ & _ & [[_ ->]|[_ ->]])%doom_back; [done|by apply H3].
  - intros ps Hps. destruct (ok_batch _ _ _ O _ Hps) as [H1 H2]. split; [done|]. intros q Hq. by apply Hmono, H2.
  - intros ev Hev. pose proof (ok_events _ _ _ O _ Hev) as He. destruct ev; try done; [by apply Hmono|].
    destruct He as [[t0 Ht0] Hl]. split.
    + destruct (decide (p0 = p)) as [->|?]; [by rewrite (heap_onTerm _ _ _ _ Ht)|rewrite heap_onTerm_ne; eauto].
    + intros t' (t1 & Ht1 & _ & -> & _)%doom_back. by apply Hl.
  - apply (ok_results _ _ _ O).
  - apply (ok_reconnects _ _ _ O).
  - intros q [->|Hq]%elem_of_cons; [done|]. by apply Hmono, (ok_held _ _ _ O).
  - intros ids id Hs Hid. destruct (ok_sent _ _ _ O _ _ Hs Hid) as (q & ? & ?). exists q. split; [by apply Hname|by apply Hmono].
  - intros id q t' Hq (t0 & Ht0 & _ & _ & _ & _ & _ & [[-> _]|[_ ->]])%doom_back Hs.
    + right. right. right. left.
    + rewrite elem_of_cons. destruct (ok_tracked _ _ _ O id q t0 Hq Ht0 Hs) as [?|[?|[?|?]]]; eauto.
  - intros id1 id2 p1 p2 t1' t2' Hu Hc1 Hc2 (t1 & Ht1 & _ & -> & -> & _ & Hs1 & _)%doom_back
      (t2 & Ht2 & _ & -> & -> & _ & Hs2 & _)%doom_back ? ?. eapply (ok_unique _ _ _ O id1 id2); eauto.
Qed.

Lemma ok_queueRemoveUnchecked u held r p t :
  reg_ok u held r → p ∈ h_gates r → h_heap r !! p = Some t → (∀ q, current r (t_terminatorId t) q → q = p) →
  reg_ok u held (queueRemoveTerminatorUnchecked p r).
Proof.
  intros O Hp Ht Hc. unfold queueRemoveTerminatorUnchecked. rewrite Ht. fold doomTerm.
  change (h_deleteSet r) with (h_deleteSet (onTerm doomTerm p r)). apply ok_del_insert.
  - apply named_onTerm; [done|]. split; eauto.
  - intros t'. rewrite (heap_onTerm _ _ _ _ Ht). by intros [= <-].
  - by eapply ok_doom.
Qed.
Lemma ok_queueRemove u held r p : reg_ok u held r → p ∈ h_gates r → reg_ok u held (queueRemoveTerminatorSync p r).
Proof.
  intros O Hp. unfold queueRemoveTerminatorSync, stillCurrent, Get.
  destruct (h_heap r !! p) as [t|] eqn:Ht; [|done].
  destruct (h_terminators r !! t_terminatorId t) as [q|] eqn:E; [case_bool_decide as Eq; [subst|done]|];
    eapply ok_queueRemoveUnchecked; eauto; unfold current; intros; congruence.
Qed.
(** For a terminator already being deleted, queueing it is queueing it again. *)
Lemma queueRemove_doomed r p : doomed r p → queueRemoveTerminatorSync p r = requeueRemoveTerminatorSync p r.
Proof.
  intros (Hg & t & Ht & Hd & Hc). unfold queueRemoveTerminatorSync, stillCurrent, requeueRemoveTerminatorSync,
    queueRemoveTerminatorUnchecked, Get. rewrite Ht. unfold current in Hc.
  assert (onTerm (λ t, setActive false (setState Deleting t)) p r = onTerm (setActive false) p r) as ->.
  { unfold onTerm. f_equal. apply alter_ext. intros t'. rewrite Ht. intros [= <-]. destruct t. simpl in *. by subst. }
  destruct (h_terminators r !! t_terminatorId t) as [q|]; [|done]. rewrite (Hc q eq_refl), Hd. by rewrite !bool_decide_true.
Qed.
Lemma ok_requeueForDelete u ps held r : reg_ok u (ps ++ held) r → reg_ok u held (requeueForDeleteSync ps r).
Proof.
  unfold requeueForDeleteSync. revert r. induction ps as [|p ps IH]; intros r O; [done|]. simpl. apply IH.
  rewrite queueRemove_doomed by (apply (ok_held _ _ _ O); left). by apply ok_requeueRemove.
Qed.

Lemma ok_queueEstablish u held r p : reg_ok u held r → p ∈ h_gates r → reg_ok u held (queueEstablishTerminatorSync p r).
Proof.
  intros O Hp. unfold queueEstablishTerminatorSync. destruct (h_heap r !! p) as [t|] eqn:Ht; [|done].
  case_decide; [|done]. change (h_establishSet r) with (h_establishSet (onTerm (setActive false) p r)).
  apply ok_est_insert; [|apply ok_onTerm; auto with hosted]. apply named_onTerm; [done|]. split; eauto.
Qed.

(** ** Closing *)

Lemma ok_close u held r p a b : reg_ok u held r → p ∈ h_gates r → reg_ok u held (close p a b r).
Proof.
  intros O Hp. unfold close. destruct (h_heap r !! p) as [t|] eqn:Ht; [|done]. rewrite (ok_v2 _ _ _ O _ _ Ht).
  assert (reg_ok u held (if a && bool_decide (t_ch t ∉ h_closed r) then emit (SdkClosed p) r else r)) as O'
    by (destruct (_ && _); [by apply ok_emit|done]).
  destruct b; [|by apply ok_Remove]. apply ok_queue; [|done]. by destruct (_ && _).
Qed.
Lemma close_gates r p a b : h_gates (close p a b r) = h_gates r.
Proof.
  unfold close, Remove. destruct (h_heap r !! p) as [t|] eqn:E; [|done].
  destruct (a && _), (t_v2 t), b; simpl; try rewrite E; repeat case_match; done.
Qed.
Lemma ok_closeAll u held ps a b r : reg_ok u held r → (∀ p, p ∈ ps → p ∈ h_gates r) → reg_ok u held (closeAll a b ps r).
Proof.
  unfold closeAll. revert r. induction ps as [|p ps IH]; intros r O Hps; [done|]. simpl. apply IH.
  - apply ok_close; [done|]. apply Hps. left.
  - intros q Hq. rewrite close_gates. apply Hps. by right.
Qed.

Lemma elem_of_matching f r p : p ∈ matching f r ↔ ∃ id t, current r id p ∧ h_heap r !! p = Some t ∧ f t = true.
Proof.
  unfold matching, currents. rewrite list_elem_of_filter, list_elem_of_fmap. split.
  - intros [Hf ([id q] & -> & Hin)]. simpl in *. apply elem_of_map_to_list in Hin.
    destruct (h_heap r !! q) as [t|] eqn:E; [|done]. by exists id, t.
  - intros (id & t & Hc & Ht & Hf). rewrite Ht. split; [done|]. exists (id, p). by rewrite elem_of_map_to_list.
Qed.
Lemma matching_gates u held f r p : reg_ok u held r → p ∈ matching f r → p ∈ h_gates r.
Proof. intros O (id & t & Hc & _)%elem_of_matching. by apply (ok_map _ _ _ O _ _ Hc). Qed.

Lemma ok_cleanupDuplicates u held r p : reg_ok u held r → reg_ok u held (cleanupDuplicates p r).
Proof.
  intros O. unfold cleanupDuplicates. destruct (h_heap r !! p); [|done]. apply ok_closeAll; [done|].
  intros q [_ Hq]%list_elem_of_filter. by eapply matching_gates.
Qed.

(** ** Binding *)

Definition enrol r p (t : edgeTerminator) : hostedServiceRegistry :=
  upd_terminators (<[t_terminatorId t := p]> (h_terminators r)) (upd_gates ({[p]} ∪ h_gates r) r).
(** No terminator in use has the same listener id. *)
Definition alone r t : Prop :=
  t_listenerId t ≠ ""%string → ∀ id q e, current r id q → h_heap r !! q = Some e → t_state e ≠ Deleting →
    t_listenerId e = t_listenerId t → t_identityId e = t_identityId t → False.

Lemma current_insert r id p id' q : current (upd_terminators (<[id := p]> (h_terminators r)) r) id' q ↔
  id' = id ∧ q = p ∨ id' ≠ id ∧ current r id' q.
Proof. unfold current. simpl. rewrite lookup_insert_Some. naive_solver. Qed.

Lemma ok_enrol u held r p t :
  reg_ok u held r → p ∉ h_gates r → h_heap r !! p = Some t → (u = true → alone r t) → reg_ok u held (enrol r p t).
Proof.
  intros O Hp Ht Ha. destruct (ok_fresh _ _ _ O _ _ Ht Hp) as [Hlive Hid].
  assert (∀ id q, current (enrol r p t) id q ↔ id = t_terminatorId t ∧ q = p ∨ id ≠ t_terminatorId t ∧ current r id q) as Hcur
    by (intros; apply (current_insert (upd_gates _ r))).
  assert (∀ id q, named r id q → named (enrol r p t) id q) as Hname.
  { intros id q (Hg & ?). split; [simpl; set_solver|done]. }
  assert (∀ q, doomed r q → doomed (enrol r p t) q) as Hmono.
  { intros q (Hg & t' & Ht' & Hd & Hc). split; [simpl; set_solver|]. exists t'. split_and!; [done..|].
    intros q' [[E _]|[_ Hq]]%Hcur; [|by apply Hc]. destruct (decide (q = p)) as [->|Hne]; [done|].
    by destruct (Hid _ _ Ht' Hne). }
  constructor; cbn [enrol upd_terminators upd_gates h_heap h_establishSet h_deleteSet h_events h_gates
    h_results h_batches h_reconnects h_sent].
  - intros q [->%elem_of_singleton|Hq]%elem_of_union; [eauto|by apply (ok_gates _ _ _ O)].
  - apply (ok_v2 _ _ _ O).
  - intros q t' Hq Hn. apply (ok_fresh _ _ _ O); [done|set_solver].
  - intros id q [[-> ->]|[_ Hq]]%Hcur; [|by apply Hname, (ok_map _ _ _ O)]. split; [simpl; set_solver|by exists t].
  - intros id q Hq. by apply Hname, (ok_est _ _ _ O).
  - intros id q Hq. destruct (ok_del _ _ _ O _ _ Hq) as (? & ? & ?). split_and!; auto.
  - intros ps Hps. destruct (ok_batch _ _ _ O _ Hps) as [? H2]. split; [done|]. auto.
  - intros ev Hev. pose proof (ok_events _ _ _ O _ Hev) as He. destruct ev; simpl in *; try done; first [set_solver|by apply Hmono].
  - intros q c Hq. apply elem_of_union_r. by eapply (ok_results _ _ _ O).
  - intros ps q Hps Hq. apply elem_of_union_r. by eapply (ok_reconnects _ _ _ O).
  - intros q Hq. by apply Hmono, (ok_held _ _ _ O).
  - intros ids id Hs Hi. destruct (ok_sent _ _ _ O _ _ Hs Hi) as (q & ? & ?). exists q. auto.
  - intros id q t' [[-> ->]|[_ Hq]]%Hcur Ht' Hs; [congruence|]. by apply (ok_tracked _ _ _ O id q t').
  - intros id1 id2 p1 p2 t1 t2 Hu [[-> ->]|[_ H1]]%Hcur [[-> ->]|[_ H2]]%Hcur Ht1 Ht2 L1 L2 Hl E1 E2; [done| | |].
    + rewrite Ht in Ht1. injection Ht1 as <-. by destruct (Ha Hu Hl id2 p2 t2 H2 Ht2 L2).
    + rewrite Ht in Ht2. injection Ht2 as <-. rewrite E1 in Hl. by destruct (Ha Hu Hl id1 p1 t1 H1 Ht1 L1).
    + by eapply (ok_unique _ _ _ O id1 id2).
Qed.

Lemma ok_startBind u r p t : newTerminator p t r → reg_ok u [] r → reg_ok u [] (startBind p t r).
Proof.
  intros (Hp & Hv & Hs & Hid & Hfr) O. rewrite map_Forall_lookup in Hfr.
  assert (p ∉ h_gates r) as Hg by (intros ?%(ok_gates _ _ _ O); rewrite Hp in *; by destruct H).
  assert (∀ q x, h_heap r !! q = Some x → <[p := t]> (h_heap r) !! q = Some x) as Hkeep.
  { intros q x Hq. rewrite lookup_insert_ne; [done|]. intros <-. congruence. }
  assert (∀ id q, named r id q → named (upd_heap (<[p := t]> (h_heap r)) r) id q) as Hname.
  { intros id q (? & t' & ? & ?). split; [done|]. exists t'. split; [by apply Hkeep|done]. }
  assert (∀ q, doomed r q → doomed (upd_heap (<[p := t]> (h_heap r)) r) q) as Hmono.
  { intros q (? & t' & ? & ?). split; [done|]. exists t'. split; [by apply Hkeep|done]. }
  assert (∀ q x, q ∈ h_gates r → <[p := t]> (h_heap r) !! q = Some x → h_heap r !! q = Some x) as Hback.
  { intros q x Hq. rewrite lookup_insert_ne; [done|]. by intros <-. }
  assert (reg_ok u [] (upd_heap (<[p := t]> (h_heap r)) r)) as O'.
  { constructor; cbn [upd_heap h_heap h_terminators h_establishSet h_deleteSet h_events h_gates h_results h_batches
      h_reconnects h_sent].
    - intros q [x Hx]%(ok_gates _ _ _ O). rewrite (Hkeep _ _ Hx). done.
    - intros q x [[<- <-]|[_ Hx]]%lookup_insert_Some; [done|]. by eapply (ok_v2 _ _ _ O).
    - intros q x [[<- <-]|[_ Hx]]%lookup_insert_Some Hq.
      + split; [congruence|]. intros q' t' [[<- <-]|[_ Hx]]%lookup_insert_Some Hne; [done|]. by apply (Hfr q' t').
      + destruct (ok_fresh _ _ _ O _ _ Hx Hq) as [? H2]. split; [done|].
        intros q' t' [[<- <-]|[_ Hx']]%lookup_insert_Some Hne; [|by eapply H2]. intros E. by destruct (Hfr q x Hx).
    - intros id q Hq. by apply Hname, (ok_map _ _ _ O).
    - intros id q Hq. by apply Hname, (ok_est _ _ _ O).
    - intros id q Hq. destruct (ok_del _ _ _ O _ _ Hq) as (H1 & ? & H3). split_and!; auto. intros t' Ht'. apply H3.
      apply Hback; [by apply H1|done].
    - intros ps Hps. destruct (ok_batch _ _ _ O _ Hps) as [? H2]. auto.
    - intros ev Hev. pose proof (ok_events _ _ _ O _ Hev) as He. destruct ev; simpl in *; try done; [by apply Hmono|].
      destruct He as [[x Hx] Hl]. split; [by rewrite (Hkeep _ _ Hx)|]. rewrite (Hkeep _ _ Hx). intros ? [= <-]. auto.
    - apply (ok_results _ _ _ O).
    - apply (ok_reconnects _ _ _ O).
    - by intros q ?%elem_of_nil.
    - intros ids id Hx Hi. destruct (ok_sent _ _ _ O _ _ Hx Hi) as (q & ? & ?). exists q. auto.
    - intros id q t' Hq Ht' Hd. apply (ok_tracked _ _ _ O id q t'); [done| |done].
      apply Hback; [by apply (ok_map _ _ _ O _ _ Hq)|done].
    - intros id1 id2 p1 p2 t1 t2 Hu H1 H2 Ht1%Hback Ht2%Hback;
        [by apply (ok_unique _ _ _ O id1 id2)|by apply (ok_map _ _ _ O _ _ H2)|by apply (ok_map _ _ _ O _ _ H1)]. }
  unfold startBind. case_decide as Hl.
  - unfold Put. cbn [upd_gates upd_heap h_heap]. rewrite lookup_insert_eq. apply ok_answer; [done|simpl; set_solver|].
    apply (ok_enrol u [] _ p t O'); [done|simpl; apply lookup_insert_eq|]. by intros _ ?.
  - apply ok_queue; [|done]. simpl. rewrite lookup_insert_eq. split; [done|]. by intros ? [= <-].
Qed.

(** A bind takes over the id of a terminator in use. *)
Definition takenOver r p q (e : edgeTerminator) : hostedServiceRegistry :=
  onTerm (setState Deleting) q
    (upd_terminators (<[t_terminatorId e := p]> (h_terminators r))
       (onTerm (replace e) p (upd_gates ({[p]} ∪ h_gates r) r))).

Section Takeover.
Context (u : bool) (held : list nat) r p q (self e : edgeTerminator) (O : reg_ok u held r).
Context (Hp : p ∉ h_gates r) (Hself : h_heap r !! p = Some self).
Context (Hq : current r (t_terminatorId e) q) (He : h_heap r !! q = Some e) (Hlive : t_state e ≠ Deleting).

Lemma taken_ne : p ≠ q.
Proof using All. intros ->. by destruct (ok_map _ _ _ O _ _ Hq). Qed.
Lemma taken_heap x t' : h_heap (takenOver r p q e) !! x = Some t' →
  x = p ∧ t' = replace e self ∨ x = q ∧ t' = setState Deleting e ∨ x ≠ p ∧ x ≠ q ∧ h_heap r !! x = Some t'.
Proof using All.
  unfold takenOver, onTerm. simpl. pose proof taken_ne as Hne. destruct (decide (x = q)) as [->|Hxq].
  - rewrite lookup_alter_eq, lookup_alter_ne by done. rewrite He. simpl. intros [= <-]. tauto.
  - rewrite lookup_alter_ne by done. destruct (decide (x = p)) as [->|Hxp].
    + rewrite lookup_alter_eq, Hself. simpl. intros [= <-]. tauto.
    + rewrite lookup_alter_ne by done. tauto.
Qed.
Lemma taken_heap_p : h_heap (takenOver r p q e) !! p = Some (replace e self).
Proof using All.
  unfold takenOver, onTerm. simpl. pose proof taken_ne. by rewrite lookup_alter_ne, lookup_alter_eq, Hself.
Qed.
Lemma taken_heap_q : h_heap (takenOver r p q e) !! q = Some (setState Deleting e).
Proof using All.
  unfold takenOver, onTerm. simpl. pose proof taken_ne. by rewrite lookup_alter_eq, lookup_alter_ne, He.
Qed.
Lemma taken_heap_ne x : x ≠ p → x ≠ q → h_heap (takenOver r p q e) !! x = h_heap r !! x.
Proof using All. intros. unfold takenOver, onTerm. simpl. by rewrite !lookup_alter_ne. Qed.
Lemma taken_current id x : current (takenOver r p q e) id x ↔ id = t_terminatorId e ∧ x = p ∨ id ≠ t_terminatorId e ∧ current r id x.
Proof using All. exact (current_insert r (t_terminatorId e) p id x). Qed.

Lemma taken_named id x : named r id x → named (takenOver r p q e) id x.
Proof using All.
  intros (Hg & t & Ht & <-). split; [simpl; set_solver|]. destruct (decide (x = q)) as [->|Hne].
  - exists (setState Deleting e). rewrite taken_heap_q. split; [done|]. simpl. congruence.
  - exists t. rewrite taken_heap_ne; [done| |done]. by intros ->.
Qed.
Lemma taken_doomed x : doomed r x → doomed (takenOver r p q e) x.
Proof using All.
  intros (Hg & t & Ht & Hd & Hc). assert (x ≠ q) as Hxq by (intros ->; congruence). split; [simpl; set_solver|].
  exists t. rewrite taken_heap_ne; [|by intros ->|done]. split_and!; [done..|].
  intros y [[E _]|[_ Hy]]%taken_current; [|by apply Hc]. destruct Hxq. symmetry. apply Hc. by rewrite E.
Qed.

Lemma ok_takenOver : (u = true → t_listenerId self = t_listenerId e ∧ t_identityId self = t_identityId e) →
  reg_ok u held (takenOver r p q e).
Proof using All.
  intros Hsame. destruct (ok_fresh _ _ _ O _ _ Hself Hp) as [Hps Hpid]. pose proof taken_ne as Hne.
  constructor.
  - intros x [->%elem_of_singleton|Hx]%elem_of_union; [rewrite taken_heap_p; eauto|].
    destruct (ok_gates _ _ _ O _ Hx) as [t Ht]. by destruct (taken_named (t_terminatorId t) x) as (_ & ? & -> & _); [split; eauto|].
  - intros x t [[-> ->]|[[-> ->]|(_ & _ & Ht)]]%taken_heap; [exact (ok_v2 _ _ _ O p _ Hself)|exact (ok_v2 _ _ _ O q _ He)|by apply (ok_v2 _ _ _ O x)].
  - intros x t Ht Hx. apply not_elem_of_union in Hx as [Hxp Hxg].
    apply taken_heap in Ht as [[-> _]|[[-> _]|(_ & _ & Ht)]]; [set_solver|by destruct (ok_map _ _ _ O _ _ Hq)|].
    destruct (ok_fresh _ _ _ O _ _ Ht Hxg) as [H1 H2]. split; [done|].
    intros y t' [[-> ->]|[[-> ->]|(_ & _ & Ht')]]%taken_heap Hy; [|by apply (H2 q e)|by eapply H2].
    simpl. apply (H2 q e); [done|]. intros ->. by destruct (ok_map _ _ _ O _ _ Hq).
  - intros id x [[-> ->]|[_ Hx]]%taken_current; [|by apply taken_named, (ok_map _ _ _ O)].
    split; [simpl; set_solver|]. exists (replace e self). by rewrite taken_heap_p.
  - intros id x Hx. by apply taken_named, (ok_est _ _ _ O).
  - intros id x Hx. destruct (ok_del _ _ _ O _ _ Hx) as (H1 & H2 & H3). split_and!; [by apply taken_named|by apply taken_doomed|].
    destruct H1 as [Hg _]. destruct H2 as (_ & tx & Htx & Hdx & _).
    intros t [[-> ->]|[[-> ->]|(_ & _ & Ht)]]%taken_heap; [done|congruence|by apply H3].
  - intros ps Hps'. destruct (ok_batch _ _ _ O _ Hps') as [? H2]. split; [done|]. intros x Hx. by apply taken_doomed, H2.
  - intros ev Hev. pose proof (ok_events _ _ _ O _ Hev) as Hok. destruct ev as [x|x|x|?|x|x ?|x]; cbn [event_ok] in *; try (by apply elem_of_union_r).
    + by apply taken_doomed.
    + exact I.
    + destruct Hok as [[t Ht] Hl]. split.
      * destruct (decide (x = p)) as [->|]; [rewrite taken_heap_p; eauto|].
        destruct (decide (x = q)) as [->|]; [rewrite taken_heap_q; eauto|]. rewrite taken_heap_ne; eauto.
      * intros t' [[-> ->]|[[-> ->]|(_ & _ & Ht')]]%taken_heap; [by apply (Hl self)|by apply (Hl e)|by apply Hl].
  - intros x c Hx. apply elem_of_union_r. by eapply (ok_results _ _ _ O).
  - intros ps x Hps' Hx. apply elem_of_union_r. by eapply (ok_reconnects _ _ _ O).
  - intros x Hx. by apply taken_doomed, (ok_held _ _ _ O).
  - intros ids id Hs Hi. destruct (ok_sent _ _ _ O _ _ Hs Hi) as (x & ? & ?). exists x. split; [by apply taken_named|by apply taken_doomed].
  - intros id x t [[-> ->]|[Hid Hx]]%taken_current Ht Hs.
    + rewrite taken_heap_p in Ht. by simplify_eq/=.
    + apply taken_heap in Ht as [[-> _]|[[-> _]|(_ & _ & Ht)]]; [by destruct (ok_map _ _ _ O _ _ Hx)| |by apply (ok_tracked _ _ _ O id x t)].
      destruct (ok_map _ _ _ O _ _ Hx) as (_ & t' & Ht' & <-). congruence.
  - assert (∀ id x t, current (takenOver r p q e) id x → h_heap (takenOver r p q e) !! x = Some t →
      ∃ y t', current r (if decide (x = p) then t_terminatorId e else id) y ∧ h_heap r !! y = Some t' ∧
        (x = p ∧ y = q ∧ t' = e ∧ t = replace e self ∨ x ≠ p ∧ x ≠ q ∧ y = x ∧ t' = t)) as Hback.
    { intros id x t [[-> ->]|[Hid Hx]]%taken_current Ht.
      - rewrite taken_heap_p in Ht. simplify_eq. exists q, e. rewrite decide_True by done. naive_solver.
      - assert (x ≠ p) as Hxp by (intros ->; by destruct (ok_map _ _ _ O _ _ Hx)). rewrite decide_False by done.
        apply taken_heap in Ht as [[-> _]|[[-> _]|(_ & Hxq & Ht)]]; [done| |by exists x, t; naive_solver].
        destruct (ok_map _ _ _ O _ _ Hx) as (_ & t' & Ht' & <-). congruence. }
    intros id1 id2 p1 p2 t1 t2 Hu H1 H2 Ht1 Ht2 L1 L2 Hl E1 E2. destruct (Hsame Hu) as [S1 S2].
    destruct (Hback _ _ _ H1 Ht1) as (y1 & t1' & C1 & G1 & D1). destruct (Hback _ _ _ H2 Ht2) as (y2 & t2' & C2 & G2 & D2).
    assert (y1 = y2) as Hy.
    { destruct D1 as [(-> & -> & -> & ->)|(_ & _ & -> & ->)], D2 as [(-> & -> & -> & ->)|(_ & _ & -> & ->)]; simpl in *;
        eapply (ok_unique _ _ _ O _ _ _ _ _ _ Hu C1 C2 G1 G2); simpl in *; congruence. }
    naive_solver.
Qed.
End Takeover.

(** A bind that is answered without entering the map. *)
Lemma ok_gate u held r p t :
  reg_ok u held r → h_heap r !! p = Some t → reg_ok u held (upd_gates ({[p]} ∪ h_gates r) r).
Proof.
  intros O Ht.
  assert (∀ id q, named r id q → named (upd_gates ({[p]} ∪ h_gates r) r) id q) as Hname.
  { intros id q (Hg & ?). split; [by apply elem_of_union_r|done]. }
  assert (∀ q, doomed r q → doomed (upd_gates ({[p]} ∪ h_gates r) r) q) as Hmono.
  { intros q (Hg & ?). split; [by apply elem_of_union_r|done]. }
  constructor; cbn [upd_gates h_heap h_terminators h_establishSet h_deleteSet h_events h_gates h_results h_batches
    h_reconnects h_sent].
  - intros q [->%elem_of_singleton|Hq]%elem_of_union; [eauto|by apply (ok_gates _ _ _ O)].
  - apply (ok_v2 _ _ _ O).
  - intros q t' Hq Hn. apply (ok_fresh _ _ _ O); [done|set_solver].
  - intros id q Hq. by apply Hname, (ok_map _ _ _ O).
  - intros id q Hq. by apply Hname, (ok_est _ _ _ O).
  - intros id q Hq. destruct (ok_del _ _ _ O _ _ Hq) as (? & ? & ?). auto.
  - intros ps Hps. destruct (ok_batch _ _ _ O _ Hps) as [? H2]. auto.
  - intros ev Hev. pose proof (ok_events _ _ _ O _ Hev) as He.
    destruct ev; cbn [event_ok] in *; try (by apply elem_of_union_r); try done. by apply Hmono.
  - intros q c Hq. apply elem_of_union_r. by eapply (ok_results _ _ _ O).
  - intros ps q Hps Hq. apply elem_of_union_r. by eapply (ok_reconnects _ _ _ O).
  - intros q Hq. by apply Hmono, (ok_held _ _ _ O).
  - intros ids id Hs Hi. destruct (ok_sent _ _ _ O _ _ Hs Hi) as (q & ? & ?). exists q. auto.
  - apply (ok_tracked _ _ _ O).
  - apply (ok_unique _ _ _ O).
Qed.

Definition sameListener (self t : edgeTerminator) : bool :=
  t_v2 t && bool_decide (t_listenerId t = t_listenerId self) && bool_decide (t_identityId t = t_identityId self).
Lemma alone_if u held r self :
  reg_ok u held r →
  (∀ q e, q ∈ matching (sameListener self) r → h_heap r !! q = Some e → t_state e = Deleting) → alone r self.
Proof.
  intros O H Hl id q e Hc He Hs E1 E2. apply Hs, (H q e); [|done]. apply elem_of_matching. exists id, e.
  split_and!; [done..|]. unfold sameListener. by rewrite (ok_v2 _ _ _ O _ _ He), !bool_decide_true.
Qed.

(** What closing the terminator taken over leaves: it is not in the map any more. *)
Lemma close_taken r p q e self :
  p ≠ q → h_heap r !! p = Some self → h_heap r !! q = Some e → t_v2 e = true →
  let r1 := upd_gates ({[p]} ∪ h_gates r) r in
  onTerm (setState Deleting) q (close q true false (Put p (onTerm (replace e) p r1))) = takenOver r p q e ∨
  onTerm (setState Deleting) q (close q true false (Put p (onTerm (replace e) p r1))) = emit (SdkClosed q) (takenOver r p q e).
Proof.
  intros Hne Hp Hq Hv r1.
  assert (h_heap (onTerm (replace e) p r1) !! p = Some (replace e self)) as E1 by by apply heap_onTerm.
  assert (h_heap (onTerm (replace e) p r1) !! q = Some e) as E2 by (rewrite heap_onTerm_ne; done).
  unfold Put. rewrite E1. unfold close. cbn [upd_terminators h_heap]. rewrite E2, Hv.
  assert (∀ r2, h_terminators r2 !! t_terminatorId e = Some p → h_heap r2 !! q = Some e → (Remove q r2).1 = r2) as HR.
  { intros r2 Hc Hh. unfold Remove, Get. rewrite Hh, decide_False; [done|]. rewrite Hc. congruence. }
  rewrite HR; [|by destruct (_ && _); simpl; rewrite lookup_insert_eq|by destruct (_ && _)].
  destruct (_ && _); [by right|by left].
Qed.

Lemma ok_findMatching u held r p : reg_ok u held r → event_ok r (findMatchingEvent p) → reg_ok u held (findMatching p r).
Proof.
  intros O [[self Hself] Hlis]. unfold findMatching. case_decide as Hg; [done|]. cbn [upd_gates h_heap].
  rewrite Hself. fold (sameListener self).
  set (r1 := upd_gates ({[p]} ∪ h_gates r) r). change (matching _ r1) with (matching (sameListener self) r).
  assert (Put p r1 = enrol r p self) as EP by (unfold Put, r1; simpl; by rewrite Hself).
  assert (p ∈ h_gates r1) as Hg1 by (unfold r1; simpl; set_solver).
  destruct (matching (sameListener self) r) as [|first rest] eqn:El.
  { rewrite EP. apply ok_answer; [done..|]. apply ok_enrol; [done..|]. intros _. eapply alone_if; [done|].
    rewrite El. by intros q e ?%elem_of_nil. }
  rewrite <- El. destruct (List.find _ (matching _ r)) as [q|] eqn:Ef.
  { apply ok_answer; [done..|]. by eapply ok_gate. }
  clear Ef. destruct (List.find _ (matching _ r)) as [q|] eqn:Ef.
  - apply List.find_some in Ef as [Hin Hl]. apply list_elem_of_In, elem_of_matching in Hin as (id & e & Hc & He & Hs).
    rewrite He in *. apply negb_true_iff, bool_decide_eq_false in Hl.
    destruct (ok_map _ _ _ O _ _ Hc) as (Hgq & e' & He' & Eid). assert (e' = e) as -> by congruence. subst id.
    assert (p ≠ q) as Hne by (intros ->; done).
    assert (reg_ok u held (takenOver r p q e)) as OT.
    { eapply ok_takenOver; eauto. intros _. unfold sameListener in Hs.
      apply andb_true_iff in Hs as [[_ H1]%andb_true_iff H2]. apply bool_decide_eq_true in H1, H2. by split. }
    destruct (close_taken r p q e self Hne Hself He (ok_v2 _ _ _ O _ _ He)) as [E|E]; fold r1 in E; rewrite E;
      (apply ok_answer; [done|simpl; set_solver|]); [done|by apply ok_emit].
  - rewrite EP. apply ok_answer; [done..|]. apply ok_enrol; [done..|]. intros _. eapply alone_if; [done|].
    intros q e Hin He. pose proof (List.find_none _ _ Ef q) as Hn. cbv beta in Hn. rewrite He in Hn.
    apply negb_false_iff, bool_decide_eq_true in Hn; [done|]. by apply list_elem_of_In.
Qed.

(** ** Events *)

Lemma ok_removeInvalid u held r p b : reg_ok u held r → p ∈ h_gates r → reg_ok u held (removeInvalid p b r).1.
Proof.
  intros O Hp. unfold removeInvalid. destruct (h_heap r !! p) as [t|]; [|done]. destruct (Get _ r); [|done].
  case_decide; [|done]. destruct b; [by apply ok_queueRemove|]. pose proof (ok_Remove u held r p O). by destruct (Remove p r).
Qed.

Lemma gates_queueRemoveUnchecked p r : h_gates (queueRemoveTerminatorUnchecked p r) = h_gates r.
Proof. unfold queueRemoveTerminatorUnchecked. by destruct (h_heap r !! p). Qed.
Lemma current_queueRemoveUnchecked p r id q : current (queueRemoveTerminatorUnchecked p r) id q ↔ current r id q.
Proof. unfold queueRemoveTerminatorUnchecked. by destruct (h_heap r !! p). Qed.

Lemma ok_channelClosed u held r ch : reg_ok u held r → reg_ok u held (channelClosed ch r).
Proof.
  intros O. unfold channelClosed.
  assert (∀ p, p ∈ matching (λ t, bool_decide (t_ch t = ch)) r → ∃ id, current r id p) as Hc.
  { intros p (id & t & ? & _)%elem_of_matching. eauto. }
  revert Hc. generalize (matching (λ t, bool_decide (t_ch t = ch)) r). intros l. revert r O.
  induction l as [|p l IH]; intros r O Hc; [done|]. simpl.
  destruct (Hc p ltac:(left)) as [id Hid]. destruct (ok_map _ _ _ O _ _ Hid) as (Hg & t & Ht & <-).
  rewrite Ht, (ok_v2 _ _ _ O _ _ Ht). apply IH.
  - eapply ok_queueRemoveUnchecked; eauto. unfold current in *. intros; congruence.
  - intros q Hq. destruct (Hc q ltac:(by right)) as [id' ?]. exists id'. by apply current_queueRemoveUnchecked.
Qed.

Lemma ok_finishSlot u held r o p : reg_ok u held r → reg_ok u held (finishSlot o p r).
Proof.
  intros O. unfold finishSlot. destruct (_ ≫= _); [|done]. apply ok_emit; [done|]. apply ok_onTerm; auto with hosted.
Qed.
Lemma gates_finishSlot o p r : h_gates (finishSlot o p r) = h_gates r.
Proof. unfold finishSlot. by destruct (_ ≫= _). Qed.
Lemma ok_markEstablished u held r p : reg_ok u held r → reg_ok u held (markEstablished p r).
Proof.
  intros O. unfold markEstablished. apply ok_onTerm; auto with hosted. apply ok_onTerm; [|by apply updateState_quiet].
  by apply ok_finishSlot.
Qed.

Lemma ok_handle u r ev : event_ok r ev → reg_ok u (heldBy ev) r → reg_ok u [] (handle ev r).
Proof.
  intros He O. destruct ev; simpl in *.
  - by apply ok_queueEstablish.
  - by apply ok_requeueRemove.
  - by apply ok_queueRemove.
  - by apply ok_channelClosed.
  - by apply ok_findMatching.
  - by apply ok_removeInvalid.
  - by apply ok_markEstablished.
Qed.

(** ** Evaluating the sets *)

Lemma ok_evaluateEstablish u order env now r :
  reg_ok u [] r → reg_ok u [] (evaluateEstablishQueue order env now r).
Proof.
  revert r. induction order as [|id order IH]; intros r O; [done|]. simpl.
  destruct (h_establishSet r !! id) as [p|] eqn:Ep; simpl; [|by apply IH].
  destruct (h_heap r !! p) as [t|] eqn:Ht; simpl; [|by apply IH].
  destruct (ok_est _ _ _ O _ _ Ep) as (Hg & _).
  case_decide; [by apply IH, ok_dequeue, ok_Remove|]. case_decide; [by apply IH, ok_dequeue|].
  case_decide as Hs; [by apply IH, ok_dequeue|]. destruct (ee_slot (env id)) as [c|]; [|done].
  destruct (_ && _); [by apply IH, ok_emit|].
  assert (reg_ok u [] (onTerm (λ t, setAttempt now (SetRateLimitCallback (Some c) (setActive true t))) p
                        (dequeueEstablish id r))) as O'.
  { apply ok_onTerm_active; [by apply ok_dequeue|by intros t'; split_and!|]. simpl. intros id' Hd.
    destruct (ok_del _ _ _ O _ _ Hd) as (_ & (_ & t' & Ht' & Hd' & _) & _). congruence. }
  destruct (ee_sent (env id)); [by apply IH, ok_emit|]. apply ok_emit; [done|]. by apply ok_queueEstablish.
Qed.

Lemma ok_setActives u held ps r : (∀ p id, p ∈ ps → h_deleteSet r !! id ≠ Some p) → reg_ok u held r →
  reg_ok u held (foldl (λ r p, onTerm (setActive true) p r) r ps).
Proof.
  revert r. induction ps as [|p ps IH]; intros r Hps O; [done|]. simpl. apply IH.
  - intros q id Hq. apply Hps. by right.
  - apply ok_onTerm_active; [done|by intros t; split_and!|]. intros id. apply Hps. left.
Qed.
Lemma ok_batch_insert u ps r : (length ps ≤ batchSize)%nat → reg_ok u ps r → reg_ok u [] (upd_batches (h_batches r ++ [ps]) r).
Proof.
  intros Hlen O. destruct O; constructor; simpl; eauto.
  - intros ps' [?|E%list_elem_of_singleton]%elem_of_app; [by apply ok_batch0|]. subst. by split.
  - by intros p ?%elem_of_nil.
  - intros id p t H1 H2 H3. setoid_rewrite elem_of_app.
    destruct (ok_tracked0 id p t H1 H2 H3) as [?|[(ps' & ? & ?)|[?|?]]]; [eauto|eauto 6|eauto|].
    right. left. exists ps. split; [|done]. right. by apply list_elem_of_singleton.
Qed.
Lemma ok_removeRateLimited u ps env r : (∀ p id, p ∈ ps → h_deleteSet r !! id ≠ Some p) → (length ps ≤ batchSize)%nat →
  reg_ok u ps r → reg_ok u [] (RemoveTerminatorsRateLimited ps env r).1.
Proof.
  intros Hps Hlen O. unfold RemoveTerminatorsRateLimited. destruct (de_limited env).
  - apply ok_requeueForDelete. by rewrite app_nil_r.
  - destruct (de_accepted env); simpl; [apply ok_batch_insert; [done|]|apply ok_requeueForDelete; rewrite app_nil_r];
      by apply ok_setActives.
Qed.

Lemma ok_held_ext u l l' r : (∀ p, p ∈ l ↔ p ∈ l') → reg_ok u l r → reg_ok u l' r.
Proof.
  intros Hl O. destruct O; constructor; eauto.
  - intros p Hp%Hl. by apply ok_held0.
  - intros id p t. rewrite <- Hl. apply ok_tracked0.
Qed.
Lemma ok_del_take u held r id p : h_deleteSet r !! id = Some p → reg_ok u held r →
  reg_ok u (held ++ [p]) (upd_deleteSet (delete id (h_deleteSet r)) r).
Proof.
  intros Hd O. destruct (ok_del _ _ _ O _ _ Hd) as (_ & Hp & _). destruct O; constructor; simpl; eauto.
  - intros id' q [_ ?]%lookup_delete_Some. by apply ok_del0.
  - intros q [?|E%list_elem_of_singleton]%elem_of_app; [by apply ok_held0|by subst].
  - intros id' q t H1 H2 H3. rewrite elem_of_app, list_elem_of_singleton.
    destruct (ok_tracked0 id' q t H1 H2 H3) as [Hq|[?|[?|?]]]; [|by eauto..].
    destruct (decide (id' = id)) as [->|Hne]; [right; right; right; right; congruence|].
    left. by rewrite lookup_delete_ne.
Qed.

(** Whatever is in the delete set is due. *)
Lemma dueForDelete_ok u held r id p now : reg_ok u held r → h_deleteSet r !! id = Some p →
  dueForDelete id p now r = (upd_deleteSet (delete id (h_deleteSet r)) r, true).
Proof.
  intros O Hd. destruct (ok_del _ _ _ O _ _ Hd) as ((_ & t & Ht & <-) & (_ & t' & Ht' & Hs & Hc) & Ha).
  unfold dueForDelete. cbn [upd_deleteSet h_heap]. rewrite Ht. assert (t' = t) as -> by congruence.
  rewrite decide_False by (intros E; by apply E). unfold Get. cbn [upd_deleteSet h_terminators].
  destruct (h_terminators r !! t_terminatorId t) as [q|] eqn:E.
  - rewrite (Hc q E), bool_decide_true by done. simpl. by rewrite (Ha _ Ht).
  - by rewrite (Ha _ Ht).
Qed.

Lemma taken_out u held r id p : reg_ok u held r → h_deleteSet r !! id = Some p →
  (∀ q id', q ∈ held → h_deleteSet r !! id' ≠ Some q) →
  ∀ q id', q ∈ held ++ [p] → h_deleteSet (upd_deleteSet (delete id (h_deleteSet r)) r) !! id' ≠ Some q.
Proof.
  simpl. intros O Ep Hh q id' [Hq|Hq%list_elem_of_singleton]%elem_of_app [Hne Hd]%lookup_delete_Some; [by eapply Hh|subst q].
  destruct (ok_del _ _ _ O _ _ Ep) as ((_ & t1 & Ht1 & <-) & _). destruct (ok_del _ _ _ O _ _ Hd) as ((_ & t2 & Ht2 & <-) & _).
  congruence.
Qed.

Lemma ok_evaluateDelete u order env now held r :
  (∀ p id, p ∈ held → h_deleteSet r !! id ≠ Some p) → (length held < batchSize)%nat →
  reg_ok u held r → reg_ok u [] (evaluateDeleteQueue order env now held r).
Proof.
  revert held r. induction order as [|id order IH]; intros held r Hh Hlen O; cbn [evaluateDeleteQueue].
  { case_decide as E; [by subst|]. apply ok_removeRateLimited; [done|lia|done]. }
  destruct (h_deleteSet r !! id) as [p|] eqn:Ep; [|by apply IH]. rewrite (dueForDelete_ok u held) by done.
  pose proof (ok_del_take _ _ _ _ _ Ep O) as O'.
  assert (∀ q id', q ∈ held ++ [p] → h_deleteSet (upd_deleteSet (delete id (h_deleteSet r)) r) !! id' ≠ Some q) as Hh'
    by by eapply taken_out.
  assert (length (held ++ [p]) = S (length held)) as EL by (rewrite length_app; simpl; lia).
  destruct (Nat.leb_spec batchSize (length (held ++ [p]))) as [Hle|Hlt].
  - pose proof (ok_removeRateLimited u _ (env (length order)) _ Hh' ltac:(unfold batchSize in *; lia) O') as O2.
    destruct (RemoveTerminatorsRateLimited _ _ _) as [r2 ok]. simpl in O2. destruct ok; [|done].
    apply IH; [by intros ?? ?%elem_of_nil|unfold batchSize; simpl; lia|done].
  - by apply IH.
Qed.

(** ** Batches, scans, responses, reconnects *)

Lemma ok_emit_delete u ps r : reg_ok u ps r → reg_ok u ps (emit (SentDelete (idsOf ps r)) r).
Proof.
  intros O. pose proof (ok_held _ _ _ O) as Hh. destruct O; constructor; simpl; eauto.
  intros ids id [?|E%list_elem_of_singleton]%elem_of_app Hid; [by eapply ok_sent0|].
  injection E as ->. unfold idsOf in Hid. apply list_elem_of_bind in Hid as (p & Hid & Hp).
  exists p. destruct (Hh p Hp) as (Hg & t & Ht & Hd). rewrite Ht in Hid. apply list_elem_of_singleton in Hid as ->.
  split; [|by split; eauto]. split; eauto.
Qed.
Lemma ok_requeueAll u ps r : reg_ok u ps r → reg_ok u [] (requeueAll ps r).
Proof.
  intros O. pose proof (ok_held _ _ _ O) as Hh. destruct O; constructor; simpl; eauto.
  - intros ev [?|Hev]%elem_of_app; [by apply ok_events0|]. apply list_elem_of_fmap in Hev as (p & -> & Hp). by apply Hh.
  - by intros p ?%elem_of_nil.
  - intros id p t H1 H2 H3. setoid_rewrite elem_of_app.
    destruct (ok_tracked0 id p t H1 H2 H3) as [?|[?|[?|?]]]; [by eauto..|]. right. right. left. right.
    apply list_elem_of_fmap. eauto.
Qed.
Lemma ok_removeAll u ps r : reg_ok u ps r →
  reg_ok u [] (foldl (λ r p, (Remove p (onTerm (setActive false) p r)).1) r ps).
Proof.
  revert r. induction ps as [|p ps IH]; intros r O; [done|]. simpl. apply IH.
  assert (reg_ok u (p :: ps) (onTerm (setActive false) p r)) as O' by (apply ok_onTerm; auto with hosted).
  apply (ok_release u p); [|by apply ok_Remove]. intros id. by eapply not_current_Remove.
Qed.
Lemma ok_runBatch u ps o r : reg_ok u ps r → reg_ok u [] (runBatch ps o r).
Proof.
  intros O. destruct o as [|c sent busy|c]; simpl.
  - by apply ok_requeueAll.
  - apply ok_requeueAll, ok_emit; [done|]. destruct sent; [by apply ok_emit_delete|done].
  - apply ok_removeAll, ok_emit; [done|]. by apply ok_emit_delete.
Qed.

Lemma gates_requeueRemove p r : h_gates (requeueRemoveTerminatorSync p r) = h_gates r.
Proof. unfold requeueRemoveTerminatorSync. repeat case_match; done. Qed.
Lemma current_requeueRemove p r id q : current (requeueRemoveTerminatorSync p r) id q ↔ current r id q.
Proof. unfold requeueRemoveTerminatorSync. repeat case_match; done. Qed.
Lemma current_queueEstablish p r id q : current (queueEstablishTerminatorSync p r) id q ↔ current r id q.
Proof. unfold queueEstablishTerminatorSync. repeat case_match; done. Qed.

Lemma current_doomed u held r id p t : reg_ok u held r → current r id p → h_heap r !! p = Some t → t_state t = Deleting → doomed r p.
Proof.
  intros O Hc Ht Hs. destruct (ok_map _ _ _ O _ _ Hc) as (Hg & t' & Ht' & Eid). assert (t' = t) as -> by congruence. subst id.
  split; [done|]. exists t. split_and!; [done..|]. unfold current in *. intros; congruence.
Qed.
Lemma ok_scan u now r : reg_ok u [] r → reg_ok u [] (scanForRetries now r).
Proof.
  intros O. unfold scanForRetries.
  assert (∀ p, p ∈ matching (λ t, IsWorkRequired (t_state t) && (Since now (t_lastAttempt t) >? 120 * second)) r →
    ∃ id, current r id p) as Hc.
  { intros p (id & t & ? & _)%elem_of_matching. eauto. }
  revert Hc. generalize (matching (λ t, IsWorkRequired (t_state t) && (Since now (t_lastAttempt t) >? 120 * second)) r).
  intros l. revert r O. induction l as [|p l IH]; intros r O Hc; [done|]. simpl.
  assert (∀ q, q ∈ l → ∃ id, current r id q) as Hc' by (intros; apply Hc; by right).
  destruct (Hc p ltac:(left)) as [id Hid]. destruct (ok_map _ _ _ O _ _ Hid) as (Hg & t & Ht & <-). rewrite Ht.
  destruct (t_state t) eqn:Es.
  - apply IH; [by apply ok_queueEstablish|]. setoid_rewrite current_queueEstablish. done.
  - by apply IH.
  - apply IH; [|by setoid_rewrite current_requeueRemove]. apply ok_requeueRemove, ok_hold; [|done]. by eapply current_doomed.
Qed.

Lemma ok_response u r id res d r' :
  reg_ok u [] r → HandleCreateTerminatorResponse id res d r = Some r' → reg_ok u [] r'.
Proof.
  intros O. unfold HandleCreateTerminatorResponse, Get. destruct (h_terminators r !! id) as [p|] eqn:Ep; simpl.
  2: { intros [= <-]. by apply ok_trigger. }
  destruct (ok_map _ _ _ O _ _ Ep) as (Hg & t & Ht & _). rewrite Ht. simpl. destruct res.
  - destruct (t_establishCallback t) as [b|]; [|done]. intros [= <-]. apply ok_trigger.
    assert (reg_ok u [] (queue (markEstablishedEvent p) (onTerm (setFailures 0) p r))).
    { apply ok_queue; [done|]. apply ok_onTerm; auto with hosted. }
    destruct b; [by apply ok_emit|done].
  - intros [= <-]. apply ok_trigger, ok_queue; [simpl; by rewrite gates_finishSlot|by apply ok_finishSlot].
  - assert (reg_ok u [] (onTerm (setActive false) p (finishSlot LimSuccess p r))) as O'
      by (apply ok_onTerm; auto with hosted; by apply ok_finishSlot).
    assert (p ∈ h_gates (onTerm (setActive false) p (finishSlot LimSuccess p r))) as Hg'
      by (simpl; by rewrite gates_finishSlot).
    destruct d; intros [= <-]; apply ok_trigger; [|by apply ok_close].
    assert (∀ n, reg_ok u [] (onTerm (setFailures n) p (onTerm (setActive false) p (finishSlot LimSuccess p r)))) as O''
      by (intros; apply ok_onTerm; auto with hosted).
    destruct (_ =? 3); [|done]. apply ok_close; [done|]. done.
Qed.

Lemma ok_reconnect u r : reg_ok u [] r → reg_ok u [] (HandleReconnect r).
Proof.
  intros O. unfold HandleReconnect.
  pose proof (λ p, matching_gates u [] (λ t, bool_decide (t_state t = Established)) r p O) as Hg. revert Hg.
  generalize (matching (λ t, bool_decide (t_state t = Established)) r). intros l Hg.
  assert (∀ l r, reg_ok u [] r → reg_ok u [] (foldl (λ r p, onTerm (updateState Established Establishing) p r) r l)) as HF.
  { clear. intros l. induction l as [|p l IH]; intros r O; [done|]. simpl. apply IH, ok_onTerm; [done|by apply updateState_quiet]. }
  assert (∀ l r, let r' := foldl (λ r p, onTerm (updateState Established Establishing) p r) r l in
    h_gates r' = h_gates r ∧ h_reconnects r' = h_reconnects r) as HG.
  { clear. intros l. induction l as [|p l IH]; intros r; [done|]. simpl. by destruct (IH (onTerm (updateState Established Establishing) p r)) as [-> ->]. }
  apply ok_reconnects_sub; [|by apply HF]. destruct (HG l r) as [EG ER]. rewrite EG, ER.
  intros ps [?|E%list_elem_of_singleton]%elem_of_app; [by left|]. subst. by right.
Qed.
Lemma ok_finishReconnect u ps r : reg_ok u [] r → (∀ p, p ∈ ps → p ∈ h_gates r) → reg_ok u [] (finishReconnect ps r).
Proof.
  unfold finishReconnect. revert r. induction ps as [|p ps IH]; intros r O Hps; [done|]. simpl.
  assert (p ∈ h_gates r) as Hp by (apply Hps; left).
  assert (∀ q, q ∈ ps → q ∈ h_gates r) as Hps' by (intros; apply Hps; by right).
  destruct (h_heap r !! p) as [t|]; [|by apply IH]. case_decide; [|by apply IH]. apply IH; [by apply ok_queue|done].
Qed.

Lemma ok_timeoutBind r p : reg_ok false [] r → reg_ok false [] (timeoutBind p r).
Proof.
  intros O. unfold timeoutBind. case_decide as Hd; [done|]. assert (p ∉ h_gates r) as Hg by tauto.
  destruct (h_heap r !! p) as [t|] eqn:Ht; [|tauto].
  assert (Put p (upd_gates ({[p]} ∪ h_gates r) r) = enrol r p t) as -> by (unfold Put; simpl; by rewrite Ht).
  apply ok_answer; [done|simpl; set_solver|]. by apply ok_enrol.
Qed.

Lemma ok_finishBind u r p n a : reg_ok u [] r → reg_ok u [] (finishBind p n a r).
Proof.
  intros O. unfold finishBind. destruct (h_results r !! p) as [c|] eqn:Ec; [|done].
  pose proof (ok_results _ _ _ O _ _ Ec) as Hg. destruct (h_heap r !! p) as [t|]; [|done].
  case_decide; [by apply ok_consume|].
  set (r1 := onTerm (setEstablishCallback n) p (upd_results (delete p (h_results r)) r)).
  assert (reg_ok u [] r1) as O1 by (apply ok_onTerm; [by apply ok_consume|auto with hosted]).
  assert (p ∈ h_gates r1) as Hg1 by done.
  assert (∀ r2, reg_ok u [] r2 → p ∈ h_gates r2 → reg_ok u [] (if a then r2 else close p true true r2)) as Hfin.
  { intros r2 O2 Hg2. destruct a; [done|]. by apply ok_close. }
  destruct (ck_replaceExisting c).
  - destruct n; apply Hfin; try done. by apply ok_emit.
  - assert (reg_ok u [] (queue (queueEstablishTerminator p) r1)) as O2 by by apply ok_queue.
    case_decide; [|by apply Hfin]. apply Hfin; [by apply ok_cleanupDuplicates|].
    unfold cleanupDuplicates. destruct (h_heap _ !! p); [|done].
    assert (∀ l r, h_gates (closeAll false true l r) = h_gates r) as ->; [|done].
    clear. intros l. induction l as [|q l IH]; intros r; [done|]. simpl. rewrite IH. apply close_gates.
Qed.

(** ** Every transition *)

Definition skipsCheck (op : Op) : bool := match op with OpBindTimeout _ => true | _ => false end.

Lemma ok_step u op r r' : (u = true → skipsCheck op = false) → reg_ok u [] r → step op r = Some r' → reg_ok u [] r'.
Proof.
  intros Hu O. destruct op; simpl; try (intros [= <-]).
  - case_decide; [by apply ok_startBind|done].
  - destruct u; [by specialize (Hu eq_refl)|]. by apply ok_timeoutBind.
  - by apply ok_finishBind.
  - destruct (h_events r !! i) as [ev|] eqn:Ei; [|done]. apply ok_handle.
    + pose proof (ok_events _ _ _ O ev ltac:(by eapply list_elem_of_lookup_2)). by destruct ev.
    + pose proof (ok_take_event u [] r i ev Ei O) as O'. by rewrite app_nil_r in O'.
  - by apply ok_evaluateEstablish.
  - apply ok_evaluateDelete; [by intros ?? ?%elem_of_nil|unfold batchSize; simpl; lia|done].
  - by apply ok_scan.
  - destruct (h_batches r !! i) as [ps|] eqn:Ei; [|done]. by apply ok_runBatch, ok_take_batch.
  - by apply ok_response.
  - by apply ok_reconnect.
  - destruct (h_reconnects r !! i) as [ps|] eqn:Ei; [|done]. apply ok_finishReconnect.
    + apply ok_reconnects_sub; [|done]. intros ps' ?%elem_of_dropAt. by left.
    + intros p Hp. eapply (ok_reconnects _ _ _ O ps); [by eapply list_elem_of_lookup_2|done].
  - apply ok_closeAll; [done|]. intros p. by apply matching_gates with (u := u) (held := []).
  - apply ok_closeAll; [done|]. intros p. by apply matching_gates with (u := u) (held := []).
  - case_decide; [by apply ok_close|done].
  - apply ok_queue; [done|by apply ok_closed].
  - case_decide; [by apply ok_queue|done].
  - destruct (Get terminatorId r) as [p|] eqn:Ep; [|done]. apply ok_queue; [|done]. by apply (ok_map _ _ _ O _ _ Ep).
Qed.
Lemma ok_run u ops r r' : (u = true → Forall (λ op, skipsCheck op = false) ops) → reg_ok u [] r → run ops r = Some r' → reg_ok u [] r'.
Proof.
  unfold run. revert r. induction ops as [|op ops IH]; intros r Hu O; [by intros [= <-]|]. simpl.
  destruct (step op r) as [r1|] eqn:E; simpl; [|done]. apply IH.
  - intros Ht. by apply Forall_cons in Hu as [_ ?].
  - eapply ok_step; [|done..]. intros Ht. by apply Forall_cons in Hu as [? _].
Qed.

(** ** Results *)

Lemma reachable_ok ops r : run ops newHostedServicesRegistry = Some r → reg_ok false [] r.
Proof. apply ok_run; [done|apply new_ok]. Qed.

(** C37. The tables of the registry fit together in every reachable state: a
    terminator is filed under its own id in the map and in both sets, whatever is
    in the delete set is being deleted, idle, and not replaced by another
    terminator of its id, and no batch is longer than fifty. *)
Theorem hosted_tables_fit ops r :
  run ops newHostedServicesRegistry = Some r →
  (∀ id p, h_terminators r !! id = Some p → ∃ t, h_heap r !! p = Some t ∧ t_terminatorId t = id) ∧
  (∀ id p, h_establishSet r !! id = Some p → ∃ t, h_heap r !! p = Some t ∧ t_terminatorId t = id) ∧
  (∀ id p, h_deleteSet r !! id = Some p → ∃ t, h_heap r !! p = Some t ∧ t_terminatorId t = id ∧
     t_state t = Deleting ∧ t_operationActive t = false ∧ (Get id r = None ∨ Get id r = Some p)) ∧
  (∀ ps, ps ∈ h_batches r → (length ps ≤ 50)%nat).
Proof.
  intros O%reachable_ok. split_and!.
  - intros id p Hp. by destruct (ok_map _ _ _ O _ _ Hp) as (_ & t & ?); eauto.
  - intros id p Hp. by destruct (ok_est _ _ _ O _ _ Hp) as (_ & t & ?); eauto.
  - intros id p Hp. destruct (ok_del _ _ _ O _ _ Hp) as ((_ & t & Ht & <-) & (_ & t' & Ht' & Hs & Hc) & Ha).
    assert (t' = t) as -> by congruence. exists t. split_and!; auto. unfold Get.
    destruct (h_terminators r !! t_terminatorId t) as [q|] eqn:E; [right; by rewrite (Hc q E)|by left].
  - intros ps Hps. by apply (ok_batch _ _ _ O).
Qed.

(** C22. The router never deletes a terminator that is in use: from the moment a
    request to the controller names an id, whatever terminator the router has under
    that id is being deleted itself, in every later state. *)
Theorem live_terminators_never_deleted ops r ids id p t :
  run ops newHostedServicesRegistry = Some r →
  SentDelete ids ∈ h_sent r → id ∈ ids → Get id r = Some p → h_heap r !! p = Some t → t_state t = Deleting.
Proof.
  intros O%reachable_ok Hs Hid Hg Ht. destruct (ok_sent _ _ _ O _ _ Hs Hid) as (q & (_ & tq & Htq & <-) & (_ & t' & Ht' & Hd & Hc)).
  assert (t' = tq) as -> by congruence. rewrite (Hc p Hg) in Ht. congruence.
Qed.

(** C36. One terminator per listener: as long as no bind gave up waiting for the check
    of its listener id, two terminators of the map that are not being deleted and
    that have the same identity and listener id are the same. *)
Theorem listener_id_unique ops r id1 id2 p1 p2 t1 t2 :
  Forall (λ op, skipsCheck op = false) ops → run ops newHostedServicesRegistry = Some r →
  Get id1 r = Some p1 → Get id2 r = Some p2 → h_heap r !! p1 = Some t1 → h_heap r !! p2 = Some t2 →
  t_state t1 ≠ Deleting → t_state t2 ≠ Deleting → t_listenerId t1 ≠ ""%string →
  t_listenerId t1 = t_listenerId t2 → t_identityId t1 = t_identityId t2 → p1 = p2.
Proof.
  intros Hops Hr. pose proof (ok_run true ops _ _ (λ _, Hops) (new_ok true) Hr) as O.
  intros. by eapply (ok_unique _ _ _ O id1 id2).
Qed.

(** *** The scan *)

Lemma scan_keeps_est q r id p : (∀ t, h_heap r !! q = Some t → t_terminatorId t = id → q = p) →
  h_establishSet r !! id = Some p → h_establishSet (queueEstablishTerminatorSync q r) !! id = Some p.
Proof.
  intros Hq He. unfold queueEstablishTerminatorSync. destruct (h_heap r !! q) as [t|]; [|done]. case_decide; [|done].
  simpl. destruct (decide (t_terminatorId t = id)) as [E|E].
  - rewrite E, lookup_insert_eq. by rewrite (Hq t eq_refl E).
  - by rewrite lookup_insert_ne.
Qed.
Lemma scan_keeps_del q r id p : (∀ t, h_heap r !! q = Some t → t_terminatorId t = id → q = p) →
  h_deleteSet r !! id = Some p → h_deleteSet (requeueRemoveTerminatorSync q r) !! id = Some p.
Proof.
  intros Hq He. unfold requeueRemoveTerminatorSync. destruct (h_heap r !! q) as [t|]; [|done].
  destruct (match Get _ r with Some _ => _ | None => _ end); [|done].
  simpl. destruct (decide (t_terminatorId t = id)) as [E|E].
  - rewrite E, lookup_insert_eq. by rewrite (Hq t eq_refl E).
  - by rewrite lookup_insert_ne.
Qed.
Definition queued r id p : Prop := ∃ t, h_heap r !! p = Some t ∧
  match t_state t with
  | Establishing => h_establishSet r !! id = Some p
  | Deleting => h_deleteSet r !! id = Some p
  | Established => True
  end.
Definition retry r q : hostedServiceRegistry :=
  match h_heap r !! q with
  | Some t =>
    match t_state t with
    | Establishing => queueEstablishTerminatorSync q r
    | Deleting => requeueRemoveTerminatorSync q r
    | Established => r
    end
  | None => r
  end.

Lemma retry_heap r q x t : h_heap r !! x = Some t → ∃ t', h_heap (retry r q) !! x = Some t' ∧ t_state t' = t_state t.
Proof.
  assert (∀ s, h_heap s !! x = Some t → ∃ t', h_heap (onTerm (setActive false) q s) !! x = Some t' ∧ t_state t' = t_state t) as HA.
  { intros s Hx. destruct (decide (x = q)) as [->|Hne].
    - exists (setActive false t). by rewrite (heap_onTerm _ _ _ _ Hx).
    - exists t. by rewrite heap_onTerm_ne. }
  intros Hx. unfold retry, queueEstablishTerminatorSync, requeueRemoveTerminatorSync.
  destruct (h_heap r !! q) as [tq|] eqn:E; [|eauto]. destruct (t_state tq); rewrite ?E; [|eauto|].
  - case_decide; [|eauto]. by apply HA.
  - destruct (match Get _ r with Some _ => _ | None => _ end); [by apply HA|eauto].
Qed.
Lemma retry_current r q id x : current (retry r q) id x ↔ current r id x.
Proof.
  unfold retry. destruct (h_heap r !! q) as [t|]; [|done].
  destruct (t_state t); [apply current_queueEstablish|done|apply current_requeueRemove].
Qed.
Lemma retry_ok u r q id : reg_ok u [] r → current r id q → reg_ok u [] (retry r q).
Proof.
  intros O Hc. unfold retry. destruct (ok_map _ _ _ O _ _ Hc) as (Hg & t & Ht & _). rewrite Ht. destruct (t_state t) eqn:Es.
  - by apply ok_queueEstablish.
  - done.
  - apply ok_requeueRemove, ok_hold; [|done]. by eapply current_doomed.
Qed.
Lemma retry_keeps u r q id p id' : reg_ok u [] r → current r id p → current r id' q → queued r id p → queued (retry r q) id p.
Proof.
  intros O Hp Hq (t & Ht & Hs). destruct (retry_heap r q p t Ht) as (t' & Ht' & E). exists t'. split; [done|]. rewrite E.
  assert (∀ tq, h_heap r !! q = Some tq → t_terminatorId tq = id → q = p) as Hu.
  { intros tq Htq <-. destruct (ok_map _ _ _ O _ _ Hq) as (_ & t2 & Ht2 & <-). unfold current in *. congruence. }
  unfold retry. destruct (h_heap r !! q) as [tq|] eqn:Eq; [|done]. rewrite <- Eq in Hu.
  assert (h_deleteSet (queueEstablishTerminatorSync q r) = h_deleteSet r) as E1
    by (unfold queueEstablishTerminatorSync; repeat case_match; done).
  assert (h_establishSet (requeueRemoveTerminatorSync q r) = h_establishSet r) as E2
    by (unfold requeueRemoveTerminatorSync; repeat case_match; done).
  destruct (t_state t), (t_state tq); try done; rewrite ?E1, ?E2; try done.
  - by apply scan_keeps_est.
  - by apply scan_keeps_del.
Qed.
Lemma retry_queues u r id p : reg_ok u [] r → current r id p → queued (retry r p) id p.
Proof.
  intros O Hp. destruct (ok_map _ _ _ O _ _ Hp) as (_ & t & Ht & <-). destruct (retry_heap r p p t Ht) as (t' & Ht' & E).
  exists t'. split; [done|]. rewrite E. unfold retry, queueEstablishTerminatorSync, requeueRemoveTerminatorSync, Get.
  rewrite Ht. destruct (t_state t) eqn:Es; [|done|].
  - rewrite decide_True by done. simpl. apply lookup_insert_eq.
  - unfold current in Hp. rewrite Hp, !bool_decide_true by done. simpl. apply lookup_insert_eq.
Qed.

Lemma retries_queue u l r id p :
  reg_ok u [] r → (∀ q, q ∈ l → ∃ id, current r id q) → current r id p →
  p ∈ l ∨ queued r id p → queued (foldl retry r l) id p.
Proof.
  revert r. induction l as [|q l IH]; intros r O Hl Hp Hin; simpl; [by destruct Hin as [?%elem_of_nil|]|].
  destruct (Hl q ltac:(left)) as [idq Hq]. apply IH.
  - by eapply retry_ok.
  - intros x Hx. destruct (Hl x ltac:(by right)) as [idx ?]. exists idx. by apply retry_current.
  - by apply retry_current.
  - destruct Hin as [[->|Hin]%elem_of_cons|Hqd]; [right|by left|right].
    + by eapply retry_queues.
    + by eapply retry_keeps.
Qed.

Lemma retries_heap l r p t : h_heap r !! p = Some t → ∃ t', h_heap (foldl retry r l) !! p = Some t' ∧ t_state t' = t_state t.
Proof.
  revert r t. induction l as [|q l IH]; intros r t Ht; simpl; [eauto|].
  destruct (retry_heap r q p t Ht) as (t1 & H1 & E1). rewrite <- E1. by apply IH.
Qed.
Definition stale (now : Z) (t : edgeTerminator) : bool :=
  IsWorkRequired (t_state t) && (Since now (t_lastAttempt t) >? 120 * second).

(** The minute scan picks up all work that is stuck: after a scan every terminator
    of the map that is to be created or deleted and was last tried more than two
    minutes ago is in the set it belongs to. *)
Theorem scan_recovers_work ops r now id p t :
  run ops newHostedServicesRegistry = Some r →
  Get id r = Some p → h_heap r !! p = Some t → 120 * second < Since now (t_lastAttempt t) →
  match t_state t with
  | Establishing => h_establishSet (scanForRetries now r) !! id = Some p
  | Deleting => h_deleteSet (scanForRetries now r) !! id = Some p
  | Established => True
  end.
Proof.
  intros O%reachable_ok Hc Ht Hold. change (scanForRetries now r) with (foldl retry r (matching (stale now) r)).
  destruct (retries_heap (matching (stale now) r) r p t Ht) as (t0 & E0 & S0).
  destruct (decide (t_state t = Established)) as [->|Hw]; [done|].
  destruct (retries_queue false (matching (stale now) r) r id p O) as (t' & Ht' & Hq).
  - by intros q (idq & tq & ? & _)%elem_of_matching; eauto.
  - done.
  - left. apply elem_of_matching. exists id, t. split_and!; [done..|]. unfold stale. apply andb_true_iff.
    split; [by destruct (t_state t)|by apply Z.gtb_lt].
  - rewrite E0 in Ht'. injection Ht' as <-. rewrite S0 in Hq. by destruct (t_state t).
Qed.

(** *** Deletions *)

Lemma events_queueRemove p r : h_events (queueRemoveTerminatorSync p r) = h_events r.
Proof. unfold queueRemoveTerminatorSync, queueRemoveTerminatorUnchecked. repeat case_match; done. Qed.
Lemma events_Remove p r : h_events (Remove p r).1 = h_events r.
Proof. unfold Remove. repeat case_match; done. Qed.
Lemma events_findMatching u r p : reg_ok u [] r → event_ok r (findMatchingEvent p) → h_events (findMatching p r) = h_events r.
Proof.
  intros O [[self Hself] _]. unfold findMatching. case_decide as Hg; [done|]. cbn [upd_gates h_heap]. rewrite Hself.
  assert (∀ r2, h_events (Put p r2) = h_events r2 ∧ h_heap (Put p r2) = h_heap r2) as EP
    by (intros r2; unfold Put; by destruct (h_heap r2 !! p)).
  set (r1 := upd_gates ({[p]} ∪ h_gates r) r). destruct (matching _ r1) as [|first rest] eqn:El.
  { cbn [upd_results h_events]. exact (proj1 (EP r1)). }
  destruct (List.find _ _); [done|]. destruct (List.find _ _) as [q|]; [|cbn [upd_results h_events]; exact (proj1 (EP r1))].
  destruct (h_heap r !! q) as [e|] eqn:He; [|done].
  assert (∀ r2, h_heap r2 !! q = h_heap (onTerm (replace e) p r) !! q → h_events (close q true false r2) = h_events r2) as HC.
  { intros r2 E. unfold close. rewrite E. destruct (h_heap (onTerm (replace e) p r) !! q) as [t|] eqn:Eq; [|done].
    assert (t_v2 t = true) as ->.
    { simpl in Eq. destruct (decide (q = p)) as [->|Hne].
      - rewrite lookup_alter_eq, Hself in Eq. simplify_eq/=. by eapply (ok_v2 _ _ _ O).
      - rewrite lookup_alter_ne in Eq by done. by eapply (ok_v2 _ _ _ O). }
    rewrite events_Remove. by destruct (_ && _). }
  cbn [upd_results onTerm upd_heap h_events]. destruct (EP (onTerm (replace e) p r1)) as [E1 E2].
  rewrite HC; [done|by rewrite E2].
Qed.
Lemma events_handle u r ev : reg_ok u (heldBy ev) r → event_ok r ev → h_events (handle ev r) = h_events r.
Proof.
  intros O He. destruct ev; simpl in *.
  - unfold queueEstablishTerminatorSync. repeat case_match; done.
  - unfold requeueRemoveTerminatorSync. repeat case_match; done.
  - apply events_queueRemove.
  - unfold channelClosed. generalize (matching (λ t, bool_decide (t_ch t = ch)) r). intros l. pose proof (ok_v2 _ _ _ O) as Hv. clear O He.
    revert r Hv. induction l as [|p l IH]; intros r Hv; [done|]. simpl.
    destruct (h_heap r !! p) as [t|] eqn:Ht; [|by apply IH]. rewrite (Hv _ _ Ht).
    rewrite IH; [unfold queueRemoveTerminatorUnchecked; by rewrite Ht|].
    intros q t'. unfold queueRemoveTerminatorUnchecked. rewrite Ht. simpl. rewrite lookup_alter_Some. naive_solver.
  - by eapply events_findMatching.
  - unfold removeInvalid. destruct (h_heap r !! p) as [t|]; [|done]. destruct (Get _ r); [|done]. case_decide; [|done].
    destruct notifyCtrl; [apply events_queueRemove|]. rewrite <- (events_Remove p r). by destruct (Remove p r).
  - unfold markEstablished, finishSlot. simpl. by destruct (_ ≫= _).
Qed.

(** Serving the waiting events. *)
Lemma serve_events u n r : reg_ok u [] r → length (h_events r) = n →
  ∃ r', run (replicate n (OpEvent 0)) r = Some r' ∧ reg_ok u [] r' ∧ h_events r' = [].
Proof.
  revert r. induction n as [|n IH]; intros r O Hn.
  { exists r. split_and!; [done..|]. by apply nil_length_inv. }
  destruct (h_events r) as [|ev evs] eqn:Ee; [done|].
  assert (h_events r !! 0%nat = Some ev) as E0 by by rewrite Ee.
  pose proof (ok_take_event u [] r 0 ev E0 O) as O1. rewrite app_nil_r in O1.
  assert (event_ok (upd_events (dropAt 0 (h_events r)) r) ev) as He1.
  { pose proof (ok_events _ _ _ O ev ltac:(rewrite Ee; left)) as He. by destruct ev. }
  destruct (IH (handle ev (upd_events (dropAt 0 (h_events r)) r))) as (r' & Hr & O' & E').
  - by apply ok_handle.
  - rewrite (events_handle u) by done. simpl. rewrite Ee. unfold dropAt. simpl in *. rewrite drop_0. lia.
  - exists r'. split_and!; [|done..]. cbn [replicate]. unfold run in *. cbn [foldM step]. rewrite E0. cbn. exact Hr.
Qed.

Lemma setActives_same ps r : let r' := foldl (λ r p, onTerm (setActive true) p r) r ps in
  h_events r' = h_events r ∧ h_deleteSet r' = h_deleteSet r.
Proof. revert r. induction ps as [|p ps IH]; intros r; [done|]. simpl. by destruct (IH (onTerm (setActive true) p r)) as [-> ->]. Qed.

(** With room at the limiter and the pool the evaluation empties the set. *)
Definition openEnv (n : nat) : DeleteEnv := mkDelEnv false true.
Lemma evaluateDelete_open u order now held r :
  (∀ p id, p ∈ held → h_deleteSet r !! id ≠ Some p) → (length held < batchSize)%nat → reg_ok u held r →
  let r' := evaluateDeleteQueue order openEnv now held r in
  h_events r' = h_events r ∧ ∀ id p, h_deleteSet r' !! id = Some p → h_deleteSet r !! id = Some p ∧ id ∉ order.
Proof.
  revert held r. induction order as [|id order IH]; intros held r Hh Hlen O; cbn [evaluateDeleteQueue].
  { case_decide; [by set_solver|]. unfold RemoveTerminatorsRateLimited. simpl.
    destruct (setActives_same held r) as [-> ->]. set_solver. }
  destruct (h_deleteSet r !! id) as [p|] eqn:Ep.
  2: { destruct (IH held r Hh Hlen O) as [E1 E2]. split; [done|]. intros id' q [H1 H2]%E2. split; [done|].
       apply not_elem_of_cons. split; [congruence|done]. }
  rewrite (dueForDelete_ok u held) by done. pose proof (ok_del_take _ _ _ _ _ Ep O) as O'.
  assert (∀ q id', q ∈ held ++ [p] → h_deleteSet (upd_deleteSet (delete id (h_deleteSet r)) r) !! id' ≠ Some q) as Hh'.
  { by eapply taken_out. }
  assert (length (held ++ [p]) = S (length held)) as EL by (rewrite length_app; simpl; lia).
  assert (∀ held' r2, reg_ok u held' r2 → (length held' < batchSize)%nat →
    (∀ q id', q ∈ held' → h_deleteSet r2 !! id' ≠ Some q) →
    h_events r2 = h_events r → h_deleteSet r2 = delete id (h_deleteSet r) →
    let r' := evaluateDeleteQueue order openEnv now held' r2 in
    h_events r' = h_events r ∧ ∀ id' q, h_deleteSet r' !! id' = Some q → h_deleteSet r !! id' = Some q ∧ id' ∉ id :: order) as Hgo.
  { intros held' r2 O2 Hl2 Hh2 Ev Ed. destruct (IH held' r2 Hh2 Hl2 O2) as [E1 E2]. split; [congruence|].
    intros id' q [H1 H2]%E2. rewrite Ed in H1. apply lookup_delete_Some in H1 as [Hne H1].
    split; [done|]. apply not_elem_of_cons. by split. }
  destruct (Nat.leb_spec batchSize (length (held ++ [p]))) as [Hle|Hlt]; [|by apply Hgo].
  pose proof (ok_removeRateLimited u _ (openEnv (length order)) _ Hh' ltac:(unfold batchSize in *; lia) O') as O2.
  unfold RemoveTerminatorsRateLimited in *. cbn [openEnv de_limited de_accepted fst] in *.
  destruct (setActives_same (held ++ [p]) (upd_deleteSet (delete id (h_deleteSet r)) r)) as [E1 E2].
  apply Hgo; [done|unfold batchSize; simpl; lia|by intros ?? ?%elem_of_nil|exact E1|exact E2].
Qed.

Lemma removeAll_same ps r : let r' := foldl (λ r p, (Remove p (onTerm (setActive false) p r)).1) r ps in
  h_events r' = h_events r ∧ h_deleteSet r' = h_deleteSet r ∧ h_batches r' = h_batches r.
Proof.
  revert r. induction ps as [|p ps IH]; intros r; [done|]. simpl.
  destruct (IH (Remove p (onTerm (setActive false) p r)).1) as (-> & -> & ->).
  unfold Remove. repeat case_match; done.
Qed.
Lemma serve_batches u n r : reg_ok u [] r → length (h_batches r) = n →
  ∃ r', run (replicate n (OpBatch 0 (BatchDone 0))) r = Some r' ∧ reg_ok u [] r' ∧ h_batches r' = [] ∧
    h_events r' = h_events r ∧ h_deleteSet r' = h_deleteSet r.
Proof.
  revert r. induction n as [|n IH]; intros r O Hn.
  { exists r. split_and!; [done|done|by apply nil_length_inv|done|done]. }
  destruct (h_batches r) as [|ps pss] eqn:Eb; [done|]. assert (h_batches r !! 0%nat = Some ps) as E0 by by rewrite Eb.
  set (r1 := runBatch ps (BatchDone 0) (upd_batches (dropAt 0 (h_batches r)) r)).
  assert (reg_ok u [] r1) as O1 by by apply ok_runBatch, ok_take_batch.
  assert (h_events r1 = h_events r ∧ h_deleteSet r1 = h_deleteSet r ∧ h_batches r1 = pss) as (E1 & E2 & E3).
  { unfold r1, runBatch. destruct (removeAll_same ps (emit (LimiterDone 0 LimSuccess)
      (emit (SentDelete (idsOf ps (upd_batches (dropAt 0 (h_batches r)) r))) (upd_batches (dropAt 0 (h_batches r)) r)))) as (-> & -> & ->).
    simpl. rewrite Eb. unfold dropAt. simpl. by rewrite drop_0. }
  destruct (IH r1) as (r' & Hr & O' & B' & E' & D'); [done|rewrite E3; simpl in Hn; lia|].
  exists r'. split_and!; [|done|done|congruence|congruence].
  cbn [replicate]. unfold run in *. cbn [foldM step]. rewrite E0. exact Hr.
Qed.

(** C35. No deletion is lost: in every reachable state a terminator of the map that
    is being deleted is in the delete set, in a batch given to the pool, or named by
    a waiting event that puts it back into the set. *)
Theorem deletions_not_lost ops r id p t :
  run ops newHostedServicesRegistry = Some r →
  Get id r = Some p → h_heap r !! p = Some t → t_state t = Deleting →
  h_deleteSet r !! id = Some p ∨ (∃ ps, ps ∈ h_batches r ∧ p ∈ ps) ∨ requeueRemoveTerminator p ∈ h_events r.
Proof.
  intros O%reachable_ok Hc Ht Hs. destruct (ok_tracked _ _ _ O id p t Hc Ht Hs) as [?|[?|[?|?%elem_of_nil]]]; [by auto..|done].
Qed.

(** The transitions of the registry's goroutine and of the pool when the controller
    answers. *)
Definition served (op : Op) : bool :=
  match op with OpEvent _ | OpDelete _ _ _ | OpBatch _ (BatchDone _) => true | _ => false end.

Lemma run_app ops1 ops2 r r1 : run ops1 r = Some r1 → run (ops1 ++ ops2) r = run ops2 r1.
Proof.
  unfold run. revert r. induction ops1 as [|op ops1 IH]; intros r; [by intros [= ->]|]. simpl.
  destruct (step op r); [apply IH|done].
Qed.


(** ** Runs *)

Definition aTerminator (id listener identity_ : string) (ch : nat) : edgeTerminator :=
  mkTerm 1 ch ch identity_ id listener (mkToken ch "token" "service") "" true Establishing false (Some 0) None None None 0.
Definition grantAll (id : string) : EstablishEnv := mkEstEnv (Some 7%nat) true.

(** A client binds and its terminator is created on the controller. *)
Definition bound (p : nat) (id listener identity_ : string) : list Op :=
  [OpBind p (aTerminator id listener identity_ p); OpEvent 0; OpBindDone p true true; OpEvent 0;
   OpEstablish [id] grantAll 10; OpResponse id CtSuccess true; OpEvent 0].
(** It binds again on a second connection, which then closes; the deletion fails. *)
Definition rebound : list Op :=
  bound 1 "t1" "l" "alice" ++
  [OpBind 2 (aTerminator "t2" "l" "alice" 2); OpEvent 0; OpBindDone 2 true true;
   OpChannelClosed 2; OpEvent 0; OpDelete ["t1"%string] openEnv 20; OpBatch 0 (BatchFailed 8 true false)].
Definition after (ops : list Op) : hostedServiceRegistry :=
  default newHostedServicesRegistry (run ops newHostedServicesRegistry).
Definition ran (ops : list Op) : bool := match run ops newHostedServicesRegistry with Some _ => true | None => false end.
Lemma after_run ops : ran ops = true → run ops newHostedServicesRegistry = Some (after ops).
Proof. unfold ran, after. by destruct (run ops newHostedServicesRegistry). Qed.
Lemma rebound_run : run rebound newHostedServicesRegistry = Some (after rebound).
Proof. apply after_run. vm_compute. reflexivity. Qed.

(** A terminator as it stands after a run. *)
Definition terminatorAfter (ops : list Op) (p : nat) : edgeTerminator :=
  default (aTerminator "" "" "" 0) (h_heap (after ops) !! p).
Lemma heap_after ops p : bool_decide (h_heap (after ops) !! p = None) = false →
  h_heap (after ops) !! p = Some (terminatorAfter ops p).
Proof. unfold terminatorAfter. by destruct (h_heap (after ops) !! p). Qed.
Lemma second_heap : h_heap (after rebound) !! 2%nat = Some (terminatorAfter rebound 2).
Proof. apply heap_after. vm_compute. reflexivity. Qed.
Lemma second_current : Get "t1" (after rebound) = Some 2%nat.
Proof. vm_compute. reflexivity. Qed.

Lemma hosted_tables_fit_witness :
  ∃ t, h_heap (after rebound) !! 2%nat = Some t ∧ t_terminatorId t = "t1"%string.
Proof. exact (proj1 (hosted_tables_fit rebound _ rebound_run) "t1"%string 2%nat second_current). Defined.

Lemma live_terminators_never_deleted_witness : t_state (terminatorAfter rebound 2) = Deleting.
Proof.
  refine (live_terminators_never_deleted rebound _ ["t1"%string] "t1" 2 _ rebound_run _ _ second_current second_heap).
  - assert (h_sent (after rebound) !! 5%nat = Some (SentDelete ["t1"%string])) as H by (vm_compute; reflexivity).
    exact (list_elem_of_lookup_2 _ _ _ H).
  - left.
Defined.

Definition reboundOnly : list Op := bound 1 "t1" "l" "alice" ++
  [OpBind 2 (aTerminator "t2" "l" "alice" 2); OpEvent 0; OpBindDone 2 true true].
Lemma reboundOnly_run : run reboundOnly newHostedServicesRegistry = Some (after reboundOnly).
Proof. apply after_run. vm_compute. reflexivity. Qed.
Lemma listener_id_unique_witness :
  t_listenerId (terminatorAfter reboundOnly 2) = "l"%string ∧ Get "t1" (after reboundOnly) = Some 2%nat ∧ 2%nat = 2%nat.
Proof.
  assert (Get "t1" (after reboundOnly) = Some 2%nat) as Hc by (vm_compute; reflexivity).
  assert (h_heap (after reboundOnly) !! 2%nat = Some (terminatorAfter reboundOnly 2)) as Ht
    by (apply heap_after; vm_compute; reflexivity).
  assert (t_state (terminatorAfter reboundOnly 2) = Established) as Es by (vm_compute; reflexivity).
  assert (t_listenerId (terminatorAfter reboundOnly 2) = "l"%string) as El by (vm_compute; reflexivity).
  split_and!; [exact El|exact Hc|].
  refine (listener_id_unique reboundOnly _ "t1" "t1" 2 2 _ _ _ reboundOnly_run Hc Hc Ht Ht _ _ _ eq_refl eq_refl).
  - repeat constructor.
  - rewrite Es. discriminate.
  - rewrite Es. discriminate.
  - rewrite El. discriminate.
Defined.

Lemma second_deleting : t_state (terminatorAfter rebound 2) = Deleting.
Proof. vm_compute. reflexivity. Qed.
Lemma scan_recovers_work_witness : h_deleteSet (scanForRetries (1000 * second) (after rebound)) !! "t1"%string = Some 2%nat.
Proof.
  pose proof (scan_recovers_work rebound _ (1000 * second) "t1" 2 _ rebound_run second_current second_heap) as H.
  rewrite second_deleting in H. apply H. vm_compute. reflexivity.
Defined.
Lemma deletions_not_lost_witness :
  h_deleteSet (after rebound) !! "t1"%string = Some 2%nat ∨ (∃ ps, ps ∈ h_batches (after rebound) ∧ 2%nat ∈ ps) ∨
  requeueRemoveTerminator 2 ∈ h_events (after rebound).
Proof. exact (deletions_not_lost rebound _ "t1" 2 _ rebound_run second_current second_heap second_deleting). Defined.

(** ** What can go wrong *)

(** The success of a create that arrives after a second bind took the terminator over
    and before that bind has set its callback calls a nil function. *)
Example response_during_takeover_panics :
  run ([OpBind 1 (aTerminator "t1" "l" "alice" 1); OpEvent 0; OpBindDone 1 true true; OpEvent 0;
        OpEstablish ["t1"%string] grantAll 10; OpBind 2 (aTerminator "t2" "l" "alice" 2); OpEvent 0;
        OpResponse "t1" CtSuccess true]) newHostedServicesRegistry = None.
Proof. vm_compute. reflexivity. Qed.

(** A bind that takes over a terminator not yet created tells its client of success;
    no create was sent and none is queued. *)
Example takeover_before_create :
  let r := after [OpBind 1 (aTerminator "t1" "l" "alice" 1); OpEvent 0; OpBindDone 1 true true; OpEvent 0;
                  OpBind 2 (aTerminator "t2" "l" "alice" 2); OpEvent 0; OpBindDone 2 true true;
                  OpEstablish ["t1"%string] grantAll 10] in
  h_sent r = [SdkClosed 1; SdkBindSuccess 2] ∧ map_to_list (h_establishSet r) = [] ∧ h_events r = [] ∧
  Get "t1" r = Some 2%nat.
Proof. vm_compute. split_and!; reflexivity. Qed.

(** A terminator that is created again after a reconnect when its connection closes may
    be dropped from the map before the close is handled; the close then finds nothing
    to delete, and the terminator stays on the controller. *)
Example closed_connection_keeps_terminator :
  let r := after (bound 1 "t1" "l" "alice" ++
                  [OpReconnect; OpReconnected 0; OpEvent 0; OpChannelClosed 1; OpEstablish ["t1"%string] grantAll 20; OpEvent 0]) in
  h_sent r = [SentCreate "t1" 1; SdkBindSuccess 1; LimiterDone 7 LimSuccess] ∧ map_to_list (h_terminators r) = [] ∧
  map_to_list (h_deleteSet r) = [] ∧ h_events r = [] ∧ h_batches r = [].
Proof. vm_compute. split_and!; reflexivity. Qed.

(** The loss of bind access is told to the connection of one identity, and the
    terminators of all identities are closed. *)
Example access_lost_closes_others :
  let r := after (bound 1 "t1" "l" "alice" ++ bound 2 "t2" "l" "bob" ++ [OpBindAccessLost "service"; OpEvent 0; OpEvent 0]) in
  t_state <$> h_heap r !! 1%nat = Some Deleting ∧ t_state <$> h_heap r !! 2%nat = Some Deleting.
Proof. vm_compute. split; reflexivity. Qed.
