(* ===== verification/TunnelDns.v ===== *)
(** * Names and addresses of intercepted services (tunnel/dns, tunnel/intercept)

    A tunneler intercepts services by address, by host name and by wildcard domain.
    A host name gets an address of its own out of a prefix, when the service is added
    or, below a wildcard domain, when it is first asked for; the resolver answers DNS
    queries with it and finds the name of an intercepted connection back. When the
    service is removed its cleanup actions give the names back and the addresses are
    used again.

    Modelled: the resolver (server.go) behind the counting resolver (refcount.go), the
    allocation of addresses (iputils.go), the addresses a service intercepts
    (interceptor.go) and adding, changing and removing services (svcpoll.go) as far as
    services with the permission to dial go. One event is one transition. Services
    live in a heap: the callback of a wildcard domain holds on to the service that
    registered it. Left out: the sockets, queries passed on to another server, the
    hosts file, and the rules that an interceptor installs for an address. *)

From stdpp Require Import base gmap list strings fin_maps.
From Stdlib Require Import ZArith Lia Ascii.
From S2P Require Import Prelude.

Open Scope string_scope.
Open Scope Z_scope.

(** ** Strings *)

(** [s[0]], [s[1:]] and [s[:len(s)-1]]; [None] is an index out of range. *)
Definition first (s : string) : option ascii := match s with EmptyString => None | String c _ => Some c end.
Definition rest (s : string) : option string := match s with EmptyString => None | String _ s => Some s end.
Definition dropLast (s : string) : option string :=
  match s with EmptyString => None | _ => Some (String.substring 0 (String.length s - 1) s) end.
Fixpoint IndexByte (s : string) (c : ascii) : option nat :=
  match s with
  | EmptyString => None
  | String d s => if bool_decide (d = c) then Some 0%nat else S <$> IndexByte s c
  end.
Definition from (n : nat) (s : string) : string := String.substring n (String.length s - n) s.

(** ** The state *)

(** Addresses are numbers of the family of the prefix that addresses are taken from. *)
Abbreviation IP := Z.
Record Prefix := mkPrefix { px_Addr : IP; px_Bits : Z; px_BitLen : Z }.
(** [Prefix.Contains] and [Addr.Next] of netip. *)
Definition Contains (p : Prefix) (ip : IP) : bool :=
  Z.shiftr ip (px_BitLen p - px_Bits p) =? Z.shiftr (px_Addr p) (px_BitLen p - px_Bits p).
Definition Next (p : Prefix) (ip : IP) : option IP := if ip + 1 <? 2 ^ px_BitLen p then Some (ip + 1) else None.

Abbreviation SvcRef := nat.
Inductive CleanupAction := RemoveHost (hostname : string) | RemoveWildcard (hostname : string).
Record domainEntry := mkDomainEntry { de_name : string; de_service : SvcRef }.
Record resolver := mkResolver {
  rs_names : gmap string IP;
  rs_ips : gmap Z string;
  rs_domains : gmap string domainEntry;
}.
Record RefCountingResolver := mkRefCounting { rc_names : gmap string Z; rc_wrapped : resolver }.
Record allocator := mkAllocator { dnsPrefix : Prefix; dnsCurrentIp : IP; dnsRecycledIps : list IP }.

Section Tunneler.
Context {IPNet : Type} (GetCidr : string → option IPNet).

(** What an interceptor is told: an address of its own, or a network that needs a route. *)
Inductive InterceptAddress := HostAddress (ip : IP) | NetAddress (net : IPNet).
Record Service := mkService {
  sv_Id : string;
  sv_Addresses : list string;               (* of the intercept configuration *)
  sv_cleanupActions : list CleanupAction;
  sv_intercepted : list InterceptAddress;   (* passed to the interceptor so far *)
}.
Record tunneler := mkTunneler {
  tn_resolver : RefCountingResolver;
  tn_alloc : allocator;
  tn_heap : gmap SvcRef Service;
  tn_services : gmap string SvcRef;
  tn_next : SvcRef;
}.
Definition with_resolver (r : RefCountingResolver) (t : tunneler) : tunneler :=
  mkTunneler r (tn_alloc t) (tn_heap t) (tn_services t) (tn_next t).
Definition with_alloc (a : allocator) (t : tunneler) : tunneler :=
  mkTunneler (tn_resolver t) a (tn_heap t) (tn_services t) (tn_next t).
Definition with_heap (h : gmap SvcRef Service) (t : tunneler) : tunneler :=
  mkTunneler (tn_resolver t) (tn_alloc t) h (tn_services t) (tn_next t).
Definition with_services (s : gmap string SvcRef) (t : tunneler) : tunneler :=
  mkTunneler (tn_resolver t) (tn_alloc t) (tn_heap t) s (tn_next t).

(** ** The resolver *)

Definition canonicalName (hostname : string) : string := ToLower hostname ++ ".".
Definition LookupIP (name : string) (r : resolver) : option IP := rs_names r !! ToLower name.
Definition Lookup (ip : option IP) (r : resolver) : option string := ip ← ip; rs_ips r !! ip.
Definition AddHostname (hostname : string) (ip : IP) (r : resolver) : resolver :=
  let canonical := canonicalName hostname in
  match rs_names r !! canonical with
  | Some _ => r
  | None =>
    mkResolver (<[canonical := ip]> (rs_names r)) (<[ip := default "" (dropLast canonical)]> (rs_ips r)) (rs_domains r)
  end.
Definition RemoveHostname (hostname : string) (r : resolver) : resolver * option IP :=
  let key := canonicalName hostname in
  match rs_names r !! key with
  | Some ip => (mkResolver (delete key (rs_names r)) (delete ip (rs_ips r)) (rs_domains r), Some ip)
  | None => (r, None)
  end.
(** The outer [None] is an index out of range, the inner one an error. *)
Definition AddDomain (name : string) (svc : SvcRef) (r : resolver) : option (option resolver) :=
  c ← first name;
  sfx ← rest name;
  Some (if bool_decide (c = "*"%char)
        then Some (mkResolver (rs_names r) (rs_ips r) (<[sfx ++ "." := mkDomainEntry name svc]> (rs_domains r)))
        else None).
Definition RemoveDomain (name : string) (r : resolver) : option resolver :=
  c ← first name;
  sfx ← rest name;
  Some (if bool_decide (c = "*"%char)
        then mkResolver (rs_names r) (rs_ips r) (delete (sfx ++ ".") (rs_domains r)) else r).

(** The counting resolver: [err] is the error of the wrapped resolver, which the one
    for DNS never returns; a name is counted only if there was one. *)
Definition rc_AddHostname (s : string) (ip : IP) (r : RefCountingResolver) : RefCountingResolver :=
  let err := false in
  let wrapped := AddHostname s ip (rc_wrapped r) in
  mkRefCounting
    (if err then <[s := match rc_names r !! s with Some v => v + 1 | None => 1 end]> (rc_names r) else rc_names r)
    wrapped.
Definition rc_RemoveHostname (s : string) (r : RefCountingResolver) : RefCountingResolver * option IP :=
  let val := match rc_names r !! s with Some v => v - 1 | None => 0 end in
  if val =? 0 then
    let '(wrapped, ip) := RemoveHostname s (rc_wrapped r) in
    (mkRefCounting (delete s (rc_names r)) wrapped, ip)
  else (mkRefCounting (<[s := val]> (rc_names r)) (rc_wrapped r), None).

(** ** Addresses for host names *)

Definition SetDnsInterceptIpRange (p : Prefix) : allocator := mkAllocator p (px_Addr p) [].

(** [AddCleanupAction] and the callback for addresses. *)
Definition AddCleanupAction (a : CleanupAction) (s : Service) : Service :=
  mkService (sv_Id s) (sv_Addresses s) (sv_cleanupActions s ++ [a])%list (sv_intercepted s).
Definition addrCB (a : InterceptAddress) (s : Service) : Service :=
  mkService (sv_Id s) (sv_Addresses s) (sv_cleanupActions s) (sv_intercepted s ++ [a])%list.
Definition onService (f : Service → Service) (svc : SvcRef) (t : tunneler) : tunneler :=
  with_heap (alter f svc (tn_heap t)) t.

Inductive tunnel_error := RangeExhausted | NotFound | InvalidDomain.
Definition takeIp (a : allocator) : option (IP * allocator) :=
  match dnsRecycledIps a with
  | ip :: l => Some (ip, mkAllocator (dnsPrefix a) (dnsCurrentIp a) l)
  | [] =>
    ip ← Next (dnsPrefix a) (dnsCurrentIp a);
    if Contains (dnsPrefix a) ip then Some (ip, mkAllocator (dnsPrefix a) ip []) else None
  end.
Definition getDnsIp (host : string) (svc : SvcRef) (t : tunneler) : tunneler * result IP tunnel_error :=
  match LookupIP (host ++ ".") (rc_wrapped (tn_resolver t)) with
  | Some foundIP => (t, Ok foundIP)
  | None =>
    match takeIp (tn_alloc t) with
    | None => (t, Err RangeExhausted)
    | Some (ip, a) =>
      let t := with_alloc a t in
      let t := onService (addrCB (HostAddress ip)) svc t in
      (onService (AddCleanupAction (RemoveHost host)) svc t, Ok ip)
    end
  end.
(** The action of [cleanUpFunc]. *)
Definition cleanUpHost (hostname : string) (t : tunneler) : tunneler :=
  let '(r, ip) := rc_RemoveHostname hostname (tn_resolver t) in
  let t := with_resolver r t in
  match ip with
  | Some ip =>
    let a := tn_alloc t in
    with_alloc (mkAllocator (dnsPrefix a) (dnsCurrentIp a) (dnsRecycledIps a ++ [ip])%list) t
  | None => t
  end.

(** [None] is an index out of range. *)
Definition getInterceptIP (svc : SvcRef) (hostname : string) (t : tunneler)
    : option (tunneler * option tunnel_error) :=
  c ← first hostname;
  if bool_decide (c = "*"%char) then
    r ← AddDomain hostname svc (rc_wrapped (tn_resolver t));
    match r with
    | Some wrapped =>
      let t := with_resolver (mkRefCounting (rc_names (tn_resolver t)) wrapped) t in
      Some (onService (AddCleanupAction (RemoveWildcard hostname)) svc t, None)
    | None => Some (t, Some InvalidDomain)
    end
  else
    match GetCidr hostname with
    | Some ipNet => Some (onService (addrCB (NetAddress ipNet)) svc t, None)
    | None =>
      match getDnsIp hostname svc t with
      | (t, Err e) => Some (t, Some e)
      | (t, Ok ip) => Some (with_resolver (rc_AddHostname hostname ip (tn_resolver t)) t, None)
      end
    end.
(** The loop ends at the first error. *)
Fixpoint GetInterceptAddresses (svc : SvcRef) (addresses : list string) (t : tunneler)
    : option (tunneler * option tunnel_error) :=
  match addresses with
  | [] => Some (t, None)
  | addr :: addresses =>
    '(t, err) ← getInterceptIP svc addr t;
    match err with
    | Some e => Some (t, Some e)
    | None => GetInterceptAddresses svc addresses t
    end
  end.

(** ** Queries *)

(** The loop of [getAddress] over the suffixes that start with a dot. *)
Fixpoint findDomain (fuel : nat) (canonical : string) (domains : gmap string domainEntry) : option (option domainEntry) :=
  match fuel with
  | O => None
  | S fuel =>
    tail ← rest canonical;
    match IndexByte tail "."%char with
    | None => Some None
    | Some idx =>
      let canonical := from (idx + 1) canonical in
      match domains !! canonical with
      | Some de => Some (Some de)
      | None => findDomain fuel canonical domains
      end
    end
  end.
(** The server adds the name itself, not through the counting resolver. *)
Definition getAddress (name : string) (t : tunneler) : option (tunneler * result IP tunnel_error) :=
  match LookupIP name (rc_wrapped (tn_resolver t)) with
  | Some a => Some (t, Ok a)
  | None =>
    de ← findDomain (S (String.length name)) (ToLower name) (rs_domains (rc_wrapped (tn_resolver t)));
    match de with
    | None => Some (t, Err NotFound)
    | Some de =>
      name ← dropLast name;
      match getDnsIp name (de_service de) t with
      | (t, Err e) => Some (t, Err e)
      | (t, Ok ip) =>
        let r := tn_resolver t in
        Some (with_resolver (mkRefCounting (rc_names r) (AddHostname name ip (rc_wrapped r))) t, Ok ip)
      end
    end
  end.

(** ** Services *)

Definition runAction (a : CleanupAction) (t : tunneler) : option tunneler :=
  match a with
  | RemoveHost h => Some (cleanUpHost h t)
  | RemoveWildcard h =>
    wrapped ← RemoveDomain h (rc_wrapped (tn_resolver t));
    Some (with_resolver (mkRefCounting (rc_names (tn_resolver t)) wrapped) t)
  end.
Definition RunCleanupActions (svc : SvcRef) (t : tunneler) : option tunneler :=
  s ← tn_heap t !! svc;
  t ← foldM runAction (sv_cleanupActions s) t;
  Some (onService (λ s, mkService (sv_Id s) (sv_Addresses s) [] (sv_intercepted s)) svc t).
(** An error of the interceptor is logged and the service kept. *)
Definition addService (id : string) (addresses : list string) (t : tunneler) : option tunneler :=
  let svc := tn_next t in
  let t := mkTunneler (tn_resolver t) (tn_alloc t) (<[svc := mkService id addresses [] []]> (tn_heap t))
             (tn_services t) (S svc) in
  '(t, _) ← GetInterceptAddresses svc addresses t;
  Some (with_services (<[id := svc]> (tn_services t)) t).
Definition removeService (id : string) (t : tunneler) : option tunneler :=
  match tn_services t !! id with
  | None => Some t
  | Some svc =>
    t ← RunCleanupActions svc t;
    Some (with_services (delete id (tn_services t)) t)
  end.

Inductive event :=
| ServiceAdded (id : string) (addresses : list string)
| ServiceRemoved (id : string)
| ServiceChanged (id : string) (addresses : list string)
| Query (name : string).
(** [HandleServicesChange] and [ServeDNS]. *)
Definition handle (e : event) (t : tunneler) : option tunneler :=
  match e with
  | ServiceAdded id addresses => addService id addresses t
  | ServiceRemoved id => removeService id t
  | ServiceChanged id addresses => t ← removeService id t; addService id addresses t
  | Query name => fst <$> getAddress name t
  end.
Definition NewTunneler (p : Prefix) : tunneler :=
  mkTunneler (mkRefCounting ∅ (mkResolver ∅ ∅ ∅)) (SetDnsInterceptIpRange p) ∅ ∅ 0.

(** ** The invariant *)

Lemma string_app_nil s : s ++ "" = s.
Proof. induction s as [|c s IH]; [done|]. exact (f_equal (String c) IH). Qed.
Lemma string_app_assoc a b c : (a ++ b) ++ c = a ++ (b ++ c).
Proof. induction a as [|x a IH]; [done|]. exact (f_equal (String x) IH). Qed.
Lemma ToLower_app a b : ToLower (a ++ b) = ToLower a ++ ToLower b.
Proof. induction a as [|c a IH]; [done|]. exact (f_equal (String (lowerAscii c)) IH). Qed.
Lemma length_string_app a b : String.length (a ++ b) = (String.length a + String.length b)%nat.
Proof. induction a as [|c a IH]; [done|]. exact (f_equal S IH). Qed.
Lemma substring_app a b : String.substring 0 (String.length a) (a ++ b) = a.
Proof. induction a as [|c a IH]; [by destruct b|]. exact (f_equal (String c) IH). Qed.
Lemma dropLast_dot s : dropLast (s ++ ".") = Some s.
Proof.
  unfold dropLast. destruct (s ++ ".") eqn:E; [by destruct s|]. rewrite <- E, length_string_app. simpl.
  by rewrite Nat.add_sub, substring_app.
Qed.
Lemma app_dot_inj a b : a ++ "." = b ++ "." → a = b.
Proof. intros H. apply (f_equal dropLast) in H. rewrite !dropLast_dot in H. by injection H. Qed.
Lemma lookup_canonical h r : LookupIP (h ++ ".") r = rs_names r !! canonicalName h.
Proof. unfold LookupIP, canonicalName. by rewrite ToLower_app. Qed.

(** The addresses above that of the prefix and up to the current one are taken or free. *)
Record conserved (p : Prefix) (r : RefCountingResolver) (a : allocator) : Prop := mkConserved {
  cv_counts : rc_names r = ∅;
  cv_prefix : dnsPrefix a = p;
  cv_first : px_Addr p ≤ dnsCurrentIp a;
  cv_range ip : px_Addr p < ip ≤ dnsCurrentIp a → Contains p ip = true;
  cv_names k ip : rs_names (rc_wrapped r) !! k = Some ip →
    px_Addr p < ip ≤ dnsCurrentIp a ∧ ip ∉ dnsRecycledIps a ∧ ∃ h, k = canonicalName h;
  cv_inverse n ip : rs_ips (rc_wrapped r) !! ip = Some n ↔ rs_names (rc_wrapped r) !! (n ++ ".") = Some ip;
  cv_nodup : NoDup (dnsRecycledIps a);
  cv_free ip : ip ∈ dnsRecycledIps a → px_Addr p < ip ≤ dnsCurrentIp a;
  cv_all ip : px_Addr p < ip ≤ dnsCurrentIp a →
    (∃ k, rs_names (rc_wrapped r) !! k = Some ip) ∨ ip ∈ dnsRecycledIps a;
}.

Lemma name_of_ip p r a k ip :
  conserved p r a → rs_names (rc_wrapped r) !! k = Some ip →
  ∃ n, k = n ++ "." ∧ rs_ips (rc_wrapped r) !! ip = Some n.
Proof.
  intros C Hk. destruct (cv_names _ _ _ C k ip Hk) as (_ & _ & h & ->). exists (ToLower h). split; [done|].
  by apply (cv_inverse _ _ _ C).
Qed.
Lemma names_inj p r a k1 k2 ip :
  conserved p r a → rs_names (rc_wrapped r) !! k1 = Some ip → rs_names (rc_wrapped r) !! k2 = Some ip → k1 = k2.
Proof.
  intros C H1 H2. destruct (name_of_ip _ _ _ _ _ C H1) as (n1 & -> & E1).
  destruct (name_of_ip _ _ _ _ _ C H2) as (n2 & -> & E2). congruence.
Qed.

(** What [takeIp] gives is free and in the range. *)
Lemma takeIp_spec p r a ip a' :
  conserved p r a → takeIp a = Some (ip, a') →
  dnsPrefix a' = p ∧ px_Addr p < ip ≤ dnsCurrentIp a' ∧ dnsCurrentIp a ≤ dnsCurrentIp a' ∧
  (∀ x, px_Addr p < x ≤ dnsCurrentIp a' → Contains p x = true) ∧
  (∀ k, rs_names (rc_wrapped r) !! k ≠ Some ip) ∧ NoDup (dnsRecycledIps a') ∧ ip ∉ dnsRecycledIps a' ∧
  (∀ x, x ∈ dnsRecycledIps a' → x ∈ dnsRecycledIps a) ∧
  (∀ x, px_Addr p < x ≤ dnsCurrentIp a' → x = ip ∨ x ∈ dnsRecycledIps a' ∨ (px_Addr p < x ≤ dnsCurrentIp a ∧ x ∉ dnsRecycledIps a)).
Proof.
  intros C H. pose proof (cv_first _ _ _ C) as Hf. unfold takeIp in H. rewrite (cv_prefix _ _ _ C) in H.
  destruct (dnsRecycledIps a) as [|x l] eqn:E; simpl in H.
  - unfold Next in H. destruct (_ <? _) eqn:Hn; simpl in H; [|done]. destruct (Contains p _) eqn:Hc; [|done].
    simplify_eq. simpl. split_and!; try done; try lia.
    + intros x Hx. destruct (decide (x = dnsCurrentIp a + 1)) as [->|]; [done|]. apply (cv_range _ _ _ C). lia.
    + intros k Hk. apply (cv_names _ _ _ C) in Hk as [? _]. lia.
    + constructor.
    + apply not_elem_of_nil.
    + intros x Hx. destruct (decide (x = dnsCurrentIp a + 1)); [by left|]. right. right.
      split; [lia|apply not_elem_of_nil].
  - simplify_eq. pose proof (cv_nodup _ _ _ C) as Hd. pose proof (cv_free _ _ _ C ip) as Hin. rewrite E in Hd, Hin.
    apply NoDup_cons in Hd as [Hni Hd]. simpl. specialize (Hin ltac:(set_solver)).
    split_and!; try done; try lia.
    + apply (cv_range _ _ _ C).
    + intros k Hk. apply (cv_names _ _ _ C) in Hk as (_ & Hr & _). rewrite E in Hr. set_solver.
    + set_solver.
    + intros y Hy. destruct (decide (y = ip)); [by left|]. right. destruct (decide (y ∈ l)); [by left|right].
      split; [done|set_solver].
Qed.

Lemma take_conserved p r a ip a' h :
  conserved p r a → takeIp a = Some (ip, a') → rs_names (rc_wrapped r) !! canonicalName h = None →
  conserved p (mkRefCounting (rc_names r) (AddHostname h ip (rc_wrapped r))) a'.
Proof.
  intros C Ht Hn. destruct (takeIp_spec _ _ _ _ _ C Ht) as (H1 & H2 & H3 & H4 & H5 & H6 & H7 & H8 & H9).
  unfold AddHostname. rewrite Hn. unfold canonicalName at 2. rewrite dropLast_dot. simpl.
  split; simpl; try done.
  - apply C.
  - pose proof (cv_first _ _ _ C). lia.
  - intros k x [[<- <-]|[Hk Hx]]%lookup_insert_Some; [by eauto|].
    destruct (cv_names _ _ _ C _ _ Hx) as (? & Hr & ?). split_and!; [lia|lia| |done]. intros Hy%H8. done.
  - intros n x. rewrite !lookup_insert_Some, (cv_inverse _ _ _ C). unfold canonicalName. split.
    + intros [[-> <-]|[Hx Hk]]; [by left|]. right. split; [|done]. intros Heq. rewrite <- Heq in Hk.
      unfold canonicalName in Hn. congruence.
    + intros [[Heq ->]|[Hx Hk]]; [left; split; [done|by apply app_dot_inj]|]. right. split; [|done].
      intros <-. by apply H5 in Hk.
  - intros x Hx%H8. apply (cv_free _ _ _ C) in Hx. lia.
  - intros x Hx. destruct (H9 x Hx) as [->|[?|[Hx' Hr]]]; [left; eexists; apply lookup_insert_eq|by right|].
    destruct (cv_all _ _ _ C x Hx') as [[k Hk]|?]; [|done]. left. exists k. rewrite lookup_insert_ne; [done|].
    intros <-. congruence.
Qed.

Lemma remove_conserved p r a h :
  conserved p r a →
  let '(r', ip) := rc_RemoveHostname h r in
  conserved p r' match ip with
                 | Some ip => mkAllocator (dnsPrefix a) (dnsCurrentIp a) (dnsRecycledIps a ++ [ip])%list
                 | None => a
                 end.
Proof.
  intros C. unfold rc_RemoveHostname. rewrite (cv_counts _ _ _ C), lookup_empty. simpl. unfold RemoveHostname.
  destruct (rs_names (rc_wrapped r) !! canonicalName h) as [ip|] eqn:E.
  2: { rewrite delete_empty. destruct C. by split. }
  destruct (cv_names _ _ _ C _ _ E) as (Hr & Hf & _).
  assert (∀ k, rs_names (rc_wrapped r) !! k = Some ip → k = canonicalName h) as Hinj.
  { intros k Hk. by eapply names_inj. }
  split; simpl; try apply C.
  - apply delete_empty.
  - intros k x [Hk Hx]%lookup_delete_Some. destruct (cv_names _ _ _ C _ _ Hx) as (? & ? & ?). split_and!; try done; try lia.
    intros [?| ->%list_elem_of_singleton]%elem_of_app; [done|]. by apply Hinj in Hx.
  - intros n x. rewrite !lookup_delete_Some, (cv_inverse _ _ _ C). split; intros [Hne Hk]; (split; [|done]).
    + intros Heq. rewrite <- Heq in Hk. congruence.
    + intros <-. by apply Hinj in Hk.
  - apply NoDup_app. split_and!; [apply C| |apply NoDup_singleton]. intros x Hx ->%list_elem_of_singleton. done.
  - intros x [Hx| ->%list_elem_of_singleton]%elem_of_app; [by apply (cv_free _ _ _ C)|done].
  - intros x Hx. destruct (decide (x = ip)) as [->|Hne]; [right; set_solver|].
    destruct (cv_all _ _ _ C x Hx) as [[k Hk]|?]; [left|right; set_solver]. exists k.
    rewrite lookup_delete_ne; [done|]. congruence.
Qed.

(** ** Events keep the invariant *)

Definition wildcardOk (a : CleanupAction) : Prop := match a with RemoveWildcard h => h ≠ "" | RemoveHost _ => True end.
Record tunnel_ok (p : Prefix) (t : tunneler) : Prop := mkTunnelOk {
  tk_conserved : conserved p (tn_resolver t) (tn_alloc t);
  tk_services id svc : tn_services t !! id = Some svc → is_Some (tn_heap t !! svc);
  tk_heap svc s : tn_heap t !! svc = Some s → Forall wildcardOk (sv_cleanupActions s);
}.

Lemma conserved_domains p r a d :
  conserved p r a →
  conserved p (mkRefCounting (rc_names r) (mkResolver (rs_names (rc_wrapped r)) (rs_ips (rc_wrapped r)) d)) a.
Proof. intros []. by split. Qed.
(** A step that changes the resolver and the addresses, and the records of services. *)
Lemma ok_with p t r a h :
  tunnel_ok p t → conserved p r a → (∀ svc, is_Some (tn_heap t !! svc) → is_Some (h !! svc)) →
  (∀ svc s, h !! svc = Some s → Forall wildcardOk (sv_cleanupActions s)) →
  tunnel_ok p (mkTunneler r a h (tn_services t) (tn_next t)).
Proof. intros [_ H2 _] Hc Hs Hh. split; simpl; [done| |done]. intros id svc ?%H2. by apply Hs. Qed.

Lemma alter_service p t f svc :
  tunnel_ok p t → (∀ s, Forall wildcardOk (sv_cleanupActions s) → Forall wildcardOk (sv_cleanupActions (f s))) →
  tunnel_ok p (onService f svc t).
Proof.
  intros Ht Hf. apply ok_with; [done|apply Ht| |].
  - intros x Hx. by rewrite lookup_alter_is_Some.
  - intros x s [(-> & s0 & Hs & ->)|[_ Hs]]%lookup_alter_Some; [apply Hf|]; by eapply (tk_heap _ _ Ht).
Qed.
Lemma add_action p t a svc : tunnel_ok p t → wildcardOk a → tunnel_ok p (onService (AddCleanupAction a) svc t).
Proof. intros Ht Ha. apply alter_service; [done|]. intros s Hs. simpl. apply Forall_app. auto. Qed.
Lemma add_intercept p t a svc : tunnel_ok p t → tunnel_ok p (onService (addrCB a) svc t).
Proof. intros Ht. by apply alter_service. Qed.

(** Taking an address for a name and entering the name, as both callers do. *)
Lemma getDnsIp_ok p t h svc :
  tunnel_ok p t →
  match getDnsIp h svc t with
  | (t', Ok ip) =>
    let r := tn_resolver t' in
    tunnel_ok p (with_resolver (mkRefCounting (rc_names r) (AddHostname h ip (rc_wrapped r))) t')
  | (t', Err e) => t' = t
  end.
Proof.
  intros Ht. unfold getDnsIp. rewrite lookup_canonical.
  destruct (rs_names _ !! canonicalName h) as [ip|] eqn:E.
  - simpl. unfold AddHostname. rewrite E. destruct Ht as [C H2 H3]. split; [|done|done]. simpl. by destruct (tn_resolver t).
  - destruct (takeIp (tn_alloc t)) as [[ip a]|] eqn:Et; [|done].
    pose proof (take_conserved _ _ _ _ _ h (tk_conserved _ _ Ht) Et E) as C. simpl.
    assert (tunnel_ok p (with_resolver (mkRefCounting (rc_names (tn_resolver t)) (AddHostname h ip (rc_wrapped (tn_resolver t))))
      (with_alloc a t))) as Ht'.
    { destruct Ht as [_ H2 H3]. by split. }
    apply (add_intercept _ _ (HostAddress ip) svc) in Ht'. by apply (add_action _ _ (RemoveHost h) svc) in Ht'.
Qed.

Lemma rc_AddHostname_wrapped h ip r :
  rc_AddHostname h ip r = mkRefCounting (rc_names r) (AddHostname h ip (rc_wrapped r)).
Proof. done. Qed.

Lemma getInterceptIP_ok p t h svc :
  tunnel_ok p t → h ≠ "" → ∃ t' e, getInterceptIP svc h t = Some (t', e) ∧ tunnel_ok p t'.
Proof.
  intros Ht Hh. unfold getInterceptIP. destruct h as [|c h]; [done|]. simpl. case_bool_decide as Hc.
  - simpl. eexists _, _. split; [done|]. apply add_action; [|done]. destruct Ht as [C H2 H3].
    split; [by apply conserved_domains|done|done].
  - destruct (GetCidr _) as [net|]; [eexists _, _; split; [done|by apply add_intercept]|].
    pose proof (getDnsIp_ok p t (String c h) svc Ht) as Hd. destruct (getDnsIp _ _ _) as [t' [ip|e]]; eauto.
    subst. eauto.
Qed.
Lemma intercepts_ok p t l svc :
  tunnel_ok p t → Forall (λ h, h ≠ "") l → ∃ t' e, GetInterceptAddresses svc l t = Some (t', e) ∧ tunnel_ok p t'.
Proof.
  intros Ht Hl. revert t Ht. induction Hl as [|h l Hh Hl IH]; intros t Ht; [by exists t, None|]. simpl.
  destruct (getInterceptIP_ok p t h svc Ht Hh) as (t1 & e & -> & Ht1). simpl. destruct e; [eauto|by apply IH].
Qed.

Lemma cleanUpHost_ok p t h : tunnel_ok p t → tunnel_ok p (cleanUpHost h t).
Proof.
  intros [C H2 H3]. pose proof (remove_conserved _ _ _ h C) as Hr. unfold cleanUpHost.
  destruct (rc_RemoveHostname h _) as [r [ip|]]; by split.
Qed.
Lemma runAction_ok p t a : tunnel_ok p t → wildcardOk a → ∃ t', runAction a t = Some t' ∧ tunnel_ok p t'.
Proof.
  intros Ht Ha. destruct a as [h|[|c h]]; simpl; [by eauto using cleanUpHost_ok|done|].
  eexists. split; [done|]. destruct Ht as [C H2 H3]. case_bool_decide; split; simpl; try done.
  - by apply conserved_domains.
  - by destruct (tn_resolver t).
Qed.
Lemma runActions_ok p l t :
  tunnel_ok p t → Forall wildcardOk l → ∃ t', foldM runAction l t = Some t' ∧ tunnel_ok p t'.
Proof.
  intros Ht Hl. revert t Ht. induction Hl as [|a l Ha Hl IH]; intros t Ht; [by exists t|]. simpl.
  destruct (runAction_ok p t a Ht Ha) as (t1 & -> & Ht1). simpl. by apply IH.
Qed.
Lemma removeService_ok p t id : tunnel_ok p t → ∃ t', removeService id t = Some t' ∧ tunnel_ok p t'.
Proof.
  intros Ht. unfold removeService. destruct (tn_services t !! id) as [svc|] eqn:E; [|eauto].
  destruct (tk_services _ _ Ht _ _ E) as [s Hs]. unfold RunCleanupActions. rewrite Hs. simpl.
  destruct (runActions_ok p _ t Ht (tk_heap _ _ Ht _ _ Hs)) as (t1 & -> & Ht1). simpl.
  eexists. split; [done|].
  apply (alter_service p t1 (λ s, mkService (sv_Id s) (sv_Addresses s) [] (sv_intercepted s)) svc) in Ht1 as [C H2 H3];
    [|constructor]. split; [done| |done]. simpl. intros x y [_ Hx]%lookup_delete_Some. by apply (H2 x).
Qed.

(** Intercepting leaves the table of services and the set of objects alone. *)
Definition keeps (t t' : tunneler) : Prop :=
  tn_services t' = tn_services t ∧ ∀ svc, is_Some (tn_heap t !! svc) → is_Some (tn_heap t' !! svc).
Lemma onService_keeps f svc t : keeps t (onService f svc t).
Proof. split; [done|]. intros x Hx. simpl. by rewrite lookup_alter_is_Some. Qed.
Lemma keepsTable_trans t1 t2 t3 : keeps t1 t2 → keeps t2 t3 → keeps t1 t3.
Proof. intros [H1 H2] [H3 H4]. split; [congruence|auto]. Qed.
Lemma getDnsIp_keeps h svc t : keeps t (getDnsIp h svc t).1.
Proof.
  unfold getDnsIp. repeat case_match; try done. simpl. eapply keepsTable_trans, onService_keeps.
  eapply keepsTable_trans; [|apply onService_keeps]. done.
Qed.
Lemma getInterceptIP_keeps svc h t t' e : getInterceptIP svc h t = Some (t', e) → keeps t t'.
Proof.
  unfold getInterceptIP. destruct h as [|c h]; [done|]. simpl. case_bool_decide; simpl.
  - intros [= <- <-]. eapply keepsTable_trans, onService_keeps. done.
  - case_match; [intros [= <- <-]; apply onService_keeps|].
    pose proof (getDnsIp_keeps (String c h) svc t) as Hk. destruct (getDnsIp _ _ _) as [t1 [ip|e1]]; by intros [= <- <-].
Qed.
Lemma intercepts_keep svc l t t' e : GetInterceptAddresses svc l t = Some (t', e) → keeps t t'.
Proof.
  revert t. induction l as [|h l IH]; intros t; simpl; [by intros [= <- <-]|].
  destruct (getInterceptIP svc h t) as [[t1 e1]|] eqn:E; [|done]. simpl. apply getInterceptIP_keeps in E.
  destruct e1; [by intros [= <- <-]|]. intros H%IH. by eapply keepsTable_trans.
Qed.
Lemma addService_ok p t id l :
  tunnel_ok p t → Forall (λ h, h ≠ "") l → ∃ t', addService id l t = Some t' ∧ tunnel_ok p t'.
Proof.
  intros [C H2 H3] Hl. unfold addService.
  destruct (intercepts_ok p (mkTunneler (tn_resolver t) (tn_alloc t)
    (<[tn_next t := mkService id l [] []]> (tn_heap t)) (tn_services t) (S (tn_next t))) l (tn_next t))
    as (t1 & e & Hr & [C1 H21 H31]); [|done|].
  { split; simpl; [done| |].
    - intros x svc ?%H2. rewrite lookup_insert_is_Some'. by right.
    - intros svc x [[<- <-]|[_ ?]]%lookup_insert_Some; [constructor|by eapply H3]. }
  rewrite Hr. simpl. eexists. split; [done|]. split; simpl; [done| |done].
  intros x svc [[<- <-]|[_ Hx]]%lookup_insert_Some; [|by apply (H21 x)].
  apply intercepts_keep in Hr as [_ Hk]. apply Hk. simpl. rewrite lookup_insert_is_Some'. by left.
Qed.

(** ** Wildcard domains *)

Lemma app_split a b x y :
  a ++ x = b ++ y → (String.length a ≤ String.length b)%nat → ∃ m, b = a ++ m ∧ x = m ++ y.
Proof.
  revert b. induction a as [|c a IH]; intros b H Hl; [by exists b|]. destruct b as [|d b]; [simpl in Hl; lia|].
  injection H as <- H. destruct (IH b H) as (m & -> & ->); [simpl in Hl; lia|]. by exists m.
Qed.
Lemma IndexByte_spec s c :
  match IndexByte s c with
  | Some i => ∃ pre suf, s = pre ++ String c suf ∧ String.length pre = i ∧
      ∀ pre' suf', s = pre' ++ String c suf' → (i ≤ String.length pre')%nat
  | None => ∀ pre suf, s ≠ pre ++ String c suf
  end.
Proof.
  induction s as [|d s IH]; simpl; [by intros []|]. case_bool_decide as Hd.
  - subst. exists "", s. split_and!; [done..|]. intros. lia.
  - destruct (IndexByte s c) as [i|]; simpl.
    + destruct IH as (pre & suf & -> & Hl & Hmin). exists (String d pre), suf. split_and!; [done|simpl; lia|].
      intros [|e pre'] suf' H; [by injection H|]. injection H as -> H. apply Hmin in H. simpl. lia.
    + intros [|e pre] suf H; [by injection H|]. injection H as -> H. by apply IH in H.
Qed.
Lemma from_app pre suf : from (String.length pre) (pre ++ suf) = suf.
Proof.
  unfold from. rewrite length_string_app. replace (_ + _ - _)%nat with (String.length suf) by lia.
  induction pre as [|c pre IH]; [|exact IH].
  pose proof (substring_app suf "") as H. by rewrite string_app_nil in H.
Qed.

(** The suffixes of a name that start with a dot, the whole name apart. *)
Definition below (name suf : string) (n : nat) : Prop :=
  ∃ pre, name = pre ++ String "." suf ∧ String.length pre = n ∧ (0 < n)%nat.
Lemma findDomain_spec fuel s d :
  s ≠ "" → (String.length s < fuel)%nat →
  ∃ r, findDomain fuel s d = Some r ∧
    match r with
    | Some de => ∃ suf n, below s suf n ∧ d !! String "." suf = Some de ∧
        ∀ suf' n', below s suf' n' → (n' < n)%nat → d !! String "." suf' = None
    | None => ∀ suf n, below s suf n → d !! String "." suf = None
    end.
Proof.
  revert s. induction fuel as [|fuel IH]; intros s Hs Hl; [lia|]. destruct s as [|c tail]; [done|]. simpl.
  pose proof (IndexByte_spec tail ".") as Hi. destruct (IndexByte tail ".") as [i|].
  - destruct Hi as (pre & suf & -> & <- & Hmin).
    replace (from (String.length pre + 1) (String c (pre ++ String "." suf))) with (String "." suf).
    2: { symmetry. replace (String.length pre + 1)%nat with (String.length (String c pre)) by (simpl; lia).
         apply (from_app (String c pre)). }
    assert (below (String c (pre ++ String "." suf)) suf (S (String.length pre))) as Hb.
    { exists (String c pre). split_and!; [done|done|lia]. }
    assert (∀ suf' n', below (String c (pre ++ String "." suf)) suf' n' →
      (suf' = suf ∧ n' = S (String.length pre)) ∨
      ∃ n1, below (String "." suf) suf' n1 ∧ n' = (S (String.length pre) + n1)%nat) as Hcases.
    { intros suf' n' (pre' & Heq & <- & Hn). destruct pre' as [|e pre']; [simpl in Hn; lia|]. injection Heq as -> Heq.
      apply Hmin in Heq as Hge. destruct (app_split _ _ _ _ Heq Hge) as (m & -> & Hm).
      destruct m as [|x m]; [left; injection Hm as <-; rewrite string_app_nil; done|]. right.
      exists (String.length (String x m)). split; [by exists (String x m); split_and!; [done|done|simpl; lia]|].
      simpl. rewrite length_string_app. simpl. lia. }
    destruct (d !! String "." suf) as [de|] eqn:E.
    + exists (Some de). split; [done|]. exists suf, (S (String.length pre)). split_and!; [done..|].
      intros suf' n' [[_ ->]|(n1 & _ & ->)]%Hcases Hlt; lia.
    + destruct (IH (String "." suf)) as (r & Hr & Hspec); [done| |].
      { simpl in Hl. rewrite length_string_app in Hl. simpl in *. lia. }
      exists r. split; [done|]. destruct r as [de|].
      * destruct Hspec as (suf1 & n1 & (pre1 & Heq & Hl1 & Hn1) & Hde & Hm).
        exists suf1, (S (String.length pre) + n1)%nat. split_and!; [|done|].
        -- exists (String c pre ++ pre1). rewrite Heq. split_and!; [|rewrite length_string_app; simpl; lia|lia].
           by rewrite string_app_assoc.
        -- intros suf' n' [[-> _]|(n2 & H2 & ->)]%Hcases Hlt; [done|]. apply (Hm suf' n2); [done|lia].
      * intros suf' n' [[-> _]|(n2 & H2 & _)]%Hcases; [done|]. by eapply Hspec.
  - exists None. split; [done|]. intros suf n (pre & Heq & <- & Hn). destruct pre as [|e pre]; [simpl in Hn; lia|].
    injection Heq as _ Heq. by apply Hi in Heq.
Qed.

(** ** Every event *)

Lemma length_ToLower s : String.length (ToLower s) = String.length s.
Proof. induction s as [|c s IH]; [done|]. exact (f_equal S IH). Qed.
Lemma getAddress_ok p t name :
  tunnel_ok p t → name ≠ "" → ∃ t' r, getAddress name t = Some (t', r) ∧ tunnel_ok p t'.
Proof.
  intros Ht Hn. unfold getAddress. destruct (LookupIP _ _); [eauto|].
  destruct (findDomain_spec (S (String.length name)) (ToLower name) (rs_domains (rc_wrapped (tn_resolver t))))
    as ([de|] & -> & _); [by destruct name|rewrite length_ToLower; lia| |simpl; eauto]. simpl.
  destruct (dropLast name) as [host|] eqn:E; [|by destruct name]. simpl.
  pose proof (getDnsIp_ok p t host (de_service de) Ht) as Hd. destruct (getDnsIp _ _ _) as [t' [ip|e]]; eauto.
  subst. eauto.
Qed.

Definition wf_event (e : event) : Prop :=
  match e with
  | ServiceAdded _ l | ServiceChanged _ l => Forall (λ h, h ≠ "") l
  | ServiceRemoved _ => True
  | Query name => name ≠ ""
  end.
Lemma handle_ok p t e : tunnel_ok p t → wf_event e → ∃ t', handle e t = Some t' ∧ tunnel_ok p t'.
Proof.
  intros Ht He. destruct e as [id l|id|id l|name]; simpl in *.
  - by apply addService_ok.
  - by apply removeService_ok.
  - destruct (removeService_ok p t id Ht) as (t1 & -> & Ht1). by apply addService_ok.
  - destruct (getAddress_ok p t name Ht He) as (t' & r & -> & Ht'). eauto.
Qed.
Lemma NewTunneler_ok p : tunnel_ok p (NewTunneler p).
Proof.
  split; simpl; [|by intros ? ? ?%lookup_empty_Some..]. split; simpl; try done; try lia.
  - constructor.
  - by intros ip ?%not_elem_of_nil.
Qed.
Lemma run_ok p evs t :
  tunnel_ok p t → Forall wf_event evs → ∃ t', foldM handle evs t = Some t' ∧ tunnel_ok p t'.
Proof.
  intros Ht Hl. revert t Ht. induction Hl as [|e evs He Hl IH]; intros t Ht; [by exists t|]. simpl.
  destruct (handle_ok p t e Ht He) as (t1 & -> & Ht1). by apply IH.
Qed.

(** C28. Addresses for host names are kept apart and not lost: after any events,
    none of which panics, each known name has an address of the prefix that no other
    name has and that is not waiting for reuse, and asking for the name of the
    address gives the name back; each address handed out so far belongs to a known
    name or waits, once, to be used again. *)
Theorem dns_addresses_conserved p evs :
  Forall wf_event evs →
  ∃ t, foldM handle evs (NewTunneler p) = Some t ∧
    let r := rc_wrapped (tn_resolver t) in
    let a := tn_alloc t in
    (∀ h ip, LookupIP (h ++ ".") r = Some ip →
       Contains p ip = true ∧ ip ∉ dnsRecycledIps a ∧ Lookup (Some ip) r = Some (ToLower h)) ∧
    (∀ h h' ip, LookupIP (h ++ ".") r = Some ip → LookupIP (h' ++ ".") r = Some ip → ToLower h = ToLower h') ∧
    NoDup (dnsRecycledIps a) ∧
    (∀ ip, px_Addr p < ip ≤ dnsCurrentIp a ↔
       (∃ h, LookupIP (h ++ ".") r = Some ip) ∨ ip ∈ dnsRecycledIps a).
Proof.
  intros Hwf. destruct (run_ok p evs _ (NewTunneler_ok p) Hwf) as (t & Hrun & [C _ _]). exists t. split; [done|].
  split_and!.
  - intros h ip H. rewrite lookup_canonical in H. destruct (cv_names _ _ _ C _ _ H) as (H1 & H2 & _).
    split_and!; [by apply (cv_range _ _ _ C)|done|]. by apply (cv_inverse _ _ _ C).
  - intros h h' ip H H'. rewrite lookup_canonical in H, H'. apply app_dot_inj. by eapply names_inj.
  - apply C.
  - intros ip. split.
    + intros [[k Hk]|?]%(cv_all _ _ _ C); [left|by right].
      destruct (cv_names _ _ _ C _ _ Hk) as (_ & _ & h & ->). exists h. by rewrite lookup_canonical.
    + intros [[h Hh]|?]; [|by apply (cv_free _ _ _ C)]. rewrite lookup_canonical in Hh. by apply (cv_names _ _ _ C) in Hh as [? _].
Qed.

(** The members of a prefix are an interval. *)
Lemma Contains_between p x y : px_Addr p ≤ x ≤ y → Contains p y = true → Contains p x = true.
Proof.
  unfold Contains. rewrite !Z.eqb_eq. intros Hx Hy.
  assert (∀ n u v, u ≤ v → Z.shiftr u n ≤ Z.shiftr v n) as Hmono.
  { intros n u v Huv. destruct (decide (0 ≤ n)).
    - rewrite !Z.shiftr_div_pow2 by lia. apply Z.div_le_mono; [apply Z.pow_pos_nonneg; lia|lia].
    - rewrite <- (Z.opp_involutive n), !Z.shiftr_opp_r, !Z.shiftl_mul_pow2 by lia.
      apply Z.mul_le_mono_nonneg_r; [apply Z.pow_nonneg; lia|lia]. }
  pose proof (Hmono (px_BitLen p - px_Bits p) (px_Addr p) x ltac:(lia)).
  pose proof (Hmono (px_BitLen p - px_Bits p) x y ltac:(lia)). lia.
Qed.

(** The range is exhausted only when it is full: if no address can be taken for a
    name after some events, every address of the prefix above its first one belongs to
    a known name. *)
Theorem range_exhausted_when_full p evs t h svc t' :
  Forall wf_event evs → foldM handle evs (NewTunneler p) = Some t →
  getDnsIp h svc t = (t', Err RangeExhausted) →
  ∀ ip, px_Addr p < ip < 2 ^ px_BitLen p → Contains p ip = true →
  ∃ h', LookupIP (h' ++ ".") (rc_wrapped (tn_resolver t)) = Some ip.
Proof.
  intros Hwf Hrun Hex ip Hip Hc. destruct (run_ok p evs _ (NewTunneler_ok p) Hwf) as (t1 & Hrun1 & [C _ _]).
  replace t1 with t in * by congruence. unfold getDnsIp in Hex. destruct (LookupIP _ _); [done|].
  destruct (takeIp (tn_alloc t)) as [[? ?]|] eqn:Et; [done|]. unfold takeIp, Next in Et.
  rewrite (cv_prefix _ _ _ C) in Et. pose proof (cv_first _ _ _ C) as Hf.
  destruct (dnsRecycledIps (tn_alloc t)) as [|? ?] eqn:Er; [|done].
  destruct (decide (ip ≤ dnsCurrentIp (tn_alloc t))) as [Hle|Hgt].
  - destruct (cv_all _ _ _ C ip ltac:(lia)) as [[k Hk]|Hr]; [|rewrite Er in Hr; by apply not_elem_of_nil in Hr].
    destruct (cv_names _ _ _ C _ _ Hk) as (_ & _ & h' & ->). exists h'. by rewrite lookup_canonical.
  - rewrite (proj2 (Z.ltb_lt _ _)) in Et by lia. simpl in Et.
    by rewrite (Contains_between p (dnsCurrentIp (tn_alloc t) + 1) ip) in Et by (done || lia).
Qed.

(** C38. The most specific domain answers: a query for a name that has no address yet
    ends, and is answered from the longest wildcard domain the name is below, with an
    address taken for the service of that domain; if there is none it is not found. *)
Theorem most_specific_domain_answers name t :
  name ≠ "" → LookupIP name (rc_wrapped (tn_resolver t)) = None →
  let d := rs_domains (rc_wrapped (tn_resolver t)) in
  (getAddress name t = Some (t, Err NotFound) ∧ ∀ suf n, below (ToLower name) suf n → d !! String "." suf = None) ∨
  (∃ host suf n de t', dropLast name = Some host ∧ below (ToLower name) suf n ∧ d !! String "." suf = Some de ∧
     (∀ suf' n', below (ToLower name) suf' n' → (n' < n)%nat → d !! String "." suf' = None) ∧
     getAddress name t = Some (t', (getDnsIp host (de_service de) t).2)).
Proof.
  intros Hn Hl. cbv zeta. unfold getAddress. rewrite Hl.
  destruct (findDomain_spec (S (String.length name)) (ToLower name) (rs_domains (rc_wrapped (tn_resolver t)))) as ([de|] & -> & Hs);
    [by destruct name|rewrite length_ToLower; lia| |by left]. right.
  destruct (dropLast name) as [host|] eqn:E; [|by destruct name]. destruct Hs as (suf & n & Hb & Hde & Hmax).
  destruct (getDnsIp host (de_service de) t) as [t1 [ip|e]] eqn:Eg;
    (eexists host, suf, n, de, _; split_and!; [done..|]; simpl; rewrite Eg; done).
Qed.

(** A service that intercepts one host name. *)
Definition isHost (h : string) : Prop := (∃ c, first h = Some c ∧ c ≠ "*"%char) ∧ GetCidr h = None.
Lemma add_new id h t ip a :
  isHost h → LookupIP (h ++ ".") (rc_wrapped (tn_resolver t)) = None → takeIp (tn_alloc t) = Some (ip, a) →
  addService id [h] t = Some (mkTunneler (rc_AddHostname h ip (tn_resolver t)) a
    (<[tn_next t := mkService id [h] [RemoveHost h] [HostAddress ip]]> (tn_heap t))
    (<[id := tn_next t]> (tn_services t)) (S (tn_next t))).
Proof.
  intros [(c & Hc & Hne) Hn] Hl Ht. unfold addService. cbn [GetInterceptAddresses]. unfold getInterceptIP. rewrite Hc.
  simpl. rewrite bool_decide_false, Hn by done. unfold getDnsIp. simpl. rewrite Hl, Ht. simpl.
  unfold onService, with_resolver, with_heap, with_services. simpl.
  by rewrite !alter_insert_eq.
Qed.
Lemma add_known id h t ip :
  isHost h → LookupIP (h ++ ".") (rc_wrapped (tn_resolver t)) = Some ip →
  addService id [h] t = Some (mkTunneler (tn_resolver t) (tn_alloc t)
    (<[tn_next t := mkService id [h] [] []]> (tn_heap t)) (<[id := tn_next t]> (tn_services t)) (S (tn_next t))).
Proof.
  intros [(c & Hc & Hne) Hn] Hl. unfold addService. cbn [GetInterceptAddresses]. unfold getInterceptIP. rewrite Hc.
  simpl. rewrite bool_decide_false, Hn by done. unfold getDnsIp. simpl. rewrite Hl. simpl.
  unfold with_resolver, with_services. simpl. rewrite rc_AddHostname_wrapped. unfold AddHostname.
  rewrite lookup_canonical in Hl. rewrite Hl. by destruct (tn_resolver t).
Qed.

(** C39. A host name of two services is lost with the first: the second service to
    intercept a name is given no address to intercept, and when the first is removed
    the name is no longer known although the second is still there, because names are
    counted only when adding them fails. *)
Theorem shared_hostname_lost p evs t h id1 id2 ip a :
  Forall wf_event evs → foldM handle evs (NewTunneler p) = Some t → isHost h → id1 ≠ id2 →
  LookupIP (h ++ ".") (rc_wrapped (tn_resolver t)) = None → takeIp (tn_alloc t) = Some (ip, a) →
  ∃ t' svc s, foldM handle [ServiceAdded id1 [h]; ServiceAdded id2 [h]; ServiceRemoved id1] t = Some t' ∧
    tn_services t' !! id2 = Some svc ∧ tn_heap t' !! svc = Some s ∧ sv_intercepted s = [] ∧
    LookupIP (h ++ ".") (rc_wrapped (tn_resolver t')) = None.
Proof.
  intros Hwf Hrun Hh Hne Hl Ht.
  destruct (run_ok p evs _ (NewTunneler_ok p) Hwf) as (t1 & Hrun1 & [C _ _]). replace t1 with t in * by congruence.
  clear Hrun Hrun1 Hwf t1. cbn [foldM handle]. rewrite (add_new id1 h t ip a) by done. cbn [mbind option_bind].
  rewrite lookup_canonical in Hl.
  assert (rc_AddHostname h ip (tn_resolver t) = mkRefCounting ∅ (mkResolver
    (<[canonicalName h := ip]> (rs_names (rc_wrapped (tn_resolver t))))
    (<[ip := ToLower h]> (rs_ips (rc_wrapped (tn_resolver t)))) (rs_domains (rc_wrapped (tn_resolver t))))) as ->.
  { rewrite rc_AddHostname_wrapped, (cv_counts _ _ _ C). unfold AddHostname. rewrite Hl.
    unfold canonicalName at 2. by rewrite dropLast_dot. }
  rewrite (add_known id2 h _ ip); [|done|rewrite lookup_canonical; apply lookup_insert_eq].
  cbn [mbind option_bind]. unfold removeService. simpl. rewrite lookup_insert_ne, lookup_insert_eq by done.
  unfold RunCleanupActions. simpl. rewrite lookup_insert_ne, lookup_insert_eq by lia. simpl.
  unfold cleanUpHost, rc_RemoveHostname, RemoveHostname. simpl. rewrite lookup_empty. simpl. rewrite lookup_insert_eq.
  eexists _, (S (tn_next t)), _. split; [done|]. simpl.
  rewrite lookup_delete_ne, lookup_insert_eq, lookup_alter_ne, lookup_insert_eq by (done || lia).
  split_and!; [done..|]. rewrite lookup_canonical. simpl. by rewrite lookup_delete_eq.
Qed.
End Tunneler.

(** ** Witnesses *)

(** Nothing is a network; [100.64.0.0/30] has two addresses to give. *)
Definition demoCidr (s : string) : option unit := if bool_decide (s = "10.0.0.0/8") then Some () else None.
Definition demoPrefix : Prefix := mkPrefix 1681915905 30 32.
Definition demoEvents : list event :=
  [ServiceAdded "s1" ["web.corp"; "10.0.0.0/8"; "*.dev"]; Query "a.b.dev."; ServiceAdded "s2" ["*.b.dev"];
   ServiceRemoved "s1"; Query "c.b.dev."; ServiceChanged "s2" ["Web.Corp"]].
Definition demoRun (evs : list event) : option (tunneler (IPNet := unit)) :=
  foldM (handle demoCidr) evs (NewTunneler demoPrefix).

(** Two names fill the range; addresses that were given back are used again. *)
Example demo_addresses :
  (λ t, (LookupIP "web.corp." (rc_wrapped (tn_resolver t)), dnsRecycledIps (tn_alloc t))) <$> demoRun demoEvents =
  Some (Some 1681915907, [1681915906]).
Proof. vm_compute. reflexivity. Qed.
(** A third name finds no address. *)
Example demo_exhausted :
  (λ t, snd (getDnsIp "third" 0 t)) <$> demoRun (take 2 demoEvents) = Some (Err RangeExhausted).
Proof. vm_compute. reflexivity. Qed.
(** The key of a domain is not put in lower case, but names are before they are looked up. *)
Example demo_upper_domain :
  (λ t, snd <$> getAddress "x.Dev." t) <$> demoRun [ServiceAdded "s1" ["*.Dev"]] = Some (Some (Err NotFound)).
Proof. vm_compute. reflexivity. Qed.

Lemma dns_addresses_conserved_witness :
  ∃ t, demoRun demoEvents = Some t ∧
    let r := rc_wrapped (tn_resolver t) in
    let a := tn_alloc t in
    (∀ h ip, LookupIP (h ++ ".") r = Some ip →
       Contains demoPrefix ip = true ∧ ip ∉ dnsRecycledIps a ∧ Lookup (Some ip) r = Some (ToLower h)) ∧
    (∀ h h' ip, LookupIP (h ++ ".") r = Some ip → LookupIP (h' ++ ".") r = Some ip → ToLower h = ToLower h') ∧
    NoDup (dnsRecycledIps a) ∧
    (∀ ip, px_Addr demoPrefix < ip ≤ dnsCurrentIp a ↔
       (∃ h, LookupIP (h ++ ".") r = Some ip) ∨ ip ∈ dnsRecycledIps a).
Proof.
  apply (dns_addresses_conserved demoCidr demoPrefix demoEvents).
  repeat constructor; discriminate.
Defined.

Definition demoFull : tunneler (IPNet := unit) := default (NewTunneler demoPrefix) (demoRun (take 2 demoEvents)).
Lemma range_exhausted_when_full_witness :
  ∀ ip, px_Addr demoPrefix < ip < 2 ^ px_BitLen demoPrefix → Contains demoPrefix ip = true →
  ∃ h', LookupIP (h' ++ ".") (rc_wrapped (tn_resolver demoFull)) = Some ip.
Proof.
  apply (range_exhausted_when_full demoCidr demoPrefix (take 2 demoEvents) demoFull "third" 0 demoFull).
  - repeat constructor; discriminate.
  - vm_compute. reflexivity.
  - vm_compute. reflexivity.
Defined.

Definition demoDomains : tunneler (IPNet := unit) :=
  default (NewTunneler demoPrefix) (demoRun [ServiceAdded "s1" ["*.dev"]; ServiceAdded "s2" ["*.b.dev"]]).
Lemma most_specific_domain_answers_witness :
  ∃ host suf n de t', dropLast "x.b.Dev." = Some host ∧ below (ToLower "x.b.Dev.") suf n ∧
    rs_domains (rc_wrapped (tn_resolver demoDomains)) !! String "." suf = Some de ∧
    (∀ suf' n', below (ToLower "x.b.Dev.") suf' n' → (n' < n)%nat →
       rs_domains (rc_wrapped (tn_resolver demoDomains)) !! String "." suf' = None) ∧
    getAddress "x.b.Dev." demoDomains = Some (t', (getDnsIp host (de_service de) demoDomains).2).
Proof.
  destruct (most_specific_domain_answers "x.b.Dev." demoDomains) as [[H _]|H];
    [discriminate|vm_compute; reflexivity| |exact H].
  exfalso. revert H. vm_compute. discriminate.
Defined.

Lemma shared_hostname_lost_witness :
  ∃ t' svc s, foldM (handle demoCidr) [ServiceAdded "s1" ["web.corp"]; ServiceAdded "s2" ["web.corp"]; ServiceRemoved "s1"]
      (NewTunneler demoPrefix) = Some t' ∧
    tn_services t' !! "s2" = Some svc ∧ tn_heap t' !! svc = Some s ∧ sv_intercepted s = [] ∧
    LookupIP ("web.corp" ++ ".") (rc_wrapped (tn_resolver t')) = None.
Proof.
  apply (shared_hostname_lost demoCidr demoPrefix [] (NewTunneler demoPrefix) "web.corp" "s1" "s2" 1681915906
    (mkAllocator demoPrefix 1681915906 [])).
  - constructor.
  - reflexivity.
  - split; [exists "w"%char; split; [reflexivity|discriminate]|vm_compute; reflexivity].
  - discriminate.
  - vm_compute. reflexivity.
  - vm_compute. reflexivity.
Defined.
