(* ===== verification/HostConfig.v ===== *)
(** * Where a hosting tunneler connects to (tunnel/entities/service.go, tunnel/intercept/hosting.go)

    A tunneler that hosts a service connects each client to the address, port and
    protocol of the service's configuration, or, where the configuration forwards
    them, to those the client asks for, if they are allowed. Forwarded addresses are
    then translated from one network into another.

    Modelled: the allowed addresses, the three getters of the configuration, the checks
    of a configuration before it is used, the translation of addresses byte by byte,
    and the destination that [Dial] composes. netip's addresses and prefixes are
    modelled; the parsing and printing of addresses are parameters. Left out: the
    sockets, source addresses and proxies, and what the resolver answers. *)

From stdpp Require Import base gmap list strings sorting pretty.
From Stdlib Require Import ZArith Lia Ascii.
From S2P Require Import Prelude.

Open Scope string_scope.
Open Scope Z_scope.

(** ** Addresses *)

(** An address of 4 or 16 bytes, with the zone of an IPv6 address. *)
Record Addr := mkAddr { ad_v6 : bool; ad_val : Z; ad_zone : string }.
Definition BitLen (a : Addr) : Z := if ad_v6 a then 128 else 32.
Definition ByteLen (a : Addr) : nat := if ad_v6 a then 16 else 4.
Definition valid_addr (a : Addr) : Prop := 0 ≤ ad_val a < 2 ^ BitLen a.

(** The bytes of a number, the most significant first, and back. *)
Fixpoint toBytes (n : nat) (v : Z) : list Z :=
  match n with O => [] | S n => (v / 2 ^ (8 * Z.of_nat n)) mod 256 :: toBytes n v end.
Fixpoint ofBytes (l : list Z) : Z :=
  match l with [] => 0 | b :: l => b * 2 ^ (8 * Z.of_nat (length l)) + ofBytes l end.
Definition AsSlice (a : Addr) : list Z := toBytes (ByteLen a) (ad_val a).

(** A prefix with the bits [-1] is not valid. *)
Record Prefix := mkPrefix { pf_Addr : Addr; pf_Bits : Z }.
Definition PrefixFrom (a : Addr) (bits : Z) : Prefix :=
  mkPrefix (mkAddr (ad_v6 a) (ad_val a) "") (if (0 <=? bits) && (bits <=? BitLen a) then bits else -1).
Definition IsValid (p : Prefix) : bool := 0 <=? pf_Bits p.
Definition hostBits (p : Prefix) : Z := BitLen (pf_Addr p) - pf_Bits p.
Definition Contains (p : Prefix) (a : Addr) : bool :=
  IsValid p && bool_decide (ad_zone a = "") && Bool.eqb (ad_v6 (pf_Addr p)) (ad_v6 a) &&
  (Z.shiftr (ad_val a) (hostBits p) =? Z.shiftr (ad_val (pf_Addr p)) (hostBits p)).
(** The network address; [None] is the zero address, whose slice is nil. *)
Definition Masked (p : Prefix) : option Addr :=
  if IsValid p then
    Some (mkAddr (ad_v6 (pf_Addr p)) (Z.shiftl (Z.shiftr (ad_val (pf_Addr p)) (hostBits p)) (hostBits p)) "")
  else None.

(** ** Translation *)

Inductive translate_error := VersionMismatch | LengthMismatch | NotInSubnet.

(** The mask of byte [i]; all operations are on bytes. *)
Definition maskByte (bits : Z) (i : nat) : Z :=
  if Z.of_nat i * 8 <? bits then
    let bitsLeft := bits - Z.of_nat i * 8 in
    if bitsLeft <? 8 then Z.lxor 255 (Z.shiftr 255 bitsLeft) else 255
  else 0.
Definition translateByte (bits : Z) (i : nat) (ipByte tgtByte : Z) : Z :=
  let hostPart := Z.ldiff ipByte (maskByte bits i) in
  Z.lor tgtByte hostPart.
Fixpoint translateBytes (bits : Z) (i : nat) (ipBytes tgtNet : list Z) : list Z :=
  match ipBytes, tgtNet with
  | b :: ipBytes, t :: tgtNet => translateByte bits i b t :: translateBytes bits (S i) ipBytes tgtNet
  | _, _ => []
  end.
(** [l[:n]]; the slice has no room beyond its length. *)
Definition slice (n : nat) (l : list Z) : option (list Z) := if (n <=? length l)%nat then Some (take n l) else None.
(** [None] is a slice out of range. *)
Definition translateIP (ip : Addr) (fromPrefix toPrefix : Prefix) : option (result Addr translate_error) :=
  if negb (BitLen ip =? BitLen (pf_Addr fromPrefix)) then Some (Err VersionMismatch)
  else if negb (pf_Bits fromPrefix =? pf_Bits toPrefix) then Some (Err LengthMismatch)
  else if negb (Contains fromPrefix ip) then Some (Err NotInSubnet)
  else
    ipBytes ← slice (ByteLen ip) (AsSlice ip);
    tgtNet ← slice (ByteLen ip) (match Masked toPrefix with Some a => AsSlice a | None => [] end);
    Some (Ok (mkAddr (ad_v6 ip) (ofBytes (translateBytes (pf_Bits fromPrefix) 0 ipBytes tgtNet)) "")).

Record AddressTranslation := mkTranslation { at_From : string; at_To : string; at_PrefixLength : Z }.
Record addrTranslation := mkAddrTranslation { fromPrefix : Prefix; toPrefix : Prefix }.
Record PortRange := mkPortRange { pr_Low : Z; pr_High : Z }.

(** ** Allowed addresses *)

(** A network as a slice of 4 or 16 bytes and the bits of its mask. *)
Record IPNet := mkIPNet { net_IP : Addr; net_Bits : Z }.
(** [To4]: an IPv4 address in the form of an IPv6 address is one. *)
Definition To4 (a : Addr) : Addr :=
  if ad_v6 a && (Z.shiftr (ad_val a) 32 =? 65535) then mkAddr false (ad_val a mod 2 ^ 32) "" else a.
Definition IPNet_Contains (n : IPNet) (ip : Addr) : bool :=
  let nn := To4 (net_IP n) in
  let bits := if Bool.eqb (ad_v6 nn) (ad_v6 (net_IP n)) then net_Bits n else Z.max 0 (net_Bits n - 96) in
  let ip := To4 ip in
  Bool.eqb (ad_v6 nn) (ad_v6 ip) &&
  (Z.shiftr (ad_val nn) (BitLen nn - bits) =? Z.shiftr (ad_val ip) (BitLen nn - bits)).

Definition HasSuffix (s suf : string) : bool :=
  (String.length suf <=? String.length s)%nat &&
  bool_decide (String.substring (String.length s - String.length suf) (String.length suf) s = suf).
Definition dropChars (n : nat) (s : string) : string := String.substring n (String.length s - n) s.

Inductive allowedAddress := cidrAddress (cidr : IPNet) | hostnameAddress (hostname : string) | domainAddress (domain : string).
(** What is asked for: a host name, or an address ([None] if it cannot be parsed). *)
Inductive asked := AskedHost (host : string) | AskedIP (ip : option Addr).
Definition Allows (a : allowedAddress) (addr : asked) : bool :=
  match a, addr with
  | cidrAddress cidr, AskedIP (Some ip) => IPNet_Contains cidr ip
  | hostnameAddress hostname, AskedHost host => bool_decide (ToLower host = hostname)
  | domainAddress domain, AskedHost host =>
    let host := ToLower host in
    bool_decide (domain = "*") || (HasSuffix host (dropChars 1 domain) || bool_decide (host = dropChars 2 domain))
  | _, _ => false
  end.

(** ** Numbers *)

(** [strconv.Atoi] for 64 bit integers. *)
Definition digit (c : ascii) : option Z :=
  let n := Z.of_nat (nat_of_ascii c) in if (48 <=? n) && (n <=? 57) then Some (n - 48) else None.
Fixpoint digits (acc : Z) (s : string) : option Z :=
  match s with EmptyString => Some acc | String c s => d ← digit c; digits (10 * acc + d) s end.
Definition Atoi (s : string) : option Z :=
  let '(neg, body) := match s with
    | String "-" s => (true, s) | String "+" s => (false, s) | s => (false, s) end in
  if bool_decide (body = "") then None else
  n ← digits 0 body;
  let n := if neg then - n else n in
  if (- 2 ^ 63 <=? n) && (n <? 2 ^ 63) then Some n else None.

(** ** The configuration *)

Record HostV1Config := mkHostV1Config {
  hc_Protocol : string;
  hc_ForwardProtocol : bool;
  hc_AllowedProtocols : list string;
  hc_Address : string;
  hc_ForwardAddress : bool;
  hc_ForwardAddressTranslations : list AddressTranslation;
  hc_AllowedAddresses : list string;
  hc_Port : Z;
  hc_ForwardPort : bool;
  hc_AllowedPortRanges : list PortRange;
}.
(** The options of a client: a string or some other value. *)
Inductive option_value := OptString (s : string) | OptOther.
#[global] Instance option_value_eq_dec : EqDecision option_value.
Proof. solve_decision. Defined.
Abbreviation dialOptions := (gmap string option_value).
Inductive host_error := NotProvided (key : string) | NotAString (key : string) | NotAllowed | InvalidPort.

Definition getValue (options : dialOptions) (key : string) : result string host_error :=
  match options !! key with
  | None => Err (NotProvided key)
  | Some (OptString s) => Ok s
  | Some OptOther => Err (NotAString key)
  end.

Section Hosting.
Context (ParseAddr : string → option Addr) (ParsePrefix : string → option (Addr * Z)) (ParseIP : string → option Addr).
Context (AddrString : Addr → string).
(** Sorting leaves the order of equal elements open. *)
Context (SortFunc : list AddressTranslation → list AddressTranslation).

Definition GetCidr (s : string) : option IPNet :=
  match ParseAddr s with
  | Some ip => Some (mkIPNet ip (BitLen ip))
  | None =>
    match ParsePrefix s with
    | Some (ip, bits) => Some (mkIPNet ip bits)
    | None => None
    end
  end.
(** The outer [None] is an index out of range, the inner one an error. *)
Definition makeAllowedAddress (addr : string) : option (option allowedAddress) :=
  match addr with
  | EmptyString => None
  | String "*" tail =>
    match tail with
    | EmptyString => Some (Some (domainAddress (ToLower addr)))
    | String "." (String _ _) => Some (Some (domainAddress (ToLower addr)))
    | _ => Some None
    end
  | _ =>
    match GetCidr addr with
    | Some cidr => Some (Some (cidrAddress cidr))
    | None => Some (Some (hostnameAddress (ToLower addr)))
    end
  end.
(** Addresses that are not valid are skipped. The result is kept in the configuration. *)
Definition GetAllowedAddresses (c : HostV1Config) : option (list allowedAddress) :=
  l ← mapM makeAllowedAddress (hc_AllowedAddresses c);
  Some (omap id l).

Definition GetProtocol (c : HostV1Config) (options : dialOptions) : result string host_error :=
  if hc_ForwardProtocol c then
    match getValue options "dst_protocol" with
    | Err e => Err e
    | Ok protocol => if bool_decide (protocol ∈ hc_AllowedProtocols c) then Ok protocol else Err NotAllowed
    end
  else Ok (hc_Protocol c).
Definition GetAddress (c : HostV1Config) (options : dialOptions) : option (result string host_error) :=
  if hc_ForwardAddress c then
    allowedAddresses ← GetAllowedAddresses c;
    Some match getValue options "dst_hostname" with
         | Ok address =>
           if existsb (λ a, Allows a (AskedHost address)) allowedAddresses then Ok address else Err NotAllowed
         | Err _ =>
           match getValue options "dst_ip" with
           | Err e => Err e
           | Ok address =>
             let ip := ParseIP address in
             if existsb (λ a, Allows a (AskedIP ip)) allowedAddresses then Ok address else Err NotAllowed
           end
         end
  else Some (Ok (hc_Address c)).
(** The decimal digits of [strconv.Itoa]. *)
Definition Itoa (n : Z) : string := pretty n.
Definition GetPort (c : HostV1Config) (options : dialOptions) : result string host_error :=
  if hc_ForwardPort c then
    match getValue options "dst_port" with
    | Err e => Err e
    | Ok portStr =>
      match Atoi portStr with
      | None => Err InvalidPort
      | Some port =>
        if existsb (λ r, (pr_Low r <=? wrap_u 16 port) && (wrap_u 16 port <=? pr_High r)) (hc_AllowedPortRanges c)
        then Ok portStr else Err NotAllowed
      end
    end
  else Ok (Itoa (hc_Port c)).

(** ** The hosting context *)

Record hostingContext := mkHostingContext { hx_config : HostV1Config; hx_addrTranslations : list addrTranslation }.
Definition makeTranslation (x : AddressTranslation) : option addrTranslation :=
  fromAddr ← ParseAddr (at_From x);
  toAddr ← ParseAddr (at_To x);
  Some (mkAddrTranslation (PrefixFrom fromAddr (at_PrefixLength x)) (PrefixFrom toAddr (at_PrefixLength x))).
(** [None] is the nil context of a configuration that cannot be used. *)
Definition newDefaultHostingContext (c : HostV1Config) : option hostingContext :=
  if hc_ForwardProtocol c && (length (hc_AllowedProtocols c) <? 1)%nat then None
  else
    translations ←
      (if hc_ForwardAddress c then
         if (length (hc_AllowedAddresses c) <? 1)%nat then None
         else mapM makeTranslation (SortFunc (hc_ForwardAddressTranslations c))
       else Some []);
    if hc_ForwardPort c && (length (hc_AllowedPortRanges c) <? 1)%nat then None
    else Some (mkHostingContext c translations).

(** The first translation that applies without an error. *)
Fixpoint translateLoop (a : Addr) (l : list addrTranslation) : option (option Addr) :=
  match l with
  | [] => Some None
  | x :: l =>
    if Contains (fromPrefix x) a then
      r ← translateIP a (fromPrefix x) (toPrefix x);
      match r with
      | Ok t => Some (Some t)
      | Err _ => translateLoop a l
      end
    else translateLoop a l
  end.
Definition translateAddress (h : hostingContext) (addr : string) : option string :=
  match ParseAddr addr with
  | None => Some addr
  | Some a => t ← translateLoop a (hx_addrTranslations h); Some (match t with Some t => AddrString t | None => addr end)
  end.

Record destination := mkDestination { ds_protocol : string; ds_address : string; ds_port : string }.
(** What [Dial] connects to, a destination or the tunneler's own resolver; [None] is a
    panic. *)
Inductive dialed := DialAddress (d : destination) | ResolvConn.
Definition Dial (h : hostingContext) (options : dialOptions) : option (result dialed host_error) :=
  if bool_decide (options !! "connType" = Some (OptString "resolver")) then Some (Ok ResolvConn)
  else
  match GetProtocol (hx_config h) options with
  | Err e => Some (Err e)
  | Ok protocol =>
    address ← GetAddress (hx_config h) options;
    match address with
    | Err e => Some (Err e)
    | Ok address =>
      xAddress ← translateAddress h address;
      Some match GetPort (hx_config h) options with
           | Err e => Err e
           | Ok port => Ok (DialAddress (mkDestination protocol xAddress port))
           end
    end
  end.
End Hosting.

(** ** Translation is arithmetic *)

Lemma length_toBytes n v : length (toBytes n v) = n.
Proof. induction n as [|n IH]; [done|]. simpl. by rewrite IH. Qed.
Lemma length_translateBytes bits i l1 l2 : length l1 = length l2 → length (translateBytes bits i l1 l2) = length l1.
Proof.
  revert i l2. induction l1 as [|b l1 IH]; intros i [|t l2] Hl; try done. simpl. f_equal. apply IH. simpl in Hl. lia.
Qed.

(** The host part of a byte whose first [b] bits belong to the network. *)
Lemma host_part x b : 0 ≤ x < 256 → 0 < b < 8 → Z.ldiff x (Z.lxor 255 (Z.shiftr 255 b)) = x mod 2 ^ (8 - b).
Proof.
  intros Hx Hb. apply Z.bits_inj'. intros n Hn.
  rewrite Z.ldiff_spec, Z.lxor_spec, Z.shiftr_spec, Z.testbit_mod_pow2 by lia. change 255 with (Z.ones 8).
  rewrite !Z.testbit_ones by lia. rewrite !(proj2 (Z.leb_le _ _)) by lia. simpl.
  destruct (decide (n < 8)) as [H8|H8].
  - rewrite (proj2 (Z.ltb_lt n 8)) by lia. destruct (decide (n < 8 - b)).
    + rewrite !(proj2 (Z.ltb_lt _ _)) by lia. simpl. by rewrite andb_true_r.
    + rewrite !(proj2 (Z.ltb_ge _ _)) by lia. simpl. by rewrite andb_false_r.
  - rewrite !(proj2 (Z.ltb_ge _ _)) by lia. simpl. rewrite andb_true_r.
    rewrite <- (Z.mod_small x (2 ^ 8)) by (simpl; lia). by rewrite Z.mod_pow2_bits_high by lia.
Qed.
Lemma lor_add t y k : 0 ≤ k → t mod 2 ^ k = 0 → 0 ≤ y < 2 ^ k → Z.lor t y = t + y.
Proof.
  intros Hk Ht Hy. symmetry. apply Z.add_nocarry_lor. apply Z.bits_inj'. intros n Hn. rewrite Z.land_spec, Z.bits_0.
  destruct (decide (n < k)).
  - replace (Z.testbit t n) with false; [done|]. rewrite <- (Z.mod_pow2_bits_low t k n) by lia. by rewrite Ht, Z.bits_0.
  - rewrite <- (Z.mod_small y (2 ^ k)) by lia. rewrite Z.mod_pow2_bits_high by lia. apply andb_false_r.
Qed.

(** The three kinds of bytes: of the network, of both, of the host. *)
Lemma translateByte_net bits i x t :
  8 ≤ bits - Z.of_nat i * 8 → 0 ≤ x < 256 → translateByte bits i x t = t.
Proof.
  intros Hb Hx. unfold translateByte, maskByte. rewrite (proj2 (Z.ltb_lt _ _)), (proj2 (Z.ltb_ge _ _)) by lia.
  replace (Z.ldiff x 255) with 0; [apply Z.lor_0_r|]. change 255 with (Z.ones 8).
  rewrite Z.ldiff_ones_r_low; [done|lia|]. destruct (decide (x = 0)) as [->|]; [done|]. apply Z.log2_lt_pow2; simpl; lia.
Qed.
Lemma translateByte_mixed bits i x t :
  0 < bits - Z.of_nat i * 8 < 8 → 0 ≤ x < 256 → t mod 2 ^ (8 - (bits - Z.of_nat i * 8)) = 0 →
  translateByte bits i x t = t + x mod 2 ^ (8 - (bits - Z.of_nat i * 8)).
Proof.
  intros Hb Hx Ht. unfold translateByte, maskByte. rewrite !(proj2 (Z.ltb_lt _ _)) by lia.
  rewrite host_part by lia. apply (lor_add _ _ (8 - (bits - Z.of_nat i * 8))); [lia|done|].
  apply Z.mod_pos_bound, Z.pow_pos_nonneg; lia.
Qed.
Lemma translateByte_host bits i x : bits - Z.of_nat i * 8 ≤ 0 → translateByte bits i x 0 = x.
Proof.
  intros Hb. unfold translateByte, maskByte. rewrite (proj2 (Z.ltb_ge _ _)) by lia.
  by rewrite Z.ldiff_0_r, Z.lor_0_l.
Qed.

Lemma mod_split v a k : 0 ≤ a → 0 ≤ k → v mod 2 ^ (k + a) = (v / 2 ^ k) mod 2 ^ a * 2 ^ k + v mod 2 ^ k.
Proof.
  intros Ha Hk. rewrite Z.pow_add_r, Z.rem_mul_r by (try apply Z.pow_nonzero; try apply Z.pow_pos_nonneg; lia). lia.
Qed.
Lemma mod_mod_pow v a b : 0 ≤ a ≤ b → (v mod 2 ^ b) mod 2 ^ a = v mod 2 ^ a.
Proof.
  intros H. replace b with (a + (b - a)) by lia. rewrite mod_split by lia.
  rewrite Z.add_comm, Z.mod_add by (apply Z.pow_nonzero; lia). apply Z.mod_mod, Z.pow_nonzero; lia.
Qed.
Lemma mod_zero_le v a b : 0 ≤ a ≤ b → v mod 2 ^ b = 0 → v mod 2 ^ a = 0.
Proof. intros H Hv. rewrite <- (mod_mod_pow v a b), Hv by lia. apply Z.mod_0_l, Z.pow_nonzero; lia. Qed.

(** The bytes of an address from [i] on, with the network bits of the target cleared
    below its prefix: the host bits left in them. *)
Definition hostBitsAt (bits : Z) (i n : nat) : Z :=
  Z.max 0 (Z.min (8 * Z.of_nat n) (8 * Z.of_nat n - (bits - Z.of_nat i * 8))).
Lemma translateBytes_spec bits n i ip tgt :
  tgt mod 2 ^ hostBitsAt bits i n = 0 →
  ofBytes (translateBytes bits i (toBytes n ip) (toBytes n tgt)) =
  tgt mod 2 ^ (8 * Z.of_nat n) + ip mod 2 ^ hostBitsAt bits i n.
Proof.
  revert i. induction n as [|n IH]; intros i Ht.
  { replace (hostBitsAt bits i 0) with 0 by (unfold hostBitsAt; lia). simpl. by rewrite !Z.mod_1_r. }
  cbn [toBytes translateBytes ofBytes]. rewrite length_translateBytes by (by rewrite !length_toBytes). rewrite length_toBytes.
  set (k := 8 * Z.of_nat n). set (x := (ip / 2 ^ k) mod 256). set (t := (tgt / 2 ^ k) mod 256).
  assert (0 ≤ x < 256) as Hx by (apply Z.mod_pos_bound; lia).
  replace (8 * Z.of_nat (S n)) with (k + 8) by (unfold k; lia).
  assert (tgt mod 2 ^ (k + 8) = t * 2 ^ k + tgt mod 2 ^ k) as Htgt by (apply (mod_split tgt 8 k); unfold k; lia).
  assert (hostBitsAt bits i (S n) = Z.max 0 (Z.min (k + 8) (k + 8 - (bits - Z.of_nat i * 8)))) as Hh
    by (unfold hostBitsAt, k; lia).
  assert (hostBitsAt bits (S i) n = Z.max 0 (Z.min k (k - (bits - Z.of_nat i * 8) + 8))) as Hh'
    by (unfold hostBitsAt, k; lia).
  rewrite Htgt. rewrite Hh in *. destruct (decide (8 ≤ bits - Z.of_nat i * 8)) as [Hb|Hb].
  { rewrite translateByte_net by done. replace (Z.max 0 (Z.min (k + 8) _)) with (hostBitsAt bits (S i) n) in * by lia.
    rewrite IH by done. fold k. lia. }
  assert (hostBitsAt bits (S i) n = k) as Hk by lia.
  assert (tgt mod 2 ^ k = 0) as Htk by (eapply mod_zero_le; [|exact Ht]; lia).
  rewrite IH by (by rewrite Hk). fold k. rewrite Hk, Htk.
  destruct (decide (0 < bits - Z.of_nat i * 8)) as [Hb0|Hb0].
  - set (a := 8 - (bits - Z.of_nat i * 8)). replace (Z.max 0 _) with (k + a) in * by (unfold a; lia).
    assert (t mod 2 ^ a = 0) as Hta.
    { unfold t. change 256 with (2 ^ 8). rewrite mod_mod_pow by (unfold a; lia).
      rewrite mod_split, Htk in Ht by (unfold a, k; lia).
      assert (0 < 2 ^ k) by (apply Z.pow_pos_nonneg; unfold k; lia). nia. }
    rewrite translateByte_mixed by (done || lia). fold a. rewrite (mod_split ip a k) by (unfold a, k; lia).
    unfold x. change 256 with (2 ^ 8). rewrite mod_mod_pow by (unfold a; lia). lia.
  - replace (Z.max 0 _) with (k + 8) in * by lia. rewrite Htgt, Htk in Ht.
    assert (0 < 2 ^ k) by (apply Z.pow_pos_nonneg; unfold k; lia).
    assert (t = 0) as Ht0 by (assert (t * 2 ^ k = 0) as [?|?]%Z.mul_eq_0 by lia; lia).
    rewrite Ht0. rewrite translateByte_host by lia. rewrite (mod_split ip 8 k) by (unfold k; lia).
    change (2 ^ 8) with 256. fold x. lia.
Qed.

(** The network bits of the target and the host bits of the address. *)
Definition moved (ip : Addr) (p : Prefix) : Addr :=
  let h := hostBits p in
  mkAddr (ad_v6 ip) (ad_val (pf_Addr p) / 2 ^ h * 2 ^ h + ad_val ip mod 2 ^ h) "".

Lemma ByteLen_bits a : 8 * Z.of_nat (ByteLen a) = BitLen a.
Proof. unfold ByteLen, BitLen. by destruct (ad_v6 a). Qed.
Lemma Contains_spec p a :
  Contains p a = true ↔
  0 ≤ pf_Bits p ∧ ad_zone a = "" ∧ ad_v6 (pf_Addr p) = ad_v6 a ∧
  Z.shiftr (ad_val a) (hostBits p) = Z.shiftr (ad_val (pf_Addr p)) (hostBits p).
Proof.
  unfold Contains, IsValid. rewrite !andb_true_iff, Z.leb_le, bool_decide_eq_true, Bool.eqb_true_iff, Z.eqb_eq. tauto.
Qed.

(** A target of the same family with as many bits. *)
Definition target_ok (ip : Addr) (p q : Prefix) : Prop :=
  valid_addr (pf_Addr q) ∧ ad_v6 (pf_Addr q) = ad_v6 ip ∧ pf_Bits q = pf_Bits p ∧ pf_Bits q ≤ BitLen (pf_Addr q).

Lemma translateIP_spec ip p q :
  Contains p ip = true → target_ok ip p q → translateIP ip p q = Some (Ok (moved ip q)).
Proof.
  intros Hc (Hv & Hf & Hb & Hle). pose proof Hc as (H0 & Hz & Hfp & _)%Contains_spec. unfold translateIP.
  assert (BitLen (pf_Addr p) = BitLen ip) as -> by (unfold BitLen; by rewrite Hfp).
  rewrite Z.eqb_refl, Hb, Z.eqb_refl, Hc. simpl.
  assert (BitLen (pf_Addr q) = BitLen ip) as Hq by (unfold BitLen; by rewrite Hf).
  assert (ByteLen (pf_Addr q) = ByteLen ip) as Hqb by (unfold ByteLen; by rewrite Hf).
  assert (∀ v, slice (ByteLen ip) (toBytes (ByteLen ip) v) = Some (toBytes (ByteLen ip) v)) as Hs.
  { intros v. unfold slice. rewrite length_toBytes, Nat.leb_refl, take_ge; [done|by rewrite length_toBytes]. }
  unfold Masked, IsValid, AsSlice. rewrite (proj2 (Z.leb_le _ _)) by lia. rewrite Hs. simpl.
  unfold ByteLen at 2. simpl. rewrite Hf. fold (ByteLen ip). rewrite Hs. simpl.
  assert (hostBitsAt (pf_Bits p) 0 (ByteLen ip) = hostBits q) as Hh.
  { unfold hostBitsAt, hostBits. rewrite ByteLen_bits, Hq, Hb. rewrite Hq, Hb in Hle. lia. }
  assert (0 ≤ hostBits q) as Hh0 by (unfold hostBits; lia).
  assert (0 < 2 ^ hostBits q) as Hpos by (apply Z.pow_pos_nonneg; lia).
  unfold moved. do 3 f_equal. rewrite Z.shiftl_mul_pow2, Z.shiftr_div_pow2 by done.
  rewrite translateBytes_spec by (rewrite Hh; apply Z.mod_mul; lia).
  rewrite Hh, ByteLen_bits. f_equal. apply Z.mod_small. rewrite <- Hq. destruct Hv as [Hv1 Hv2].
  pose proof (Z.mul_div_le (ad_val (pf_Addr q)) (2 ^ hostBits q) Hpos).
  pose proof (Z.div_pos (ad_val (pf_Addr q)) (2 ^ hostBits q) Hv1 Hpos). nia.
Qed.

Lemma moved_div ip q :
  0 ≤ hostBits q → ad_val (moved ip q) / 2 ^ hostBits q = ad_val (pf_Addr q) / 2 ^ hostBits q ∧
  ad_val (moved ip q) mod 2 ^ hostBits q = ad_val ip mod 2 ^ hostBits q.
Proof.
  intros H. assert (0 < 2 ^ hostBits q) as Hpos by (apply Z.pow_pos_nonneg; lia). unfold moved. simpl.
  pose proof (Z.mod_pos_bound (ad_val ip) _ Hpos). split.
  - rewrite Z.div_add_l, (Z.div_small (ad_val ip mod _)) by lia. lia.
  - rewrite Z.add_comm, Z.mod_add by lia. apply Z.mod_small. lia.
Qed.

(** C29. Translation moves an address into the target network and back: for an address
    of the source network and a target of the same family and prefix length, the byte
    loop never leaves the slices and gives the address with the network bits of the
    target and the host bits of the source; this is an address of the target network,
    and translating it back gives the address it came from. *)
Theorem translation_roundtrip ip p q :
  valid_addr ip → valid_addr (pf_Addr p) → Contains p ip = true → target_ok ip p q →
  translateIP ip p q = Some (Ok (moved ip q)) ∧ valid_addr (moved ip q) ∧ Contains q (moved ip q) = true ∧
  translateIP (moved ip q) q p = Some (Ok ip).
Proof.
  intros Hv Hvp Hc Ht. pose proof Hc as (H0 & Hz & Hf & Hsh)%Contains_spec. pose proof Ht as (Hvq & Hfq & Hb & Hle).
  assert (hostBits p = hostBits q) as Hpq by (unfold hostBits, BitLen; by rewrite Hf, Hfq, Hb).
  assert (0 ≤ hostBits q) as Hh0 by (unfold hostBits; lia).
  destruct (moved_div ip q Hh0) as [Hd Hm]. assert (0 < 2 ^ hostBits q) as Hpos by (apply Z.pow_pos_nonneg; lia).
  assert (Contains q (moved ip q) = true) as Hcq.
  { apply Contains_spec. rewrite !Z.shiftr_div_pow2 by done. by split_and!; [lia|..]. }
  split_and!; [by apply translateIP_spec| |done|].
  - unfold valid_addr. replace (BitLen (moved ip q)) with (BitLen (pf_Addr q)) by (unfold BitLen; by rewrite Hfq).
    destruct Hvq as [Hq1 Hq2]. pose proof (Z.div_mod (ad_val (moved ip q)) (2 ^ hostBits q) ltac:(lia)) as Hdm.
    rewrite Hd, Hm in Hdm. pose proof (Z.mod_pos_bound (ad_val ip) _ Hpos).
    pose proof (Z.div_pos (ad_val (pf_Addr q)) (2 ^ hostBits q) Hq1 Hpos).
    assert (2 ^ BitLen (pf_Addr q) = 2 ^ pf_Bits q * 2 ^ hostBits q) as Hp2.
    { rewrite <- Z.pow_add_r by lia. f_equal. unfold hostBits. lia. }
    pose proof (Z.div_lt_upper_bound (ad_val (pf_Addr q)) (2 ^ hostBits q) (2 ^ pf_Bits q) Hpos ltac:(lia)). nia.
  - rewrite translateIP_spec; [|done|].
    + do 2 f_equal. rewrite Hpq in Hsh. rewrite !Z.shiftr_div_pow2 in Hsh by lia.
      unfold moved at 1. rewrite Hpq, Hm, <- Hsh. simpl.
      destruct ip as [v6 v z]. simpl in *. subst. f_equal.
      pose proof (Z.div_mod v (2 ^ hostBits q) ltac:(lia)). lia.
    + split_and!; [done|done|done|]. unfold hostBits in Hh0, Hpq. lia.
Qed.

(** The first translation that applies is one with the longest prefix. *)
Definition translation_ok (a : Addr) (x : addrTranslation) : Prop :=
  Contains (fromPrefix x) a = true → target_ok a (fromPrefix x) (toPrefix x).
Lemma translateLoop_best a l :
  StronglySorted (λ x y, IsValid (fromPrefix x) = true → IsValid (fromPrefix y) = true →
    pf_Bits (fromPrefix y) ≤ pf_Bits (fromPrefix x)) l → Forall (translation_ok a) l →
  match translateLoop a l with
  | Some (Some t) => ∃ x, x ∈ l ∧ Contains (fromPrefix x) a = true ∧ t = moved a (toPrefix x) ∧
      ∀ y, y ∈ l → Contains (fromPrefix y) a = true → pf_Bits (fromPrefix y) ≤ pf_Bits (fromPrefix x)
  | Some None => ∀ x, x ∈ l → Contains (fromPrefix x) a = false
  | None => False
  end.
Proof.
  intros Hs. induction Hs as [|x l Hs IH Hx]; intros Hok; [by intros x ?%not_elem_of_nil|].
  apply Forall_cons in Hok as [Hox Hok]. simpl. destruct (Contains (fromPrefix x) a) eqn:Hc.
  - rewrite translateIP_spec by (done || by apply Hox). simpl. exists x. split_and!; [set_solver|done|done|].
    intros y [->|Hy]%elem_of_cons Hcy; [done|]. rewrite Forall_forall in Hx.
    apply Hx; [done|apply Z.leb_le; by apply Contains_spec in Hc as [? _]|apply Z.leb_le; by apply Contains_spec in Hcy as [? _]].
  - specialize (IH Hok). destruct (translateLoop a l) as [[t|]|]; [|set_solver|done].
    destruct IH as (y & Hy & ? & ? & Hmax). exists y. split_and!; [set_solver|done|done|].
    intros z [->|Hz]%elem_of_cons Hcz; [congruence|by apply Hmax].
Qed.

(** ** What is allowed *)

Section Allowed.
Context (ParseAddr : string → option Addr) (ParsePrefix : string → option (Addr * Z)) (ParseIP : string → option Addr).
Context (AddrString : Addr → string).
Context (SortFunc : list AddressTranslation → list AddressTranslation).
Abbreviation cidrOf := (GetCidr ParseAddr ParsePrefix).

(** What an entry of the allowed addresses permits. *)
Inductive permits : string → asked → Prop :=
| permits_any h : permits "*" (AskedHost h)
| permits_domain d h : d ≠ "" → ToLower h = ToLower d → permits ("*." ++ d) (AskedHost h)
| permits_below d h pre : d ≠ "" → ToLower h = pre ++ "." ++ ToLower d → permits ("*." ++ d) (AskedHost h)
| permits_net c e n ip : c ≠ "*"%char → cidrOf (String c e) = Some n → IPNet_Contains n ip = true →
    permits (String c e) (AskedIP (Some ip))
| permits_host c e h : c ≠ "*"%char → cidrOf (String c e) = None → ToLower h = ToLower (String c e) →
    permits (String c e) (AskedHost h).

Lemma substring_full s : String.substring 0 (String.length s) s = s.
Proof. induction s as [|c s IH]; [done|]. exact (f_equal (String c) IH). Qed.
Lemma substring_drop a s : String.substring (String.length a) (String.length s) (a ++ s) = s.
Proof. induction a as [|c a IH]; [apply substring_full|exact IH]. Qed.
Lemma string_split n s : (n ≤ String.length s)%nat → ∃ a b, s = a ++ b ∧ String.length a = n.
Proof.
  revert s. induction n as [|n IH]; intros s Hn; [by exists "", s|]. destruct s as [|c s]; [simpl in Hn; lia|].
  destruct (IH s) as (a & b & -> & <-); [simpl in Hn; lia|]. by exists (String c a), b.
Qed.
Lemma length_append a b : String.length (a ++ b) = (String.length a + String.length b)%nat.
Proof. induction a as [|c a IH]; [done|]. exact (f_equal S IH). Qed.
Lemma HasSuffix_spec s suf : HasSuffix s suf = true ↔ ∃ pre, s = pre ++ suf.
Proof.
  unfold HasSuffix. rewrite andb_true_iff, Nat.leb_le, bool_decide_eq_true. split.
  - intros [Hl Hs]. destruct (string_split (String.length s - String.length suf) s) as (a & b & Heq & Ha); [lia|].
    exists a. assert (String.length suf = String.length b) as Hb.
    { apply (f_equal String.length) in Heq. rewrite length_append in Heq. lia. }
    rewrite <- Ha, Heq, Hb, substring_drop in Hs. by subst.
  - intros [pre ->]. rewrite length_append. split; [lia|].
    replace (_ + _ - _)%nat with (String.length pre) by lia. apply substring_drop.
Qed.
Lemma dropChars_app a s : dropChars (String.length a) (a ++ s) = s.
Proof. unfold dropChars. rewrite length_append. replace (_ + _ - _)%nat with (String.length s) by lia. apply substring_drop. Qed.

Lemma domain_permits d x :
  d ≠ "" → Allows (domainAddress (ToLower ("*." ++ d))) x = true ↔ permits ("*." ++ d) x.
Proof.
  intros Hd. change (ToLower ("*." ++ d)) with ("*." ++ ToLower d). split.
  - destruct x as [h|]; [|done]. cbn [Allows]. rewrite bool_decide_false by done. cbn [orb].
    rewrite orb_true_iff, bool_decide_eq_true, HasSuffix_spec.
    change ("*." ++ ToLower d) with ("*" ++ ("." ++ ToLower d)) at 1.
    rewrite (dropChars_app "*"), (dropChars_app "*."). intros [[pre H]|H]; [by eapply permits_below|by apply permits_domain].
  - assert (∀ h, ToLower h = ToLower d ∨ (∃ pre, ToLower h = pre ++ "." ++ ToLower d) →
      Allows (domainAddress ("*." ++ ToLower d)) (AskedHost h) = true) as Hh.
    { intros h H. cbn [Allows]. apply orb_true_iff. right. apply orb_true_iff.
      rewrite bool_decide_eq_true, HasSuffix_spec. change ("*." ++ ToLower d) with ("*" ++ ("." ++ ToLower d)) at 1.
      rewrite (dropChars_app "*"), (dropChars_app "*."). destruct H; auto. }
    intros H. inversion H; simplify_eq; eauto.
Qed.
Lemma Allows_permits e a x :
  makeAllowedAddress ParseAddr ParsePrefix e = Some (Some a) → Allows a x = true ↔ permits e x.
Proof.
  destruct e as [|c e]; [done|]. destruct (decide (c = "*"%char)) as [->|Hc].
  - destruct e as [|c e]; simpl.
    { intros [= <-]. destruct x as [h|ip]; [split; [constructor|done]|]. by split; [|inversion 1]. }
    destruct (decide (c = "."%char)) as [->|Hc].
    + destruct e as [|c e]; [done|]. intros [= <-]. by apply (domain_permits (String c e)).
    + intros H. exfalso. destruct c as [[] [] [] [] [] [] [] []]; try done; by destruct e.
  - replace (makeAllowedAddress ParseAddr ParsePrefix (String c e)) with
      (match cidrOf (String c e) with
       | Some cidr => Some (Some (cidrAddress cidr))
       | None => Some (Some (hostnameAddress (ToLower (String c e)))) end).
    2: { destruct c as [[] [] [] [] [] [] [] []]; done. }
    destruct (cidrOf (String c e)) as [n|] eqn:E; intros [= <-].
    + destruct x as [h|[ip|]]; simpl; (split; [|inversion 1; by simplify_eq]); [done| |done]. by apply permits_net.
    + destruct x as [h|ip]; cbn [Allows]; [|split; [done|inversion 1; by simplify_eq]].
      rewrite bool_decide_eq_true. split; [by apply permits_host|]. inversion 1; by simplify_eq.
Qed.

Lemma permits_made e x : permits e x → ∃ a, makeAllowedAddress ParseAddr ParsePrefix e = Some (Some a).
Proof.
  assert (∀ c e, c ≠ "*"%char → ∃ a, makeAllowedAddress ParseAddr ParsePrefix (String c e) = Some (Some a)) as Hc.
  { intros c e' Hc. destruct c as [[] [] [] [] [] [] [] []]; try done; simpl; destruct (cidrOf _); eauto. }
  destruct 1 as [h|[|c d] h Hd ?|[|c d] h pre Hd ?|c e n ip ? ? ?|c e h ? ? ?]; simpl; eauto; done.
Qed.
Lemma allowed_exact c x :
  Forall (λ e, e ≠ "") (hc_AllowedAddresses c) →
  ∃ l, GetAllowedAddresses ParseAddr ParsePrefix c = Some l ∧
    (existsb (λ a, Allows a x) l = true ↔ ∃ e, e ∈ hc_AllowedAddresses c ∧ permits e x).
Proof.
  unfold GetAllowedAddresses. induction 1 as [|e l He Hl IH]; simpl.
  { eexists. split; [done|]. simpl. split; [done|]. intros (e & ?%not_elem_of_nil & _). done. }
  destruct IH as (r & Hr & Hiff). destruct (mapM _ l) as [made|] eqn:Em; [|done]. simpl in Hr. injection Hr as <-.
  destruct (makeAllowedAddress ParseAddr ParsePrefix e) as [[a|]|] eqn:Ea.
  - simpl. eexists. split; [done|]. simpl. rewrite orb_true_iff, (Allows_permits e a x Ea), Hiff. split.
    + intros [?|(e' & ? & ?)]; eauto using list_elem_of_here, list_elem_of_further.
    + intros (e' & [->|?]%elem_of_cons & ?); eauto.
  - simpl. eexists. split; [done|]. simpl. rewrite Hiff. split.
    + intros (e' & ? & ?). eauto using list_elem_of_further.
    + intros (e' & [->|?]%elem_of_cons & Hp); [|eauto]. apply permits_made in Hp as [a Ha]. congruence.
  - exfalso. destruct e as [|c0 e]; [done|]. destruct (decide (c0 = "*"%char)) as [->|Hc].
    + simpl in Ea. destruct e as [|c1 e]; [done|].
      destruct c1 as [[] [] [] [] [] [] [] []]; try done; by destruct e.
    + revert Ea. destruct c0 as [[] [] [] [] [] [] [] []]; try done; simpl; by destruct (cidrOf _).
Qed.

(** What a client asks for: a host name before an address. *)
Definition requested (options : dialOptions) : option (string * asked) :=
  match getValue options "dst_hostname" with
  | Ok a => Some (a, AskedHost a)
  | Err _ => match getValue options "dst_ip" with Ok a => Some (a, AskedIP (ParseIP a)) | Err _ => None end
  end.
Lemma GetAddress_exact c options :
  hc_ForwardAddress c = true → Forall (λ e, e ≠ "") (hc_AllowedAddresses c) →
  ∃ r, GetAddress ParseAddr ParsePrefix ParseIP c options = Some r ∧
    ∀ addr, r = Ok addr ↔ ∃ x e, requested options = Some (addr, x) ∧ e ∈ hc_AllowedAddresses c ∧ permits e x.
Proof.
  intros Hf Hl. unfold GetAddress, requested. rewrite Hf.
  assert (∀ x (a : string), ∃ l, GetAllowedAddresses ParseAddr ParsePrefix c = Some l ∧ ∀ addr,
    (if existsb (λ a, Allows a x) l then Ok a else Err NotAllowed : result string host_error) = Ok addr ↔
    ∃ x' e, Some (a, x) = Some (addr, x') ∧ e ∈ hc_AllowedAddresses c ∧ permits e x') as Hx.
  { intros x a. destruct (allowed_exact c x Hl) as (l & Hl' & Hiff). exists l. split; [done|]. intros addr.
    destruct (existsb _ l).
    - destruct (proj1 Hiff eq_refl) as (e & He & Hp). split; [intros [= ->]; eauto 10|].
      intros (x' & e' & [= -> ->] & _). done.
    - split; [done|]. intros (x' & e' & [= -> ->] & H1 & H2). destruct Hiff as [_ Hiff]. exfalso.
      discriminate Hiff. eauto. }
  destruct (Hx (AskedHost "") "") as (l & Hl' & _). rewrite Hl'. simpl. eexists. split; [done|].
  destruct (getValue options "dst_hostname") as [a|e].
  - destruct (Hx (AskedHost a) a) as (l' & Hl2 & Hiff). replace l' with l in * by congruence. done.
  - destruct (getValue options "dst_ip") as [a|e'].
    + destruct (Hx (AskedIP (ParseIP a)) a) as (l' & Hl2 & Hiff). replace l' with l in * by congruence. done.
    + intros addr. split; [done|]. by intros (x & e0 & ? & _).
Qed.

Lemma GetProtocol_exact c options p :
  hc_ForwardProtocol c = true →
  GetProtocol c options = Ok p ↔ getValue options "dst_protocol" = Ok p ∧ p ∈ hc_AllowedProtocols c.
Proof.
  intros Hf. unfold GetProtocol. rewrite Hf. destruct (getValue options _) as [q|]; [|naive_solver].
  case_bool_decide; naive_solver.
Qed.
Lemma GetPort_exact c options p :
  hc_ForwardPort c = true →
  GetPort c options = Ok p ↔ getValue options "dst_port" = Ok p ∧
    ∃ n r, Atoi p = Some n ∧ r ∈ hc_AllowedPortRanges c ∧ pr_Low r ≤ wrap_u 16 n ≤ pr_High r.
Proof.
  intros Hf. unfold GetPort. rewrite Hf. destruct (getValue options _) as [q|]; [|naive_solver].
  destruct (Atoi q) as [n|] eqn:E; [|split; [done|intros ([= ->] & n & r & H & _); congruence]].
  destruct (existsb _ _) eqn:Ex.
  - apply existsb_exists in Ex as (r & Hr%list_elem_of_In & [H1%Z.leb_le H2%Z.leb_le]%andb_true_iff).
    split; [|by intros [-> _]]. intros [= ->]. eauto 10.
  - split; [done|]. intros ([= ->] & n' & r & Hn & Hr & Hlo & Hhi). replace n' with n in * by congruence.
    apply not_true_iff_false in Ex. destruct Ex. apply existsb_exists. exists r. rewrite <- list_elem_of_In.
    split; [done|]. apply andb_true_iff. by rewrite !Z.leb_le.
Qed.

Lemma context_config c h : newDefaultHostingContext ParseAddr SortFunc c = Some h → hx_config h = c.
Proof.
  unfold newDefaultHostingContext. destruct (hc_ForwardProtocol c && _); [done|].
  destruct (if hc_ForwardAddress c then _ else _) as [ts|]; [|done]. simpl. destruct (hc_ForwardPort c && _); [done|].
  by intros [= <-].
Qed.

(** C27. A forwarding service connects exactly where it is allowed to: with protocol,
    address and port forwarded, a destination is dialed exactly if the client did not
    ask for the resolver and asked for a protocol that is allowed, for a host name or an address that an entry of the
    allowed addresses permits (as a host name without regard to case, as a domain or
    below it, or as an address of a network), and for a number whose last 16 bits are in
    an allowed range; the address dialed is the translation of the one asked for. *)
Theorem dial_destination_allowed c h options d :
  newDefaultHostingContext ParseAddr SortFunc c = Some h → Forall (λ e, e ≠ "") (hc_AllowedAddresses c) →
  hc_ForwardProtocol c = true → hc_ForwardAddress c = true → hc_ForwardPort c = true →
  Dial ParseAddr ParsePrefix ParseIP AddrString h options = Some (Ok (DialAddress d)) ↔
  options !! "connType" ≠ Some (OptString "resolver") ∧
  (getValue options "dst_protocol" = Ok (ds_protocol d) ∧ ds_protocol d ∈ hc_AllowedProtocols c) ∧
  (∃ addr x e, requested options = Some (addr, x) ∧ e ∈ hc_AllowedAddresses c ∧ permits e x ∧
     translateAddress ParseAddr AddrString h addr = Some (ds_address d)) ∧
  (getValue options "dst_port" = Ok (ds_port d) ∧
   ∃ n r, Atoi (ds_port d) = Some n ∧ r ∈ hc_AllowedPortRanges c ∧ pr_Low r ≤ wrap_u 16 n ≤ pr_High r).
Proof.
  intros Hh Hl H1 H2 H3. rewrite <- GetProtocol_exact, <- GetPort_exact by done.
  pose proof (context_config c h Hh) as Hc.
  destruct (GetAddress_exact c options H2 Hl) as (r & Hr & Hiff). unfold Dial. rewrite Hc, Hr.
  case_bool_decide as Hres; [split; [done|by intros [? _]]|]. simpl.
  destruct (GetProtocol c options) as [p|e] eqn:Ep; [|naive_solver].
  destruct r as [addr|e].
  - destruct (proj1 (Hiff addr) eq_refl) as (x & e & Hq & He & Hp). destruct (translateAddress _ _ h addr) as [xa|] eqn:Ex; simpl.
    + destruct (GetPort c options) as [port|e'] eqn:Et; [|naive_solver]. split.
      * intros [= <-]. simpl. eauto 10.
      * intros (_ & [= ->] & (addr' & x' & e' & Hq' & _ & _ & Hx) & [= ->]). replace addr' with addr in * by congruence.
        rewrite Ex in Hx. injection Hx as ->. by destruct d.
    + split; [done|]. intros (_ & _ & (addr' & x' & e' & Hq' & _ & _ & Hx) & _). replace addr' with addr in * by congruence. congruence.
  - split; [done|]. intros (_ & _ & (addr' & x' & e' & Hq' & He' & Hp' & _) & _). assert (Err e = Ok addr') by (apply Hiff; eauto 10). done.
Qed.

(** The check of a forwarded port looks at its last 16 bits only: a number outside
    the range of ports, negative ones too, passes whenever its last 16 bits are in an
    allowed range, and is handed on as it was sent. *)
Theorem forwarded_port_wraps c options s n k r :
  hc_ForwardPort c = true → getValue options "dst_port" = Ok s → r ∈ hc_AllowedPortRanges c →
  pr_Low r ≤ n ≤ pr_High r → 0 ≤ n < 65536 → Atoi s = Some (n + 65536 * k) → GetPort c options = Ok s.
Proof.
  intros Hf Hv Hr Hn Hb Ha. apply GetPort_exact; [done|]. split; [done|]. eexists _, r. split; [done|]. split; [done|].
  unfold wrap_u. rewrite Z.mul_comm. change (2 ^ 16) with 65536. rewrite Z.mod_add, Z.mod_small by lia. done.
Qed.

(** ** The best translation *)

Abbreviation longerFirst := (StronglySorted (λ x y, IsValid (fromPrefix x) = true → IsValid (fromPrefix y) = true →
  pf_Bits (fromPrefix y) ≤ pf_Bits (fromPrefix x))).
Context (ParseAddr_valid : ∀ s a, ParseAddr s = Some a → valid_addr a).
Context (SortFunc_perm : ∀ l, SortFunc l ≡ₚ l).
Context (SortFunc_sorted : ∀ l, StronglySorted (λ x y, at_PrefixLength y ≤ at_PrefixLength x) (SortFunc l)).

(** Both addresses of a translation are of one family. *)
Definition oneFamily (x : AddressTranslation) : Prop :=
  match ParseAddr (at_From x), ParseAddr (at_To x) with Some f, Some t => ad_v6 f = ad_v6 t | _, _ => True end.
Lemma made_bits x t : makeTranslation ParseAddr x = Some t → IsValid (fromPrefix t) = true → pf_Bits (fromPrefix t) = at_PrefixLength x.
Proof.
  unfold makeTranslation. destruct (ParseAddr (at_From x)) as [f|]; [|done]. destruct (ParseAddr (at_To x)) as [u|]; [|done].
  intros [= <-]. unfold IsValid. simpl. by case_match.
Qed.
Lemma made_ok x t a : makeTranslation ParseAddr x = Some t → oneFamily x → translation_ok a t.
Proof.
  unfold makeTranslation, oneFamily. destruct (ParseAddr (at_From x)) as [f|] eqn:Ef; [|done].
  destruct (ParseAddr (at_To x)) as [u|] eqn:Eu; [|done]. intros [= <-] Hf (H0 & _ & Hv & _)%Contains_spec. simpl in *.
  apply ParseAddr_valid in Eu. assert (BitLen f = BitLen u) as Hb by (unfold BitLen; by rewrite Hf). rewrite Hb in *.
  destruct ((0 <=? _) && _) eqn:E; [|lia]. pose proof E as [_ E2%Z.leb_le]%andb_true_iff.
  split_and!; simpl; [done|congruence|by rewrite Hb, E|]. by rewrite E.
Qed.
Lemma made_sorted l ts :
  StronglySorted (λ x y, at_PrefixLength y ≤ at_PrefixLength x) l → mapM (makeTranslation ParseAddr) l = Some ts → longerFirst ts.
Proof.
  intros Hs. revert ts. induction Hs as [|x l Hs IH Hx]; intros ts Hm; [injection Hm as <-; constructor|].
  simpl in Hm. destruct (makeTranslation ParseAddr x) as [t|] eqn:Ht; [|done]. simpl in Hm.
  destruct (mapM _ l) as [ts'|] eqn:Em; [|done]. injection Hm as <-. constructor; [by apply IH|]. rename Em into Hm.
  apply mapM_Some in Hm. apply Forall_forall. intros y Hy Hv1 Hv2.
  apply list_elem_of_lookup in Hy as [i Hi]. destruct (Forall2_lookup_r _ _ _ _ _ Hm Hi) as (z & Hz & Hzy).
  rewrite (made_bits _ _ Ht Hv1), (made_bits _ _ Hzy Hv2). rewrite Forall_forall in Hx. apply Hx. by eapply list_elem_of_lookup_2.
Qed.

End Allowed.

(** An IPv6 network that is translated into an IPv4 network: the slice of the target
    is shorter than the address, which is a panic. *)
Theorem mixed_translation_panics ip p q :
  ad_v6 ip = true → Contains p ip = true → ad_v6 (pf_Addr q) = false → pf_Bits q = pf_Bits p →
  translateIP ip p q = None.
Proof.
  intros Hv Hc Hq Hb. pose proof Hc as (H0 & _ & Hf & _)%Contains_spec. unfold translateIP.
  assert (BitLen (pf_Addr p) = BitLen ip) as -> by (unfold BitLen; by rewrite Hf).
  rewrite Z.eqb_refl, Hb, Z.eqb_refl, Hc. simpl. unfold AsSlice, ByteLen, slice, Masked, IsValid. rewrite Hv. simpl.
  rewrite (proj2 (Z.leb_le _ _)) by lia. by rewrite Hq.
Qed.

(** ** Witnesses *)

Definition v4 (a b c d : Z) : Addr := mkAddr false (((a * 256 + b) * 256 + c) * 256 + d) "".
Definition demoTable : list (string * Addr) :=
  [("192.168.0.0", v4 192 168 0 0); ("192.168.1.4", v4 192 168 1 4); ("192.168.0.3", v4 192 168 0 3);
   ("192.168.10.3", v4 192 168 10 3); ("10.0.1.0", v4 10 0 1 0); ("1.2.3.4", v4 1 2 3 4)].
Definition demoParse (s : string) : option Addr := (λ r, r.2.2) <$> list_find (λ kv, kv.1 = s) demoTable.
Definition demoParsePrefix (s : string) : option (Addr * Z) :=
  if bool_decide (s = "192.168.0.0/16") then Some (v4 192 168 0 0, 16) else None.
Definition demoString (a : Addr) : string :=
  default "" ((λ r, r.2.1) <$> list_find (λ kv, ad_val kv.2 = ad_val a) (("10.0.1.3", v4 10 0 1 3) :: demoTable)).
Definition byLength (x y : AddressTranslation) : Prop := at_PrefixLength y ≤ at_PrefixLength x.
#[global] Instance byLength_dec x y : Decision (byLength x y).
Proof. unfold byLength. apply _. Defined.
Definition demoSort (l : list AddressTranslation) : list AddressTranslation := merge_sort byLength l.

Lemma demoParse_valid s a : demoParse s = Some a → valid_addr a.
Proof.
  unfold demoParse. destruct (list_find _ demoTable) as [[i kv]|] eqn:E; [|done]. intros [= <-].
  apply list_find_Some in E as (Hi & _ & _). assert (Forall (λ kv, valid_addr kv.2) demoTable) as H.
  { repeat constructor; vm_compute; done. }
  rewrite Forall_forall in H. apply H. by eapply list_elem_of_lookup_2.
Qed.
Lemma demoSort_sorted l : StronglySorted (λ x y, at_PrefixLength y ≤ at_PrefixLength x) (demoSort l).
Proof.
  assert (Transitive byLength) by (unfold byLength; intros x y z; lia).
  assert (Total byLength) by (unfold byLength; intros x y; lia).
  apply (StronglySorted_merge_sort byLength).
Qed.

(** Everything forwarded, with the translations of the comment in hosting.go. *)
Definition demoHost : HostV1Config :=
  mkHostV1Config "" true ["tcp"] "" true
    [mkTranslation "192.168.0.0" "10.0.1.0" 24; mkTranslation "192.168.1.4" "1.2.3.4" 32]
    ["*.corp.example"; "192.168.0.0/16"] 0 true [mkPortRange 22 443].
Definition demoContext : hostingContext :=
  default (mkHostingContext demoHost []) (newDefaultHostingContext demoParse demoSort demoHost).
Abbreviation demoDial := (Dial demoParse demoParsePrefix demoParse demoString demoContext).
Definition demoAsk (key dst port : string) : dialOptions :=
  {["dst_protocol" := OptString "tcp"; key := OptString dst; "dst_port" := OptString port]}.

(** The first example of that comment is not in the network it names and stays as it is. *)
Example demo_translations :
  (λ s, default "" (translateAddress demoParse demoString demoContext s)) <$>
    ["192.168.0.3"; "192.168.1.4"; "192.168.10.3"; "host"] = ["10.0.1.3"; "1.2.3.4"; "192.168.10.3"; "host"].
Proof. vm_compute. reflexivity. Qed.
Example demo_dials :
  demoDial <$> [demoAsk "dst_hostname" "Db.Corp.Example" "443"; demoAsk "dst_hostname" "xcorp.example" "443";
                demoAsk "dst_ip" "192.168.0.3" "65558"; demoAsk "dst_ip" "1.2.3.4" "22"] =
  [Some (Ok (DialAddress (mkDestination "tcp" "Db.Corp.Example" "443"))); Some (Err NotAllowed);
   Some (Ok (DialAddress (mkDestination "tcp" "10.0.1.3" "65558"))); Some (Err NotAllowed)].
Proof. vm_compute. reflexivity. Qed.

Lemma translation_roundtrip_witness :
  translateIP (v4 192 168 0 3) (PrefixFrom (v4 192 168 0 0) 20) (PrefixFrom (v4 10 0 17 0) 20) =
    Some (Ok (moved (v4 192 168 0 3) (PrefixFrom (v4 10 0 17 0) 20))) ∧
  moved (v4 192 168 0 3) (PrefixFrom (v4 10 0 17 0) 20) = v4 10 0 16 3 ∧
  translateIP (v4 10 0 16 3) (PrefixFrom (v4 10 0 17 0) 20) (PrefixFrom (v4 192 168 0 0) 20) = Some (Ok (v4 192 168 0 3)).
Proof.
  destruct (translation_roundtrip (v4 192 168 0 3) (PrefixFrom (v4 192 168 0 0) 20) (PrefixFrom (v4 10 0 17 0) 20))
    as (H1 & _ & _ & H2).
  - split; vm_compute; [discriminate|reflexivity].
  - split; vm_compute; [discriminate|reflexivity].
  - vm_compute. reflexivity.
  - split; [split; vm_compute; [discriminate|reflexivity]|]. split; [reflexivity|]. split; [reflexivity|]. vm_compute. discriminate.
  - split; [exact H1|]. split; [vm_compute; reflexivity|exact H2].
Defined.

Lemma dial_destination_allowed_witness :
  demoDial (demoAsk "dst_ip" "192.168.0.3" "22") = Some (Ok (DialAddress (mkDestination "tcp" "10.0.1.3" "22"))) ↔
  demoAsk "dst_ip" "192.168.0.3" "22" !! "connType" ≠ Some (OptString "resolver") ∧
  (getValue (demoAsk "dst_ip" "192.168.0.3" "22") "dst_protocol" = Ok "tcp" ∧ "tcp" ∈ hc_AllowedProtocols demoHost) ∧
  (∃ addr x e, requested demoParse (demoAsk "dst_ip" "192.168.0.3" "22") = Some (addr, x) ∧
     e ∈ hc_AllowedAddresses demoHost ∧ permits demoParse demoParsePrefix e x ∧
     translateAddress demoParse demoString demoContext addr = Some "10.0.1.3") ∧
  (getValue (demoAsk "dst_ip" "192.168.0.3" "22") "dst_port" = Ok "22" ∧
   ∃ n r, Atoi "22" = Some n ∧ r ∈ hc_AllowedPortRanges demoHost ∧ pr_Low r ≤ wrap_u 16 n ≤ pr_High r).
Proof.
  apply (dial_destination_allowed demoParse demoParsePrefix demoParse demoString demoSort demoHost demoContext _
    (mkDestination "tcp" "10.0.1.3" "22")); try (vm_compute; reflexivity).
  repeat constructor; discriminate.
Defined.


Lemma mixed_translation_panics_demo :
  translateIP (mkAddr true 3 "") (PrefixFrom (mkAddr true 0 "") 32) (PrefixFrom (v4 10 0 0 0) 32) = None.
Proof. by apply mixed_translation_panics. Qed.
